(* ===== verification/_CoqProject ===== *)
-Q . S2P
Prelude.v
RustStr.v
Wire.v
Framing.v
Types.v
Registry.v
Rate.v
Keys.v
Admin.v
Handshake.v
Peers.v
Metrics.v
Config.v
Http.v
LoginPage.v
LocalAuth.v
ClientConfig.v
Certs.v
ClientSession.v
Session.v
Server.v
Sni.v
Router.v
Acme.v
Accept.v
Inspector.v
Proxy.v
ClientMain.v
AdminApi.v
System.v
Boot.v
ServerMain.v
TcpMux.v
MuxInv.v
MuxLink.v
MuxLive.v
MuxSched.v
Conn.v
Endpoint.v
