(* ===== verification/Prelude.v ===== *)
(** * KROT: a verification of the tunnel server, its transport and its client

    KROT publishes a local service under a public name: a client keeps one authenticated
    connection to a relay, registers tunnels on its control stream, and every visitor of a
    public port or host name is relayed to the client over a fresh stream of that
    connection.  This library models the Rust crates [krot-proto], [krot-transport],
    [krot-server] and [krot-client] as executable definitions and proves what makes them
    correct.

    ** Parts of the program and where they are modelled

    - [Prelude] (this file): results with errors, the state-and-error monad [SM] with its
      [let!], machine-width integers and byte strings over [Z], shared list and map lemmas.
    - [RustStr]: the string functions of the Rust standard library the sources use
      (splitting, trimming, number parsing and printing, UTF-8, suffixes and prefixes).
    - [Wire] ([krot-proto]: consts.rs, ids.rs, error.rs, stream.rs, mux.rs, frames.rs): the
      protocol's constants, identifiers, error codes, frames and fixed-size headers.
    - [Framing] (framing.rs; krot-transport frame.rs, error.rs): length-prefixed control
      frames.  Class [Postcard] is the serialiser, class [RecvStream] what a receive half
      promises to the reader.
    - [Types] (krot-server error.rs and opaque handles).
    - [Registry] (registry.rs): the tunnel table with its port and label reservations, the
      resume lease and the reaper's operation.
    - [Rate] (rate.rs, format_rate of admin_api.rs): rate syntax, quotas, the metered shovel.
    - [Keys] (keys.rs): the authorised-keys file, its reload, enrolment and removal.
    - [Admin] (admin.rs, krot-proto auth.rs): one-time admin tokens, challenge signatures.
    - [Handshake] (handshake.rs): authentication and enrolment on the control stream.
    - [Peers] (peers.rs, peer_lookup.rs): federated peers and the label-collision check.
    - [Metrics] (metrics.rs): the counters and their Prometheus text.
    - [Config] (config.rs, the configuration part of main.rs) and [ServerMain] (the rest of
      main.rs): the command line of the server, from the arguments to the printed lines and
      the accept loops.
    - [Http]: what the sources use of [httparse], and the HTTP text they write themselves.
    - [LoginPage] and [LocalAuth] (krot-client login_page.rs, local_auth.rs): the password
      gate of a client: session store, cookies, forms, escaping, API keys and the decision
      on every request.
    - [ClientConfig] (krot-client config.rs, tls.rs, error.rs, parts of main.rs): identity,
      pinned servers, the configuration file, authentication flags, default labels.
    - [Certs] (identity.rs, domain/tls_source.rs, fsync.rs): the disk, the server's own
      identity, certificate files and their PEM readers.
    - [ClientSession] (krot-client session.rs, enroll.rs, tunnel.rs): connecting, the
      client's side of the handshake, enrolment, registration and the serving task.
    - [Session] (session.rs, wait_shutdown of server.rs): the control loop of one client.
    - [Server] (server.rs): handling of a connection from accept to the disposition of its
      tunnels, the rate-limit table, the reaper.
    - [Sni] (domain/sni.rs, domain/replay.rs): the ClientHello parser and the replay stream.
    - [Router] (domain/http.rs, domain/https.rs, tunnel.rs, the challenge store of
      domain/acme.rs): from a visitor's connection to the owner of the tunnel.
    - [Acme] (domain/acme.rs): the certificate of a domain, from the cache or by an order.
    - [Accept] (the loops of server.rs, tunnel.rs, domain/http.rs, domain/https.rs, and
      krot-transport tcp_listener.rs; the loops of admin_api.rs and of the inspector): from a
      connection to its task, shutdown and drain.
    - [Inspector] (krot-client inspector.rs): the ring of requests and its local interface.
    - [Proxy] (krot-client proxy.rs): one stream of the tunnel from its header to the relay
      with the local service, through gate and inspector.
    - [ClientMain] (krot-client main.rs): the subcommands [init], [tcp] and [http].
    - [AdminApi] (admin_api.rs): bearer sessions, the handlers, one request and its answer.
    - [System] (server.rs with session.rs, registry.rs and the routers): any number of
      connections on one registry, the contract of a session, what a visitor reaches.
    - [Boot] (server.rs, sockets.rs): [Server::start], the first token, one worker per core.
    - [TcpMux], [MuxInv], [MuxLink], [MuxLive], [MuxSched] (krot-transport tcp_mux.rs): the
      multiplexer of the TCP fallback; the model, the invariant of one side, and the theorems
      about two connected sides: what is never lost or mixed up, what can be delivered, and
      that every schedule delivers it.
    - [Conn] (krot-transport conn.rs, relay.rs, the shutdown of krot-client session.rs): the
      wrappers that pass each call to QUIC (class [Quinn]) or to a multiplexer, and the relay
      with its first-byte deadline.
    - [Endpoint] (krot-transport endpoint.rs, tcp_listener.rs): the set-up of both transports.

    ** How the model relates to the code

    A struct is a [Record] with the struct's fields, an enum an [Inductive] with its
    variants, a function or handler a [Definition] of the same name with every branch,
    early return and call that changes state.  A field prefix ([tr_], [s_], [mx_], ...)
    names the struct.  Fallible code returns [Result]; code that threads state through many
    fallible calls is written in [SM].  Shared state is explicit: the registry of [Session]
    lives in a world in which, before each of the session's registry calls, other sessions
    may have run any sequence of registry operations ([interfere]).  Asynchronous tasks are
    machines that move from one await point to the next ([run_step], [reader_step],
    [writer_step], [shovel_step], [accept_loop]); what a task waits for is an input of the step.

    Third-party code is a parameter with the documented behaviour as laws: [postcard],
    [ed25519-dalek] (class [Ed25519]), [blake3], [base64] and [base32], [httparse],
    [governor] (only its waiting, an input), [serde_json], [toml] and [hex] (encoders and
    decoders, with the round trip as a law), [sha2], [x509-parser], [rcgen], [rustls],
    [quinn] (class [Quinn]), [copy_bidirectional] of [tokio] (class [CopyLaws]), the protocol
    choice of [rustls] (class [AlpnSelect]), [instant-acme] with the authority behind it (record [Authority]), the binding of sockets
    ([os_bind], class [OsBindLaws]), the peer lookup (class [PeerLabelLookup], a trait of the
    source).  [Proxy] and [ClientSession] read streams
    through interfaces (classes [ByteSource] and [RecvStream], with their laws).  Clocks, random draws and the outcomes of file and socket calls
    are inputs.  Hash maps are [gmap]s; where the iteration order of a map can be observed
    it is an argument.

    ** What the theorems show

    - Tables: the registry keeps ids, ports, labels and its index consistent under every
      interleaving, refines a bare map of tunnels, and a resume touches only the presented
      lease ([registry_invariant], [registry_refines], [resume_safety], [lease_roundtrip]).
    - Authentication: only a peer with a registered key and a signature over the fresh nonce
      acts ([auth_sound], [only_authenticated_act]); an honest client gets in; tokens are
      used once; enrolment and removal change exactly their key; a reload ends the sessions
      it revokes ([revocation_ends_session]).
    - Sessions: what each registration is granted or refused for, that every frame is
      answered, that caps hold and what happens to the tunnels at the end.
    - Rate limits: a quota is never exceeded within its period, the shovel forwards exactly
      a prefix of what it read.
    - Routing: a visitor reaches the tunnel its name resolves to and no other, with every
      byte in order; the URL a registration promises resolves to the granted tunnel.
    - Transport: frame and header codecs round-trip; the incremental reader agrees with the
      buffer decoder; on two connected multiplexers each stream is an independent, lossless
      byte stream under every interleaving, and an end-of-file is genuine.  From every
      reachable state, however the tasks and the reading application are scheduled, a stream
      is given all it was sent ([mux_delivers]), so the messages that [write_frame] puts on it are those
      that [read_frame] returns, in order ([messages_over_mux]), the last one also when the connection is closed right after
      ([farewell_arrives]).  The relay with a deadline is the plain relay once a byte came
      ([deadline_relay]); both ends of a transport agree on its protocol ([transports_agree]).
    - The whole server: handling a connection, with operations of any other sessions and of
      the reaper between any two of its own, extends a history of operations of authenticated
      sessions that keep their contract ([connection_refines]); in every such history a
      visitor who names a label is relayed to a connection of the key that published it and
      was allowed to ([visitor_reaches_owner]).
    - Administration: without a live session every route but the log-in is refused and
      changes nothing (expired sessions may be swept); a session stems from a redeemed token; deleting a key is exact
      ([admin_gate], [admin_session_provenance], [admin_delete_key]).
    - Client gate: no byte reaches the local service before the gate admitted the request
      ([gate_blocks]); a request is forwarded only for a live session or an exact API key; a
      successful log-in is forwarded; the log-in page escapes what it quotes.  [krot http]
      with an authentication flag serves every stream through that gate ([protected_http]).
    - Command lines: what a server prints is what a client needs to trust it and to enrol
      ([banner_serves_clients]); the key [krot init] enrolled is the one
      later runs present ([init_then_connect]).
    - Certificates: an identity is created once and every later start finds it, as long
      as the existence of its files can be told ([identity_survives];
      [metadata_error_replaces_identity] is the other case); the two certificate readers agree; challenges are published
      before they are announced and the router answers them ([challenge_answered]); an
      issued certificate is reused until its renewal window ([certificate_reused]); a start
      never sleeps longer than its polls ([acme_wait_bounded]).
    - Start and shutdown: what a started server has bound and spawned ([start_ready]), when a
      token is issued ([first_token]), that a shutdown is orderly ([shutdown_orderly]), and
      that in a domain no worker of [run_multicore] starts ([multicore_domain_dead]).
    - Client and server together: the visitor's bytes the router writes are exactly those
      the client's proxy hands to the local service ([visitor_to_service]); an honest client
      run against the server's handshake ends authenticated ([client_server_session]); an
      unknown key is reported to the user as a protocol error
      ([unknown_identity_misreported]); the inspector refines the history of requests.

    Examples next to the theorems ([conns_cap_race], [detach_hits_newer_session],
    [enroll_hint_injects_key], [disconnect_unseen], [second_request_unchecked],
    [strip_scheme_panics], [pending_start_leak], [renewal_mixes_pairs], [fallback_stalls],
    [resume_skips_allowlist], [restart_finds_label_taken], [second_resume_needs_first_id], ...)
    execute behaviours in which the code differs from its documentation.

    ** Bounds and fuel

    Integers carry their width: [wrap] and [checked] write out the arithmetic of [u16],
    [u32] and [u64].  The varint loop has the source's five rounds.  Loops over input take
    their fuel from its length ([peek_total], [http_handle_total], [proxy_total], [api_read_total]
    and [fallback_loop_fuel] show that it is enough); other recursion is structural, over the turns,
    polls or events given.  Clocks are unbounded [Z].

    ** What is not modelled

    What is left are library calls with nothing of the program's own: socket options, the
    generation of key pairs and certificates ([rcgen]), TLS signature checks ([rustls]),
    argument parsing ([clap]), logging, the file-change notifications that wake the two
    watchers (each reload is modelled), the getters of [Server] and the static page of the
    inspector.  The permission bits of directories are not recorded. *)

From stdpp Require Export base option list gmap strings numbers.
From stdpp Require Import fin_maps.

Global Set Default Goal Selector "!".

Declare Scope krot_scope.
Delimit Scope krot_scope with krot.
Global Open Scope krot_scope.
Global Open Scope Z_scope.

Create HintDb krot.

(** ** Fallible computations

    Rust's [Result<A, E>]; [let?] is the source's [?] operator and early return. *)
Inductive Result (A E : Type) : Type :=
| Ok (a : A)
| Err (e : E).
Arguments Ok {A E} a.
Arguments Err {A E} e.

Definition result_bind {A B E} (r : Result A E) (k : A -> Result B E) : Result B E :=
  match r with Ok a => k a | Err e => Err e end.

Definition map_err {A E F} (f : E -> F) (r : Result A E) : Result A F :=
  match r with Ok a => Ok a | Err e => Err (f e) end.

(** [Option::ok_or]. *)
Definition ok_or {A E} (o : option A) (e : E) : Result A E :=
  match o with Some a => Ok a | None => Err e end.

(** [Result::ok]. *)
Definition result_ok {A E} (r : Result A E) : option A :=
  match r with Ok a => Some a | Err _ => None end.

Definition is_ok {A E} (r : Result A E) : bool :=
  match r with Ok _ => true | Err _ => false end.

Notation "'let?' x ':=' r 'in' k" := (result_bind r (fun x => k))
  (at level 10, x pattern, r at level 100, k at level 200)
  : krot_scope.

(** ** Stateful fallible computations

    A handler that updates a world [W] and may return early with an error. *)
Definition SM (W E A : Type) : Type := W -> Result A E * W.

Definition sm_ret {W E A} (a : A) : SM W E A := fun w => (Ok a, w).
Definition sm_throw {W E A} (e : E) : SM W E A := fun w => (Err e, w).

Definition sm_bind {W E A B} (m : SM W E A) (k : A -> SM W E B) : SM W E B :=
  fun w => match m w with
           | (Ok a, w) => k a w
           | (Err e, w) => (Err e, w)
           end.

(** [let _ = m;]: run for the effect, drop an error. *)
Definition sm_ignore {W E A} (m : SM W E A) : SM W E unit :=
  fun w => let '(_, w) := m w in (Ok tt, w).

Definition sm_gets {W E A} (f : W -> A) : SM W E A := fun w => (Ok (f w), w).
Definition sm_modify {W E} (f : W -> W) : SM W E unit := fun w => (Ok tt, f w).

(** Run and hand the result on as a value, as [match call().await { Ok(..) .. Err(..) }]. *)
Definition sm_try {W E A} (m : SM W E A) : SM W E (Result A E) :=
  fun w => let '(r, w) := m w in (Ok r, w).

Notation "'let!' x ':=' m 'in' k" := (sm_bind m (fun x => k))
  (at level 10, x pattern, m at level 100, k at level 200) : krot_scope.

(** ** Machine-width integers

    An unsigned [w]-bit value is a [Z] in [0, 2^w); [wrap w] is the truncation a
    Rust [as] cast, an atomic [fetch_add] or a release-mode [+] performs. *)
Definition wrap (w z : Z) : Z := z mod 2 ^ w.
Definition in_u (w z : Z) : Prop := 0 <= z < 2 ^ w.
Definition u_max (w : Z) : Z := 2 ^ w - 1.

(** [checked_add] / [checked_mul] on an unsigned [w]-bit integer. *)
Definition checked (w z : Z) : option Z := if decide (z < 2 ^ w) then Some z else None.

(** A byte string. *)
Abbreviation bytes := (list Z).

Definition is_byte (b : Z) : Prop := in_u 8 b.

(** [u{8n}::to_le_bytes] and [u{8n}::from_le_bytes]. *)
Fixpoint to_le_bytes (n : nat) (z : Z) : bytes :=
  match n with
  | O => []
  | S n => (z mod 256) :: to_le_bytes n (z / 256)
  end.

Fixpoint from_le_bytes (bs : bytes) : Z :=
  match bs with
  | [] => 0
  | b :: bs => b + 256 * from_le_bytes bs
  end.

(** [u{8n}::to_be_bytes] and [u{8n}::from_be_bytes]. *)
Definition to_be_bytes (n : nat) (z : Z) : bytes := rev (to_le_bytes n z).
Definition from_be_bytes (bs : bytes) : Z := from_le_bytes (rev bs).

(** The half-open slice [buf[lo..hi]]; the callers establish that it is in range. *)
Definition slice (lo hi : nat) (buf : bytes) : bytes := take (hi - lo) (drop lo buf).

(** The length of a byte string as a [usize]. *)
Definition len {A} (l : list A) : Z := Z.of_nat (length l).

(** First element of a list satisfying a test, as [Iterator::find]. *)
Fixpoint find_first {A} (p : A -> bool) (l : list A) : option A :=
  match l with
  | [] => None
  | x :: l => if p x then Some x else find_first p l
  end.

(** [Iterator::find_map]. *)
Fixpoint find_map {A B} (f : A -> option B) (l : list A) : option B :=
  match l with
  | [] => None
  | x :: l => match f x with Some y => Some y | None => find_map f l end
  end.

(** The first 2^64 and friends, in the shape [lia] reads. *)
Lemma pow2_8 : 2 ^ 8 = 256. Proof. reflexivity. Qed.
Lemma pow2_16 : 2 ^ 16 = 65536. Proof. reflexivity. Qed.
Lemma pow2_32 : 2 ^ 32 = 4294967296. Proof. reflexivity. Qed.
Lemma pow2_64 : 2 ^ 64 = 18446744073709551616. Proof. reflexivity. Qed.
Global Hint Rewrite pow2_8 pow2_16 pow2_32 pow2_64 : krot_pow.

(** ** Development tactics *)

(** Unfold the integer vocabulary everywhere and leave linear arithmetic. *)
Ltac uint :=
  unfold is_byte, in_u, u_max, wrap in *; autorewrite with krot_pow in *.

(** Case-split every [match] in sight, keeping the equations. *)
Ltac crush_match :=
  repeat (case_match; simplify_eq/=; try done).

(** Invert a [let?] chain that returned [Ok]. *)
Ltac bind_inv H :=
  unfold result_bind in H; repeat (case_match; simplify_eq/=).

(** Closed goals: a literal is in range, a literal byte string holds bytes. *)
Ltac solve_in_u := unfold is_byte, in_u; split; vm_compute; congruence.
Ltac solve_bytes := repeat (apply Forall_cons_2; [solve_in_u|]); apply Forall_nil_2.

(** ** Results *)

Lemma result_bind_Ok {A B E} (r : Result A E) (k : A -> Result B E) b :
  result_bind r k = Ok b <-> exists a, r = Ok a /\ k a = Ok b.
Proof. destruct r; simpl; naive_solver. Qed.

Lemma ok_or_Ok {A E} (o : option A) (e : E) a : ok_or o e = Ok a <-> o = Some a.
Proof. destruct o; simpl; naive_solver. Qed.

Lemma checked_Some w z z' : checked w z = Some z' <-> z' = z /\ z < 2 ^ w.
Proof. unfold checked. case_decide; naive_solver. Qed.

(** A sequence that returned: its first part did, and the rest from there. *)
Lemma sm_bind_Ok {W E A B} (m : SM W E A) (k : A -> SM W E B) w b w' :
  sm_bind m k w = (Ok b, w') -> exists a w1, m w = (Ok a, w1) /\ k a w1 = (Ok b, w').
Proof. unfold sm_bind. destruct (m w) as [[a|e] w1]; [|done]. eauto. Qed.

(** However [m] ends, it leads from a world to one related by [R]. *)
Definition sm_within {W E A} (R : relation W) (m : SM W E A) : Prop := forall w, R w (m w).2.

Section Within.
Context {W E : Type} (R : relation W) `{!PreOrder R}.

Lemma within_ret {A} (a : A) : sm_within R (sm_ret a : SM W E A).
Proof. by intros w. Qed.
Lemma within_throw {A} (e : E) : sm_within R (sm_throw e : SM W E A).
Proof. by intros w. Qed.
Lemma within_gets {A} (f : W -> A) : sm_within R (sm_gets f : SM W E A).
Proof. by intros w. Qed.

Lemma within_bind {A B} (m : SM W E A) (k : A -> SM W E B) :
  sm_within R m -> (forall a, sm_within R (k a)) -> sm_within R (sm_bind m k).
Proof.
  intros Hm Hk w. unfold sm_bind. specialize (Hm w).
  destruct (m w) as [[a|e] w']; [|done]. etrans; [exact Hm|apply Hk].
Qed.

(** The same when the second part needs what the first one established. *)
Lemma within_bind_at {A B} (m : SM W E A) (k : A -> SM W E B) w :
  R w (m w).2 -> (forall a w', m w = (Ok a, w') -> R w' (k a w').2) -> R w (sm_bind m k w).2.
Proof.
  intros Hm Hk. unfold sm_bind. destruct (m w) as [[a|e] w'] eqn:E1; [|done].
  etrans; [exact Hm|by apply Hk].
Qed.

Lemma within_ignore {A} (m : SM W E A) : sm_within R m -> sm_within R (sm_ignore m).
Proof. intros Hm w. unfold sm_ignore. specialize (Hm w). by destruct (m w). Qed.
End Within.

Create HintDb within.
#[global] Hint Extern 1 (sm_within _ (sm_ret _)) => apply within_ret; apply _ : within.
#[global] Hint Extern 1 (sm_within _ (sm_throw _)) => apply within_throw; apply _ : within.
#[global] Hint Extern 1 (sm_within _ (sm_gets _)) => apply within_gets; apply _ : within.

(** Split a sequence down to the calls the hints know. *)
Ltac within :=
  first
    [ solve [auto with within]
    | apply within_ignore; within
    | apply within_bind; [apply _|within|intros; within]
    | case_match; within ].

(** ** Byte strings *)

Lemma length_to_le_bytes n z : length (to_le_bytes n z) = n.
Proof. revert z. induction n; intros; simpl; auto. Qed.

Lemma length_to_be_bytes n z : length (to_be_bytes n z) = n.
Proof. unfold to_be_bytes. by rewrite length_rev, length_to_le_bytes. Qed.

Lemma to_le_bytes_byte n z : Forall is_byte (to_le_bytes n z).
Proof.
  revert z. induction n; intros z; simpl; constructor; auto.
  uint. apply Z.mod_pos_bound. lia.
Qed.

Lemma from_to_le_bytes n z : from_le_bytes (to_le_bytes n z) = z mod 256 ^ Z.of_nat n.
Proof.
  revert z. induction n as [|n IH]; intros z.
  - by rewrite Z.mod_1_r.
  - change (to_le_bytes (S n) z) with ((z mod 256) :: to_le_bytes n (z / 256)).
    cbn [from_le_bytes]. rewrite IH, Nat2Z.inj_succ, Z.pow_succ_r by lia.
    rewrite Z.rem_mul_r by lia. lia.
Qed.

Lemma from_to_le_bytes_id n z :
  0 <= z < 256 ^ Z.of_nat n -> from_le_bytes (to_le_bytes n z) = z.
Proof. intros. rewrite from_to_le_bytes. by apply Z.mod_small. Qed.

Lemma from_le_bytes_bound bs :
  Forall is_byte bs -> 0 <= from_le_bytes bs < 256 ^ Z.of_nat (length bs).
Proof.
  induction 1 as [|b bs Hb _ IH]; simpl; [lia|].
  uint. rewrite Nat2Z.inj_succ, Z.pow_succ_r by lia. nia.
Qed.

Lemma to_from_le_bytes bs :
  Forall is_byte bs -> to_le_bytes (length bs) (from_le_bytes bs) = bs.
Proof.
  induction 1 as [|b bs Hb Hbs IH]; simpl; [done|].
  uint. pose proof (from_le_bytes_bound bs Hbs).
  assert ((b + 256 * from_le_bytes bs) mod 256 = b) as ->.
  { rewrite Z.mul_comm, Z.mod_add by lia. by apply Z.mod_small. }
  assert ((b + 256 * from_le_bytes bs) / 256 = from_le_bytes bs) as ->.
  { rewrite Z.mul_comm, Z.div_add by lia. rewrite Z.div_small; lia. }
  by rewrite IH.
Qed.

Lemma from_to_be_bytes_id n z :
  0 <= z < 256 ^ Z.of_nat n -> from_be_bytes (to_be_bytes n z) = z.
Proof.
  intros. unfold from_be_bytes, to_be_bytes. rewrite rev_involutive.
  by apply from_to_le_bytes_id.
Qed.

Lemma to_be_bytes_byte n z : Forall is_byte (to_be_bytes n z).
Proof. apply Forall_rev, to_le_bytes_byte. Qed.

Lemma from_be_bytes_bound bs :
  Forall is_byte bs -> 0 <= from_be_bytes bs < 256 ^ Z.of_nat (length bs).
Proof.
  intros Hbs. unfold from_be_bytes. rewrite <-(length_rev bs).
  apply from_le_bytes_bound. by apply Forall_rev.
Qed.

Lemma from_to_le_bytes_w (n : nat) w z :
  w = 8 * Z.of_nat n -> in_u w z -> from_le_bytes (to_le_bytes n z) = z.
Proof.
  intros -> Hz. apply from_to_le_bytes_id. unfold in_u in Hz.
  by rewrite Z.pow_mul_r in Hz by lia.
Qed.

Lemma from_le_bytes_w (n : nat) w bs :
  w = 8 * Z.of_nat n -> length bs = n -> Forall is_byte bs -> in_u w (from_le_bytes bs).
Proof.
  intros -> <- Hbs. unfold in_u. rewrite Z.pow_mul_r by lia. by apply from_le_bytes_bound.
Qed.

(** Slices of a concatenation whose boundary they respect. *)
Lemma slice_app_l lo hi (l k : bytes) :
  (hi <= length l)%nat -> slice lo hi (l ++ k) = slice lo hi l.
Proof.
  intros H. unfold slice. destruct (decide (lo <= length l)%nat).
  - rewrite drop_app_le by lia. rewrite take_app_le; [done|]. rewrite length_drop. lia.
  - by replace (hi - lo)%nat with 0%nat by lia.
Qed.

Lemma slice_app_r lo hi (l k : bytes) :
  length l = lo -> slice lo hi (l ++ k) = take (hi - lo) k.
Proof. intros <-. unfold slice. by rewrite drop_app_length. Qed.

Lemma slice_all lo hi (l k : bytes) :
  lo = 0%nat -> length l = hi -> slice lo hi (l ++ k) = l.
Proof. intros -> <-. unfold slice. rewrite drop_0, Nat.sub_0_r. apply take_app_length. Qed.

Lemma length_slice lo hi (l : bytes) :
  (hi <= length l)%nat -> length (slice lo hi l) = (hi - lo)%nat.
Proof. intros. unfold slice. rewrite length_take, length_drop. lia. Qed.

Lemma slice_byte lo hi l : Forall is_byte l -> Forall is_byte (slice lo hi l).
Proof. intros. by apply Forall_take, Forall_drop. Qed.

(** A boolean fact about every byte, by enumeration. *)
Lemma byte_forall (p : Z -> bool) :
  forallb p (map Z.of_nat (seq 0 256)) = true -> forall b, is_byte b -> p b = true.
Proof.
  intros H b Hb. rewrite List.forallb_forall in H. apply H.
  apply in_map_iff. exists (Z.to_nat b). uint. split; [lia|]. apply in_seq. lia.
Qed.

(** [|] of two values whose set bits do not meet. *)
Lemma lor_shiftl_add n a b :
  0 <= n -> 0 <= a < 2 ^ n -> Z.lor a (Z.shiftl b n) = a + b * 2 ^ n.
Proof.
  intros Hn Ha. rewrite <-Z.shiftl_mul_pow2 by done.
  assert (Z.land a (Z.shiftl b n) = 0) as Hd.
  { apply Z.bits_inj'. intros m Hm. rewrite Z.land_spec, Z.bits_0.
    destruct (Z.ltb_spec m n).
    - by rewrite Z.shiftl_spec_low, andb_false_r by done.
    - rewrite <-(Z.mod_small a (2 ^ n)) by done.
      by rewrite Z.mod_pow2_bits_high by lia. }
  by rewrite Z.add_nocarry_lxor, Z.lxor_lor by done.
Qed.

(** ** Searches *)

Lemma find_first_Some {A} (p : A -> bool) l x :
  find_first p l = Some x -> x ∈ l /\ p x = true.
Proof.
  induction l as [|y l IH]; simpl; [done|]. rewrite elem_of_cons.
  destruct (p y) eqn:E; naive_solver.
Qed.

Lemma find_first_None {A} (p : A -> bool) l :
  find_first p l = None <-> forall x, x ∈ l -> p x = false.
Proof.
  induction l as [|y l IH]; simpl.
  - split; [|done]. intros _ x Hx. by apply elem_of_nil in Hx.
  - setoid_rewrite elem_of_cons. destruct (p y) eqn:E; [naive_solver congruence|].
    rewrite IH. naive_solver.
Qed.

Lemma find_map_Some {A B} (f : A -> option B) l y :
  find_map f l = Some y -> exists x, x ∈ l /\ f x = Some y.
Proof.
  induction l as [|x l IH]; simpl; [done|]. setoid_rewrite elem_of_cons.
  destruct (f x) eqn:E; naive_solver.
Qed.

Lemma find_map_None {A B} (f : A -> option B) l :
  find_map f l = None <-> forall x, x ∈ l -> f x = None.
Proof.
  induction l as [|x l IH]; simpl.
  - split; [|done]. intros _ x Hx. by apply elem_of_nil in Hx.
  - setoid_rewrite elem_of_cons. destruct (f x) eqn:E; [naive_solver congruence|].
    rewrite IH. naive_solver.
Qed.

(** ** Sizes *)

Lemma len_nonneg {A} (l : list A) : 0 <= len l.
Proof. unfold len. lia. Qed.

Lemma len_app {A} (l k : list A) : len (l ++ k) = len l + len k.
Proof. unfold len. rewrite length_app. lia. Qed.

Lemma len_cons {A} (x : A) l : len (x :: l) = 1 + len l.
Proof. unfold len. simpl. lia. Qed.

#[export] Hint Resolve len_nonneg to_le_bytes_byte to_be_bytes_byte : krot.

Global Arguments to_le_bytes : simpl never.
Global Arguments from_le_bytes : simpl never.
Global Arguments slice : simpl never.
