(* ===== verification/RustStr.v ===== *)
(** * RustStr: the part of Rust's [str] and [u8] API the program uses

    A [str] is the list of its Unicode scalar values; [str_bytes] is its UTF-8
    encoding ([as_bytes], [len]) and [from_utf8] the validating decoder.  The
    operations below are those of the standard library that the parsers of the
    server and the client call: [lines], [split], [split_once], [rsplit_once],
    [trim], [split_whitespace], [strip_prefix], the integer [parse] and the
    decimal [Display]. *)

From S2P Require Import Prelude.
From Stdlib Require Import Ascii.

Local Open Scope Z_scope.

Abbreviation str := (list Z).

(** A source literal. *)
Fixpoint lit (s : string) : str :=
  match s with
  | EmptyString => []
  | String a s => Z.of_N (N_of_ascii a) :: lit s
  end.

(** ** Characters *)

Definition is_scalar (c : Z) : bool :=
  ((0 <=? c) && (c <=? 55295)) || ((57344 <=? c) && (c <=? 1114111)).

Definition is_ascii_lower (c : Z) : bool := (97 <=? c) && (c <=? 122).
Definition is_ascii_upper (c : Z) : bool := (65 <=? c) && (c <=? 90).
Definition is_ascii_digit (c : Z) : bool := (48 <=? c) && (c <=? 57).
Definition is_ascii_alphanumeric (c : Z) : bool :=
  is_ascii_lower c || is_ascii_upper c || is_ascii_digit c.

(** [char::is_whitespace] (the Unicode [White_Space] property). *)
Definition is_whitespace (c : Z) : bool :=
  ((9 <=? c) && (c <=? 13)) || (c =? 32) || (c =? 133) || (c =? 160) || (c =? 5760)
  || ((8192 <=? c) && (c <=? 8202)) || (c =? 8232) || (c =? 8233) || (c =? 8239)
  || (c =? 8287) || (c =? 12288).

(** [u8::to_ascii_lowercase], also on a [char]. *)
Definition ascii_lower (c : Z) : Z := if is_ascii_upper c then c + 32 else c.

Definition to_ascii_lowercase (s : str) : str := map ascii_lower s.

Definition eq_ignore_ascii_case (a b : str) : bool :=
  bool_decide (to_ascii_lowercase a = to_ascii_lowercase b).

(** ** UTF-8 *)

Definition utf8_char (c : Z) : bytes :=
  if c <? 128 then [c]
  else if c <? 2048 then [192 + c / 64; 128 + c mod 64]
  else if c <? 65536 then [224 + c / 4096; 128 + c / 64 mod 64; 128 + c mod 64]
  else [240 + c / 262144; 128 + c / 4096 mod 64; 128 + c / 64 mod 64; 128 + c mod 64].

(** [str::as_bytes]. *)
Definition str_bytes (s : str) : bytes := concat (map utf8_char s).

Definition is_cont (b : Z) : bool := (128 <=? b) && (b <=? 191).

(** [core::str::from_utf8]: shortest form only, no surrogates, at most U+10FFFF. *)
Fixpoint from_utf8 (bs : bytes) : option str :=
  match bs with
  | [] => Some []
  | b0 :: r0 =>
    if b0 <? 128 then s ← from_utf8 r0; Some (b0 :: s)
    else match r0 with
    | [] => None
    | b1 :: r1 =>
      if (194 <=? b0) && (b0 <=? 223) && is_cont b1
      then s ← from_utf8 r1; Some ((b0 - 192) * 64 + (b1 - 128) :: s)
      else match r1 with
      | [] => None
      | b2 :: r2 =>
        let c3 := (b0 - 224) * 4096 + (b1 - 128) * 64 + (b2 - 128) in
        if (224 <=? b0) && (b0 <=? 239) && is_cont b1 && is_cont b2
           && (2048 <=? c3) && is_scalar c3
        then s ← from_utf8 r2; Some (c3 :: s)
        else match r2 with
        | [] => None
        | b3 :: r3 =>
          let c4 := (b0 - 240) * 262144 + (b1 - 128) * 4096 + (b2 - 128) * 64 + (b3 - 128) in
          if (240 <=? b0) && (b0 <=? 244) && is_cont b1 && is_cont b2 && is_cont b3
             && (65536 <=? c4) && is_scalar c4
          then s ← from_utf8 r3; Some (c4 :: s)
          else None
        end
      end
    end
  end.

(** [String::from_utf8_lossy]: every maximal ill-formed prefix becomes one U+FFFD. *)
Definition lead3 (b0 b1 : Z) : bool :=
  ((b0 =? 224) && (160 <=? b1) && (b1 <=? 191))
  || ((225 <=? b0) && (b0 <=? 236) && is_cont b1)
  || ((b0 =? 237) && (128 <=? b1) && (b1 <=? 159))
  || ((238 <=? b0) && (b0 <=? 239) && is_cont b1).

Definition lead4 (b0 b1 : Z) : bool :=
  ((b0 =? 240) && (144 <=? b1) && (b1 <=? 191))
  || ((241 <=? b0) && (b0 <=? 243) && is_cont b1)
  || ((b0 =? 244) && (128 <=? b1) && (b1 <=? 143)).

Fixpoint from_utf8_lossy (bs : bytes) : str :=
  match bs with
  | [] => []
  | b0 :: r0 =>
    if b0 <? 128 then b0 :: from_utf8_lossy r0
    else match r0 with
    | [] => [65533]
    | b1 :: r1 =>
      if (194 <=? b0) && (b0 <=? 223) then
        if is_cont b1 then (b0 - 192) * 64 + (b1 - 128) :: from_utf8_lossy r1
        else 65533 :: from_utf8_lossy r0
      else if lead3 b0 b1 then
        match r1 with
        | [] => [65533]
        | b2 :: r2 =>
          if is_cont b2
          then (b0 - 224) * 4096 + (b1 - 128) * 64 + (b2 - 128) :: from_utf8_lossy r2
          else 65533 :: from_utf8_lossy r1
        end
      else if lead4 b0 b1 then
        match r1 with
        | [] => [65533]
        | b2 :: r2 =>
          if is_cont b2 then
            match r2 with
            | [] => [65533]
            | b3 :: r3 =>
              if is_cont b3
              then (b0 - 240) * 262144 + (b1 - 128) * 4096 + (b2 - 128) * 64 + (b3 - 128)
                     :: from_utf8_lossy r3
              else 65533 :: from_utf8_lossy r2
            end
          else 65533 :: from_utf8_lossy r1
        end
      else 65533 :: from_utf8_lossy r0
    end
  end.

(** [str::split_at]: the index counts bytes; it panics off a character boundary. *)
Fixpoint split_at (n : Z) (s : str) : option (str * str) :=
  if n =? 0 then Some ([], s)
  else
    match s with
    | [] => None
    | c :: s =>
      if n <? len (utf8_char c) then None
      else '(a, b) ← split_at (n - len (utf8_char c)) s; Some (c :: a, b)
    end.

(** ** Prefixes and suffixes *)

Fixpoint strip_prefix (p s : str) : option str :=
  match p, s with
  | [], s => Some s
  | a :: p, b :: s => if a =? b then strip_prefix p s else None
  | _ :: _, [] => None
  end.

Definition starts_with (p s : str) : bool :=
  match strip_prefix p s with Some _ => true | None => false end.

Definition strip_suffix (p s : str) : option str :=
  match strip_prefix (rev p) (rev s) with Some r => Some (rev r) | None => None end.

Definition ends_with (p s : str) : bool := starts_with (rev p) (rev s).

(** [str::contains(char)]. *)
Definition contains_char (c : Z) (s : str) : bool := existsb (Z.eqb c) s.

(** ** Splitting *)

(** [str::split(pred)]: never empty. *)
Fixpoint split_by (p : Z -> bool) (s : str) : list str :=
  match s with
  | [] => [[]]
  | c :: s =>
    if p c then [] :: split_by p s
    else match split_by p s with [] => [[c]] | h :: t => (c :: h) :: t end
  end.

Definition split_char (c : Z) : str -> list str := split_by (Z.eqb c).

(** [str::split_once(char)]: at the first occurrence. *)
Fixpoint split_once (c : Z) (s : str) : option (str * str) :=
  match s with
  | [] => None
  | x :: s =>
    if c =? x then Some ([], s)
    else match split_once c s with Some (a, b) => Some (x :: a, b) | None => None end
  end.

(** [str::rsplit_once(char)]: at the last occurrence. *)
Definition rsplit_once (c : Z) (s : str) : option (str * str) :=
  match split_once c (rev s) with Some (a, b) => Some (rev b, rev a) | None => None end.

Definition split_whitespace (s : str) : list str :=
  List.filter (fun w => match w with [] => false | _ => true end) (split_by is_whitespace s).

(** [str::split_inclusive('\n')]. *)
Fixpoint split_inclusive_nl (s : str) : list str :=
  match s with
  | [] => []
  | c :: s =>
    if c =? 10 then [c] :: split_inclusive_nl s
    else match split_inclusive_nl s with [] => [[c]] | h :: t => (c :: h) :: t end
  end.

(** [str::lines]: a trailing ["\n"] or ["\r\n"] is dropped from each line, a bare
    ["\r"] is not. *)
Definition chomp (l : str) : str :=
  match strip_suffix [10] l with
  | None => l
  | Some l => match strip_suffix [13] l with None => l | Some l => l end
  end.

Definition lines (s : str) : list str := map chomp (split_inclusive_nl s).

Fixpoint trim_start (s : str) : str :=
  match s with
  | [] => []
  | c :: s' => if is_whitespace c then trim_start s' else s
  end.

Definition trim_end (s : str) : str := rev (trim_start (rev s)).

Definition trim (s : str) : str := trim_end (trim_start s).

(** [[T]::join(sep)]. *)
Fixpoint str_join (sep : str) (l : list str) : str :=
  match l with
  | [] => []
  | [x] => x
  | x :: l => x ++ sep ++ str_join sep l
  end.

(** ** Decimal integers *)

Fixpoint parse_digits (w acc : Z) (s : str) : option Z :=
  match s with
  | [] => Some acc
  | c :: s =>
    if is_ascii_digit c then
      match checked w (acc * 10 + (c - 48)) with
      | Some acc => parse_digits w acc s
      | None => None
      end
    else None
  end.

(** [str::parse::<u{w}>]: an optional sign ['+'], then at least one digit; an
    overflow is an error. *)
Definition parse_uint (w : Z) (s : str) : option Z :=
  let s := match s with c :: s' => if c =? 43 then s' else s | [] => [] end in
  match s with [] => None | _ => parse_digits w 0 s end.

Fixpoint dec_digits (fuel : nat) (z : Z) (acc : str) : str :=
  match fuel with
  | O => acc
  | S fuel =>
    if z <? 10 then (48 + z) :: acc else dec_digits fuel (z / 10) ((48 + z mod 10) :: acc)
  end.

(** [Display] of an unsigned integer; the fuel is one more than its bit length. *)
Definition fmt_dec (z : Z) : str := dec_digits (S (Z.to_nat (Z.log2 z))) z [].

(** ** Prefixes, suffixes and splits *)

Lemma strip_prefix_Some p s r : strip_prefix p s = Some r <-> s = p ++ r.
Proof.
  revert s. induction p as [|a p IH]; intros [|b s]; simpl; try naive_solver.
  destruct (a =? b) eqn:E.
  - apply Z.eqb_eq in E. rewrite IH. naive_solver.
  - apply Z.eqb_neq in E. naive_solver.
Qed.

Lemma strip_suffix_Some p s r : strip_suffix p s = Some r <-> s = r ++ p.
Proof.
  unfold strip_suffix. destruct (strip_prefix _ _) as [q|] eqn:E.
  - apply strip_prefix_Some in E. apply (f_equal (@rev Z)) in E.
    rewrite rev_involutive, rev_app_distr, rev_involutive in E.
    split; [naive_solver|]. intros ->. by apply app_inj_2 in E as [-> _].
  - split; [done|]. intros ->. rewrite rev_app_distr in E.
    assert (strip_prefix (rev p) (rev p ++ rev r) = Some (rev r)) by by apply strip_prefix_Some.
    congruence.
Qed.

Lemma starts_with_true p s : starts_with p s = true <-> exists r, s = p ++ r.
Proof.
  unfold starts_with. destruct (strip_prefix p s) as [r|] eqn:E.
  - apply strip_prefix_Some in E. naive_solver.
  - split; [done|]. intros [r H%strip_prefix_Some]. congruence.
Qed.

Lemma ends_with_true p s : ends_with p s = true <-> exists r, s = r ++ p.
Proof.
  unfold ends_with. rewrite starts_with_true. split; intros [r H].
  - exists (rev r). apply (f_equal (@rev Z)) in H.
    by rewrite rev_involutive, rev_app_distr, rev_involutive in H.
  - exists (rev r). by rewrite H, rev_app_distr.
Qed.

Lemma contains_char_true c s : contains_char c s = true <-> c ∈ s.
Proof.
  unfold contains_char. rewrite existsb_exists, list_elem_of_In. split.
  - by intros (x & Hx & ->%Z.eqb_eq).
  - intros Hc. exists c. by rewrite Z.eqb_refl.
Qed.

Lemma contains_char_false c s : contains_char c s = false <-> c ∉ s.
Proof. rewrite <-contains_char_true. by destruct (contains_char c s). Qed.

Lemma split_once_Some c s a b :
  split_once c s = Some (a, b) <-> s = a ++ c :: b /\ c ∉ a.
Proof.
  revert a b. induction s as [|x s IH]; intros a b; simpl.
  - split; [done|]. by intros [?%app_cons_not_nil ?].
  - destruct (c =? x) eqn:E.
    + apply Z.eqb_eq in E as ->. split.
      * intros [= <- <-]. by split; [|apply not_elem_of_nil].
      * intros [H Hn]. destruct a as [|y a]; simplify_eq/=; [done|].
        by destruct Hn; constructor.
    + apply Z.eqb_neq in E. destruct (split_once c s) as [[a' b']|] eqn:E'.
      * split.
        -- intros [= <- <-].
           destruct (proj1 (IH a' b') eq_refl) as [-> Hn].
           split; [done|]. apply not_elem_of_cons. by split.
        -- intros [H Hn]. destruct a as [|y a]; simplify_eq/=.
           apply not_elem_of_cons in Hn as [_ Hn].
           assert (Some (a', b') = Some (a, b)) as [= -> ->] by by apply IH.
           done.
      * split; [done|]. intros [H Hn]. destruct a as [|y a]; simplify_eq/=.
        apply not_elem_of_cons in Hn as [_ Hn].
        assert (None = Some (a, b)) by by apply IH. done.
Qed.

Lemma split_once_hit c a b : c ∉ a -> split_once c (a ++ c :: b) = Some (a, b).
Proof. intros. by apply split_once_Some. Qed.

Lemma split_once_None c s : split_once c s = None <-> c ∉ s.
Proof.
  induction s as [|x s IH]; simpl; [split; [intros _; apply not_elem_of_nil|done]|].
  rewrite not_elem_of_cons. destruct (c =? x) eqn:E.
  - apply Z.eqb_eq in E. naive_solver.
  - apply Z.eqb_neq in E. destruct (split_once c s) as [[]|]; naive_solver.
Qed.

Lemma split_by_not_nil p s : split_by p s <> [].
Proof. destruct s as [|c s]; simpl; [done|]. repeat case_match; done. Qed.

(** A list of pieces without a separator is recovered by joining and splitting. *)
Lemma split_by_app p a s :
  Forall (fun x => p x = false) a ->
  split_by p (a ++ s) = match split_by p s with [] => [a] | h :: t => (a ++ h) :: t end.
Proof.
  induction 1 as [|x a Hx _ IH]; simpl.
  - pose proof (split_by_not_nil p s). by destruct (split_by p s).
  - rewrite Hx, IH. by destruct (split_by p s).
Qed.

Lemma split_by_none p s : Forall (fun x => p x = false) s -> split_by p s = [s].
Proof. intros Hs. rewrite <-(app_nil_r s) at 1. rewrite split_by_app by done. simpl. by rewrite app_nil_r. Qed.

Lemma split_char_none c s : c ∉ s -> split_char c s = [s].
Proof.
  intros Hc. apply split_by_none. apply Forall_forall. intros x Hx. apply Z.eqb_neq.
  intros ->. apply Hc. by apply list_elem_of_In.
Qed.

Lemma split_by_join p c l :
  p c = true -> l <> [] -> Forall (Forall (fun x => p x = false)) l ->
  split_by p (str_join [c] l) = l.
Proof.
  intros Hc. induction l as [|x [|y l] IH]; intros Hne Hl; [done| |].
  - apply Forall_cons_1 in Hl as [Hx _]. simpl. rewrite <-(app_nil_r x) at 1.
    rewrite split_by_app by done. simpl. by rewrite app_nil_r.
  - apply Forall_cons_1 in Hl as [Hx Hl]. cbn [str_join]. rewrite split_by_app by done.
    simpl app at 1. cbn [split_by]. rewrite Hc, app_nil_r. f_equal. by apply IH.
Qed.

Lemma split_char_join c l :
  l <> [] -> Forall (fun s => c ∉ s) l -> split_char c (str_join [c] l) = l.
Proof.
  intros Hne Hl. apply split_by_join; [apply Z.eqb_refl|done|].
  eapply Forall_impl; [|exact Hl]. intros s Hs. apply Forall_forall. intros x Hx.
  apply Z.eqb_neq. intros <-. apply Hs. by apply list_elem_of_In.
Qed.

(** Visible words separated by single spaces. *)
Lemma split_whitespace_words l :
  Forall (fun w => w <> [] /\ Forall (fun c => is_whitespace c = false) w) l -> l <> [] ->
  split_whitespace (str_join [32] l) = l.
Proof.
  intros Hl Hne. unfold split_whitespace. rewrite split_by_join; [|done|done|].
  - clear Hne. induction Hl as [|w l [Hw _] _ IH]; simpl; [done|]. destruct w; [done|]. by rewrite IH.
  - eapply Forall_impl; [|exact Hl]. by intros w [_ ?].
Qed.

Lemma rsplit_once_app c a b : c ∉ b -> rsplit_once c (a ++ c :: b) = Some (a, b).
Proof.
  intros Hb. unfold rsplit_once.
  assert (split_once c (rev (a ++ c :: b)) = Some (rev b, rev a)) as ->.
  { apply split_once_Some. split.
    - rewrite rev_app_distr. simpl. by rewrite <-app_assoc.
    - rewrite list_elem_of_In, <-in_rev, <-list_elem_of_In. done. }
  by rewrite !rev_involutive.
Qed.

Lemma digit_not_whitespace c : 48 <= c <= 57 -> is_whitespace c = false.
Proof.
  intros Hc. apply not_true_is_false. unfold is_whitespace.
  rewrite !orb_true_iff, !andb_true_iff, !Z.leb_le, !Z.eqb_eq. lia.
Qed.

Lemma trim_start_id s : (forall c s', s = c :: s' -> is_whitespace c = false) -> trim_start s = s.
Proof. intros H. destruct s as [|c s]; [done|]. simpl. by rewrite (H c s eq_refl). Qed.

(** A string that neither starts nor ends with white space. *)
Lemma trim_id s :
  (forall c s', s = c :: s' -> is_whitespace c = false) ->
  (forall c s', s = s' ++ [c] -> is_whitespace c = false) -> trim s = s.
Proof.
  intros Hl Hr. unfold trim, trim_end. rewrite (trim_start_id s Hl).
  rewrite trim_start_id, rev_involutive; [done|]. intros c s' H. apply (Hr c (rev s')).
  apply (f_equal (@rev Z)) in H. by rewrite rev_involutive in H.
Qed.

(** ** Decimal integers *)

Lemma parse_digit_step w acc d s :
  0 <= d < 10 -> acc * 10 + d < 2 ^ w ->
  parse_digits w acc ((48 + d) :: s) = parse_digits w (acc * 10 + d) s.
Proof.
  intros Hd Hw. cbn [parse_digits]. unfold is_ascii_digit.
  rewrite (proj2 (Z.leb_le 48 (48 + d))), (proj2 (Z.leb_le (48 + d) 57)) by lia.
  replace (48 + d - 48) with d by lia. unfold checked.
  by rewrite decide_True by done.
Qed.

Lemma dec_digits_spec fuel z acc :
  0 <= z < 2 ^ Z.of_nat fuel ->
  (0 < fuel)%nat ->
  exists ds, dec_digits fuel z acc = ds ++ acc /\ ds <> [] /\
    Forall (fun c => 48 <= c <= 57) ds /\
    forall w t, z < 2 ^ w -> parse_digits w 0 (ds ++ t) = parse_digits w z t.
Proof.
  revert z acc. induction fuel as [|fuel IH]; intros z acc Hz Hf; [lia|].
  cbn [dec_digits]. destruct (z <? 10) eqn:E.
  - apply Z.ltb_lt in E. exists [48 + z]. split_and!; [done|done|apply Forall_singleton; lia|].
    intros w t Hw. cbn [app]. rewrite parse_digit_step by lia. done.
  - apply Z.ltb_ge in E.
    pose proof (Z.div_mod z 10 ltac:(lia)). pose proof (Z.mod_pos_bound z 10 ltac:(lia)).
    rewrite Nat2Z.inj_succ, Z.pow_succ_r in Hz by lia.
    destruct fuel as [|fuel]; [simpl in Hz; lia|].
    destruct (IH (z / 10) ((48 + z mod 10) :: acc)) as (ds & Heq & Hne & Hds & Hp); [nia|lia|].
    exists (ds ++ [48 + z mod 10]). rewrite Heq, <-app_assoc. split_and!.
    + done.
    + by destruct ds.
    + apply Forall_app; split; [done|apply Forall_singleton; lia].
    + intros w t Hw. rewrite <-app_assoc, Hp by lia. cbn [app].
      rewrite parse_digit_step by lia. f_equal. lia.
Qed.

Lemma fmt_dec_spec z :
  0 <= z ->
  fmt_dec z <> [] /\ Forall (fun c => 48 <= c <= 57) (fmt_dec z) /\
  forall w t, z < 2 ^ w -> parse_digits w 0 (fmt_dec z ++ t) = parse_digits w z t.
Proof.
  intros Hz. unfold fmt_dec.
  destruct (dec_digits_spec (S (Z.to_nat (Z.log2 z))) z []) as (ds & -> & ?); [|lia|].
  - split; [done|]. destruct (Z.eq_dec z 0) as [->|]; [done|].
    rewrite Nat2Z.inj_succ, Z2Nat.id by apply Z.log2_nonneg.
    apply Z.log2_spec. lia.
  - by rewrite app_nil_r.
Qed.

(** [u{w}::to_string] followed by [parse::<u{w}>]. *)
Lemma parse_uint_fmt_dec w z : in_u w z -> parse_uint w (fmt_dec z) = Some z.
Proof.
  intros [H0 Hw]. destruct (fmt_dec_spec z H0) as (Hne & Hd & Hp).
  specialize (Hp w [] Hw). rewrite app_nil_r in Hp. unfold parse_uint.
  destruct (fmt_dec z) as [|c s]; [done|]. apply Forall_cons_1 in Hd as [Hc _].
  by rewrite (proj2 (Z.eqb_neq c 43)) by lia.
Qed.

Lemma parse_digits_bound w acc s z :
  0 <= acc < 2 ^ w -> parse_digits w acc s = Some z -> in_u w z.
Proof.
  revert acc. induction s as [|c s IH]; intros acc Hacc; simpl; [by intros [= ->]|].
  destruct (is_ascii_digit c) eqn:E; [|done].
  unfold is_ascii_digit in E. apply andb_prop in E as [E1%Z.leb_le E2%Z.leb_le].
  unfold checked. case_decide; [|done]. apply IH. lia.
Qed.

Lemma parse_uint_bound w s z : 0 < w -> parse_uint w s = Some z -> in_u w z.
Proof.
  intros Hw. unfold parse_uint. case_match; [done|].
  apply parse_digits_bound. split; [lia|]. apply Z.pow_pos_nonneg; lia.
Qed.

(** ** UTF-8 *)

Lemma utf8_char_ascii c : 0 <= c < 128 -> utf8_char c = [c].
Proof. intros H. unfold utf8_char. by rewrite (proj2 (Z.ltb_lt c 128)) by lia. Qed.

Lemma utf8_char_high c : 128 <= c -> exists b bs, utf8_char c = b :: bs /\ 128 <= b.
Proof.
  intros H. unfold utf8_char. rewrite (proj2 (Z.ltb_ge c 128)) by lia.
  pose proof (Z.div_pos c 64 ltac:(lia) ltac:(lia)).
  pose proof (Z.div_pos c 4096 ltac:(lia) ltac:(lia)).
  pose proof (Z.div_pos c 262144 ltac:(lia) ltac:(lia)).
  repeat case_match; eexists _, _; (split; [done|lia]).
Qed.

Lemma str_bytes_cons c s : str_bytes (c :: s) = utf8_char c ++ str_bytes s.
Proof. done. Qed.

(** A string whose encoding is ASCII is its own encoding. *)
Lemma str_bytes_ascii s : Forall (fun c => 0 <= c < 128) s -> str_bytes s = s.
Proof.
  induction 1 as [|c s Hc _ IH]; [done|]. by rewrite str_bytes_cons, utf8_char_ascii, IH.
Qed.

Lemma ascii_str_bytes s :
  Forall (fun c => 0 <= c) s -> Forall (fun b => b < 128) (str_bytes s) ->
  Forall (fun c => 0 <= c < 128) s.
Proof.
  induction 1 as [|c s Hc _ IH]; [done|]. rewrite str_bytes_cons, Forall_app. intros [Hb Hs].
  constructor; [|by apply IH]. destruct (Z.lt_ge_cases c 128) as [|Hge]; [lia|].
  destruct (utf8_char_high c Hge) as (b & bs & Heq & Hb'). rewrite Heq in Hb.
  apply Forall_cons_1 in Hb as [? _]. lia.
Qed.

(** ** Decoding what was encoded *)

(** Decide closed comparisons from the arithmetic in context. *)
Ltac decide_cmp :=
  repeat match goal with
  | |- context [?a <? ?b] =>
      first [rewrite (proj2 (Z.ltb_lt a b)) by lia|rewrite (proj2 (Z.ltb_ge a b)) by lia]
  | |- context [?a <=? ?b] =>
      first [rewrite (proj2 (Z.leb_le a b)) by lia|rewrite (proj2 (Z.leb_gt a b)) by lia]
  | |- context [?a =? ?b] =>
      first [rewrite (proj2 (Z.eqb_eq a b)) by lia|rewrite (proj2 (Z.eqb_neq a b)) by lia]
  end.

Lemma lossy2 a b s :
  2 <= a < 32 -> 0 <= b < 64 ->
  from_utf8_lossy (192 + a :: 128 + b :: s) = a * 64 + b :: from_utf8_lossy s.
Proof. intros. cbn [from_utf8_lossy]. unfold is_cont. decide_cmp. simpl andb. cbn match. f_equal. lia. Qed.

Lemma lossy3 a b d s :
  0 <= a < 16 -> 0 <= b < 64 -> 0 <= d < 64 -> (a = 0 -> 32 <= b) -> (a = 13 -> b < 32) ->
  from_utf8_lossy (224 + a :: 128 + b :: 128 + d :: s) = a * 4096 + b * 64 + d :: from_utf8_lossy s.
Proof.
  intros. assert (Hl : lead3 (224 + a) (128 + b) = true).
  { unfold lead3, is_cont. rewrite !orb_true_iff, !andb_true_iff, !Z.leb_le, !Z.eqb_eq. lia. }
  cbn [from_utf8_lossy]. rewrite Hl. unfold is_cont. decide_cmp. simpl andb. cbn match. f_equal. lia.
Qed.

Lemma lossy4 a b d e s :
  0 <= a <= 4 -> 0 <= b < 64 -> 0 <= d < 64 -> 0 <= e < 64 -> (a = 0 -> 16 <= b) -> (a = 4 -> b < 16) ->
  from_utf8_lossy (240 + a :: 128 + b :: 128 + d :: 128 + e :: s) =
    a * 262144 + b * 4096 + d * 64 + e :: from_utf8_lossy s.
Proof.
  intros. assert (Hl : lead4 (240 + a) (128 + b) = true).
  { unfold lead4, is_cont. rewrite !orb_true_iff, !andb_true_iff, !Z.leb_le, !Z.eqb_eq. lia. }
  assert (Hn : lead3 (240 + a) (128 + b) = false).
  { apply not_true_is_false. unfold lead3. rewrite !orb_true_iff, !andb_true_iff, !Z.leb_le, !Z.eqb_eq. lia. }
  cbn [from_utf8_lossy]. rewrite Hl, Hn. unfold is_cont. decide_cmp. simpl andb. cbn match. f_equal. lia.
Qed.

(** The digits of [c] in base 64, as the encoder takes them. *)
Lemma base64_digits c :
  0 <= c ->
  0 <= c mod 64 < 64 /\ 0 <= c / 64 mod 64 < 64 /\ 0 <= c / 4096 mod 64 < 64 /\
  c = c / 64 * 64 + c mod 64 /\ c / 64 = c / 4096 * 64 + c / 64 mod 64 /\
  c / 4096 = c / 262144 * 64 + c / 4096 mod 64.
Proof.
  intros Hc.
  assert (Q1 : c / 4096 = c / 64 / 64) by by rewrite Z.div_div.
  assert (Q2 : c / 262144 = c / 4096 / 64) by by rewrite Z.div_div.
  pose proof (Z.div_mod c 64 ltac:(lia)). pose proof (Z.div_mod (c / 64) 64 ltac:(lia)).
  pose proof (Z.div_mod (c / 4096) 64 ltac:(lia)). rewrite <-Q1, <-Q2 in *.
  split_and!; try (apply Z.mod_pos_bound; lia); lia.
Qed.

Lemma utf8_lossy_char c s :
  is_scalar c = true -> from_utf8_lossy (utf8_char c ++ s) = c :: from_utf8_lossy s.
Proof.
  unfold is_scalar. rewrite orb_true_iff, !andb_true_iff, !Z.leb_le. intros Hc.
  destruct (base64_digits c) as (H0 & H1 & H2 & E0 & E1 & E2); [lia|]. unfold utf8_char.
  set (d0 := c mod 64) in *. set (d1 := c / 64 mod 64) in *. set (d2 := c / 4096 mod 64) in *.
  set (q1 := c / 64) in *. set (q2 := c / 4096) in *. set (q3 := c / 262144) in *.
  clearbody d0 d1 d2 q1 q2 q3.
  destruct (Z.ltb_spec c 128).
  { cbn [from_utf8_lossy app]. by rewrite (proj2 (Z.ltb_lt c 128)). }
  destruct (Z.ltb_spec c 2048); [|destruct (Z.ltb_spec c 65536)]; simpl app.
  - rewrite lossy2 by lia. f_equal. lia.
  - rewrite lossy3 by lia. f_equal. lia.
  - rewrite lossy4 by lia. f_equal. lia.
Qed.

Lemma utf8_lossy_str_bytes s :
  Forall (fun c => is_scalar c = true) s -> from_utf8_lossy (str_bytes s) = s.
Proof.
  induction 1 as [|c s Hc _ IH]; [done|]. by rewrite str_bytes_cons, utf8_lossy_char, IH.
Qed.

(** The encoding is injective on strings. *)
Lemma str_bytes_inj a b :
  Forall (fun c => is_scalar c = true) a -> Forall (fun c => is_scalar c = true) b ->
  str_bytes a = str_bytes b -> a = b.
Proof. intros Ha Hb Heq. by rewrite <-(utf8_lossy_str_bytes a), <-(utf8_lossy_str_bytes b), Heq. Qed.

Lemma utf8_char_byte c : is_scalar c = true -> Forall is_byte (utf8_char c).
Proof.
  unfold is_scalar. rewrite orb_true_iff, !andb_true_iff, !Z.leb_le. intros Hc. unfold utf8_char.
  destruct (base64_digits c) as (H0 & H1 & H2 & E0 & E1 & E2); [lia|].
  set (d0 := c mod 64) in *. set (d1 := c / 64 mod 64) in *. set (d2 := c / 4096 mod 64) in *.
  set (q1 := c / 64) in *. set (q2 := c / 4096) in *. set (q3 := c / 262144) in *.
  clearbody d0 d1 d2 q1 q2 q3. uint.
  destruct (Z.ltb_spec c 128); [|destruct (Z.ltb_spec c 2048); [|destruct (Z.ltb_spec c 65536)]];
    repeat constructor; lia.
Qed.

Lemma str_bytes_byte s : Forall (fun c => is_scalar c = true) s -> Forall is_byte (str_bytes s).
Proof.
  induction 1 as [|c s Hc _ IH]; [done|]. rewrite str_bytes_cons. apply Forall_app.
  by split; [apply utf8_char_byte|].
Qed.

Lemma is_scalar_true c : is_scalar c = true <-> 0 <= c <= 55295 \/ 57344 <= c <= 1114111.
Proof. unfold is_scalar. by rewrite orb_true_iff, !andb_true_iff, !Z.leb_le. Qed.

(** What the decoder accepts is a string. *)
Lemma from_utf8_scalar bs s :
  Forall is_byte bs -> from_utf8 bs = Some s -> Forall (fun c => is_scalar c = true) s.
Proof.
  remember (length bs) as n eqn:Hn. revert bs s Hn.
  induction (lt_wf n) as [n _ IH]. intros bs s -> Hb Hd.
  assert (Hrec : forall r t, (length r < length bs)%nat -> Forall is_byte r ->
    from_utf8 r = Some t -> Forall (fun c => is_scalar c = true) t) by (intros r t Hl; by apply (IH _ Hl)).
  clear IH. destruct bs as [|b0 r0]; [by injection Hd as <-|].
  apply Forall_cons_1 in Hb as [H0 Hb]. uint. cbn [from_utf8] in Hd.
  destruct (Z.ltb_spec b0 128).
  { destruct (from_utf8 r0) eqn:E; [|done]. injection Hd as <-. constructor;
      [apply is_scalar_true; lia|]. by eapply (Hrec r0); [simpl; lia|..]. }
  destruct r0 as [|b1 r1]; [done|]. apply Forall_cons_1 in Hb as [H1 Hb].
  destruct (_ && _ && is_cont b1) eqn:E2.
  { rewrite !andb_true_iff, !Z.leb_le in E2. unfold is_cont in E2. rewrite andb_true_iff, !Z.leb_le in E2.
    destruct (from_utf8 r1) eqn:E; [|done]. injection Hd as <-. constructor;
      [apply is_scalar_true; lia|]. by eapply (Hrec r1); [simpl; lia|..]. }
  destruct r1 as [|b2 r2]; [done|]. apply Forall_cons_1 in Hb as [H2 Hb].
  destruct (_ && is_scalar ((b0 - 224) * 4096 + _ + _)) eqn:E3.
  { apply andb_true_iff in E3 as [_ E3]. destruct (from_utf8 r2) eqn:E; [|done]. injection Hd as <-.
    constructor; [done|]. by eapply (Hrec r2); [simpl; lia|..]. }
  destruct r2 as [|b3 r3]; [done|]. apply Forall_cons_1 in Hb as [H3 Hb].
  destruct (_ && is_scalar ((b0 - 240) * 262144 + _ + _ + _)) eqn:E4; [|done].
  apply andb_true_iff in E4 as [_ E4]. destruct (from_utf8 r3) eqn:E; [|done]. injection Hd as <-.
  constructor; [done|]. by eapply (Hrec r3); [simpl; lia|..].
Qed.

(** ** Trimming *)

Lemma trim_start_app a b :
  trim_start (a ++ b) = match trim_start a with [] => trim_start b | a' => a' ++ b end.
Proof.
  induction a as [|c a IH]; simpl; [done|]. by destruct (is_whitespace c).
Qed.

Lemma trim_start_mid c a b :
  is_whitespace c = false -> trim_start (a ++ c :: b) = trim_start a ++ c :: b.
Proof. intros Hc. rewrite trim_start_app. simpl. rewrite Hc. by destruct (trim_start a). Qed.

Lemma trim_end_mid c a b :
  is_whitespace c = false -> trim_end (a ++ c :: b) = a ++ c :: trim_end b.
Proof.
  intros Hc. unfold trim_end. rewrite rev_app_distr. simpl. rewrite <-app_assoc. simpl.
  rewrite trim_start_mid by done. rewrite rev_app_distr. simpl.
  by rewrite rev_involutive, <-app_assoc.
Qed.

Lemma trim_start_suffix s : exists a, s = a ++ trim_start s.
Proof.
  induction s as [|c s [a IH]]; simpl; [by exists []|].
  destruct (is_whitespace c); [|by exists []]. exists (c :: a). simpl. by f_equal.
Qed.

Lemma trim_start_idemp s : trim_start (trim_start s) = trim_start s.
Proof.
  induction s as [|c s IH]; simpl; [done|]. destruct (is_whitespace c) eqn:E; [done|].
  simpl. by rewrite E.
Qed.

Lemma trim_end_idemp s : trim_end (trim_end s) = trim_end s.
Proof. unfold trim_end. by rewrite rev_involutive, trim_start_idemp. Qed.

(** A trimmed prefix is empty or starts with a visible character. *)
Lemma trim_start_cases s :
  trim_start s = [] \/ exists c s', trim_start s = c :: s' /\ is_whitespace c = false.
Proof.
  induction s as [|c s IH]; simpl; [by left|]. destruct (is_whitespace c) eqn:E; [done|].
  right. eauto.
Qed.

Lemma trim_start_trim s : trim_start (trim s) = trim s.
Proof.
  unfold trim. destruct (trim_start_cases s) as [->|(c & s' & -> & Hc)]; [done|].
  change (c :: s') with ([] ++ c :: s'). rewrite (trim_end_mid c [] s' Hc). simpl. by rewrite Hc.
Qed.

Lemma trim_idemp s : trim (trim s) = trim s.
Proof. unfold trim at 1. rewrite trim_start_trim. apply trim_end_idemp. Qed.

Lemma trim_trim_start s : trim (trim_start s) = trim s.
Proof. unfold trim. by rewrite trim_start_idemp. Qed.

Lemma trim_end_snoc_ws c s : is_whitespace c = true -> trim_end (s ++ [c]) = trim_end s.
Proof. intros Hc. unfold trim_end. rewrite rev_app_distr. simpl. by rewrite Hc. Qed.

Lemma trim_snoc_ws c s : is_whitespace c = true -> trim (s ++ [c]) = trim s.
Proof.
  intros Hc. unfold trim. rewrite trim_start_app. simpl. rewrite Hc.
  destruct (trim_start s) as [|x s'] eqn:E; [done|].
  by apply (trim_end_snoc_ws c (x :: s')).
Qed.

Lemma trim_trim_end s : trim (trim_end s) = trim s.
Proof.
  induction s as [|c s IH] using rev_ind; [done|].
  destruct (is_whitespace c) eqn:Hc.
  - by rewrite trim_end_snoc_ws, trim_snoc_ws.
  - by rewrite (trim_end_mid c s [] Hc).
Qed.

Lemma elem_of_trim c s : c ∈ trim s -> c ∈ s.
Proof.
  destruct (trim_start_suffix s) as [a Ha]. unfold trim, trim_end.
  destruct (trim_start_suffix (rev (trim_start s))) as [b Hb].
  rewrite !list_elem_of_In. intros Hc%in_rev. rewrite Ha. apply in_or_app. right.
  apply in_rev. rewrite Hb. apply in_or_app. by right.
Qed.

(** Trimming around a visible separator. *)
Lemma trim_mid c a b :
  is_whitespace c = false -> trim (a ++ c :: b) = trim_start a ++ c :: trim_end b.
Proof. intros Hc. unfold trim. by rewrite trim_start_mid, trim_end_mid. Qed.

(** ** Lines *)

Lemma strip_suffix_snoc c s : strip_suffix [c] (s ++ [c]) = Some s.
Proof. by apply strip_suffix_Some. Qed.

Lemma chomp_nl s : exists t, chomp (s ++ [10]) = t /\ (s = t \/ s = t ++ [13]).
Proof.
  unfold chomp. rewrite strip_suffix_snoc. destruct (strip_suffix [13] s) as [t|] eqn:E.
  - apply strip_suffix_Some in E. eauto.
  - eauto.
Qed.

Lemma trim_chomp s : trim (chomp (s ++ [10])) = trim s.
Proof.
  destruct (chomp_nl s) as (t & -> & [->| ->]); [done|]. symmetry. by apply trim_snoc_ws.
Qed.

Lemma chomp_no_nl s : 10 ∉ s -> chomp s = s.
Proof.
  intros H. unfold chomp. destruct (strip_suffix [10] s) eqn:E; [|done].
  apply strip_suffix_Some in E as ->. destruct H. apply elem_of_app. right. by constructor.
Qed.

Lemma split_inclusive_nl_line l : 10 ∉ l -> split_inclusive_nl (l ++ [10]) = [l ++ [10]].
Proof.
  induction l as [|c l IH]; intros H; [done|]. apply not_elem_of_cons in H as [Hc H].
  simpl. rewrite (proj2 (Z.eqb_neq c 10)) by done. by rewrite IH.
Qed.

Lemma split_inclusive_nl_app a b :
  (a = [] \/ exists a', a = a' ++ [10]) ->
  split_inclusive_nl (a ++ b) = split_inclusive_nl a ++ split_inclusive_nl b.
Proof.
  induction a as [|c a IH]; intros Ha; [done|].
  destruct Ha as [?|[a' Ha]]; [done|]. simpl.
  destruct a as [|d a].
  { destruct a' as [|x a']; [|by destruct a']. injection Ha as ->. done. }
  assert (Hd : d :: a = [] \/ exists a', d :: a = a' ++ [10]).
  { right. destruct a' as [|x a']; [done|]. injection Ha as _ Ha. eauto. }
  rewrite (IH Hd). destruct (c =? 10); [done|].
  destruct (split_inclusive_nl (d :: a)) as [|h t] eqn:E; [|done].
  simpl in E. by repeat case_match.
Qed.

(** A text that does not end in a newline: ending it changes lines only in white space. *)
Lemma split_inclusive_nl_end a :
  a <> [] -> (forall a', a <> a' ++ [10]) ->
  exists l h, split_inclusive_nl a = l ++ [h] /\ split_inclusive_nl (a ++ [10]) = l ++ [h ++ [10]]
    /\ 10 ∉ h.
Proof.
  induction a as [|c a IH]; intros Hne Hnl; [done|]. simpl.
  destruct a as [|d a].
  { destruct (Z.eqb_spec c 10) as [->|Hc]; [by destruct (Hnl [])|].
    exists [], [c]. simpl. split_and!; [done|done|]. apply not_elem_of_cons.
    split; [done|]. apply not_elem_of_nil. }
  destruct IH as (l & h & E1 & E2 & Hh); [done| |].
  { intros a' Ha. apply (Hnl (c :: a')). by rewrite Ha. }
  rewrite E1. rewrite <-app_comm_cons in E2. simpl app. rewrite E2.
  destruct (Z.eqb_spec c 10) as [->|Hc].
  - exists ([10] :: l), h. done.
  - destruct l as [|x l]; simpl.
    + exists [], (c :: h). split_and!; [done|done|]. by apply not_elem_of_cons.
    + exists ((c :: x) :: l), h. done.
Qed.

Lemma split_inclusive_nl_pieces s :
  Forall (fun p => 10 ∉ p \/ exists q, p = q ++ [10] /\ 10 ∉ q) (split_inclusive_nl s).
Proof.
  induction s as [|c s IH]; simpl; [done|].
  destruct (Z.eqb_spec c 10) as [->|Hc].
  { constructor; [|done]. right. exists []. split; [done|]. apply not_elem_of_nil. }
  destruct (split_inclusive_nl s) as [|h t]; constructor; try done.
  - left. apply not_elem_of_cons. split; [done|]. apply not_elem_of_nil.
  - apply Forall_cons_1 in IH as [[Hh|(q & -> & Hq)] _].
    + left. by apply not_elem_of_cons.
    + right. exists (c :: q). split; [done|]. by apply not_elem_of_cons.
  - by apply Forall_cons_1 in IH as [_ IH].
Qed.

Lemma lines_no_nl s : Forall (fun l => 10 ∉ l) (lines s).
Proof.
  unfold lines. apply Forall_map. eapply Forall_impl; [|apply split_inclusive_nl_pieces].
  intros p [Hp|(q & -> & Hq)]; simpl; [by rewrite chomp_no_nl|].
  destruct (chomp_nl q) as (t & -> & [->| ->]); [done|]. set_solver.
Qed.

(** Lines written one by one read back, up to the carriage return [chomp] drops. *)
Lemma split_inclusive_nl_concat ls :
  Forall (fun l => 10 ∉ l) ls ->
  split_inclusive_nl (concat (map (fun l => l ++ [10]) ls)) = map (fun l => l ++ [10]) ls.
Proof.
  induction 1 as [|l ls Hl _ IH]; simpl; [done|].
  rewrite split_inclusive_nl_app by eauto. by rewrite split_inclusive_nl_line, IH.
Qed.

Lemma trim_visible s : Forall (fun c => is_whitespace c = false) s -> trim s = s.
Proof.
  intros H. apply trim_id; intros c s' ->.
  - by apply Forall_cons_1 in H as [? _].
  - apply Forall_app in H as [_ H]. by apply Forall_cons_1 in H as [? _].
Qed.

Lemma fmt_dec_digits z : 0 <= z -> Forall (fun c => 48 <= c <= 57) (fmt_dec z).
Proof. intros Hz. by destruct (fmt_dec_spec z Hz) as (_ & ? & _). Qed.

Lemma fmt_dec_visible z : 0 <= z -> Forall (fun c => is_whitespace c = false) (fmt_dec z).
Proof.
  intros Hz. eapply Forall_impl; [|by apply fmt_dec_digits]. intros c. apply digit_not_whitespace.
Qed.

Lemma fmt_dec_no c z : 0 <= z -> ~ (48 <= c <= 57) -> c ∉ fmt_dec z.
Proof.
  intros Hz Hc Hin. pose proof (fmt_dec_digits z Hz) as H. rewrite List.Forall_forall in H.
  apply Hc, H. by apply list_elem_of_In.
Qed.

Lemma str_join_Forall (P : Z -> Prop) sep l :
  Forall P sep -> Forall (Forall P) l -> Forall P (str_join sep l).
Proof.
  intros Hs. induction 1 as [|x l Hx Hl IH]; [done|]. destruct l as [|y l]; [done|].
  cbn [str_join]. apply Forall_app; split; [done|]. by apply Forall_app.
Qed.

Lemma Forall_not_in (c : Z) s : Forall (fun x => x <> c) s -> c ∉ s.
Proof. intros H Hin%list_elem_of_In. rewrite List.Forall_forall in H. by apply H in Hin. Qed.

Lemma from_utf8_ascii s : Forall (fun c => 0 <= c < 128) s -> from_utf8 s = Some s.
Proof.
  induction 1 as [|c s Hc _ IH]; [done|]. simpl. rewrite (proj2 (Z.ltb_lt c 128)) by lia.
  by rewrite IH.
Qed.
