(* ===== verification/Wire.v ===== *)
(** * Wire: the vocabulary of the wire protocol

    Crate [krot-proto]: the protocol constants ([consts.rs]), the identifier
    newtypes ([ids.rs]), the error codes ([error.rs]), the raw stream headers
    ([stream.rs], [mux.rs]) and the control-stream frames ([frames.rs]).  The
    fixed-size headers are proved to round-trip and to reject every byte string
    that no header encodes to. *)

From S2P Require Import Prelude RustStr.

Local Open Scope Z_scope.

(** ** Constants *)

Definition ALPN : bytes := lit "krot/1".
Definition ALPN_TCP : bytes := lit "krot-tcp/1".
Definition SUPPORTED_CLIENT_ALPN : list bytes := [ALPN; ALPN_TCP].
Definition SUPPORTED_SERVER_ALPN : list bytes := [ALPN; ALPN_TCP].
Definition DEFAULT_UDP_PORT : Z := 7853.
Definition DEFAULT_TCP_PORT : Z := 7853.
Definition ACME_HTTP_PORT : Z := 80.
Definition MAX_FRAME_SIZE : Z := 64 * 1024.
Definition DATA_HEADER_SIZE : nat := 9.
Definition SESSION_ID_LEN : nat := 16.
Definition AUTH_NONCE_LEN : nat := 32.
Definition ADMIN_TOKEN_RAW_LEN : nat := 32.

(** A [Duration] is a number of nanoseconds. *)
Definition Duration_from_secs (s : Z) : Z := s * 1000000000.
Definition Duration_as_secs (d : Z) : Z := d / 1000000000.
Definition ADMIN_TOKEN_TTL : Z := Duration_from_secs (10 * 60).
Definition DEFAULT_GRACE_PERIOD : Z := Duration_from_secs 30.
Definition KEEP_ALIVE_INTERVAL : Z := Duration_from_secs 5.
Definition MAX_IDLE_TIMEOUT : Z := Duration_from_secs 15.
Definition REGISTRATION_DEADLINE : Z := Duration_from_secs 10.
Definition DATA_FIRST_BYTE_DEADLINE : Z := Duration_from_secs 30.

(** ** Identifiers *)

Record TunnelId := { tid_raw : Z }.
Record SessionId := { sid_raw : bytes }.
Record Nonce := { nonce_raw : bytes }.
Record PubKey := { pk_raw : bytes }.
Record Signature := { sig_raw : bytes }.

#[global] Instance TunnelId_eq_dec : EqDecision TunnelId.
Proof. solve_decision. Defined.
#[global] Instance SessionId_eq_dec : EqDecision SessionId.
Proof. solve_decision. Defined.
#[global] Instance Nonce_eq_dec : EqDecision Nonce.
Proof. solve_decision. Defined.
#[global] Instance PubKey_eq_dec : EqDecision PubKey.
Proof. solve_decision. Defined.
#[global] Instance Signature_eq_dec : EqDecision Signature.
Proof. solve_decision. Defined.

#[global] Program Instance TunnelId_countable : Countable TunnelId :=
  inj_countable' tid_raw Build_TunnelId _.
Next Obligation. by intros []. Qed.
#[global] Program Instance SessionId_countable : Countable SessionId :=
  inj_countable' sid_raw Build_SessionId _.
Next Obligation. by intros []. Qed.
#[global] Program Instance PubKey_countable : Countable PubKey :=
  inj_countable' pk_raw Build_PubKey _.
Next Obligation. by intros []. Qed.

(** ** Error codes *)

Record ErrorCode := { code_raw : Z }.

#[global] Instance ErrorCode_eq_dec : EqDecision ErrorCode.
Proof. solve_decision. Defined.

Definition NO_ERROR := {| code_raw := 0x0000 |}.
Definition PROTOCOL_VIOLATION := {| code_raw := 0x0001 |}.
Definition FRAME_TOO_LARGE := {| code_raw := 0x0002 |}.
Definition UNKNOWN_STREAM_KIND := {| code_raw := 0x0003 |}.
Definition UNEXPECTED_STREAM := {| code_raw := 0x0004 |}.
Definition AUTHENTICATION_FAILED := {| code_raw := 0x0010 |}.
Definition UNKNOWN_IDENTITY := {| code_raw := 0x0011 |}.
Definition KEY_REVOKED := {| code_raw := 0x0012 |}.
Definition TOKEN_EXPIRED := {| code_raw := 0x0013 |}.
Definition ENROLL_DISABLED := {| code_raw := 0x0014 |}.
Definition LABEL_UNAVAILABLE := {| code_raw := 0x0020 |}.
Definition LABEL_FORBIDDEN := {| code_raw := 0x0021 |}.
Definition LABEL_INVALID := {| code_raw := 0x0022 |}.
Definition TUNNEL_LIMIT_EXCEEDED := {| code_raw := 0x0023 |}.
Definition HTTP_NOT_AVAILABLE := {| code_raw := 0x0024 |}.
Definition PORT_POOL_EXHAUSTED := {| code_raw := 0x0025 |}.
Definition RATE_LIMITED := {| code_raw := 0x0030 |}.
Definition QUOTA_EXCEEDED := {| code_raw := 0x0031 |}.
Definition RESUME_UNKNOWN := {| code_raw := 0x0040 |}.
Definition RESUME_IDENTITY_MISMATCH := {| code_raw := 0x0041 |}.
Definition SERVER_SHUTDOWN := {| code_raw := 0x00F0 |}.
Definition INTERNAL_ERROR := {| code_raw := 0x00F1 |}.

(** One upper-case hexadecimal digit, and the format [{:04X}] of a [u16]. *)
Definition hex_upper (d : Z) : Z := if d <? 10 then 48 + d else 55 + d.

Definition fmt_04X (z : Z) : str :=
  [hex_upper (z / 4096 mod 16); hex_upper (z / 256 mod 16);
   hex_upper (z / 16 mod 16); hex_upper (z mod 16)].

(** The table of [Display for ErrorCode], in source order. *)
Definition error_names : list (ErrorCode * str) :=
  [ (NO_ERROR, lit "NoError"); (PROTOCOL_VIOLATION, lit "ProtocolViolation");
    (FRAME_TOO_LARGE, lit "FrameTooLarge"); (UNKNOWN_STREAM_KIND, lit "UnknownStreamKind");
    (UNEXPECTED_STREAM, lit "UnexpectedStream");
    (AUTHENTICATION_FAILED, lit "AuthenticationFailed");
    (UNKNOWN_IDENTITY, lit "UnknownIdentity"); (KEY_REVOKED, lit "KeyRevoked");
    (TOKEN_EXPIRED, lit "TokenExpired"); (ENROLL_DISABLED, lit "EnrollDisabled");
    (LABEL_UNAVAILABLE, lit "LabelUnavailable"); (LABEL_FORBIDDEN, lit "LabelForbidden");
    (LABEL_INVALID, lit "LabelInvalid"); (TUNNEL_LIMIT_EXCEEDED, lit "TunnelLimitExceeded");
    (HTTP_NOT_AVAILABLE, lit "HttpNotAvailable");
    (PORT_POOL_EXHAUSTED, lit "PortPoolExhausted");
    (RATE_LIMITED, lit "RateLimited"); (QUOTA_EXCEEDED, lit "QuotaExceeded");
    (RESUME_UNKNOWN, lit "ResumeUnknown");
    (RESUME_IDENTITY_MISMATCH, lit "ResumeIdentityMismatch");
    (SERVER_SHUTDOWN, lit "ServerShutdown"); (INTERNAL_ERROR, lit "InternalError") ].

Definition ErrorCode_fmt (c : ErrorCode) : str :=
  match find_first (fun e => bool_decide (e.1 = c)) error_names with
  | Some e => e.2
  | None => lit "ErrorCode(0x" ++ fmt_04X (code_raw c) ++ lit ")"
  end.

(** ** Stream headers *)

Inductive StreamKind := Control | DataHttp | DataTcp.

#[global] Instance StreamKind_eq_dec : EqDecision StreamKind.
Proof. solve_decision. Defined.

Definition StreamKind_as_byte (k : StreamKind) : Z :=
  match k with Control => 0x01 | DataHttp => 0x02 | DataTcp => 0x03 end.

(** The error carries the offending byte. *)
Inductive StreamKindError := UnknownKind (b : Z).

Definition StreamKind_try_from (v : Z) : Result StreamKind StreamKindError :=
  if v =? 0x01 then Ok Control
  else if v =? 0x02 then Ok DataHttp
  else if v =? 0x03 then Ok DataTcp
  else Err (UnknownKind v).

Record DataHeader := { dh_kind : StreamKind; dh_tunnel_id : TunnelId }.

Definition DataHeader_to_bytes (h : DataHeader) : bytes :=
  StreamKind_as_byte (dh_kind h) :: to_le_bytes 8 (tid_raw (dh_tunnel_id h)).

(** The argument is a [[u8; 9]]: the callers pass exactly nine bytes. *)
Definition DataHeader_decode (bs : bytes) : Result DataHeader StreamKindError :=
  let b0 := hd 0 bs in
  let? kind := StreamKind_try_from b0 in
  match kind with
  | Control => Err (UnknownKind b0)
  | _ => Ok {| dh_kind := kind;
               dh_tunnel_id := {| tid_raw := from_le_bytes (slice 1 9 bs) |} |}
  end.

Definition MUX_HEADER_SIZE : nat := 9.
Definition CONTROL_STREAM_ID : Z := 0.

Inductive MuxFlag := Open | Data | Fin.

#[global] Instance MuxFlag_eq_dec : EqDecision MuxFlag.
Proof. solve_decision. Defined.

Inductive MuxHeaderError :=
| TooShort
| UnknownFlag (b : Z)
| FinWithPayload (n : Z)
| OpenBadPayload (n : Z).

Definition MuxFlag_as_byte (f : MuxFlag) : Z :=
  match f with Open => 0x01 | Data => 0x02 | Fin => 0x03 end.

Definition MuxFlag_try_from (byte : Z) : Result MuxFlag MuxHeaderError :=
  if byte =? 0x01 then Ok Open
  else if byte =? 0x02 then Ok Data
  else if byte =? 0x03 then Ok Fin
  else Err (UnknownFlag byte).

Record MuxHeader := { mh_flag : MuxFlag; mh_stream_id : Z; mh_payload_len : Z }.

Definition MuxHeader_to_bytes (h : MuxHeader) : bytes :=
  MuxFlag_as_byte (mh_flag h)
    :: to_le_bytes 4 (mh_stream_id h) ++ to_le_bytes 4 (mh_payload_len h).

Definition MuxHeader_decode (bs : bytes) : Result MuxHeader MuxHeaderError :=
  if bool_decide (length bs < MUX_HEADER_SIZE)%nat then Err TooShort
  else
    let? flag := MuxFlag_try_from (hd 0 bs) in
    let stream_id := from_le_bytes (slice 1 5 bs) in
    let payload_len := from_le_bytes (slice 5 9 bs) in
    if bool_decide (flag = Fin) && negb (payload_len =? 0)
    then Err (FinWithPayload payload_len)
    else if bool_decide (flag = Open) && negb (payload_len =? 9)
    then Err (OpenBadPayload payload_len)
    else Ok {| mh_flag := flag; mh_stream_id := stream_id; mh_payload_len := payload_len |}.

Definition is_client_opened (stream_id : Z) : bool :=
  negb (stream_id =? CONTROL_STREAM_ID) && (stream_id mod 2 =? 0).

Definition is_server_opened (stream_id : Z) : bool :=
  negb (stream_id =? CONTROL_STREAM_ID) && negb (stream_id mod 2 =? 0).

(** ** Control frames *)

Inductive TunnelKind :=
| TK_Http
| TK_Tcp (remote_port : option Z).

Inductive ClientFrame :=
| AuthRequest (pubkey : PubKey)
| AuthResponse (signature : Signature)
| RegisterTunnel (label : str) (kind : TunnelKind) (resume_session_id : option SessionId)
                 (inspect : bool)
| UnregisterTunnel (tunnel_id : TunnelId)
| Ping (nonce : Z)
| Bye
| Enroll (admin_token : str) (pubkey : PubKey) (label_hint : option str)
| ListPeers.

Inductive ServerFrame :=
| AuthChallenge (nonce : Nonce)
| AuthOk (session_id : SessionId)
| AuthReject (code : ErrorCode)
| TunnelRegistered (tunnel_id : TunnelId) (public_url : str) (public_port : option Z)
| TunnelRejected (code : ErrorCode) (detail : str)
| Pong (nonce : Z)
| RateLimit (tunnel_id : option TunnelId) (retry_after_ms : Z)
| ServerBye (code : ErrorCode)
| EnrollOk (authorized_line : str)
| EnrollRejected (code : ErrorCode)
| Peers (relays : list str).

Record HttpMetadata := { hm_host : str; hm_sni : option str }.

Record InspectionPrelude := {
  ip_accept_unix_secs : Z;
  ip_peer : str;
  ip_http : option HttpMetadata;
}.

(** ** Signatures

    [ids.rs] writes a signature as a tuple of 64 elements, one byte each, and reads one
    element after another; a format may fail at an element ([Err]) or run out of them
    (the list ends), which is reported with the number of elements read. *)
Inductive SeqError (E : Type) :=
| ElementError (e : E)
| InvalidLength (read : nat).
Arguments ElementError {E} e.
Arguments InvalidLength {E} read.

(** [Serialize for Signature]: the announced length and the elements. *)
Definition Signature_serialize (s : Signature) : nat * bytes := (64%nat, sig_raw s).

(** [visit_seq] from slot [i], with [todo] slots to fill. *)
Fixpoint visit_seq {E} (i todo : nat) (out : bytes) (seq : list (Result Z E)) :
    Result (Signature * list (Result Z E)) (SeqError E) :=
  match todo with
  | O => Ok ({| sig_raw := out |}, seq)
  | S todo =>
    match seq with
    | [] => Err (InvalidLength i)
    | Err e :: _ => Err (ElementError e)
    | Ok b :: seq => visit_seq (S i) todo (out ++ [b]) seq
    end
  end.

Definition Signature_deserialize {E} (seq : list (Result Z E)) :
    Result (Signature * list (Result Z E)) (SeqError E) := visit_seq 0 64 [] seq.

(** ** Fixed-size headers

    What a fixed-size header codec promises to the code that frames with it: the
    encoding has the announced size and decodes to the value that was encoded,
    whatever follows it. *)
Class HeaderCodec (A E : Type) := {
  hc_size : nat;
  hc_valid : A -> Prop;
  hc_encode : A -> bytes;
  hc_decode : bytes -> Result A E;
  hc_encode_length : forall h, length (hc_encode h) = hc_size;
  hc_decode_encode : forall h rest, hc_valid h -> hc_decode (hc_encode h ++ rest) = Ok h;
}.

(** The headers the two decoders accept. *)
Definition DataHeader_valid (h : DataHeader) : Prop :=
  dh_kind h <> Control /\ in_u 64 (tid_raw (dh_tunnel_id h)).

Definition MuxHeader_valid (h : MuxHeader) : Prop :=
  in_u 32 (mh_stream_id h) /\ in_u 32 (mh_payload_len h) /\
  (mh_flag h = Fin -> mh_payload_len h = 0) /\
  (mh_flag h = Open -> mh_payload_len h = 9).

Lemma StreamKind_try_from_Ok v k :
  StreamKind_try_from v = Ok k <-> v = StreamKind_as_byte k.
Proof.
  unfold StreamKind_try_from. split.
  - crush_match; rewrite Z.eqb_eq in *; naive_solver.
  - by destruct k; intros ->.
Qed.

Lemma MuxFlag_try_from_Ok v k : MuxFlag_try_from v = Ok k <-> v = MuxFlag_as_byte k.
Proof.
  unfold MuxFlag_try_from. split.
  - crush_match; rewrite Z.eqb_eq in *; naive_solver.
  - by destruct k; intros ->.
Qed.

(** Slices of a header that starts with a one-byte tag. *)
Lemma slice_tag lo hi b (l : bytes) : slice (S lo) (S hi) (b :: l) = slice lo hi l.
Proof. done. Qed.

Lemma DataHeader_decode_encode h rest :
  DataHeader_valid h -> DataHeader_decode (DataHeader_to_bytes h ++ rest) = Ok h.
Proof.
  destruct h as [k [t]]. intros [Hk Ht].
  unfold DataHeader_decode, DataHeader_to_bytes. rewrite <-app_comm_cons, slice_tag.
  rewrite slice_all by done. simpl hd.
  rewrite (proj2 (StreamKind_try_from_Ok _ k) eq_refl), (from_to_le_bytes_w 8 64) by done.
  by destruct k.
Qed.

Lemma MuxHeader_decode_encode h rest :
  MuxHeader_valid h -> MuxHeader_decode (MuxHeader_to_bytes h ++ rest) = Ok h.
Proof.
  destruct h as [f s n]. intros (Hs & Hn & Hf & Ho).
  unfold MuxHeader_decode, MuxHeader_to_bytes.
  rewrite bool_decide_eq_false_2 by (rewrite length_app; unfold MUX_HEADER_SIZE; simpl; lia).
  rewrite <-app_comm_cons, <-app_assoc, (slice_tag 0 4), (slice_tag 4 8).
  rewrite (slice_all 0 4), (slice_app_r 4 8), take_app_length' by done. simpl hd.
  rewrite (proj2 (MuxFlag_try_from_Ok _ f) eq_refl), !(from_to_le_bytes_w 4 32) by done.
  simpl in *. destruct f; simpl; [rewrite Ho by done|done|rewrite Hf by done]; done.
Qed.

#[global] Program Instance DataHeader_codec : HeaderCodec DataHeader StreamKindError := {|
  hc_size := DATA_HEADER_SIZE;
  hc_valid := DataHeader_valid;
  hc_encode := DataHeader_to_bytes;
  hc_decode := DataHeader_decode;
|}.
Next Obligation. done. Qed.
Next Obligation. by apply DataHeader_decode_encode. Qed.

#[global] Program Instance MuxHeader_codec : HeaderCodec MuxHeader MuxHeaderError := {|
  hc_size := MUX_HEADER_SIZE;
  hc_valid := MuxHeader_valid;
  hc_encode := MuxHeader_to_bytes;
  hc_decode := MuxHeader_decode;
|}.
Next Obligation. done. Qed.
Next Obligation. by apply MuxHeader_decode_encode. Qed.

(** ** What the header decoders accept *)

(** A byte string of at least [n] bytes starts with [n] of them. *)
Lemma split_at_length {A} (n : nat) (l : list A) :
  (n <= length l)%nat -> exists a b, l = a ++ b /\ length a = n.
Proof.
  intros. exists (take n l), (drop n l). rewrite take_drop, length_take. split; [done|lia].
Qed.

Lemma to_from_le_bytes_n n bs :
  length bs = n -> Forall is_byte bs -> to_le_bytes n (from_le_bytes bs) = bs.
Proof. intros <-. apply to_from_le_bytes. Qed.

Lemma MuxHeader_to_bytes_parts f s n :
  length s = 4%nat -> length n = 4%nat -> Forall is_byte s -> Forall is_byte n ->
  MuxHeader_to_bytes {| mh_flag := f; mh_stream_id := from_le_bytes s;
                        mh_payload_len := from_le_bytes n |}
  = MuxFlag_as_byte f :: s ++ n.
Proof.
  intros. change (MuxFlag_as_byte f :: to_le_bytes 4 (from_le_bytes s)
                    ++ to_le_bytes 4 (from_le_bytes n) = MuxFlag_as_byte f :: s ++ n).
  by rewrite !to_from_le_bytes_n.
Qed.

(** [MuxHeader::decode] accepts a byte string exactly when it starts with the
    encoding of a valid header (an OPEN of 9 bytes, an empty FIN, any DATA), and
    then returns that header: encoding and decoding are mutually inverse, and every
    other byte string is rejected. *)
Theorem mux_header_accepts (bs : bytes) (h : MuxHeader) (Hbs : Forall is_byte bs) :
  MuxHeader_decode bs = Ok h <->
  MuxHeader_valid h /\ exists rest, bs = MuxHeader_to_bytes h ++ rest.
Proof.
  split; [|by intros [? [rest ->]]; apply MuxHeader_decode_encode].
  unfold MuxHeader_decode. case_bool_decide as Hlen; [done|].
  unfold MUX_HEADER_SIZE in Hlen. destruct bs as [|b bs]; simpl in Hlen; [lia|].
  destruct (split_at_length 4 bs) as (s & r & -> & Hs); [lia|].
  rewrite length_app in Hlen.
  destruct (split_at_length 4 r) as (n & rest & -> & Hn); [lia|].
  rewrite (slice_tag 0 4), (slice_tag 4 8).
  rewrite (slice_all 0 4), (slice_app_r 4 8), take_app_length' by done.
  apply Forall_cons_1 in Hbs as [_ Hbs]. rewrite !Forall_app in Hbs. destruct Hbs as (Bs & Bn & _).
  simpl hd. destruct (MuxFlag_try_from b) as [f|] eqn:Ef; [|done].
  apply MuxFlag_try_from_Ok in Ef as ->.
  unfold result_bind. intros H.
  assert (h = {| mh_flag := f; mh_stream_id := from_le_bytes s; mh_payload_len := from_le_bytes n |})
    as -> by (repeat case_match; naive_solver).
  split.
  - split_and!; [by apply (from_le_bytes_w 4)|by apply (from_le_bytes_w 4)| |].
    + simpl. intros ->. simpl in H. destruct (_ =? 0) eqn:E; [by apply Z.eqb_eq|done].
    + simpl. intros ->. simpl in H. destruct (_ =? 9) eqn:E; [by apply Z.eqb_eq|done].
  - exists rest. by rewrite MuxHeader_to_bytes_parts, <-app_comm_cons, <-app_assoc.
Qed.

Lemma mux_header_accepts_witness :
  MuxHeader_decode [2; 5; 0; 0; 0; 3; 0; 0; 0; 170] =
    Ok {| mh_flag := Data; mh_stream_id := 5; mh_payload_len := 3 |}.
Proof.
  apply mux_header_accepts.
  - solve_bytes.
  - split; [|by exists [170]]. split_and!; [solve_in_u|solve_in_u|done|done].
Defined.

(** [DataHeader::decode] accepts a nine-byte array exactly when it is the
    encoding of a header whose kind carries data; a Control discriminator and every
    unknown one are rejected. *)
Theorem data_header_accepts (bs : bytes) (h : DataHeader)
    (Hbs : Forall is_byte bs) (Hlen : length bs = DATA_HEADER_SIZE) :
  DataHeader_decode bs = Ok h <-> DataHeader_valid h /\ bs = DataHeader_to_bytes h.
Proof.
  split.
  2: { intros [? ->]. rewrite <-(app_nil_r (DataHeader_to_bytes h)).
       by apply DataHeader_decode_encode. }
  destruct bs as [|b bs]; [done|]. injection Hlen as Hlen.
  apply Forall_cons_1 in Hbs as [_ Hbs].
  unfold DataHeader_decode. rewrite (slice_tag 0 8).
  assert (slice 0 8 bs = bs) as ->.
  { rewrite <-(app_nil_r bs) at 1. by apply slice_all. }
  simpl hd. destruct (StreamKind_try_from b) as [k|] eqn:Ek; [|done].
  apply StreamKind_try_from_Ok in Ek as ->. unfold result_bind. intros H.
  assert (k <> Control /\ h = {| dh_kind := k; dh_tunnel_id := {| tid_raw := from_le_bytes bs |} |})
    as [Hk ->] by (destruct k; naive_solver).
  split; [split; [done|by apply (from_le_bytes_w 8)]|].
  change (StreamKind_as_byte k :: bs = StreamKind_as_byte k :: to_le_bytes 8 (from_le_bytes bs)).
  by rewrite to_from_le_bytes_n.
Qed.

Lemma data_header_accepts_witness :
  DataHeader_decode [3; 255; 1; 0; 0; 0; 0; 0; 0] =
    Ok {| dh_kind := DataTcp; dh_tunnel_id := {| tid_raw := 511 |} |}.
Proof.
  apply data_header_accepts; [solve_bytes|reflexivity|].
  split; [split; [discriminate|solve_in_u]|reflexivity].
Defined.

(** ** Signatures *)

Lemma visit_seq_fill {E} i todo out (bs : bytes) (seq : list (Result Z E)) :
  length bs = todo -> visit_seq i todo out (map Ok bs ++ seq) = Ok ({| sig_raw := out ++ bs |}, seq).
Proof.
  intros <-. revert i out. induction bs as [|b bs IH]; intros i out; cbn; [by rewrite app_nil_r|].
  by rewrite IH, <-app_assoc.
Qed.

Lemma visit_seq_short {E} i todo out (bs : bytes) :
  (length bs < todo)%nat -> visit_seq i todo out (map (@Ok Z E) bs) = Err (InvalidLength (i + length bs)).
Proof.
  revert i todo out. induction bs as [|b bs IH]; intros i [|todo] out Hl; cbn in *; try lia.
  - by rewrite Nat.add_0_r.
  - rewrite IH by lia. do 2 f_equal. lia.
Qed.

(** A signature is read back from the elements it was written as, with what follows todo
    alone; a shorter tuple is refused with the number of elements it had. *)
Lemma signature_elements {E} (s : Signature) (rest : list (Result Z E)) :
  length (sig_raw s) = (Signature_serialize s).1 ->
  Signature_deserialize (map Ok (Signature_serialize s).2 ++ rest) = Ok (s, rest) /\
  forall n, (n < 64)%nat ->
    Signature_deserialize (map (@Ok Z E) (take n (Signature_serialize s).2)) = Err (InvalidLength n).
Proof.
  unfold Signature_serialize. cbn [fst snd]. intros Hs. split.
  - unfold Signature_deserialize. rewrite visit_seq_fill by done. by destruct s.
  - intros n Hn. assert (length (take n (sig_raw s)) = n) as Ht by (rewrite length_take; lia).
    unfold Signature_deserialize. rewrite visit_seq_short by lia. by rewrite Ht.
Qed.
