(* ===== verification/Framing.v ===== *)
(** * Framing: length-prefixed control frames

    [krot-proto/src/framing.rs] (the buffer codec) and
    [krot-transport/src/frame.rs] (the incremental reader and writer).  The
    serialisation of a value inside a frame is the [postcard] crate, a parameter:
    class [Postcard].  The stream a frame is read from is an interface too: class
    [RecvStream] says what [read_exact] promises, and the multiplexer's stream
    ([TcpMux]) is one implementation of it. *)

From S2P Require Import Prelude RustStr Wire.

Local Open Scope Z_scope.

(** ** Data *)

Inductive FramingError (PE : Type) :=
| FrameTooLarge (size max : Z)
| BadVarint
| Truncated (needed had : Z)
| PostcardError (e : PE).
Arguments FrameTooLarge {PE} size max.
Arguments BadVarint {PE}.
Arguments Truncated {PE} needed had.
Arguments PostcardError {PE} e.

(** [TransportError]; [X] is what the wrapped third-party errors carry. *)
Inductive TransportError (PE X : Type) :=
| TE_Io (e : X)
| TE_Connect (e : X)
| TE_Connection (e : X)
| TE_Write (e : X)
| TE_Read (e : X)
| TE_ReadExact (e : X)
| TE_Framing (e : FramingError PE)
| TE_UnexpectedEof
| TE_Rustls (e : X)
| TE_QuicCrypto (e : X).
Arguments TE_Io {PE X} e.
Arguments TE_Connect {PE X} e.
Arguments TE_Connection {PE X} e.
Arguments TE_Write {PE X} e.
Arguments TE_Read {PE X} e.
Arguments TE_ReadExact {PE X} e.
Arguments TE_Framing {PE X} e.
Arguments TE_UnexpectedEof {PE X}.
Arguments TE_Rustls {PE X} e.
Arguments TE_QuicCrypto {PE X} e.

(** ** Interfaces *)

(** The [postcard] crate at a type [T]. *)
Class Postcard (T PE : Type) := {
  to_stdvec : T -> Result bytes PE;
  from_bytes : bytes -> Result T PE;
}.

(** What the protocol relies on: serialisation yields bytes, and they read back. *)
Class PostcardLaws (T PE : Type) `{Postcard T PE} := {
  to_stdvec_bytes : forall v bs, to_stdvec v = Ok bs -> Forall is_byte bs;
  from_bytes_to_stdvec : forall v bs, to_stdvec v = Ok bs -> from_bytes bs = Ok v;
}.

(** A receive half: [rs_pending] is what the peer sent and this side has not read
    yet, up to the end of the stream. *)
Class RecvStream (S PE X : Type) := {
  read_exact : nat -> S -> Result bytes (TransportError PE X) * S;
  rs_pending : S -> bytes;
}.

(** [read_exact] delivers the next bytes in order, or fails when there are too few;
    it never fails with a framing error. *)
Class RecvStreamLaws (S PE X : Type) `{RecvStream S PE X} := {
  read_exact_enough : forall n s, (n <= length (rs_pending s))%nat ->
    exists s', read_exact n s = (Ok (take n (rs_pending s)), s') /\
               rs_pending s' = drop n (rs_pending s);
  read_exact_short : forall n s, (length (rs_pending s) < n)%nat ->
    exists e s', read_exact n s = (Err e, s') /\ forall fe, e <> TE_Framing fe;
}.

(** ** The varint prefix *)

(** [write_varint_u32]; five rounds empty a [u32]. *)
Fixpoint write_varint_go (fuel : nat) (v : Z) : bytes :=
  match fuel with
  | O => []
  | S fuel =>
    if 0x80 <=? v
    then Z.lor (Z.land (wrap 8 v) 0x7F) 0x80 :: write_varint_go fuel (Z.shiftr v 7)
    else [wrap 8 v]
  end.

Definition write_varint_u32 (v : Z) (out : bytes) : bytes := out ++ write_varint_go 5 v.

(** The body of the loop of [read_varint_u32] and of [read_varint]: fold byte [b] at
    position [i] into [acc]; [None] is the [BadVarint] return, [inl] the loop's next
    round, [inr] the final value. *)
Definition varint_step (i : nat) (acc b : Z) : option (Z + Z) :=
  let bits := Z.land b 0x7F in
  let shift := Z.of_nat i * 7 in
  if (32 <=? shift) || negb (Z.shiftr (wrap 32 (Z.shiftl bits shift)) shift =? bits)
  then None
  else
    let acc := Z.lor acc (wrap 32 (Z.shiftl bits shift)) in
    if Z.land b 0x80 =? 0 then Some (inr acc) else Some (inl acc).

Fixpoint read_varint_go {PE} (i : nat) (acc : Z) (input : bytes) :
    Result (Z * nat) (FramingError PE) :=
  match input with
  | [] => Err BadVarint
  | b :: input =>
    match varint_step i acc b with
    | None => Err BadVarint
    | Some (inr acc) => Ok (acc, S i)
    | Some (inl acc) => read_varint_go (S i) acc input
    end
  end.

Definition read_varint_u32 {PE} (input : bytes) : Result (Z * nat) (FramingError PE) :=
  read_varint_go 0 0 (take 5 input).

(** ** The buffer codec *)

Section Codec.
Context {T PE : Type} `{Postcard T PE}.

(** The count of bytes written, and [out] afterwards. *)
Definition encode_frame (value : T) (out : bytes) : Result Z (FramingError PE) * bytes :=
  match to_stdvec value with
  | Err e => (Err (PostcardError e), out)
  | Ok payload =>
    if MAX_FRAME_SIZE <? len payload
    then (Err (FrameTooLarge (len payload) MAX_FRAME_SIZE), out)
    else
      let out' := write_varint_u32 (wrap 32 (len payload)) out ++ payload in
      (Ok (len out' - len out), out')
  end.

Definition decode_frame (input : bytes) : Result (T * nat) (FramingError PE) :=
  let? (n, prefix_bytes) := read_varint_u32 input in
  if MAX_FRAME_SIZE <? n then Err (FrameTooLarge n MAX_FRAME_SIZE)
  else
    let? stop := ok_or (checked 64 (Z.of_nat prefix_bytes + n)) BadVarint in
    if len input <? stop then Err (Truncated stop (len input))
    else
      let? value := map_err PostcardError (from_bytes (slice prefix_bytes (Z.to_nat stop) input)) in
      Ok (value, Z.to_nat stop).

(** A run of frames: the values encoded one after the other. *)
Fixpoint encode_all (vs : list T) : option bytes :=
  match vs with
  | [] => Some []
  | v :: vs =>
    match encode_frame v [], encode_all vs with
    | (Ok _, frame), Some rest => Some (frame ++ rest)
    | _, _ => None
    end
  end.

(** ** The incremental reader and writer *)

Context {S X : Type} `{RecvStream S PE X}.

Definition VARINT_MAX_BYTES : nat := 5.

Fixpoint read_varint_loop (rounds i : nat) (acc : Z) (s : S) :
    Result Z (TransportError PE X) * S :=
  match rounds with
  | O => (Err (TE_Framing BadVarint), s)
  | Datatypes.S rounds =>
    match read_exact 1 s with
    | (Err e, s) => (Err e, s)
    | (Ok one, s) =>
      match varint_step i acc (hd 0 one) with
      | None => (Err (TE_Framing BadVarint), s)
      | Some (inr acc) => (Ok acc, s)
      | Some (inl acc) => read_varint_loop rounds (Datatypes.S i) acc s
      end
    end
  end.

Definition read_varint (s : S) : Result Z (TransportError PE X) * S :=
  read_varint_loop VARINT_MAX_BYTES 0 0 s.

(** A [u32] always fits a [usize] on the 64-bit targets, so [try_from] cannot fail. *)
Definition read_frame (s : S) : Result T (TransportError PE X) * S :=
  match read_varint s with
  | (Err e, s) => (Err e, s)
  | (Ok n, s) =>
    if MAX_FRAME_SIZE <? n
    then (Err (TE_Framing (FrameTooLarge n MAX_FRAME_SIZE)), s)
    else
      match read_exact (Z.to_nat n) s with
      | (Err e, s) => (Err e, s)
      | (Ok buf, s) => (map_err (fun e => TE_Framing (PostcardError e)) (from_bytes buf), s)
      end
  end.

(** [write_frame] over a send half whose [write_all] is [w]: the bytes handed to the
    stream are the encoding in a fresh buffer. *)
Definition write_frame {W} (write_all : bytes -> W -> Result unit (TransportError PE X) * W)
    (value : T) (stream : W) : Result unit (TransportError PE X) * W :=
  match encode_frame value [] with
  | (Err e, _) => (Err (TE_Framing e), stream)
  | (Ok _, buf) => write_all buf stream
  end.

End Codec.

(** ** The varint prefix *)

Lemma land_7F b : Z.land b 0x7F = b mod 128.
Proof. apply (Z.land_ones b 7). done. Qed.

Lemma land_80 b : is_byte b -> (Z.land b 0x80 =? 0) = (b <? 128).
Proof.
  intros Hb. apply eqb_prop. revert b Hb.
  apply (byte_forall (fun b => eqb (Z.land b 0x80 =? 0) (b <? 128))). by vm_compute.
Qed.

Lemma shift_keeps_bits s bits :
  0 <= s -> 0 <= bits ->
  (Z.shiftr (wrap 32 (Z.shiftl bits s)) s =? bits) = (bits * 2 ^ s <? 2 ^ 32).
Proof.
  intros Hs Hb. unfold wrap. rewrite Z.shiftl_mul_pow2, Z.shiftr_div_pow2 by done.
  pose proof (Z.pow_pos_nonneg 2 s ltac:(lia) Hs).
  destruct (Z.ltb_spec (bits * 2 ^ s) (2 ^ 32)) as [Hlt|Hge].
  - rewrite Z.mod_small, Z.div_mul, Z.eqb_eq by nia. done.
  - apply Z.eqb_neq. enough ((bits * 2 ^ s) mod 2 ^ 32 / 2 ^ s < bits) by lia.
    apply Z.div_lt_upper_bound; [done|].
    pose proof (Z.mod_pos_bound (bits * 2 ^ s) (2 ^ 32) ltac:(done)). nia.
Qed.

Lemma varint_step_spec i acc b :
  (i < 5)%nat -> is_byte b -> 0 <= acc < 2 ^ (Z.of_nat i * 7) ->
  varint_step i acc b =
    let v := acc + b mod 128 * 2 ^ (Z.of_nat i * 7) in
    if b mod 128 * 2 ^ (Z.of_nat i * 7) <? 2 ^ 32
    then Some (if b <? 128 then inr v else inl v) else None.
Proof.
  intros Hi Hb Hacc. pose proof (Z.mod_pos_bound b 128 ltac:(lia)).
  unfold varint_step. rewrite land_7F, land_80, shift_keeps_bits by (done || lia).
  rewrite (proj2 (Z.leb_gt 32 (Z.of_nat i * 7))) by lia. cbn [orb]. cbv zeta.
  destruct (Z.ltb_spec (b mod 128 * 2 ^ (Z.of_nat i * 7)) (2 ^ 32)) as [Hlt|]; [|done].
  cbn [negb]. unfold wrap. rewrite Z.mod_small, lor_shiftl_add;
    [by destruct (b <? 128)|lia|done|].
  rewrite Z.shiftl_mul_pow2 by lia. nia.
Qed.

Lemma continuation_byte v : Z.lor (Z.land (wrap 8 v) 0x7F) 0x80 = v mod 128 + 128.
Proof.
  rewrite land_7F. unfold wrap.
  assert ((v mod 2 ^ 8) mod 128 = v mod 128) as ->.
  { apply Z.mod_mod_divide. by exists 2. }
  change (Z.lor (v mod 128) (Z.shiftl 1 7) = v mod 128 + 128). rewrite lor_shiftl_add; [lia|lia|].
  apply Z.mod_pos_bound. lia.
Qed.

Lemma write_varint_go_bytes fuel v : 0 <= v -> Forall is_byte (write_varint_go fuel v).
Proof.
  revert v. induction fuel as [|fuel IH]; intros v Hv; cbn [write_varint_go]; [done|].
  destruct (0x80 <=? v) eqn:E.
  - constructor; [|apply IH, Z.shiftr_nonneg, Hv].
    rewrite continuation_byte. pose proof (Z.mod_pos_bound v 128 ltac:(lia)). uint. lia.
  - constructor; [|done]. uint. apply Z.mod_pos_bound. lia.
Qed.

Lemma length_write_varint_go fuel v : (length (write_varint_go fuel v) <= fuel)%nat.
Proof.
  revert v. induction fuel as [|fuel IH]; intros v; cbn [write_varint_go]; [done|].
  destruct (0x80 <=? v); cbn [length]; [specialize (IH (Z.shiftr v 7))|]; lia.
Qed.

Lemma read_write_varint_go {PE} fuel i acc v rest :
  (i + fuel = 5)%nat -> (fuel = 0%nat -> 0 < v) -> 0 <= v ->
  0 <= acc < 2 ^ (Z.of_nat i * 7) -> v * 2 ^ (Z.of_nat i * 7) < 2 ^ 32 ->
  read_varint_go (PE := PE) i acc (write_varint_go fuel v ++ rest) =
    Ok (acc + v * 2 ^ (Z.of_nat i * 7), (i + length (write_varint_go fuel v))%nat).
Proof.
  revert i acc v. induction fuel as [|fuel IH]; intros i acc v Hi Hf Hv Hacc Hb.
  { replace (Z.of_nat i * 7) with 35 in Hb by lia. lia. }
  pose proof (Z.pow_pos_nonneg 2 (Z.of_nat i * 7) ltac:(lia) ltac:(lia)) as Hp.
  cbn [write_varint_go]. destruct (Z.leb_spec 0x80 v) as [Hge|Hlt].
  - rewrite continuation_byte, <-app_comm_cons. cbn [read_varint_go length].
    pose proof (Z.mod_pos_bound v 128 ltac:(lia)).
    pose proof (Z.div_mod v 128 ltac:(lia)) as Hdm.
    rewrite varint_step_spec by (lia || uint; lia). cbv zeta.
    replace ((v mod 128 + 128) mod 128) with (v mod 128).
    2: { rewrite <-Z.add_mod_idemp_r, Z.mod_same, Z.add_0_r, Z.mod_mod; lia. }
    rewrite (proj2 (Z.ltb_lt _ _)) by nia.
    rewrite (proj2 (Z.ltb_ge _ _)) by lia.
    rewrite Z.shiftr_div_pow2 by lia. change (2 ^ 7) with 128 in *.
    assert (Hpow : 2 ^ (Z.of_nat (S i) * 7) = 128 * 2 ^ (Z.of_nat i * 7)).
    { replace (Z.of_nat (S i) * 7) with (7 + Z.of_nat i * 7) by lia.
      by rewrite Z.pow_add_r by lia. }
    rewrite IH, Hpow; rewrite ?Hpow; [f_equal; f_equal; [nia|lia]|lia|lia|lia|nia|nia].
  - cbn [app read_varint_go length]. unfold wrap. rewrite Z.mod_small by lia.
    rewrite varint_step_spec by (lia || uint; lia). cbv zeta.
    rewrite Z.mod_small, (proj2 (Z.ltb_lt _ _) Hb), (proj2 (Z.ltb_lt v 128)) by lia.
    f_equal. f_equal. lia.
Qed.

(** A varint reads back, whatever follows it, and takes one to five bytes. *)
Lemma read_varint_write {PE} v rest :
  in_u 32 v ->
  read_varint_u32 (PE := PE) (write_varint_u32 v [] ++ rest) =
    Ok (v, length (write_varint_u32 v [])).
Proof.
  intros [H0 H1]. unfold read_varint_u32, write_varint_u32. rewrite app_nil_l.
  pose proof (length_write_varint_go 5 v).
  rewrite take_app_ge by done.
  rewrite read_write_varint_go by (simpl; lia). simpl Z.of_nat. f_equal. f_equal. lia.
Qed.

Lemma read_varint_go_bounds {PE} i acc input v n :
  (i + length input <= 5)%nat -> Forall is_byte input ->
  0 <= acc < 2 ^ Z.min 32 (Z.of_nat i * 7) ->
  read_varint_go (PE := PE) i acc input = Ok (v, n) ->
  in_u 32 v /\ (i < n <= i + length input)%nat.
Proof.
  revert i acc. induction input as [|b input IH]; intros i acc Hi Hbs Hacc; simpl; [done|].
  apply Forall_cons_1 in Hbs as [Hb Hbs]. simpl in Hi.
  rewrite Z.min_r in Hacc by lia.
  rewrite varint_step_spec by (done || lia). cbv zeta.
  pose proof (Z.mod_pos_bound b 128 ltac:(lia)).
  pose proof (Z.pow_pos_nonneg 2 (Z.of_nat i * 7) ltac:(lia) ltac:(lia)) as Hp.
  destruct (Z.ltb_spec (b mod 128 * 2 ^ (Z.of_nat i * 7)) (2 ^ 32)) as [Hlt|]; [|done].
  set (v' := acc + b mod 128 * 2 ^ (Z.of_nat i * 7)).
  assert (Hv' : 0 <= v' < 2 ^ Z.min 32 (Z.of_nat (S i) * 7)).
  { subst v'. split; [nia|].
    assert (acc + b mod 128 * 2 ^ (Z.of_nat i * 7) < 2 ^ (Z.of_nat (S i) * 7)).
    { replace (Z.of_nat (S i) * 7) with (7 + Z.of_nat i * 7) by lia.
      rewrite Z.pow_add_r by lia. change (2 ^ 7) with 128. nia. }
    destruct (Z.min_spec 32 (Z.of_nat (S i) * 7)) as [[? ->]|[? ->]]; [|done].
    assert (Z.of_nat i * 7 = 28) as Hi4 by lia. rewrite Hi4 in *.
    change (2 ^ 28) with 268435456 in *. change (2 ^ 32) with 4294967296 in *. lia. }
  destruct (b <? 128).
  - intros [= <- <-]. split; [|simpl; lia]. unfold in_u. split; [lia|].
    eapply Z.lt_le_trans; [apply Hv'|]. apply Z.pow_le_mono_r; lia.
  - intros Hr. apply IH in Hr; [simpl; intuition lia|lia|done|done].
Qed.

Lemma read_varint_bounds {PE} input v n :
  Forall is_byte input -> read_varint_u32 (PE := PE) input = Ok (v, n) ->
  in_u 32 v /\ (0 < n <= 5)%nat /\ (n <= length input)%nat.
Proof.
  intros Hbs Hr. pose proof (length_take input 5) as Hl.
  apply read_varint_go_bounds in Hr; [intuition lia|lia|by apply Forall_take|simpl; lia].
Qed.

Lemma length_write_varint_small fuel k v :
  (0 < k)%nat -> 0 <= v < 2 ^ (7 * Z.of_nat k) -> (length (write_varint_go fuel v) <= k)%nat.
Proof.
  revert k v. induction fuel as [|fuel IH]; intros k v Hk Hv; cbn [write_varint_go]; [simpl; lia|].
  destruct (Z.leb_spec 0x80 v); cbn [length]; [|lia].
  destruct k as [|[|k]]; [lia|simpl in Hv; lia|].
  apply le_n_S, IH; [lia|]. rewrite Z.shiftr_div_pow2 by lia.
  split; [apply Z.div_pos; lia|]. apply Z.div_lt_upper_bound; [lia|].
  rewrite <-Z.pow_add_r by lia.
  replace (7 + 7 * Z.of_nat (S k)) with (7 * Z.of_nat (S (S k))) by lia. apply Hv.
Qed.

(** The prefix of a payload length: where it is written, its size, how it reads back. *)
Lemma varint_prefix {PE} v :
  in_u 32 v ->
  exists pre, Forall is_byte pre /\ (forall out, write_varint_u32 v out = out ++ pre) /\
    (v <= MAX_FRAME_SIZE -> len pre <= 3) /\
    forall rest, read_varint_u32 (PE := PE) (pre ++ rest) = Ok (v, length pre).
Proof.
  intros Hv. exists (write_varint_go 5 v). split_and!;
    [by apply write_varint_go_bytes, Hv|done| |by intros; apply read_varint_write].
  intros Hm. pose proof (length_write_varint_small 5 3 v ltac:(lia)) as Hl.
  change (2 ^ (7 * Z.of_nat 3)) with 2097152 in Hl. unfold MAX_FRAME_SIZE, len in *. uint. lia.
Qed.

(** ** Frames *)

Section FrameTheorems.
Context {T PE : Type} `{PostcardLaws T PE}.

(** One frame holds the value: how it is appended, how long it is, how it decodes. *)
Lemma encoded_frame (v : T) (payload : bytes) :
  to_stdvec v = Ok payload -> len payload <= MAX_FRAME_SIZE ->
  exists frame, Forall is_byte frame /\
    (forall out, encode_frame v out = (Ok (len frame), out ++ frame)) /\
    len frame <= len payload + 3 /\
    forall rest, decode_frame (frame ++ rest) = Ok (v, length frame).
Proof.
  intros Hp Hsize.
  assert (Hu : in_u 32 (len payload)).
  { pose proof (len_nonneg payload). unfold MAX_FRAME_SIZE in *. uint. lia. }
  destruct (varint_prefix (PE := PE) (len payload) Hu) as (pre & Hbp & Hw & Hl & Hr).
  specialize (Hl Hsize). exists (pre ++ payload). split_and!.
  - apply Forall_app; split; [done|]. by eapply to_stdvec_bytes.
  - intros out. unfold encode_frame. rewrite Hp, (proj2 (Z.ltb_ge _ _) Hsize).
    unfold wrap. rewrite Z.mod_small by done. rewrite Hw, <-app_assoc.
    f_equal. f_equal. rewrite !len_app. lia.
  - rewrite len_app. lia.
  - intros rest. unfold decode_frame. rewrite <-app_assoc, Hr. cbn [result_bind].
    rewrite (proj2 (Z.ltb_ge _ _) Hsize). pose proof (len_nonneg rest). pose proof (len_nonneg pre).
    unfold checked. change (Z.of_nat (length pre)) with (len pre).
    rewrite decide_True by (uint; lia). cbn [ok_or result_bind].
    rewrite (proj2 (Z.ltb_ge _ _)) by (rewrite !len_app; lia).
    assert (Z.to_nat (len pre + len payload) = (length pre + length payload)%nat)
      as -> by (unfold len; lia).
    rewrite slice_app_r by done.
    replace (length pre + length payload - length pre)%nat with (length payload) by lia.
    rewrite take_app_length, (from_bytes_to_stdvec _ _ Hp). simpl. by rewrite length_app.
Qed.

(** A value whose serialisation fits [MAX_FRAME_SIZE] is encoded by appending one
    frame to the buffer, at most three bytes longer than its payload; the returned count
    is the frame's length, and decoding the frame, whatever bytes follow it, gives back
    the value and consumes exactly the frame. *)
Theorem frame_roundtrip (v : T) (payload out : bytes)
    (Hp : to_stdvec v = Ok payload) (Hsize : len payload <= MAX_FRAME_SIZE) :
  exists frame, encode_frame v out = (Ok (len frame), out ++ frame) /\
    len frame <= len payload + 3 /\
    forall rest, decode_frame (frame ++ rest) = Ok (v, length frame).
Proof.
  destruct (encoded_frame v payload Hp Hsize) as (frame & _ & He & Hl & Hd). by exists frame.
Qed.

(** The successful branch of [decode_frame], spelled out. *)
Lemma decode_frame_Ok (input : bytes) (v : T) (n : nat) :
  Forall is_byte input ->
  decode_frame input = Ok (v, n) <->
  exists size pre, read_varint_u32 (PE := PE) input = Ok (size, pre) /\ size <= MAX_FRAME_SIZE /\
    n = (pre + Z.to_nat size)%nat /\ (n <= length input)%nat /\
    from_bytes (slice pre n input) = Ok v.
Proof.
  intros Hb. unfold decode_frame, len.
  destruct (read_varint_u32 input) as [[size pre]|e] eqn:E; simpl; [|naive_solver].
  pose proof (read_varint_bounds _ _ _ Hb E) as (Hu & Hpre & _). unfold MAX_FRAME_SIZE in *.
  uint. destruct (Z.ltb_spec (64 * 1024) size); [naive_solver lia|].
  unfold checked. rewrite decide_True by (uint; lia). cbn [ok_or result_bind].
  replace (Z.to_nat (Z.of_nat pre + size)) with (pre + Z.to_nat size)%nat by lia.
  destruct (Z.ltb_spec (Z.of_nat (length input)) (Z.of_nat pre + size)).
  - split; [done|]. intros (? & ? & [= <- <-] & ? & -> & ? & ?). lia.
  - split.
    + destruct (from_bytes _) eqn:Ef; [|done]. intros [= -> <-].
      exists size, pre. split_and!; [done|lia|done|lia|done].
    + intros (? & ? & [= <- <-] & ? & -> & ? & Hf). by rewrite Hf.
Qed.

Lemma read_varint_go_prefix i acc (a b : bytes) v n :
  read_varint_go (PE := PE) i acc (a ++ b) = Ok (v, n) -> (n <= i + length a)%nat ->
  read_varint_go (PE := PE) i acc a = Ok (v, n).
Proof.
  revert i acc. induction a as [|x a IH]; intros i acc; simpl.
  - intros Hr Hn. exfalso. revert i acc Hr Hn. induction b as [|y b IHb]; intros i acc; simpl; [done|].
    destruct (varint_step i acc y) as [[z|z]|]; [|intros; simplify_eq; lia|done].
    intros Hr ?. apply IHb in Hr; [done|lia].
  - destruct (varint_step i acc x) as [[z|z]|]; [|done|done].
    intros Hr ?. apply IH; [done|lia].
Qed.

Lemma read_varint_go_Err i acc (input : bytes) (e : FramingError PE) :
  read_varint_go i acc input = Err e -> e = BadVarint.
Proof.
  revert i acc. induction input as [|b input IH]; intros i acc; simpl; [by intros [= <-]|].
  destruct (varint_step i acc b) as [[?|?]|]; naive_solver.
Qed.

Lemma read_varint_u32_Err (input : bytes) (e : FramingError PE) :
  read_varint_u32 input = Err e -> e = BadVarint.
Proof. apply read_varint_go_Err. Qed.

(** Whatever the input, a frame that decodes lies within it: at least one and at
    most [MAX_FRAME_SIZE + 5] bytes are consumed, no more than the input has, and the
    value depends on those bytes only. *)
Theorem decode_frame_consumes (input : bytes) (v : T) (n : nat)
    (Hb : Forall is_byte input) (Hd : decode_frame input = Ok (v, n)) :
  (0 < n <= length input)%nat /\ Z.of_nat n <= MAX_FRAME_SIZE + 5 /\
  decode_frame (take n input) = Ok (v, n).
Proof.
  apply decode_frame_Ok in Hd as (size & pre & Hr & Hs & -> & Hn & Hv); [|done].
  pose proof (read_varint_bounds _ _ _ Hb Hr) as (Hu & Hpre & _). uint. split_and!; [lia|lia|lia|].
  apply decode_frame_Ok; [by apply Forall_take|].
  exists size, pre. rewrite length_take. split_and!; [|done|done|lia|].
  - set (N := (pre + Z.to_nat size)%nat) in *. unfold read_varint_u32 in *.
    rewrite take_take. apply (read_varint_go_prefix _ _ _ (drop (5 `min` N) (take 5 input))).
    + rewrite <-(take_drop (5 `min` N) (take 5 input)), take_take in Hr.
      by replace ((5 `min` N) `min` 5)%nat with (5 `min` N)%nat in Hr by lia.
    + rewrite length_take. subst N. lia.
  - rewrite <-Hv. f_equal. unfold slice. rewrite skipn_firstn_comm, take_take. f_equal. lia.
Qed.
(** ** A run of frames *)

Lemma encode_frame_Ok (v : T) out n frame :
  encode_frame v out = (Ok n, frame) ->
  exists payload, to_stdvec v = Ok payload /\ len payload <= MAX_FRAME_SIZE.
Proof.
  unfold encode_frame. destruct (to_stdvec v) as [p|]; [|done].
  destruct (Z.ltb_spec MAX_FRAME_SIZE (len p)); [done|]. eauto.
Qed.

Lemma read_varint_go_extend i acc (a b : bytes) r :
  read_varint_go (PE := PE) i acc a = Ok r -> read_varint_go (PE := PE) i acc (a ++ b) = Ok r.
Proof.
  revert i acc. induction a as [|x a IH]; intros i acc; simpl; [done|].
  destruct (varint_step i acc x) as [[z|z]|]; auto.
Qed.

(** What decodes still decodes, to the same value, when more bytes arrive. *)
Lemma decode_frame_extend (a b : bytes) (v : T) (n : nat) :
  Forall is_byte a -> Forall is_byte b -> decode_frame a = Ok (v, n) -> decode_frame (a ++ b) = Ok (v, n).
Proof.
  intros Ha Hb. rewrite !decode_frame_Ok by (try done; by apply Forall_app).
  intros (size & pre & Hr & Hs & -> & Hn & Hv). exists size, pre.
  split_and!; [|done|done|rewrite length_app; lia|].
  - unfold read_varint_u32 in *. rewrite take_app. by apply read_varint_go_extend.
  - rewrite <-Hv. unfold slice. f_equal. rewrite drop_app_le by lia.
    rewrite take_app_le; [done|]. rewrite length_drop. lia.
Qed.

(** A frame decodes off the front of its encoding and of nothing shorter. *)
Lemma encoded_front (v : T) (vs : list T) (all : bytes) :
  encode_all (v :: vs) = Some all ->
  exists frame rest, all = frame ++ rest /\ encode_all vs = Some rest /\ (0 < length frame)%nat /\
    Forall is_byte frame /\ (forall more, decode_frame (frame ++ more) = Ok (v, length frame)) /\
    forall a b, frame = a ++ b -> b <> [] -> exists e, decode_frame a = Err e.
Proof.
  cbn [encode_all]. destruct (encode_frame v []) as [[n|e] frame] eqn:Ee; [|done].
  destruct (encode_all vs) as [rest|]; [|done]. intros [= <-].
  destruct (encode_frame_Ok _ _ _ _ Ee) as (payload & Hp & Hl).
  destruct (encoded_frame v payload Hp Hl) as (frame' & Hb & He & _ & Hd).
  rewrite He in Ee. injection Ee as _ <-. simpl. exists frame', rest. split_and!; try done.
  - specialize (Hd []). rewrite app_nil_r in Hd.
    destruct (decode_frame_consumes _ _ _ Hb Hd) as (? & _). lia.
  - intros a b -> Hne. destruct (decode_frame a) as [[v' n']|e] eqn:Ed; [|by eexists].
    apply Forall_app in Hb as [Ha Hb]. pose proof (decode_frame_extend a b _ _ Ha Hb Ed) as Hx.
    pose proof (decode_frame_consumes _ _ _ Ha Ed) as ([_ Hn] & _).
    specialize (Hd []). rewrite app_nil_r in Hd. rewrite Hd in Hx. injection Hx as _ <-.
    rewrite length_app in Hn. destruct b; [done|]. simpl in Hn. lia.
Qed.

Context {S X : Type} `{RecvStreamLaws S PE X}.

Lemma read_varint_loop_spec rounds i acc (s : S) :
  match read_varint_go (PE := PE) i acc (take rounds (rs_pending s)) with
  | Ok (v, n) => exists s', read_varint_loop rounds i acc s = (Ok v, s') /\
      rs_pending s' = drop (n - i) (rs_pending s) /\ (i < n)%nat
  | Err _ => exists e s', read_varint_loop rounds i acc s = (Err e, s') /\
      (e = TE_Framing BadVarint \/
       (length (rs_pending s) < rounds)%nat /\ forall fe, e <> TE_Framing fe)
  end.
Proof.
  revert i acc s. induction rounds as [|rounds IH]; intros i acc s; simpl; [eauto|].
  destruct (rs_pending s) as [|b p] eqn:Ep.
  { destruct (read_exact_short 1 s) as (e & s' & Hr & He); [rewrite Ep; simpl; lia|].
    rewrite Hr. exists e, s'. split; [done|]. right. split; [simpl; lia|done]. }
  destruct (read_exact_enough 1 s) as (s' & Hr & Hp'); [rewrite Ep; simpl; lia|].
  rewrite Ep in Hr, Hp'. rewrite Hr. simpl in Hp' |- *. rewrite ?drop_0 in Hp'.
  destruct (varint_step i acc b) as [[z|z]|]; [|eexists; split_and!; [done| |lia]|eauto].
  - specialize (IH (Datatypes.S i) z s'). rewrite Hp' in IH.
    destruct (read_varint_go _ _ _) as [[v n]|e0].
    + destruct IH as (s2 & ? & Hp2 & ?). exists s2. split_and!; [done| |lia].
      rewrite Hp2. by replace (n - i)%nat with (Datatypes.S (n - Datatypes.S i)) by lia.
    + destruct IH as (e & s2 & ? & He). exists e, s2. split; [done|]. intuition lia.
  - rewrite Hp'. by replace (Datatypes.S i - i)%nat with 1%nat by lia; simpl; rewrite drop_0.
Qed.

Lemma read_frame_spec (s : S) (Hb : Forall is_byte (rs_pending s)) :
  match decode_frame (T := T) (rs_pending s) with
  | Ok (v, n) => exists s', read_frame s = (Ok v, s') /\
      rs_pending s' = drop n (rs_pending s)
  | Err (Truncated _ _) => exists e s', read_frame (T := T) s = (Err e, s') /\
      forall fe, e <> TE_Framing fe
  | Err BadVarint => exists e s', read_frame (T := T) s = (Err e, s') /\
      (e = TE_Framing BadVarint \/
       (length (rs_pending s) < 5)%nat /\ forall fe, e <> TE_Framing fe)
  | Err fe => exists s', read_frame (T := T) s = (Err (TE_Framing fe), s')
  end.
Proof.
  pose proof (read_varint_loop_spec VARINT_MAX_BYTES 0 0 s) as Hv.
  fold (read_varint s) in Hv. unfold decode_frame, read_frame, VARINT_MAX_BYTES in *.
  fold (read_varint_u32 (PE := PE) (rs_pending s)) in Hv.
  destruct (read_varint_u32 (rs_pending s)) as [[size pre]|fe] eqn:Er.
  2: { pose proof (read_varint_u32_Err _ _ Er) as ->. simpl.
       destruct Hv as (e & s' & -> & He). by exists e, s'. }
  pose proof (read_varint_bounds _ _ _ Hb Er) as (Hu & Hpre & Hle).
  destruct Hv as (s' & -> & Hp' & _). rewrite Nat.sub_0_r in Hp'. simpl.
  destruct (MAX_FRAME_SIZE <? size) eqn:Em; [by exists s'|]. apply Z.ltb_ge in Em.
  unfold MAX_FRAME_SIZE, checked, len in *.
  rewrite decide_True by (uint; lia). cbn [ok_or result_bind].
  replace (Z.to_nat (Z.of_nat pre + size)) with (pre + Z.to_nat size)%nat by (uint; lia).
  destruct (Z.ltb_spec (Z.of_nat (length (rs_pending s))) (Z.of_nat pre + size)).
  - destruct (read_exact_short (Z.to_nat size) s') as (e & s2 & -> & He); [|by exists e, s2].
    rewrite Hp', length_drop. lia.
  - destruct (read_exact_enough (Z.to_nat size) s') as (s2 & -> & Hp2).
    { rewrite Hp', length_drop. uint. lia. }
    rewrite Hp' in *. unfold slice.
    replace (pre + Z.to_nat size - pre)%nat with (Z.to_nat size) by lia.
    destruct (from_bytes _) as [v|e]; simpl; [|by exists s2].
    exists s2. split; [done|]. by rewrite Hp2, drop_drop.
Qed.

(** C36: The incremental reader agrees with the buffer decoder on the bytes the stream
    still holds: it returns the same value and leaves the stream just behind the frame, it
    fails with the same framing error, and where the buffer decoder lacks input the
    reader fails with the stream's own error and never with a framing error. *)
Theorem read_frame_agrees (s : S) (Hb : Forall is_byte (rs_pending s)) :
  match decode_frame (T := T) (rs_pending s) with
  | Ok (v, n) => exists s', read_frame s = (Ok v, s') /\
      rs_pending s' = drop n (rs_pending s)
  | Err (Truncated _ _) => exists e s', read_frame (T := T) s = (Err e, s') /\
      forall fe, e <> TE_Framing fe
  | Err BadVarint => exists e s', read_frame (T := T) s = (Err e, s') /\
      (e = TE_Framing BadVarint \/
       (length (rs_pending s) < 5)%nat /\ forall fe, e <> TE_Framing fe)
  | Err fe => exists s', read_frame (T := T) s = (Err (TE_Framing fe), s')
  end.
Proof. by apply read_frame_spec. Qed.

(** Reading frame after frame. *)
Inductive reads : S -> list T -> S -> Prop :=
| reads_nil s : reads s [] s
| reads_cons s v s1 vs s2 : read_frame s = (Ok v, s1) -> reads s1 vs s2 -> reads s (v :: vs) s2.

Lemma encode_all_bytes (vs : list T) (all : bytes) : encode_all vs = Some all -> Forall is_byte all.
Proof.
  revert all. induction vs as [|v vs IH]; intros all He; [by injection He as <-|].
  destruct (encoded_front _ _ _ He) as (frame & r & -> & Hr & _ & Hb & _). apply Forall_app. auto.
Qed.

(** Of any initial part of a run of frames the reader makes the leading values, in order,
    and then fails; of the whole run it makes all of them. *)
Lemma reads_prefix (vs : list T) (all : bytes) (s : S) :
  encode_all vs = Some all -> rs_pending s `prefix_of` all ->
  exists seen more s', vs = seen ++ more /\ reads s seen s' /\
    (more <> [] -> exists e s2, read_frame (T := T) s' = (Err e, s2)) /\
    (rs_pending s = all -> more = [] /\ rs_pending s' = []).
Proof.
  revert all s. induction vs as [|v vs IH]; intros all s He Hp.
  { injection He as <-. apply prefix_nil_inv in Hp. exists [], [], s. by split_and!; [|constructor| |]. }
  pose proof (encode_all_bytes _ _ He) as Hall.
  destruct (encoded_front _ _ _ He) as (frame & r & -> & Hr & Hlen & Hb & Hd & Hshort).
  destruct Hp as [k Hk]. assert (Hbs : Forall is_byte (rs_pending s)) by (rewrite Hk in Hall; by apply Forall_app in Hall as [? _]).
  pose proof (read_frame_spec s Hbs) as Hs.
  destruct (prefix_weak_total frame (rs_pending s) (frame ++ r)) as [[g Eg]|[b Eb]];
    [by apply prefix_app_r|by exists k| |].
  - rewrite Eg, Hd, drop_app_length in Hs. destruct Hs as (s1 & Hs1 & Hp1). rewrite Eg, <-app_assoc in Hk.
    apply app_inv_head in Hk. destruct (IH r s1 Hr) as (seen & more & s' & -> & Hrd & Hm & Hw).
    { rewrite Hp1, Hk. by exists k. }
    exists (v :: seen), more, s'. split_and!; [done|by econstructor|done|].
    rewrite Eg, <-Hp1. intros E%app_inv_head. by apply Hw.
  - destruct (decide (b = [])) as [->|Hne].
    { rewrite app_nil_r in Eb. subst frame. specialize (Hd []). rewrite app_nil_r in Hd. rewrite Hd, drop_all in Hs.
      destruct Hs as (s1 & Hs1 & Hp1). destruct (IH r s1 Hr) as (seen & more & s' & -> & Hrd & Hm & Hw).
      { rewrite Hp1. apply prefix_nil. }
      exists (v :: seen), more, s'. split_and!; [done|by econstructor|done|]. intros E. apply Hw.
      rewrite Hp1. apply (f_equal length) in E. rewrite length_app in E. by destruct r; simpl in E; [|lia]. }
    destruct (Hshort _ _ Eb Hne) as [e Hde]. rewrite Hde in Hs. exists [], (v :: vs), s.
    split_and!; [done|constructor| |].
    + intros _. destruct e; destruct Hs as (? & Hs); try (destruct Hs as (? & Hs & _)); eauto.
    + intros E. apply (f_equal length) in E, Eb. rewrite !length_app in *. destruct b; [done|]. simpl in *. lia.
Qed.


(** Reading the frame of a value off a stream. *)
Lemma read_frame_encoded (v : T) (payload : bytes) :
  to_stdvec v = Ok payload -> len payload <= MAX_FRAME_SIZE ->
  exists frame, Forall is_byte frame /\
    (forall out, encode_frame v out = (Ok (len frame), out ++ frame)) /\
    forall s rest, Forall is_byte rest -> rs_pending s = frame ++ rest ->
      exists s', read_frame s = (Ok v, s') /\ rs_pending s' = rest.
Proof.
  intros Hp Hs. destruct (encoded_frame v payload Hp Hs) as (frame & Hb & He & _ & Hd).
  exists frame. split_and!; [done|done|]. intros s rest Hrest Hpend.
  pose proof (read_frame_spec s) as Hr. rewrite Hpend, Hd in Hr.
  destruct Hr as (s' & Hr & Hp'); [by apply Forall_app|].
  exists s'. split; [done|]. by rewrite Hp', drop_app_length.
Qed.
End FrameTheorems.

(** ** Witnesses

    [postcard]'s encoding of a [bool], and a stream that is a byte buffer. *)
#[local] Instance postcard_bool : Postcard bool unit := {|
  to_stdvec (b : bool) := Ok (if b then [1] else [0]);
  from_bytes (bs : bytes) := match bs with [0] => Ok false | [1] => Ok true | _ => Err tt end;
|}.

#[local] Instance postcard_bool_laws : PostcardLaws bool unit.
Proof.
  split.
  - intros [] bs [= <-]; solve_bytes.
  - by intros [] bs [= <-].
Qed.

#[local] Instance buffer_stream : RecvStream bytes unit unit := {|
  read_exact n (s : bytes) := if decide (n <= length s)%nat then (Ok (take n s), drop n s)
                    else (Err TE_UnexpectedEof, []);
  rs_pending (s : bytes) := s;
|}.

#[local] Instance buffer_stream_laws : RecvStreamLaws bytes unit unit.
Proof.
  split; intros n s Hn; simpl in *.
  - rewrite decide_True by done. by eexists.
  - rewrite decide_False by lia. by eexists _, _.
Qed.

Lemma frame_roundtrip_witness :
  exists frame, encode_frame true [9; 9] = (Ok (len frame), [9; 9] ++ frame) /\
    len frame <= len [1] + 3 /\
    forall rest, decode_frame (frame ++ rest) = Ok (true, length frame).
Proof. apply (frame_roundtrip true [1] [9; 9]); [reflexivity|vm_compute; congruence]. Defined.

Lemma decode_frame_consumes_witness :
  (0 < 2 <= length [1; 1; 7]%Z)%nat /\ Z.of_nat 2 <= MAX_FRAME_SIZE + 5 /\
  decode_frame (take 2 [1; 1; 7]) = Ok (true, 2%nat).
Proof. apply decode_frame_consumes; [solve_bytes|reflexivity]. Defined.

Lemma read_frame_agrees_witness :
  exists s', read_frame [1; 1; 7] = (Ok true, s') /\ rs_pending s' = [7].
Proof.
  assert (Hb : Forall is_byte (rs_pending [1; 1; 7])) by solve_bytes.
  pose proof (read_frame_agrees (T := bool) (PE := unit) (X := unit) [1; 1; 7] Hb) as Hr.
  assert (decode_frame (rs_pending [1; 1; 7]) = Ok (true, 2%nat)) as E by (vm_compute; reflexivity).
  rewrite E in Hr. exact Hr.
Defined.
