(* ===== verification/Types.v ===== *)
(** * Types: handles and errors the server components share

    The runtime objects the server only passes around (a transport connection, a
    bound listener, the abort handle of a task, the shared rate-limit state of an
    identity) are opaque handles; [ServerError] is [krot-server/src/error.rs]. *)

From S2P Require Import Prelude RustStr Wire Framing.

Local Open Scope Z_scope.

(** [krot_transport::Connection]. *)
Record Connection := { conn_handle : Z }.
(** [tokio::task::AbortHandle]. *)
Record AbortHandle := { abort_handle : Z }.
(** [Arc<tokio::net::TcpListener>]. *)
Record TcpListener := { listener_handle : Z }.
(** [Arc<RateLimitState>]. *)
Record RateRef := { rate_handle : Z }.

#[global] Instance Connection_eq_dec : EqDecision Connection.
Proof. solve_decision. Defined.
#[global] Instance AbortHandle_eq_dec : EqDecision AbortHandle.
Proof. solve_decision. Defined.
#[global] Instance TcpListener_eq_dec : EqDecision TcpListener.
Proof. solve_decision. Defined.
#[global] Instance RateRef_eq_dec : EqDecision RateRef.
Proof. solve_decision. Defined.

(** Third-party error payloads are opaque codes. *)
Abbreviation TErr := (TransportError Z Z).

Inductive ServerError :=
| SE_Io (e : Z)
| SE_Transport (e : TErr)
| SE_Rustls (e : Z)
| SE_Rcgen (e : Z)
| SE_Keys (msg : str)
| SE_AdminToken (msg : str)
| SE_Protocol (msg : str)
| SE_PortPoolExhausted.
