(* ===== verification/Registry.v ===== *)
(** * Registry: the tunnel table and the session-resume lease

    [krot-server/src/registry.rs].  The table maps tunnel ids to tunnels, with a
    reverse index from HTTP labels, a pool of TCP ports and the reservations of
    labels and ports; a tunnel whose connection died without a [Bye] dangles until
    it is resumed or reaped.

    Each operation of the source holds the mutex from entry to exit, so operations
    of concurrent sessions interleave as whole steps: [run] executes any such
    sequence.  A reservation made by [allocate_tcp] or [allocate_http] and not yet
    published by [insert] is kept in [rw_pending], ghost state that the invariant
    needs and no operation reads except the guard of [OpInsert], which states how
    [session.rs] calls [insert]: with the id and kind it has just allocated, and with
    a listener exactly when the tunnel is a TCP one. *)

From S2P Require Import Prelude RustStr Wire Types.

Local Open Scope Z_scope.

(** ** Data *)

Inductive RegisteredKind :=
| RK_Tcp (public_port : Z)
| RK_Http (label : str).

#[global] Instance RegisteredKind_eq_dec : EqDecision RegisteredKind.
Proof. solve_decision. Defined.

Inductive TunnelState :=
| Live (connection : Connection) (abort : option AbortHandle)
| Dangling (expires_at : Z).

Record TunnelInfo := {
  ti_id : TunnelId;
  ti_owner : PubKey;
  ti_session_id : SessionId;
  ti_kind : RegisteredKind;
  ti_state : TunnelState;
  ti_tcp_listener : option TcpListener;
  ti_rate : RateRef;
  ti_inspect : bool;
}.

(** [TunnelRegistry] with the [State] behind its mutex; the pool is the inclusive
    range [port_lo..=port_hi]. *)
Record TunnelRegistry := {
  tr_port_lo : Z;
  tr_port_hi : Z;
  tr_next_id : Z;
  tr_used_ports : gset Z;
  tr_used_labels : gset str;
  tr_tunnels : gmap TunnelId TunnelInfo;
  tr_labels : gmap str TunnelId;
}.

Inductive TunnelSnapshotKind :=
| TSK_Http (label : str)
| TSK_Tcp (public_port : Z).

Record TunnelSnapshot := {
  ts_tunnel_id : TunnelId;
  ts_owner : PubKey;
  ts_session_id : SessionId;
  ts_inspect : bool;
  ts_kind : TunnelSnapshotKind;
  ts_live : bool;
}.

Record ResolvedTunnel := {
  rt_id : TunnelId;
  rt_connection : Connection;
  rt_rate : RateRef;
  rt_inspect : bool;
}.

Inductive ResumedInfo :=
| RI_Http (label : str)
| RI_Tcp (public_port : Z) (listener : TcpListener).

Inductive ResumeOutcome :=
| Reattached (tunnel_id : TunnelId) (info : ResumedInfo) (inspect : bool)
| ResumeUnknown
| IdentityMismatch.

(** Field updates. *)
Definition with_state (st : TunnelState) (i : TunnelInfo) : TunnelInfo :=
  {| ti_id := ti_id i; ti_owner := ti_owner i; ti_session_id := ti_session_id i;
     ti_kind := ti_kind i; ti_state := st; ti_tcp_listener := ti_tcp_listener i;
     ti_rate := ti_rate i; ti_inspect := ti_inspect i |}.

Definition with_tunnels (m : gmap TunnelId TunnelInfo) (r : TunnelRegistry) : TunnelRegistry :=
  {| tr_port_lo := tr_port_lo r; tr_port_hi := tr_port_hi r; tr_next_id := tr_next_id r;
     tr_used_ports := tr_used_ports r; tr_used_labels := tr_used_labels r;
     tr_tunnels := m; tr_labels := tr_labels r |}.

Definition is_dangling (st : TunnelState) : bool :=
  match st with Dangling _ => true | Live _ _ => false end.

Definition is_tcp (k : RegisteredKind) : bool :=
  match k with RK_Tcp _ => true | RK_Http _ => false end.

Definition has_listener (info : TunnelInfo) : bool :=
  match ti_tcp_listener info with Some _ => true | None => false end.

(** The abort handle a dropped live state fires. *)
Definition fired (st : TunnelState) : list AbortHandle :=
  match st with Live _ (Some a) => [a] | _ => [] end.

(** ** Operations *)

Definition TunnelRegistry_new (lo hi : Z) : TunnelRegistry :=
  {| tr_port_lo := lo; tr_port_hi := hi; tr_next_id := 1; tr_used_ports := ∅;
     tr_used_labels := ∅; tr_tunnels := ∅; tr_labels := ∅ |}.

Definition fresh_id (r : TunnelRegistry) : TunnelId * TunnelRegistry :=
  ({| tid_raw := tr_next_id r |},
   {| tr_port_lo := tr_port_lo r; tr_port_hi := tr_port_hi r;
      tr_next_id := default 1 (checked 64 (tr_next_id r + 1));
      tr_used_ports := tr_used_ports r; tr_used_labels := tr_used_labels r;
      tr_tunnels := tr_tunnels r; tr_labels := tr_labels r |}).

(** The ports of an inclusive range, in increasing order. *)
Definition port_range (lo hi : Z) : list Z := seqZ lo (hi - lo + 1).

Definition pick_free_port (lo hi : Z) (used : gset Z) (allowlist : option (list Z)) : option Z :=
  find_first (fun p =>
    if bool_decide (p ∈ used) then false
    else match allowlist with
         | Some l => bool_decide (p ∈ l)
         | None => true
         end) (port_range lo hi).

Definition allocate_tcp (allowlist : option (list Z)) (r : TunnelRegistry) :
    Result (TunnelId * Z) ServerError * TunnelRegistry :=
  match pick_free_port (tr_port_lo r) (tr_port_hi r) (tr_used_ports r) allowlist with
  | None => (Err SE_PortPoolExhausted, r)
  | Some port =>
    let r := {| tr_port_lo := tr_port_lo r; tr_port_hi := tr_port_hi r;
                tr_next_id := tr_next_id r;
                tr_used_ports := {[ port ]} ∪ tr_used_ports r;
                tr_used_labels := tr_used_labels r;
                tr_tunnels := tr_tunnels r; tr_labels := tr_labels r |} in
    let (id, r) := fresh_id r in
    (Ok (id, port), r)
  end.

Definition allocate_http (label : str) (r : TunnelRegistry) :
    Result TunnelId ServerError * TunnelRegistry :=
  if bool_decide (label ∈ tr_used_labels r)
  then (Err (SE_Keys (lit "label taken: " ++ label)), r)
  else
    let r := {| tr_port_lo := tr_port_lo r; tr_port_hi := tr_port_hi r;
                tr_next_id := tr_next_id r; tr_used_ports := tr_used_ports r;
                tr_used_labels := {[ label ]} ∪ tr_used_labels r;
                tr_tunnels := tr_tunnels r; tr_labels := tr_labels r |} in
    let (id, r) := fresh_id r in
    (Ok id, r).

Definition TunnelRegistry_insert (info : TunnelInfo) (r : TunnelRegistry) : TunnelRegistry :=
  let labels :=
    match ti_kind info with
    | RK_Http label => <[label := ti_id info]> (tr_labels r)
    | RK_Tcp _ => tr_labels r
    end in
  {| tr_port_lo := tr_port_lo r; tr_port_hi := tr_port_hi r; tr_next_id := tr_next_id r;
     tr_used_ports := tr_used_ports r; tr_used_labels := tr_used_labels r;
     tr_tunnels := <[ti_id info := info]> (tr_tunnels r); tr_labels := labels |}.

Definition resolve_label (label : str) (r : TunnelRegistry) : option ResolvedTunnel :=
  id ← tr_labels r !! label;
  info ← tr_tunnels r !! id;
  match ti_state info with
  | Live connection _ =>
    Some {| rt_id := id; rt_connection := connection; rt_rate := ti_rate info;
            rt_inspect := ti_inspect info |}
  | Dangling _ => None
  end.

(** The registry afterwards, and the abort handles fired. *)
Definition remove_locked (id : TunnelId) (r : TunnelRegistry) :
    TunnelRegistry * list AbortHandle :=
  match tr_tunnels r !! id with
  | None => (r, [])
  | Some info =>
    let tunnels := delete id (tr_tunnels r) in
    let r' :=
      match ti_kind info with
      | RK_Tcp public_port =>
        {| tr_port_lo := tr_port_lo r; tr_port_hi := tr_port_hi r; tr_next_id := tr_next_id r;
           tr_used_ports := tr_used_ports r ∖ {[ public_port ]};
           tr_used_labels := tr_used_labels r; tr_tunnels := tunnels;
           tr_labels := tr_labels r |}
      | RK_Http label =>
        {| tr_port_lo := tr_port_lo r; tr_port_hi := tr_port_hi r; tr_next_id := tr_next_id r;
           tr_used_ports := tr_used_ports r;
           tr_used_labels := tr_used_labels r ∖ {[ label ]}; tr_tunnels := tunnels;
           tr_labels := delete label (tr_labels r) |}
      end in
    (r', fired (ti_state info))
  end.

Definition TunnelRegistry_remove (id : TunnelId) (r : TunnelRegistry) :
    TunnelRegistry * list AbortHandle := remove_locked id r.

(** The [for id in ids] loop of the two bulk removals. *)
Fixpoint remove_each (ids : list TunnelId) (r : TunnelRegistry) :
    TunnelRegistry * list AbortHandle :=
  match ids with
  | [] => (r, [])
  | id :: ids =>
    let (r, a) := remove_locked id r in
    let (r, b) := remove_each ids r in
    (r, a ++ b)
  end.

(** The ids of the tunnels that satisfy a test, in the table's iteration order. *)
Definition ids_where (p : TunnelInfo -> bool) (r : TunnelRegistry) : list TunnelId :=
  omap (fun kv => if p kv.2 then Some kv.1 else None) (map_to_list (tr_tunnels r)).

Definition owned_by (owner : PubKey) (info : TunnelInfo) : bool :=
  bool_decide (ti_owner info = owner).

Definition remove_all_owned_by (owner : PubKey) (r : TunnelRegistry) :
    TunnelRegistry * list AbortHandle := remove_each (ids_where (owned_by owner) r) r.

Fixpoint dangle_each (expires_at : Z) (ids : list TunnelId) (r : TunnelRegistry) :
    TunnelRegistry * list AbortHandle :=
  match ids with
  | [] => (r, [])
  | id :: ids =>
    match tr_tunnels r !! id with
    | None => dangle_each expires_at ids r
    | Some info =>
      if is_dangling (ti_state info) then dangle_each expires_at ids r
      else
        let r := with_tunnels (<[id := with_state (Dangling expires_at) info]> (tr_tunnels r)) r in
        let (r, b) := dangle_each expires_at ids r in
        (r, fired (ti_state info) ++ b)
    end
  end.

(** [now] is the value of [Instant::now()]. *)
Definition mark_dangling (now : Z) (owner : PubKey) (grace : Z) (r : TunnelRegistry) :
    TunnelRegistry * list AbortHandle :=
  dangle_each (now + grace) (ids_where (owned_by owner) r) r.

Definition lease_expired (now : Z) (info : TunnelInfo) : bool :=
  match ti_state info with
  | Dangling expires_at => expires_at <=? now
  | Live _ _ => false
  end.

Definition reap_expired (now : Z) (r : TunnelRegistry) :
    nat * (TunnelRegistry * list AbortHandle) :=
  let ids := ids_where (lease_expired now) r in
  (length ids, remove_each ids r).

(** The search of [try_resume] for a dangling TCP tunnel of the session; [order] is the
    order in which the hash map yields its keys. *)
Definition find_tcp_of_session (order : list TunnelId) (session_id : SessionId)
    (r : TunnelRegistry) : option TunnelId :=
  find_map (fun id =>
    match tr_tunnels r !! id with
    | None => None
    | Some info =>
      if bool_decide (ti_session_id info <> session_id) then None
      else if negb (is_dangling (ti_state info)) then None
      else if negb (is_tcp (ti_kind info)) then None
      else Some id
    end) order.

Definition try_resume (order : list TunnelId) (label : str) (session_id : SessionId)
    (pubkey : PubKey) (connection : Connection) (r : TunnelRegistry) :
    ResumeOutcome * TunnelRegistry :=
  let candidate :=
    match tr_labels r !! label with
    | Some id => Some id
    | None => find_tcp_of_session order session_id r
    end in
  match candidate with
  | None => (ResumeUnknown, r)
  | Some id =>
    match tr_tunnels r !! id with
    | None => (ResumeUnknown, r)
    | Some info =>
      if negb (is_dangling (ti_state info)) then (ResumeUnknown, r)
      else if bool_decide (ti_session_id info <> session_id) then (ResumeUnknown, r)
      else if bool_decide (ti_owner info <> pubkey) then (IdentityMismatch, r)
      else
        let r' := with_tunnels (<[id := with_state (Live connection None) info]> (tr_tunnels r)) r in
        match ti_kind info with
        | RK_Http l => (Reattached id (RI_Http l) (ti_inspect info), r')
        | RK_Tcp public_port =>
          match ti_tcp_listener info with
          | None => (ResumeUnknown, r')
          | Some listener => (Reattached id (RI_Tcp public_port listener) (ti_inspect info), r')
          end
        end
    end
  end.

Definition set_tcp_abort (id : TunnelId) (new_abort : AbortHandle) (r : TunnelRegistry) :
    TunnelRegistry :=
  match tr_tunnels r !! id with
  | Some info =>
    match ti_state info with
    | Live connection _ =>
      with_tunnels (<[id := with_state (Live connection (Some new_abort)) info]> (tr_tunnels r)) r
    | Dangling _ => r
    end
  | None => r
  end.

Definition snapshot_of (info : TunnelInfo) : TunnelSnapshot :=
  {| ts_tunnel_id := ti_id info; ts_owner := ti_owner info;
     ts_session_id := ti_session_id info; ts_inspect := ti_inspect info;
     ts_kind := match ti_kind info with
                | RK_Http label => TSK_Http label
                | RK_Tcp public_port => TSK_Tcp public_port
                end;
     ts_live := negb (is_dangling (ti_state info)) |}.

Definition snapshot (r : TunnelRegistry) : list TunnelSnapshot :=
  map (fun kv => snapshot_of kv.2) (map_to_list (tr_tunnels r)).

Definition TunnelRegistry_len (r : TunnelRegistry) : nat := size (tr_tunnels r).

Definition TunnelRegistry_is_empty (r : TunnelRegistry) : bool :=
  Nat.eqb (TunnelRegistry_len r) 0.

Definition count_owned_by (owner : PubKey) (r : TunnelRegistry) : nat :=
  length (List.filter (fun kv => owned_by owner kv.2) (map_to_list (tr_tunnels r))).

(** ** The label grammar *)

Definition is_label_alnum (b : Z) : bool := is_ascii_lower b || is_ascii_digit b.

Definition is_valid_label (label : str) : bool :=
  if bool_decide (label = lit "admin") then false
  else
    let bs := str_bytes label in
    let n := length bs in
    if negb (bool_decide (1 <= n <= 63)%nat) then false
    else if negb (is_label_alnum (nth 0 bs 0)) || negb (is_label_alnum (nth (n - 1) bs 0))
    then false
    else if bool_decide (n < 3)%nat then true
    else forallb (fun b => is_label_alnum b || (b =? 45)) (slice 1 (n - 1) bs).

(** ** Sequences of operations *)

(** The registry, the reservations handed out and not yet published, and the abort
    handles fired so far. *)
Record RegWorld := {
  rw_reg : TunnelRegistry;
  rw_pending : gmap TunnelId RegisteredKind;
  rw_aborted : list AbortHandle;
}.

Inductive RegOp :=
| OpAllocateTcp (allowlist : option (list Z))
| OpAllocateHttp (label : str)
| OpInsert (info : TunnelInfo)
| OpRemove (id : TunnelId)
| OpRemoveAll (owner : PubKey)
| OpMarkDangling (now : Z) (owner : PubKey) (grace : Z)
| OpReap (now : Z)
| OpTryResume (order : list TunnelId) (label : str) (session_id : SessionId)
              (pubkey : PubKey) (connection : Connection)
| OpSetTcpAbort (id : TunnelId) (a : AbortHandle).

Definition exec_op (o : RegOp) (w : RegWorld) : RegWorld :=
  let r := rw_reg w in
  let keep r' := {| rw_reg := r'; rw_pending := rw_pending w; rw_aborted := rw_aborted w |} in
  let fire ra := {| rw_reg := ra.1; rw_pending := rw_pending w;
                    rw_aborted := rw_aborted w ++ ra.2 |} in
  match o with
  | OpAllocateTcp allow =>
    match allocate_tcp allow r with
    | (Ok (id, port), r') =>
      {| rw_reg := r'; rw_pending := <[id := RK_Tcp port]> (rw_pending w);
         rw_aborted := rw_aborted w |}
    | (Err _, r') => keep r'
    end
  | OpAllocateHttp label =>
    match allocate_http label r with
    | (Ok id, r') =>
      {| rw_reg := r'; rw_pending := <[id := RK_Http label]> (rw_pending w);
         rw_aborted := rw_aborted w |}
    | (Err _, r') => keep r'
    end
  | OpInsert info =>
    if decide (rw_pending w !! ti_id info = Some (ti_kind info) /\
               has_listener info = is_tcp (ti_kind info))
    then {| rw_reg := TunnelRegistry_insert info r;
            rw_pending := delete (ti_id info) (rw_pending w); rw_aborted := rw_aborted w |}
    else w
  | OpRemove id => fire (TunnelRegistry_remove id r)
  | OpRemoveAll owner => fire (remove_all_owned_by owner r)
  | OpMarkDangling now owner grace => fire (mark_dangling now owner grace r)
  | OpReap now => fire (reap_expired now r).2
  | OpTryResume order label sid pk c => keep (try_resume order label sid pk c r).2
  | OpSetTcpAbort id a => keep (set_tcp_abort id a r)
  end.

Definition run (ops : list RegOp) (w : RegWorld) : RegWorld :=
  foldl (fun w o => exec_op o w) w ops.

Definition initial (lo hi : Z) : RegWorld :=
  {| rw_reg := TunnelRegistry_new lo hi; rw_pending := ∅; rw_aborted := [] |}.

(** ** The invariant *)

(** Tunnel [id] holds the port or label [k]: published, or reserved and pending. *)
Definition holds (w : RegWorld) (id : TunnelId) (k : RegisteredKind) : Prop :=
  (exists info, tr_tunnels (rw_reg w) !! id = Some info /\ ti_kind info = k) \/
  rw_pending w !! id = Some k.

Record reg_inv (w : RegWorld) : Prop := {
  (** Tunnels are filed under their own id. *)
  inv_id : forall id info, tr_tunnels (rw_reg w) !! id = Some info -> ti_id info = id;
  inv_counter : 1 <= tr_next_id (rw_reg w);
  (** Ids are below the counter. *)
  inv_next : forall id k, holds w id k -> 1 <= tid_raw id < tr_next_id (rw_reg w);
  (** A pending id is not published. *)
  inv_pending : forall id k, rw_pending w !! id = Some k -> tr_tunnels (rw_reg w) !! id = None;
  (** No two tunnels hold the same port or label. *)
  inv_unique : forall id1 id2 k, holds w id1 k -> holds w id2 k -> id1 = id2;
  (** The reservation sets are exactly what is held. *)
  inv_ports : forall p, p ∈ tr_used_ports (rw_reg w) <-> exists id, holds w id (RK_Tcp p);
  inv_used_labels : forall l,
    l ∈ tr_used_labels (rw_reg w) <-> exists id, holds w id (RK_Http l);
  (** The reverse index lists exactly the published HTTP tunnels. *)
  inv_labels : forall l id, tr_labels (rw_reg w) !! l = Some id <->
    exists info, tr_tunnels (rw_reg w) !! id = Some info /\ ti_kind info = RK_Http l;
  (** TCP tunnels keep their listener. *)
  inv_listener : forall id info, tr_tunnels (rw_reg w) !! id = Some info ->
    has_listener info = is_tcp (ti_kind info);
  (** Ports come from the pool. *)
  inv_pool : forall id p, holds w id (RK_Tcp p) ->
    tr_port_lo (rw_reg w) <= p <= tr_port_hi (rw_reg w);
}.

(** ** Preservation *)

Lemma inv_initial lo hi : reg_inv (initial lo hi).
Proof.
  assert (Hno : forall id k, ~ holds (initial lo hi) id k).
  { intros id k [(info & H & _)|H]; by simplify_map_eq/=. }
  split; simpl; try done; intros.
  - by apply Hno in H.
  - by apply Hno in H.
  - split; [set_solver|]. by intros [id ?%Hno].
  - split; [set_solver|]. by intros [id ?%Hno].
  - split; [done|]. by intros (? & ? & ?).
  - by apply Hno in H.
Qed.

(** The part of a tunnel the invariant reads. *)
Definition signature_of (info : TunnelInfo) :
    TunnelId * RegisteredKind * option TcpListener :=
  (ti_id info, ti_kind info, ti_tcp_listener info).

Lemma signature_lookup (m m' : gmap TunnelId TunnelInfo) id info :
  signature_of <$> m' = signature_of <$> m -> m' !! id = Some info ->
  exists info', m !! id = Some info' /\ ti_id info' = ti_id info /\
    ti_kind info' = ti_kind info /\ has_listener info' = has_listener info.
Proof.
  intros Hs Hi. apply (f_equal (fun m => m !! id)) in Hs. rewrite !lookup_fmap, Hi in Hs.
  destruct (m !! id) as [info'|]; simpl in Hs; [|done]. exists info'.
  unfold signature_of in Hs. injection Hs as Hs1 Hs2 Hs3.
  unfold has_listener. by rewrite Hs1, Hs2, Hs3.
Qed.

(** An update of leases and connections keeps the invariant. *)
Lemma inv_same_signature w m aborted :
  reg_inv w -> signature_of <$> m = signature_of <$> tr_tunnels (rw_reg w) ->
  reg_inv {| rw_reg := with_tunnels m (rw_reg w); rw_pending := rw_pending w;
             rw_aborted := aborted |}.
Proof.
  intros I Hs. set (w' := Build_RegWorld _ _ _).
  assert (Hh : forall id k, holds w' id k <-> holds w id k).
  { intros id k. unfold holds. simpl. split; (intros [(i & Hi & <-)|?]; [left|by right]).
    - destruct (signature_lookup _ _ _ _ Hs Hi) as (i' & ? & _ & ? & _). eauto.
    - destruct (signature_lookup _ _ _ _ (eq_sym Hs) Hi) as (i' & ? & _ & ? & _). eauto. }
  split; intros; simpl in *; try setoid_rewrite Hh in H; try setoid_rewrite Hh; try by apply I.
  - destruct (signature_lookup _ _ _ _ Hs H) as (i' & Hi & <- & _). by apply (inv_id w I).
  - by eapply inv_next.
  - destruct (m !! id) as [i|] eqn:E; [|done].
    destruct (signature_lookup _ _ _ _ Hs E) as (i' & Hi & _).
    by rewrite (inv_pending w I _ _ H) in Hi.
  - eapply (inv_unique w I); [done|]. by apply Hh.
  - rewrite (inv_labels w I). split; intros (i & Hi & Hk).
    + destruct (signature_lookup _ _ _ _ (eq_sym Hs) Hi) as (i' & ? & _ & ? & _).
      exists i'. by rewrite <-Hk.
    + destruct (signature_lookup _ _ _ _ Hs Hi) as (i' & ? & _ & ? & _).
      exists i'. by rewrite <-Hk.
  - destruct (signature_lookup _ _ _ _ Hs H) as (i' & Hi & _ & <- & <-). by eapply inv_listener.
  - by eapply inv_pool.
Qed.

(** The invariant ignores the log of fired handles. *)
Lemma inv_log w aborted :
  reg_inv w ->
  reg_inv {| rw_reg := rw_reg w; rw_pending := rw_pending w; rw_aborted := aborted |}.
Proof. intros []. by split. Qed.

(** Dropping a published tunnel with everything it holds. *)
Lemma inv_drop w id info r' aborted :
  reg_inv w -> tr_tunnels (rw_reg w) !! id = Some info ->
  tr_port_lo r' = tr_port_lo (rw_reg w) -> tr_port_hi r' = tr_port_hi (rw_reg w) ->
  tr_next_id r' = tr_next_id (rw_reg w) ->
  tr_tunnels r' = delete id (tr_tunnels (rw_reg w)) ->
  (forall p, p ∈ tr_used_ports r' <-> p ∈ tr_used_ports (rw_reg w) /\ ti_kind info <> RK_Tcp p) ->
  (forall l, l ∈ tr_used_labels r' <->
             l ∈ tr_used_labels (rw_reg w) /\ ti_kind info <> RK_Http l) ->
  (forall l j, tr_labels r' !! l = Some j <->
               tr_labels (rw_reg w) !! l = Some j /\ ti_kind info <> RK_Http l) ->
  reg_inv {| rw_reg := r'; rw_pending := rw_pending w; rw_aborted := aborted |}.
Proof.
  intros I Hid Hlo Hhi Hnx Ht Hp Hu Hl. set (w' := Build_RegWorld _ _ _).
  assert (Hmine : forall k, holds w id k -> k = ti_kind info).
  { intros k [(i & Hi & <-)|Hk]; [by rewrite Hid in Hi; simplify_eq|].
    by rewrite (inv_pending w I _ _ Hk) in Hid. }
  assert (Hown : holds w id (ti_kind info)) by (left; eauto).
  assert (Hh : forall j k, holds w' j k <-> holds w j k /\ ti_kind info <> k).
  { intros j k. destruct (decide (j = id)) as [->|Hne].
    - split; [|intros [->%Hmine ?]; done]. unfold holds; simpl. rewrite Ht.
      intros [(i & Hi & _)|Hk]; [by rewrite lookup_delete_eq in Hi|].
      by rewrite (inv_pending w I _ _ Hk) in Hid.
    - assert (holds w' j k <-> holds w j k) as ->.
      { unfold holds; simpl. by rewrite Ht, lookup_delete_ne. }
      split; [|by intros []]. intros Hj. split; [done|]. intros <-.
      by apply Hne, (inv_unique w I _ _ _ Hj Hown). }
  split; intros; simpl in *; rewrite ?Hlo, ?Hhi, ?Hnx.
  - rewrite Ht in H. apply lookup_delete_Some in H as [_ H]. by apply (inv_id w I).
  - apply I.
  - apply Hh in H as [H _]. by eapply inv_next.
  - rewrite Ht. apply lookup_delete_None. right. by eapply inv_pending.
  - apply Hh in H as [H _]. apply Hh in H0 as [H0 _]. by eapply inv_unique.
  - rewrite Hp, (inv_ports w I). setoid_rewrite Hh. naive_solver.
  - rewrite Hu, (inv_used_labels w I). setoid_rewrite Hh. naive_solver.
  - rewrite Hl, (inv_labels w I), Ht. setoid_rewrite lookup_delete_Some. split.
    + intros [(i & Hi & Hk) Hne]. exists i. split_and!; [|done|done]. intros <-.
      by rewrite Hid in Hi; simplify_eq.
    + intros (i & [Hne Hi] & Hk). split; [eauto|]. intros Hk'.
      apply Hne, (inv_unique w I _ _ _ Hown). left. exists i. by rewrite Hk'.
  - rewrite Ht in H. apply lookup_delete_Some in H as [_ H]. by eapply inv_listener.
  - apply Hh in H as [H _]. by eapply inv_pool.
Qed.

Lemma inv_remove_locked w id aborted :
  reg_inv w ->
  reg_inv {| rw_reg := (remove_locked id (rw_reg w)).1; rw_pending := rw_pending w;
             rw_aborted := aborted |}.
Proof.
  intros I. unfold remove_locked.
  destruct (tr_tunnels (rw_reg w) !! id) as [info|] eqn:Hid; [|by apply inv_log].
  apply (inv_drop w id info); [done|done| | | | | | |]; simpl;
    destruct (ti_kind info); simpl; try done; intros.
  - set_solver.
  - set_solver.
  - set_solver.
  - set_solver.
  - split; [done|naive_solver].
  - rewrite lookup_delete_Some. naive_solver.
Qed.

Lemma inv_remove_each w ids aborted :
  reg_inv w ->
  reg_inv {| rw_reg := (remove_each ids (rw_reg w)).1; rw_pending := rw_pending w;
             rw_aborted := aborted |}.
Proof.
  revert w. induction ids as [|id ids IH]; intros w I; simpl; [by apply inv_log|].
  destruct (remove_locked id (rw_reg w)) as [r a] eqn:E.
  pose proof (inv_remove_locked w id aborted I) as I'. rewrite E in I'. simpl in I'.
  specialize (IH _ I'). simpl in IH. by destruct (remove_each ids r).
Qed.

(** [dangle_each] only rewrites states. *)
Lemma dangle_each_signature t ids r :
  let r' := (dangle_each t ids r).1 in
  r' = with_tunnels (tr_tunnels r') r /\
  signature_of <$> tr_tunnels r' = signature_of <$> tr_tunnels r.
Proof.
  revert r. induction ids as [|id ids IH]; intros r; simpl; [by destruct r|].
  destruct (tr_tunnels r !! id) as [info|] eqn:E; [|apply IH].
  destruct (is_dangling (ti_state info)); [apply IH|].
  set (r1 := with_tunnels _ r). specialize (IH r1). simpl in IH.
  destruct (dangle_each t ids r1) as [r2 b]. simpl in *. destruct IH as [Hr Hs]. split.
  - rewrite Hr. by destruct r.
  - rewrite Hs. subst r1. simpl. rewrite fmap_insert. apply insert_id.
    by rewrite lookup_fmap, E.
Qed.

Lemma inv_dangle_each w t ids aborted :
  reg_inv w ->
  reg_inv {| rw_reg := (dangle_each t ids (rw_reg w)).1; rw_pending := rw_pending w;
             rw_aborted := aborted |}.
Proof.
  intros I. destruct (dangle_each_signature t ids (rw_reg w)) as [-> Hs].
  by apply inv_same_signature.
Qed.

Lemma inv_set_state w id info st aborted :
  reg_inv w -> tr_tunnels (rw_reg w) !! id = Some info ->
  reg_inv {| rw_reg := with_tunnels (<[id := with_state st info]> (tr_tunnels (rw_reg w))) (rw_reg w);
             rw_pending := rw_pending w; rw_aborted := aborted |}.
Proof.
  intros I E. apply inv_same_signature; [done|]. rewrite fmap_insert. apply insert_id.
  by rewrite lookup_fmap, E.
Qed.

Lemma inv_try_resume w order label sid pk c aborted :
  reg_inv w ->
  reg_inv {| rw_reg := (try_resume order label sid pk c (rw_reg w)).2; rw_pending := rw_pending w;
             rw_aborted := aborted |}.
Proof.
  intros I. unfold try_resume.
  repeat (case_match; simpl; try by apply inv_log); by apply inv_set_state.
Qed.

Lemma inv_set_tcp_abort w id a aborted :
  reg_inv w ->
  reg_inv {| rw_reg := set_tcp_abort id a (rw_reg w); rw_pending := rw_pending w;
             rw_aborted := aborted |}.
Proof.
  intros I. unfold set_tcp_abort.
  repeat (case_match; simpl; try by apply inv_log); by apply inv_set_state.
Qed.

(** Handing out a fresh id for a port or label nobody holds. *)
Lemma inv_reserve w k r' aborted :
  reg_inv w -> (forall id, ~ holds w id k) ->
  tr_port_lo r' = tr_port_lo (rw_reg w) -> tr_port_hi r' = tr_port_hi (rw_reg w) ->
  tr_next_id r' = tr_next_id (rw_reg w) + 1 ->
  tr_tunnels r' = tr_tunnels (rw_reg w) -> tr_labels r' = tr_labels (rw_reg w) ->
  (forall p, p ∈ tr_used_ports r' <-> p ∈ tr_used_ports (rw_reg w) \/ k = RK_Tcp p) ->
  (forall l, l ∈ tr_used_labels r' <-> l ∈ tr_used_labels (rw_reg w) \/ k = RK_Http l) ->
  (forall p, k = RK_Tcp p -> tr_port_lo (rw_reg w) <= p <= tr_port_hi (rw_reg w)) ->
  reg_inv {| rw_reg := r';
             rw_pending := <[{| tid_raw := tr_next_id (rw_reg w) |} := k]> (rw_pending w);
             rw_aborted := aborted |}.
Proof.
  intros I Hfree Hlo Hhi Hnx Ht Hl Hp Hu Hpool. set (id0 := Build_TunnelId _).
  set (w' := Build_RegWorld _ _ _).
  assert (Hfresh : forall k', ~ holds w id0 k').
  { intros k' Hk%(inv_next w I). simpl in Hk. lia. }
  assert (Hh : forall j k', holds w' j k' <-> holds w j k' \/ (j = id0 /\ k' = k)).
  { intros j k'. unfold holds at 1; simpl. rewrite Ht.
    destruct (decide (j = id0)) as [->|Hne].
    - rewrite lookup_insert_eq. split.
      + intros [Hi|[= ->]]; [by left; left|by right].
      + intros [[?|Hk]|[_ ->]]; [by left| |by right]. by destruct (Hfresh k'); right.
    - rewrite lookup_insert_ne by done. unfold holds. naive_solver. }
  split; intros; simpl in *; rewrite ?Hlo, ?Hhi, ?Hnx, ?Ht, ?Hl in *.
  - by apply (inv_id w I).
  - pose proof (inv_counter w I). lia.
  - apply Hh in H as [H|[-> ->]]; [apply (inv_next w I) in H; lia|].
    pose proof (inv_counter w I). simpl. lia.
  - destruct (decide (id = id0)) as [->|Hne].
    + destruct (tr_tunnels _ !! id0) eqn:E; [|done]. exfalso. eapply Hfresh. left. eauto.
    + rewrite lookup_insert_ne in H by done. by eapply inv_pending.
  - apply Hh in H as [H|[-> ->]], H0 as [H0|[-> H0]]; simplify_eq.
    + by eapply inv_unique.
    + by apply Hfree in H.
    + by apply Hfree in H0.
    + done.
  - rewrite Hp, (inv_ports w I). setoid_rewrite Hh. naive_solver.
  - rewrite Hu, (inv_used_labels w I). setoid_rewrite Hh. naive_solver.
  - apply I.
  - by eapply inv_listener.
  - apply Hh in H as [H|[-> <-]]; [by eapply inv_pool|by apply Hpool].
Qed.

(** Publishing a pending reservation. *)
Lemma inv_insert w info aborted :
  reg_inv w -> rw_pending w !! ti_id info = Some (ti_kind info) ->
  has_listener info = is_tcp (ti_kind info) ->
  reg_inv {| rw_reg := TunnelRegistry_insert info (rw_reg w);
             rw_pending := delete (ti_id info) (rw_pending w); rw_aborted := aborted |}.
Proof.
  intros I Hpend Hlis. set (w' := Build_RegWorld _ _ _).
  pose proof (inv_pending w I _ _ Hpend) as Hnone.
  assert (Hown : holds w (ti_id info) (ti_kind info)) by by right.
  assert (Hh : forall j k, holds w' j k <-> holds w j k).
  { intros j k. unfold holds; simpl. destruct (decide (j = ti_id info)) as [->|Hne].
    - rewrite lookup_insert_eq, lookup_delete_eq, Hnone, Hpend. naive_solver.
    - by rewrite lookup_insert_ne, lookup_delete_ne. }
  assert (Hlab : forall l id, tr_labels (rw_reg w') !! l = Some id <->
     tr_labels (rw_reg w) !! l = Some id \/ (id = ti_id info /\ ti_kind info = RK_Http l)).
  { intros l id. simpl. destruct (ti_kind info) as [p|l'] eqn:Ek; [naive_solver|].
    rewrite lookup_insert_Some. split; [naive_solver|].
    intros [Hl|[-> [= ->]]]; [|by left]. right. split; [|done]. intros <-.
    apply (inv_labels w I) in Hl as (i & Hi & Hk).
    assert (holds w id (RK_Http l')) as Hw by (left; eauto).
    pose proof (inv_unique w I _ _ _ Hown Hw). by simplify_eq. }
  split; intros; simpl in *; try setoid_rewrite Hh in H; try setoid_rewrite Hh; try by apply I.
  - apply lookup_insert_Some in H as [[<- <-]|[_ H]]; [done|by apply (inv_id w I)].
  - by eapply inv_next.
  - apply lookup_delete_Some in H as [Hne H]. rewrite lookup_insert_ne by done.
    by eapply inv_pending.
  - eapply inv_unique; [done..|]. by apply Hh.
  - rewrite Hlab, (inv_labels w I). split.
    + intros [(i & Hi & Hk)|[-> Hk]].
      * exists i. split; [|done]. rewrite lookup_insert_ne; [done|]. congruence.
      * exists info. by rewrite lookup_insert_eq.
    + intros (i & [[<- <-]|[_ Hi]]%lookup_insert_Some & Hk); [by right|left; eauto].
  - apply lookup_insert_Some in H as [[<- <-]|[_ H]]; [done|by eapply inv_listener].
  - by eapply inv_pool.
Qed.

(** ** Allocation *)

Lemma elem_of_port_range lo hi p : p ∈ port_range lo hi <-> lo <= p <= hi.
Proof. unfold port_range. rewrite elem_of_seqZ. lia. Qed.

Lemma find_first_seqZ (f : Z -> bool) lo n p :
  find_first f (seqZ lo n) = Some p -> forall q, lo <= q < p -> f q = false.
Proof.
  intros H q Hq. destruct (f q) eqn:E; [|done]. exfalso. revert lo n H Hq E.
  intros lo n. remember (Z.to_nat n) as m eqn:Hm. revert lo n Hm.
  induction m as [|m IH]; intros lo n Hm H Hq E.
  - rewrite seqZ_nil in H by lia. done.
  - rewrite seqZ_cons in H by lia. simpl in H. destruct (f lo) eqn:El; [simplify_eq; lia|].
    destruct (decide (q = lo)) as [->|]; [congruence|].
    apply (IH (Z.succ lo) (Z.pred n)) in H; [done|lia|lia|done].
Qed.

Definition port_eligible (lo hi : Z) (used : gset Z) (allow : option (list Z)) (p : Z) : Prop :=
  lo <= p <= hi /\ p ∉ used /\ forall l, allow = Some l -> p ∈ l.

Lemma pick_free_port_test lo hi used allow p :
  lo <= p <= hi ->
  (if bool_decide (p ∈ used) then false
   else match allow with Some l => bool_decide (p ∈ l) | None => true end) = true <->
  port_eligible lo hi used allow p.
Proof.
  intros Hp. unfold port_eligible. case_bool_decide; [naive_solver|].
  destruct allow as [l|]; [|naive_solver]. rewrite bool_decide_eq_true. naive_solver.
Qed.

Lemma pick_free_port_Some lo hi used allow p :
  pick_free_port lo hi used allow = Some p ->
  port_eligible lo hi used allow p /\
  forall q, port_eligible lo hi used allow q -> p <= q.
Proof.
  intros H. pose proof (find_first_Some _ _ _ H) as [Hin%elem_of_port_range Ht].
  split; [by apply (pick_free_port_test lo hi used allow p Hin)|]. intros q Hq.
  destruct (Z.le_gt_cases p q); [done|]. exfalso.
  pose proof Hq as [Hr _]. apply (pick_free_port_test lo hi used allow q Hr) in Hq.
  by rewrite (find_first_seqZ _ _ _ _ H q) in Hq by lia.
Qed.

Lemma pick_free_port_None lo hi used allow :
  pick_free_port lo hi used allow = None <-> forall p, ~ port_eligible lo hi used allow p.
Proof.
  unfold pick_free_port. rewrite find_first_None. split.
  - intros H p Hp. pose proof Hp as [Hr _].
    apply (pick_free_port_test lo hi used allow p Hr) in Hp.
    by rewrite H in Hp by by apply elem_of_port_range.
  - intros H p Hp%elem_of_port_range. apply not_true_is_false.
    rewrite (pick_free_port_test lo hi used allow p Hp). apply H.
Qed.

(** ** Every step preserves the invariant *)

Lemma remove_locked_next id r : tr_next_id (remove_locked id r).1 = tr_next_id r.
Proof. unfold remove_locked. by repeat case_match. Qed.

Lemma remove_each_next ids r : tr_next_id (remove_each ids r).1 = tr_next_id r.
Proof.
  revert r. induction ids as [|id ids IH]; intros r; simpl; [done|].
  pose proof (remove_locked_next id r) as H. destruct (remove_locked id r) as [r' a].
  specialize (IH r'). destruct (remove_each ids r'). simpl in *. congruence.
Qed.

Lemma dangle_each_next t ids r : tr_next_id (dangle_each t ids r).1 = tr_next_id r.
Proof. destruct (dangle_each_signature t ids r) as [-> _]. done. Qed.

Lemma try_resume_next order l sid pk c r :
  tr_next_id (try_resume order l sid pk c r).2 = tr_next_id r.
Proof. unfold try_resume. by repeat case_match. Qed.

Lemma inv_allocate_tcp w allow :
  reg_inv w -> tr_next_id (rw_reg w) + 1 < 2 ^ 64 ->
  reg_inv (exec_op (OpAllocateTcp allow) w) /\
  tr_next_id (rw_reg (exec_op (OpAllocateTcp allow) w)) <= tr_next_id (rw_reg w) + 1.
Proof.
  intros I Hn. simpl. unfold allocate_tcp. destruct (pick_free_port _ _ _ _) as [p|] eqn:E.
  - apply pick_free_port_Some in E as [(Hr & Hu & _) _]. simpl. unfold checked.
    rewrite decide_True by done. simpl. split; [|done].
    apply inv_reserve; simpl; try done.
    + intros id Hid. apply Hu, (inv_ports w I). eauto.
    + set_solver.
    + set_solver.
    + by intros ? [= <-].
  - split; [by apply inv_log|simpl; lia].
Qed.

Lemma inv_allocate_http w label :
  reg_inv w -> tr_next_id (rw_reg w) + 1 < 2 ^ 64 ->
  reg_inv (exec_op (OpAllocateHttp label) w) /\
  tr_next_id (rw_reg (exec_op (OpAllocateHttp label) w)) <= tr_next_id (rw_reg w) + 1.
Proof.
  intros I Hn. simpl. unfold allocate_http. case_bool_decide as Hu.
  - split; [by apply inv_log|simpl; lia].
  - simpl. unfold checked. rewrite decide_True by done. simpl. split; [|done].
    apply inv_reserve; simpl; try done.
    + intros id Hid. apply Hu, (inv_used_labels w I). eauto.
    + set_solver.
    + set_solver.
Qed.

Lemma inv_exec w o :
  reg_inv w -> tr_next_id (rw_reg w) + 1 < 2 ^ 64 ->
  reg_inv (exec_op o w) /\ tr_next_id (rw_reg (exec_op o w)) <= tr_next_id (rw_reg w) + 1.
Proof.
  intros I Hn. destruct o.
  - by apply inv_allocate_tcp.
  - by apply inv_allocate_http.
  - simpl. case_decide as Hi; [|split; [done|lia]]. destruct Hi.
    split; [by apply inv_insert|simpl; lia].
  - split; [by apply inv_remove_locked|]. simpl. unfold TunnelRegistry_remove.
    rewrite remove_locked_next. lia.
  - split; [by apply inv_remove_each|]. simpl. unfold remove_all_owned_by.
    rewrite remove_each_next. lia.
  - split; [by apply inv_dangle_each|]. simpl. unfold mark_dangling. rewrite dangle_each_next. lia.
  - split; [by apply inv_remove_each|]. simpl. rewrite remove_each_next. lia.
  - split; [by apply inv_try_resume|]. simpl. rewrite try_resume_next. lia.
  - split; [by apply inv_set_tcp_abort|]. simpl. unfold set_tcp_abort. repeat case_match; simpl; lia.
Qed.

Lemma inv_run lo hi ops :
  len ops < 2 ^ 64 - 2 ->
  reg_inv (run ops (initial lo hi)) /\
  tr_next_id (rw_reg (run ops (initial lo hi))) <= 1 + len ops.
Proof.
  induction ops as [|o ops IH] using rev_ind; intros Hl.
  - split; [apply inv_initial|done].
  - unfold run in *. rewrite foldl_snoc. rewrite len_app in *. unfold len at 2 in Hl.
    simpl in Hl. destruct IH as [I Hn]; [lia|].
    destruct (inv_exec _ o I) as [I' Hn']; [lia|].
    split; [done|]. unfold len at 2. simpl length. lia.
Qed.

(** C1: After any interleaving of registry operations (fewer than [2^64 - 2] of them, so
    that the id counter has not wrapped) the table is consistent: tunnels are filed under
    their own fresh ids, no port and no label is held twice by published or reserved
    tunnels, the sets of used ports and labels are exactly what is held, the HTTP index
    lists exactly the published HTTP tunnels, and ports come from the pool. *)
Theorem registry_invariant (lo hi : Z) (ops : list RegOp) (Hlen : len ops < 2 ^ 64 - 2) :
  reg_inv (run ops (initial lo hi)).
Proof. by apply inv_run. Qed.

(** ** What the bulk operations do to the table *)

Lemma elem_of_ids_where p r id :
  id ∈ ids_where p r <-> exists info, tr_tunnels r !! id = Some info /\ p info = true.
Proof.
  unfold ids_where. rewrite list_elem_of_omap. split.
  - intros ([k i] & Hin%elem_of_map_to_list & H). simpl in H.
    destruct (p i) eqn:E; simplify_eq. eauto.
  - intros (info & Hi & Hp). exists (id, info). rewrite elem_of_map_to_list. simpl. by rewrite Hp.
Qed.

Lemma remove_locked_tunnels id r :
  tr_tunnels (remove_locked id r).1 = delete id (tr_tunnels r) /\
  forall h, h ∈ (remove_locked id r).2 <->
    exists info, tr_tunnels r !! id = Some info /\ h ∈ fired (ti_state info).
Proof.
  unfold remove_locked. destruct (tr_tunnels r !! id) as [info|] eqn:E.
  - split; [by destruct (ti_kind info)|]. naive_solver.
  - split; [by rewrite delete_id|]. simpl. set_solver.
Qed.

Lemma remove_each_tunnels ids r :
  (forall j, tr_tunnels (remove_each ids r).1 !! j =
     if decide (j ∈ ids) then None else tr_tunnels r !! j) /\
  (forall h, h ∈ (remove_each ids r).2 <->
     exists j info, j ∈ ids /\ tr_tunnels r !! j = Some info /\ h ∈ fired (ti_state info)).
Proof.
  revert r. induction ids as [|id ids IH]; intros r; simpl.
  { split; [done|set_solver]. }
  destruct (remove_locked_tunnels id r) as [Ht Ha].
  destruct (remove_locked id r) as [r1 a]. simpl in Ht, Ha.
  destruct (IH r1) as [IHt IHa]. destruct (remove_each ids r1) as [r2 b]. simpl in *. split.
  - intros j. rewrite IHt, Ht. destruct (decide (j = id)) as [->|Hne].
    + rewrite lookup_delete_eq. rewrite (decide_True (P := id ∈ id :: ids)) by set_solver.
      by case_decide.
    + rewrite lookup_delete_ne by done. apply decide_ext. set_solver.
  - intros h. rewrite elem_of_app, Ha, IHa, Ht. setoid_rewrite elem_of_cons.
    setoid_rewrite lookup_delete_Some. split.
    + intros [(i & ? & ?)|(j & i & ? & [? ?] & ?)]; eauto 10.
    + intros (j & i & Hj & Hi & Hf). destruct (decide (id = j)) as [->|]; [eauto 10|].
      right. exists j, i. naive_solver.
Qed.

Lemma dangle_each_tunnels t ids r :
  (forall j, tr_tunnels (dangle_each t ids r).1 !! j =
     match tr_tunnels r !! j with
     | Some info => Some (if decide (j ∈ ids) then
                            if is_dangling (ti_state info) then info
                            else with_state (Dangling t) info else info)
     | None => None
     end) /\
  (forall h, h ∈ (dangle_each t ids r).2 <->
     exists j info, j ∈ ids /\ tr_tunnels r !! j = Some info /\ h ∈ fired (ti_state info)).
Proof.
  revert r. induction ids as [|id ids IH]; intros r; simpl.
  { split; [|set_solver]. intros j. by destruct (tr_tunnels r !! j). }
  destruct (tr_tunnels r !! id) as [info|] eqn:E.
  2: { destruct (IH r) as [IHt IHa]. split.
       - intros j. rewrite IHt. destruct (tr_tunnels r !! j) as [i|] eqn:Ej; [|done].
         do 2 f_equal. apply decide_ext. set_solver.
       - intros h. rewrite IHa. setoid_rewrite elem_of_cons. naive_solver. }
  destruct (is_dangling (ti_state info)) eqn:Ed.
  { destruct (IH r) as [IHt IHa]. split.
    - intros j. rewrite IHt. destruct (tr_tunnels r !! j) as [i|] eqn:Ej; [|done].
      repeat case_decide; try done; [set_solver|].
      assert (j = id) as -> by set_solver. simplify_eq. by rewrite Ed.
    - intros h. rewrite IHa. setoid_rewrite elem_of_cons. split; [naive_solver|].
      intros (j & i & [->|Hj] & Hi & Hf); [|eauto]. simplify_eq.
      destruct (ti_state info); simpl in *; [done|set_solver]. }
  set (r1 := with_tunnels _ r). destruct (IH r1) as [IHt IHa].
  destruct (dangle_each t ids r1) as [r2 b]. simpl in *. split.
  - intros j. rewrite IHt. subst r1. simpl. destruct (decide (j = id)) as [->|Hne].
    + rewrite lookup_insert_eq, E. rewrite (decide_True (P := id ∈ id :: ids)) by set_solver.
      rewrite Ed. simpl. by case_decide.
    + rewrite lookup_insert_ne by done. destruct (tr_tunnels r !! j); [|done].
      do 2 f_equal. apply decide_ext. set_solver.
  - intros h. rewrite elem_of_app, IHa. subst r1. simpl. setoid_rewrite elem_of_cons.
    setoid_rewrite lookup_insert_Some. split.
    + intros [Hf|(j & i & Hj & [[<- <-]|[Hne Hi]] & Hf)]; [eauto 10| |eauto 10].
      simpl in Hf. set_solver.
    + intros (j & i & Hj & Hi & Hf). destruct (decide (id = j)) as [<-|Hne].
      * left. by simplify_eq.
      * right. exists j, i. naive_solver.
Qed.

(** ** The abstract table

    What the registry promises, stated on the bare map from ids to tunnels: no index,
    no reservation sets, no loops. *)

(** The tunnel published under an HTTP label, by searching the table. *)
Definition abs_label (l : str) (m : gmap TunnelId TunnelInfo) : option TunnelId :=
  fst <$> find_first (fun kv => bool_decide (ti_kind kv.2 = RK_Http l)) (map_to_list m).

Definition abs_resolve (l : str) (m : gmap TunnelId TunnelInfo) : option ResolvedTunnel :=
  id ← abs_label l m;
  info ← m !! id;
  match ti_state info with
  | Live c _ => Some {| rt_id := id; rt_connection := c; rt_rate := ti_rate info;
                        rt_inspect := ti_inspect info |}
  | Dangling _ => None
  end.

(** A lease that [(session_id, pubkey)] may take over. *)
Definition resumable (sid : SessionId) (pk : PubKey) (info : TunnelInfo) : bool :=
  is_dangling (ti_state info) && bool_decide (ti_session_id info = sid)
  && bool_decide (ti_owner info = pk).

(** The tunnel a resume request re-attaches. *)
Definition abs_resume (order : list TunnelId) (l : str) (sid : SessionId) (pk : PubKey)
    (m : gmap TunnelId TunnelInfo) : option TunnelId :=
  let cand :=
    match abs_label l m with
    | Some id => Some id
    | None => find_first (fun id =>
        match m !! id with
        | Some i => is_dangling (ti_state i) && is_tcp (ti_kind i)
                    && bool_decide (ti_session_id i = sid)
        | None => false
        end) order
    end in
  id ← cand;
  info ← m !! id;
  if resumable sid pk info then Some id else None.

Definition abs_exec (o : RegOp) (pending : gmap TunnelId RegisteredKind)
    (m : gmap TunnelId TunnelInfo) : gmap TunnelId TunnelInfo :=
  match o with
  | OpAllocateTcp _ | OpAllocateHttp _ => m
  | OpInsert info =>
    if decide (pending !! ti_id info = Some (ti_kind info) /\
               has_listener info = is_tcp (ti_kind info))
    then <[ti_id info := info]> m else m
  | OpRemove id => delete id m
  | OpRemoveAll owner => filter (fun kv => ti_owner kv.2 <> owner) m
  | OpMarkDangling now owner grace =>
    (fun i => if owned_by owner i && negb (is_dangling (ti_state i))
              then with_state (Dangling (now + grace)) i else i) <$> m
  | OpReap now => filter (fun kv => lease_expired now kv.2 = false) m
  | OpTryResume order l sid pk c =>
    match abs_resume order l sid pk m with
    | Some id => alter (with_state (Live c None)) id m
    | None => m
    end
  | OpSetTcpAbort id a =>
    alter (fun i => match ti_state i with
                    | Live c _ => with_state (Live c (Some a)) i
                    | Dangling _ => i
                    end) id m
  end.

(** ** Refinement *)

Lemma abs_label_Some w l id :
  reg_inv w ->
  abs_label l (tr_tunnels (rw_reg w)) = Some id <-> tr_labels (rw_reg w) !! l = Some id.
Proof.
  intros I. unfold abs_label. rewrite (inv_labels w I).
  destruct (find_first _ _) as [[j i]|] eqn:E; simpl.
  - apply find_first_Some in E as [Hin%elem_of_map_to_list Hk%bool_decide_eq_true].
    simpl in *. split; [intros [= ->]; eauto|]. intros (i' & Hi' & Hk'). f_equal.
    eapply (inv_unique w I); left; eauto.
  - split; [done|]. intros (i & Hi & Hk). exfalso.
    pose proof (proj1 (find_first_None _ _) E (id, i)) as Hf.
    rewrite elem_of_map_to_list in Hf. specialize (Hf Hi). simpl in Hf.
    by rewrite bool_decide_eq_false in Hf.
Qed.

Lemma abs_label_index w l :
  reg_inv w -> abs_label l (tr_tunnels (rw_reg w)) = tr_labels (rw_reg w) !! l.
Proof.
  intros I. apply option_eq. intros id. by apply abs_label_Some.
Qed.

Lemma resolve_label_abs w l :
  reg_inv w -> resolve_label l (rw_reg w) = abs_resolve l (tr_tunnels (rw_reg w)).
Proof. intros I. unfold resolve_label, abs_resolve. by rewrite abs_label_index. Qed.

Lemma find_tcp_abs order sid r :
  find_tcp_of_session order sid r =
  find_first (fun id =>
    match tr_tunnels r !! id with
    | Some i => is_dangling (ti_state i) && is_tcp (ti_kind i)
                && bool_decide (ti_session_id i = sid)
    | None => false
    end) order.
Proof.
  unfold find_tcp_of_session. induction order as [|id order IH]; simpl; [done|].
  rewrite IH. destruct (tr_tunnels r !! id) as [i|]; [|done].
  repeat case_bool_decide; simplify_eq; try done.
  all: by destruct (is_dangling _), (is_tcp _).
Qed.

(** [try_resume], on a consistent registry: the outcome and the state afterwards. *)
Lemma try_resume_abs w order l sid pk c :
  reg_inv w ->
  let m := tr_tunnels (rw_reg w) in
  match abs_resume order l sid pk m with
  | Some id => exists i info, m !! id = Some i /\ resumable sid pk i = true /\
      try_resume order l sid pk c (rw_reg w) =
        (Reattached id info (ti_inspect i),
         with_tunnels (<[id := with_state (Live c None) i]> m) (rw_reg w)) /\
      match ti_kind i, info with
      | RK_Http l', RI_Http l'' => l' = l''
      | RK_Tcp p, RI_Tcp p' li => p = p' /\ ti_tcp_listener i = Some li
      | _, _ => False
      end
  | None => exists o, try_resume order l sid pk c (rw_reg w) = (o, rw_reg w) /\
      forall id info b, o <> Reattached id info b
  end.
Proof.
  intros I. cbv zeta. unfold try_resume, abs_resume.
  rewrite abs_label_index, <-find_tcp_abs by done.
  set (m := tr_tunnels (rw_reg w)). destruct (match tr_labels (rw_reg w) !! l with Some id => Some id | None => _ end)
    as [id|]; simpl; [|eauto].
  destruct (m !! id) as [i|] eqn:Em; simpl; [|eauto].
  unfold resumable. destruct (is_dangling (ti_state i)) eqn:Ed; simpl; [|eauto].
  rewrite !bool_decide_not.
  destruct (bool_decide (ti_session_id i = sid)) eqn:Es,
    (bool_decide (ti_owner i = pk)) eqn:Eo; simpl; try by eauto.
  pose proof (inv_listener w I id i Em) as Hli. unfold has_listener in Hli.
  destruct (ti_kind i) as [p|l'] eqn:Ek, (ti_tcp_listener i) as [li|] eqn:El; try done.
  - exists i, (RI_Tcp p li). by rewrite Ed, Es, Eo, Ek.
  - exists i, (RI_Http l'). by rewrite Ed, Es, Eo, Ek.
Qed.

Lemma remove_all_tunnels owner r :
  tr_tunnels (remove_all_owned_by owner r).1 = filter (fun kv => ti_owner kv.2 <> owner) (tr_tunnels r).
Proof.
  apply map_eq. intros j. unfold remove_all_owned_by.
  rewrite (proj1 (remove_each_tunnels _ r)), map_lookup_filter.
  destruct (tr_tunnels r !! j) as [i|] eqn:E; simpl.
  - case_decide as Hd.
    + apply elem_of_ids_where in Hd as (i' & Hi & Ho%bool_decide_eq_true). simplify_eq.
      rewrite option_guard_False; naive_solver.
    + rewrite option_guard_True; [done|]. intros Ho. apply Hd, elem_of_ids_where.
      exists i. split; [done|]. by apply bool_decide_eq_true.
  - by case_decide.
Qed.

Lemma reap_tunnels now r :
  tr_tunnels (reap_expired now r).2.1 =
  filter (fun kv => lease_expired now kv.2 = false) (tr_tunnels r).
Proof.
  apply map_eq. intros j. unfold reap_expired. simpl.
  rewrite (proj1 (remove_each_tunnels _ r)), map_lookup_filter.
  destruct (tr_tunnels r !! j) as [i|] eqn:E; simpl.
  - case_decide as Hd.
    + apply elem_of_ids_where in Hd as (i' & Hi & Ho). simplify_eq.
      rewrite option_guard_False; [done|]. simpl. congruence.
    + rewrite option_guard_True; [done|]. apply not_true_is_false. intros Ho.
      apply Hd, elem_of_ids_where. eauto.
  - by case_decide.
Qed.

Lemma mark_dangling_tunnels now owner grace r :
  tr_tunnels (mark_dangling now owner grace r).1 =
  (fun i => if owned_by owner i && negb (is_dangling (ti_state i))
            then with_state (Dangling (now + grace)) i else i) <$> tr_tunnels r.
Proof.
  apply map_eq. intros j. unfold mark_dangling.
  rewrite (proj1 (dangle_each_tunnels _ _ r)), lookup_fmap.
  destruct (tr_tunnels r !! j) as [i|] eqn:E; simpl; [|done]. f_equal.
  destruct (owned_by owner i) eqn:Eo; case_decide as Hd; simpl; try done.
  - by destruct (is_dangling (ti_state i)).
  - destruct Hd. apply elem_of_ids_where. eauto.
  - apply elem_of_ids_where in Hd as (i' & Hi & Ho). congruence.
Qed.

(** C23: The registry refines the abstract table: on every reachable registry each
    operation changes the tunnels exactly as the abstract operation does (bulk removal
    drops exactly the owner's tunnels, dangling rewrites exactly the owner's live ones,
    reaping drops exactly the expired leases, a resume re-attaches exactly the lease that
    matches label or session, identity and owner), and routing by the reverse index
    agrees with a search of the whole table. *)
Theorem registry_refines (lo hi : Z) (ops : list RegOp) (o : RegOp)
    (Hlen : len ops < 2 ^ 64 - 2) :
  let w := run ops (initial lo hi) in
  tr_tunnels (rw_reg (exec_op o w)) = abs_exec o (rw_pending w) (tr_tunnels (rw_reg w)) /\
  forall l, resolve_label l (rw_reg w) = abs_resolve l (tr_tunnels (rw_reg w)).
Proof.
  intros w. destruct (inv_run lo hi ops Hlen) as [I _]. fold w in I.
  split; [|by intros; apply resolve_label_abs].
  destruct o as [allow|l|i|id|pk|now pk g|now|order l sid pk c|id a]; simpl.
  - unfold allocate_tcp. by destruct (pick_free_port _ _ _ _).
  - unfold allocate_http. by destruct (bool_decide _).
  - by case_decide.
  - apply remove_locked_tunnels.
  - apply remove_all_tunnels.
  - apply mark_dangling_tunnels.
  - apply reap_tunnels.
  - pose proof (try_resume_abs w order l sid pk c I) as H. cbv zeta in H.
    destruct (abs_resume _ _ _ _ _) as [id|].
    + destruct H as (i & info & Hi & _ & -> & _). simpl. by rewrite (alter_alt_Some _ _ _ _ Hi).
    + by destruct H as (oc & -> & _).
  - unfold set_tcp_abort. destruct (tr_tunnels (rw_reg w) !! id) as [i|] eqn:E.
    + rewrite (alter_alt_Some _ _ _ _ E). destruct (ti_state i); [done|]. by rewrite insert_id.
    + symmetry. apply alter_id. naive_solver.
Qed.

(** ** The resume lease *)

(** A resume never hands a tunnel to the wrong party, whatever the state of the
    registry: a re-attached tunnel was dangling, belongs to the session id and the public
    key presented, and is the only thing that changes; an identity mismatch is reported
    only for a dangling lease of that session owned by another key, and changes nothing. *)
Theorem resume_safety (order : list TunnelId) (l : str) (sid : SessionId) (pk : PubKey)
    (c : Connection) (r : TunnelRegistry) :
  match try_resume order l sid pk c r with
  | (Reattached id info b, r') => exists i, tr_tunnels r !! id = Some i /\
      is_dangling (ti_state i) = true /\ ti_session_id i = sid /\ ti_owner i = pk /\
      b = ti_inspect i /\
      r' = with_tunnels (<[id := with_state (Live c None) i]> (tr_tunnels r)) r
  | (IdentityMismatch, r') => r' = r /\ exists id i, tr_tunnels r !! id = Some i /\
      is_dangling (ti_state i) = true /\ ti_session_id i = sid /\ ti_owner i <> pk
  | (ResumeUnknown, r') => forall id i, tr_tunnels r' !! id = Some i ->
      exists i0, tr_tunnels r !! id = Some i0 /\ ti_owner i = ti_owner i0 /\
        (ti_owner i0 <> pk -> i = i0)
  end.
Proof.
  unfold try_resume. destruct (match tr_labels r !! l with Some id => Some id | None => _ end)
    as [id|]; [|by eauto].
  destruct (tr_tunnels r !! id) as [i|] eqn:E; [|by eauto].
  destruct (is_dangling (ti_state i)) eqn:Ed; simpl; [|by eauto].
  case_bool_decide as Hs; [by eauto|].
  case_bool_decide as Ho; [by eauto 10|].
  destruct (ti_kind i); [|by eauto 10]. destruct (ti_tcp_listener i); [by eauto 10|].
  simpl. intros id' i' [[<- <-]|[_ Hi]]%lookup_insert_Some; [|by eauto]. exists i. naive_solver.
Qed.

(** The lease a resume request for [label] names: a dangling tunnel of that session, the
    HTTP tunnel of that label or, when no HTTP tunnel has the label, a TCP tunnel that the
    walk over the table meets. *)
Definition lease (order : list TunnelId) (label : str) (sid : SessionId) (r : TunnelRegistry)
    (id : TunnelId) (i : TunnelInfo) : Prop :=
  tr_tunnels r !! id = Some i /\ is_dangling (ti_state i) = true /\ ti_session_id i = sid /\
  match ti_kind i with
  | RK_Http l => l = label
  | RK_Tcp _ => tr_labels r !! label = None /\ id ∈ order
  end.

(** The candidate of a resume, judged by itself. *)
Lemma resume_candidate w order l sid :
  reg_inv w ->
  match (match tr_labels (rw_reg w) !! l with
         | Some id => Some id
         | None => find_tcp_of_session order sid (rw_reg w)
         end) with
  | Some id => exists i, tr_tunnels (rw_reg w) !! id = Some i /\
      ((is_dangling (ti_state i) = true /\ ti_session_id i = sid /\ lease order l sid (rw_reg w) id i) \/
       (~ (is_dangling (ti_state i) = true /\ ti_session_id i = sid) /\
        forall id' i', ~ lease order l sid (rw_reg w) id' i'))
  | None => forall id i, ~ lease order l sid (rw_reg w) id i
  end.
Proof.
  intros I. destruct (tr_labels (rw_reg w) !! l) as [id|] eqn:El.
  - pose proof (proj1 (inv_labels w I l id) El) as (i & Hi & Hk). exists i. split; [done|].
    destruct (decide (is_dangling (ti_state i) = true /\ ti_session_id i = sid)) as [[Hd Hs]|Hn].
    + left. split_and!; try done. unfold lease. by rewrite Hk.
    + right. split; [done|]. intros id' i' (Hi' & Hd' & Hs' & Hk').
      destruct (ti_kind i') as [p|l'] eqn:Ek; [by destruct Hk' as [? _]; congruence|subst l'].
      assert (tr_labels (rw_reg w) !! l = Some id') as El' by (apply (inv_labels w I); eauto).
      naive_solver.
  - destruct (find_tcp_of_session order sid (rw_reg w)) as [id|] eqn:Ef.
    + apply find_map_Some in Ef as (x & Hx & Hf).
      destruct (tr_tunnels (rw_reg w) !! x) as [i|] eqn:Ei; [|done].
      case_bool_decide as Hs; [done|]. destruct (is_dangling (ti_state i)) eqn:Ed; [|done].
      destruct (ti_kind i) as [p|l'] eqn:Ek; [|done]. injection Hf as <-. exists i. split; [done|]. left.
      unfold lease. by rewrite Ek.
    + intros id i (Hi & Hd & Hs & Hk). destruct (ti_kind i) as [p|l'] eqn:Ek.
      * destruct Hk as [_ Ho]. pose proof (proj1 (find_map_None _ _) Ef id Ho) as Hf. cbn in Hf.
        rewrite Hi, bool_decide_eq_false_2, Hd, Ek in Hf by (intros Hn; by apply Hn). done.
      * subst l'. assert (tr_labels (rw_reg w) !! l = Some id) by (apply (inv_labels w I); eauto). congruence.
Qed.

(** A resume, on a consistent registry, by the lease the request names: it is re-attached
    for its owner, refused to another key, and otherwise nothing happens. *)
Lemma try_resume_lease w order l sid pk c (r := rw_reg w) :
  reg_inv w ->
  (exists id i info, lease order l sid r id i /\ ti_owner i = pk /\
     try_resume order l sid pk c r =
       (Reattached id info (ti_inspect i), with_tunnels (<[id := with_state (Live c None) i]> (tr_tunnels r)) r) /\
     match ti_kind i, info with
     | RK_Http l', RI_Http l'' => l' = l''
     | RK_Tcp p, RI_Tcp p' li => p = p' /\ ti_tcp_listener i = Some li
     | _, _ => False
     end) \/
  (exists id i, lease order l sid r id i /\ ti_owner i <> pk /\
     try_resume order l sid pk c r = (IdentityMismatch, r)) \/
  ((forall id i, ~ lease order l sid r id i) /\ try_resume order l sid pk c r = (ResumeUnknown, r)).
Proof.
  intros I. pose proof (resume_candidate w order l sid I) as Hc. fold r in Hc. unfold try_resume.
  destruct (match tr_labels r !! l with Some id => _ | None => _ end) as [id|]; [|by right; right].
  destruct Hc as (i & Hi & [(Hd & Hs & Hl)|[Hn Hl]]); rewrite Hi.
  - rewrite Hd, bool_decide_eq_false_2 by (intros Hn; by apply Hn). cbn [negb].
    case_bool_decide as Ho; [right; left; by exists id, i|]. left.
    pose proof (inv_listener w I id i Hi) as Hli. unfold has_listener in Hli.
    destruct (ti_kind i) as [p|l'] eqn:Ek.
    + destruct (ti_tcp_listener i) as [li|] eqn:Et; [|done]. exists id, i, (RI_Tcp p li). by rewrite Ek.
    + exists id, i, (RI_Http l'). by rewrite Ek.
  - right. right. split; [done|]. destruct (is_dangling (ti_state i)); [|done]. cbn [negb].
    case_bool_decide as Hs; [done|]. by destruct Hn.
Qed.

(** The session-resume lease works end to end.  A label that routes to a live tunnel
    stops routing while its owner's tunnels dangle, and a resume by the same session and
    key brings it back under the same tunnel id, with the same rate state and inspect
    flag, routed to the new connection. *)
Theorem lease_roundtrip (lo hi : Z) (ops : list RegOp) (l : str) (rt : ResolvedTunnel)
    (now grace : Z) (order : list TunnelId) (c : Connection)
    (Hlen : len ops < 2 ^ 64 - 2)
    (Hrt : resolve_label l (rw_reg (run ops (initial lo hi))) = Some rt) :
  exists i, tr_tunnels (rw_reg (run ops (initial lo hi))) !! rt_id rt = Some i /\
  let r1 := (mark_dangling now (ti_owner i) grace (rw_reg (run ops (initial lo hi)))).1 in
  resolve_label l r1 = None /\
  exists r2, try_resume order l (ti_session_id i) (ti_owner i) c r1 =
      (Reattached (rt_id rt) (RI_Http l) (rt_inspect rt), r2) /\
    resolve_label l r2 = Some {| rt_id := rt_id rt; rt_connection := c;
                                 rt_rate := rt_rate rt; rt_inspect := rt_inspect rt |}.
Proof.
  destruct (inv_run lo hi ops Hlen) as [I _]. revert Hrt I.
  set (w := run ops (initial lo hi)). intros Hrt I. unfold resolve_label in Hrt.
  destruct (tr_labels (rw_reg w) !! l) as [id|] eqn:El; simpl in Hrt; [|done].
  destruct (tr_tunnels (rw_reg w) !! id) as [i|] eqn:Et; simpl in Hrt; [|done].
  destruct (ti_state i) as [c0 a0|] eqn:Es; [|done]. injection Hrt as <-. simpl.
  assert (Hk : ti_kind i = RK_Http l).
  { apply (inv_labels w I) in El as (i' & ? & ?). congruence. }
  exists i. split; [done|].
  destruct (dangle_each_signature (now + grace) (ids_where (owned_by (ti_owner i)) (rw_reg w))
              (rw_reg w)) as [Hr _].
  fold (mark_dangling now (ti_owner i) grace (rw_reg w)) in Hr.
  rewrite mark_dangling_tunnels in Hr. rewrite Hr.
  set (i1 := with_state (Dangling (now + grace)) i).
  set (m1 := fmap _ _). assert (Hm1 : m1 !! id = Some i1).
  { subst m1. rewrite lookup_fmap, Et. simpl. unfold owned_by. rewrite Es.
    by rewrite bool_decide_eq_true_2. }
  unfold resolve_label, try_resume. simpl. rewrite El. simpl. rewrite Hm1. simpl.
  split; [done|]. rewrite !bool_decide_eq_false_2 by by intros []. rewrite Hk.
  eexists. split; [done|]. simpl. rewrite El. simpl. by rewrite lookup_insert_eq.
Qed.

(** [Bye], shutdown and key revocation end resumption: after [remove_all_owned_by]
    no request of that key is re-attached, whatever label, session id or iteration order;
    the abort handles fired are exactly those of the owner's live tunnels. *)
Theorem removal_blocks_resume (owner : PubKey) (r : TunnelRegistry) :
  (forall order l sid c id info b,
     (try_resume order l sid owner c (remove_all_owned_by owner r).1).1 <> Reattached id info b) /\
  (forall h, h ∈ (remove_all_owned_by owner r).2 <->
     exists id i c, tr_tunnels r !! id = Some i /\ ti_owner i = owner /\
       ti_state i = Live c (Some h)).
Proof.
  split.
  - intros order l sid c id info b Hb. unfold try_resume in Hb.
    destruct (match _ !! l with Some id => Some id | None => _ end) as [id'|]; [|done].
    rewrite remove_all_tunnels in Hb.
    destruct (filter _ _ !! id') as [i|] eqn:E; [|done].
    apply map_lookup_filter_Some in E as [_ Ho]. simpl in Ho.
    destruct (negb _); [done|]. destruct (bool_decide (ti_session_id i <> sid)); [done|].
    by rewrite (bool_decide_eq_true_2 (ti_owner i <> owner)) in Hb.
  - intros h. unfold remove_all_owned_by. rewrite (proj2 (remove_each_tunnels _ r)). split.
    + intros (id & i & (i' & Hi & Ho%bool_decide_eq_true)%elem_of_ids_where & Hi' & Hf).
      assert (i' = i) as -> by congruence. exists id, i. unfold fired in Hf.
      destruct (ti_state i) as [c [a|]|]; set_solver.
    + intros (id & i & c & Hi & <- & Hs). exists id, i. rewrite Hs. split_and!; [|done|set_solver].
      apply elem_of_ids_where. exists i. split; [done|]. by apply bool_decide_eq_true.
Qed.

(** ** Allocation and labels *)

(** TCP allocation hands out the smallest port of the pool that is neither used nor
    outside the identity's allowlist, together with the next id, marks exactly that port
    used, and fails, changing nothing, exactly when no port is eligible. *)
Theorem allocate_tcp_smallest (allow : option (list Z)) (r : TunnelRegistry) :
  let eligible := port_eligible (tr_port_lo r) (tr_port_hi r) (tr_used_ports r) allow in
  match allocate_tcp allow r with
  | (Ok (id, p), r') => eligible p /\ (forall q, eligible q -> p <= q) /\
      id = {| tid_raw := tr_next_id r |} /\
      tr_used_ports r' = {[ p ]} ∪ tr_used_ports r /\
      tr_tunnels r' = tr_tunnels r /\ tr_labels r' = tr_labels r /\
      tr_used_labels r' = tr_used_labels r
  | (Err e, r') => e = SE_PortPoolExhausted /\ r' = r /\ forall q, ~ eligible q
  end.
Proof.
  cbv zeta. unfold allocate_tcp. destruct (pick_free_port _ _ _ _) as [p|] eqn:E.
  - apply pick_free_port_Some in E as [? ?]. done.
  - by rewrite pick_free_port_None in E.
Qed.

(** The grammar [[a-z0-9]([a-z0-9-]{0,61}[a-z0-9])?] of the protocol. *)
Definition label_grammar (s : str) : Prop :=
  exists c rest, s = c :: rest /\ is_label_alnum c = true /\
  (rest = [] \/ exists mid d, rest = mid ++ [d] /\ (length mid <= 61)%nat /\
     forallb (fun b => is_label_alnum b || (b =? 45)) mid = true /\ is_label_alnum d = true).

Lemma label_alnum_ascii b : is_label_alnum b = true -> 0 <= b < 128.
Proof.
  unfold is_label_alnum, is_ascii_lower, is_ascii_digit.
  rewrite orb_true_iff, !andb_true_iff, !Z.leb_le. lia.
Qed.

Lemma label_grammar_ascii s : label_grammar s -> Forall (fun c => 0 <= c < 128) s.
Proof.
  intros (c & rest & -> & Hc & Hr). constructor; [by apply label_alnum_ascii|].
  destruct Hr as [->|(mid & d & -> & _ & Hm & Hd)]; [done|].
  apply Forall_app; split; [|apply Forall_singleton; by apply label_alnum_ascii].
  apply Forall_forall. intros b Hb. rewrite List.forallb_forall in Hm.
  apply Hm, orb_true_iff in Hb as [Hb|Hb%Z.eqb_eq]; [by apply label_alnum_ascii|lia].
Qed.

(** The byte-level test of [is_valid_label]. *)
Lemma label_bytes_grammar (bs : bytes) :
  let n := length bs in
  (if negb (bool_decide (1 <= n <= 63)%nat) then false
   else if negb (is_label_alnum (nth 0 bs 0)) || negb (is_label_alnum (nth (n - 1) bs 0))
   then false
   else if bool_decide (n < 3)%nat then true
   else forallb (fun b => is_label_alnum b || (b =? 45)) (slice 1 (n - 1) bs)) = true <->
  label_grammar bs.
Proof.
  cbv zeta. unfold label_grammar. destruct bs as [|c rest]; [split; [done|naive_solver]|].
  destruct rest as [|d mid _] using rev_ind.
  { simpl. destruct (is_label_alnum c) eqn:Ec; simpl; naive_solver. }
  rewrite length_cons, length_app. simpl length.
  replace (S (length mid + 1) - 1)%nat with (S (length mid)) by lia.
  assert (nth (S (length mid)) (c :: mid ++ [d]) 0 = d) as ->.
  { simpl. rewrite app_nth2, Nat.sub_diag by lia. done. }
  assert (slice 1 (S (length mid)) (c :: mid ++ [d]) = mid) as ->.
  { rewrite (slice_tag 0). by apply slice_all. }
  simpl nth. split.
  - case_bool_decide as Hn; simpl; [|done].
    destruct (is_label_alnum c) eqn:Ec, (is_label_alnum d) eqn:Ed; simpl; try done.
    intros H. exists c, (mid ++ [d]). split_and!; [done|done|]. right. exists mid, d.
    split_and!; [done|lia| |done]. case_bool_decide; [|done].
    destruct mid; [done|]. simpl in *. lia.
  - intros (c' & rest & [= <- <-] & -> & [Hr|(mid' & d' & Hr & Hl & Hm & Hd)]).
    { by destruct mid. }
    apply app_inj_tail in Hr as [<- <-]. rewrite bool_decide_eq_true_2 by lia. simpl.
    rewrite Hd. simpl. by case_bool_decide.
Qed.

(** [is_valid_label] accepts exactly the labels of the documented grammar other than
    the reserved [admin]; in particular every accepted label is an ASCII host name part of
    at most 63 bytes, and no accepted label contains a multi-byte character. *)
Theorem valid_label_grammar (label : str) (Hs : Forall (fun c => is_scalar c = true) label) :
  is_valid_label label = true <-> label <> lit "admin" /\ label_grammar label.
Proof.
  unfold is_valid_label. case_bool_decide as Ha; [naive_solver|].
  rewrite label_bytes_grammar.
  assert (Hpos : Forall (fun c => 0 <= c) label).
  { eapply Forall_impl; [|exact Hs]. unfold is_scalar. intros c.
    rewrite orb_true_iff, !andb_true_iff, !Z.leb_le. lia. }
  assert (label_grammar (str_bytes label) <-> label_grammar label); [|naive_solver].
  split; intros Hg; pose proof (label_grammar_ascii _ Hg) as Hasc.
  - rewrite str_bytes_ascii in Hg; [done|]. apply ascii_str_bytes; [done|].
    eapply Forall_impl; [|exact Hasc]. simpl. lia.
  - by rewrite str_bytes_ascii.
Qed.

(** ** Abandoned reservations *)

Lemma pending_kept w o id k :
  reg_inv w -> rw_pending w !! id = Some k ->
  (forall info, o = OpInsert info -> ti_id info <> id) ->
  rw_pending (exec_op o w) !! id = Some k.
Proof.
  intros I Hp Ho.
  assert (Hlt : tid_raw id <> tr_next_id (rw_reg w)).
  { assert (holds w id k) as Hh%(inv_next w I) by by right. lia. }
  destruct o as [allow|l|i| | | | | | ]; simpl; try done.
  - unfold allocate_tcp. destruct (pick_free_port _ _ _ _); [|done]. simpl.
    rewrite lookup_insert_ne; [done|]. by intros <-.
  - unfold allocate_http. destruct (bool_decide _); [done|]. simpl.
    rewrite lookup_insert_ne; [done|]. by intros <-.
  - case_decide; [|done]. simpl. rewrite lookup_delete_ne; [done|]. by apply Ho.
Qed.

(** A port allocated for a tunnel that is never published (the caller's listener
    failed to bind) stays reserved: whatever operations follow, the port remains in the
    used set, so no later allocation can hand it out. *)
Theorem abandoned_port_reserved (lo hi : Z) (ops ops' : list RegOp)
    (allow : option (list Z)) (id : TunnelId) (p : Z) (r : TunnelRegistry)
    (Hlen : len (ops ++ OpAllocateTcp allow :: ops') < 2 ^ 64 - 2)
    (Halloc : allocate_tcp allow (rw_reg (run ops (initial lo hi))) = (Ok (id, p), r))
    (Hnever : forall info, OpInsert info ∈ ops' -> ti_id info <> id) :
  p ∈ tr_used_ports (rw_reg (run (ops ++ OpAllocateTcp allow :: ops') (initial lo hi))).
Proof.
  assert (Hpend : rw_pending (run (ops ++ OpAllocateTcp allow :: ops') (initial lo hi)) !! id
                  = Some (RK_Tcp p)).
  { induction ops' as [|o ops' IH] using rev_ind.
    - unfold run. rewrite foldl_snoc. fold (run ops (initial lo hi)). simpl.
      rewrite Halloc. simpl. apply lookup_insert_eq.
    - rewrite app_comm_cons, app_assoc in *. rewrite len_app in Hlen.
      pose proof (len_nonneg [o]). unfold run. rewrite foldl_snoc. apply pending_kept.
      + apply inv_run. lia.
      + apply IH; [lia|]. intros. apply Hnever. set_solver.
      + intros info ->. apply Hnever. set_solver. }
  destruct (inv_run lo hi _ Hlen) as [I _]. apply (inv_ports _ I). exists id. by right.
Qed.

(** ** Witnesses

    One HTTP tunnel [web] and one TCP tunnel, both owned by the key [alice]. *)
Definition alice : PubKey := {| pk_raw := repeat 1 32 |}.
Definition alice_session : SessionId := {| sid_raw := repeat 7 16 |}.

Definition web_tunnel : TunnelInfo :=
  {| ti_id := {| tid_raw := 1 |}; ti_owner := alice; ti_session_id := alice_session;
     ti_kind := RK_Http (lit "web"); ti_state := Live {| conn_handle := 5 |} None;
     ti_tcp_listener := None; ti_rate := {| rate_handle := 0 |}; ti_inspect := true |}.

Definition tcp_tunnel : TunnelInfo :=
  {| ti_id := {| tid_raw := 2 |}; ti_owner := alice; ti_session_id := alice_session;
     ti_kind := RK_Tcp 40000; ti_state := Live {| conn_handle := 5 |} (Some {| abort_handle := 3 |});
     ti_tcp_listener := Some {| listener_handle := 9 |}; ti_rate := {| rate_handle := 0 |};
     ti_inspect := false |}.

Definition sample_ops : list RegOp :=
  [OpAllocateHttp (lit "web"); OpInsert web_tunnel; OpAllocateTcp None; OpInsert tcp_tunnel].

Definition sample_world : RegWorld := run sample_ops (initial 40000 40001).

Lemma registry_invariant_witness :
  reg_inv sample_world /\ TunnelRegistry_len (rw_reg sample_world) = 2%nat.
Proof.
  split; [apply (registry_invariant 40000 40001 sample_ops); vm_compute; reflexivity|].
  vm_compute. reflexivity.
Defined.

Lemma registry_refines_witness :
  tr_tunnels (rw_reg (exec_op (OpMarkDangling 100 alice 30) sample_world)) =
    abs_exec (OpMarkDangling 100 alice 30) (rw_pending sample_world)
      (tr_tunnels (rw_reg sample_world)).
Proof.
  apply (registry_refines 40000 40001 sample_ops (OpMarkDangling 100 alice 30)).
  vm_compute. reflexivity.
Defined.

Lemma lease_roundtrip_witness :
  exists i, tr_tunnels (rw_reg sample_world) !! {| tid_raw := 1 |} = Some i /\
  let r1 := (mark_dangling 100 (ti_owner i) 30 (rw_reg sample_world)).1 in
  resolve_label (lit "web") r1 = None /\
  exists r2, try_resume [] (lit "web") (ti_session_id i) (ti_owner i) {| conn_handle := 6 |} r1 =
      (Reattached {| tid_raw := 1 |} (RI_Http (lit "web")) true, r2) /\
    resolve_label (lit "web") r2 =
      Some {| rt_id := {| tid_raw := 1 |}; rt_connection := {| conn_handle := 6 |};
              rt_rate := {| rate_handle := 0 |}; rt_inspect := true |}.
Proof.
  apply (lease_roundtrip 40000 40001 sample_ops (lit "web")
    {| rt_id := {| tid_raw := 1 |}; rt_connection := {| conn_handle := 5 |};
       rt_rate := {| rate_handle := 0 |}; rt_inspect := true |}).
  - vm_compute. reflexivity.
  - vm_compute. reflexivity.
Defined.

Lemma valid_label_grammar_witness :
  is_valid_label (lit "a1-b2") = true <->
  lit "a1-b2" <> lit "admin" /\ label_grammar (lit "a1-b2").
Proof. apply (valid_label_grammar (lit "a1-b2")). apply (bool_decide_unpack _). vm_compute. exact I. Defined.

Lemma abandoned_port_reserved_witness :
  40001 ∈ tr_used_ports (rw_reg (run (sample_ops ++ OpAllocateTcp None :: [OpRemoveAll alice])
                                     (initial 40000 40001))).
Proof.
  assert (exists r, allocate_tcp None (rw_reg (run sample_ops (initial 40000 40001))) =
            (Ok ({| tid_raw := 3 |}, 40001), r)) as [r Hr].
  { eexists. vm_compute. reflexivity. }
  apply (abandoned_port_reserved 40000 40001 sample_ops [OpRemoveAll alice] None
           {| tid_raw := 3 |} 40001 r).
  - vm_compute. reflexivity.
  - exact Hr.
  - intros info Hin. apply list_elem_of_singleton in Hin. discriminate.
Defined.

(** An expired lease that the reaper has not visited yet is still resumed. *)
Example expired_lease_resumed :
  let r := (mark_dangling 100 alice 30 (rw_reg sample_world)).1 in
  (try_resume [] (lit "web") alice_session alice {| conn_handle := 6 |} r).1 =
    Reattached {| tid_raw := 1 |} (RI_Http (lit "web")) true /\
  (reap_expired 1000 r).1 = 2%nat.
Proof. split; vm_compute; reflexivity. Qed.
