(* ===== verification/Rate.v ===== *)
(** * Rate: bandwidth and quota limits, and the metered byte shovel

    [krot-server/src/rate.rs].  [governor]'s token buckets are third-party code: a
    bucket is represented by the rate it is configured with, and [throttle] by the
    tokens it asks of which bucket.  The quota counter is modelled at its width:
    [fetch_add] and the comparison wrap modulo 2^64.  [charge] is two atomic
    actions, the roll-over under the deadline's mutex and the [fetch_add]; the
    theorems cover every interleaving of them.

    [run_metered] joins two [shovel] tasks that share the first-byte flag and the
    rate state: their steps ([ShovelEvent]) interleave in any order. *)

From S2P Require Import Prelude RustStr Wire Types.

Local Open Scope Z_scope.

(** ** Periods and rates *)

Inductive Period := Second | Minute | Hour | Day | Week | Month.

#[global] Instance Period_eq_dec : EqDecision Period.
Proof. solve_decision. Defined.

(** [Period::as_duration().as_secs()]. *)
Definition period_secs (p : Period) : Z :=
  match p with
  | Second => 1
  | Minute => 60
  | Hour => 60 * 60
  | Day => 24 * 60 * 60
  | Week => 7 * 24 * 60 * 60
  | Month => 30 * 24 * 60 * 60
  end.

Definition as_duration (p : Period) : Z := Duration_from_secs (period_secs p).

Record RatePer := { rp_bytes : Z; rp_period : Period }.

#[global] Instance RatePer_eq_dec : EqDecision RatePer.
Proof. solve_decision. Defined.

(** [u64::div_ceil]. *)
Definition div_ceil (a b : Z) : Z := (a + b - 1) / b.

Definition as_bytes_per_second (r : RatePer) : Z :=
  let secs := Z.max (period_secs (rp_period r)) 1 in
  div_ceil (rp_bytes r) secs.

(** [str::find] of the first non-digit, then [split_at] there. *)
Fixpoint span_digits (s : str) : str * str :=
  match s with
  | [] => ([], [])
  | c :: s' =>
    if is_ascii_digit c then let (a, b) := span_digits s' in (c :: a, b) else ([], s)
  end.

Definition unit_table : list (str * Z) :=
  [ ([], 1); (lit "B", 1); (lit "KB", 1000); (lit "kB", 1000); (lit "KiB", 1024);
    (lit "MB", 1000000); (lit "MiB", 1024 * 1024); (lit "GB", 1000000000);
    (lit "GiB", 1024 * 1024 * 1024); (lit "TB", 1000000000000); (lit "TiB", 1024 ^ 4) ].

Definition period_table : list (str * Period) :=
  [ (lit "s", Second); (lit "sec", Second); (lit "second", Second);
    (lit "m", Minute); (lit "min", Minute); (lit "minute", Minute);
    (lit "h", Hour); (lit "hr", Hour); (lit "hour", Hour);
    (lit "d", Day); (lit "day", Day); (lit "w", Week); (lit "week", Week);
    (lit "mo", Month); (lit "month", Month) ].

(** A [match] on string literals, as a table in source order. *)
Definition match_str {A} (s : str) (table : list (str * A)) : option A :=
  snd <$> find_first (fun kv => bool_decide (kv.1 = s)) table.

Definition parse_bytes (s : str) : option Z :=
  let (num, unit) := span_digits s in
  n ← parse_uint 64 num;
  mul ← match_str (trim unit) unit_table;
  checked 64 (n * mul).

Definition parse_rate_per (s : str) : option RatePer :=
  '(amount, period) ← rsplit_once 47 s;
  period ← match_str (trim period) period_table;
  bytes ← parse_bytes (trim amount);
  Some {| rp_bytes := bytes; rp_period := period |}.

(** [admin_api.rs]: [format_rate], the inverse used by the status endpoint. *)
Definition period_unit (p : Period) : str :=
  match p with
  | Second => lit "s"
  | Minute => lit "m"
  | Hour => lit "h"
  | Day => lit "day"
  | Week => lit "week"
  | Month => lit "month"
  end.

Definition format_rate (r : RatePer) : str :=
  fmt_dec (rp_bytes r) ++ lit "B/" ++ period_unit (rp_period r).

(** ** The limiter *)

Inductive Charge :=
| ChargeOk
| QuotaExceeded (retry_after_ms : Z).

(** [RateLimitState].  [rl_bw]: the rate of each bucket.  [rl_ctrl]: the attached control
    sender, if any.  [rl_metrics]: the metrics counter [rate_limit_quota_exceeded], if the
    state is linked to the metrics bag. *)
Record RateLimitState := {
  rl_bw : option (list Z);
  rl_quota_cap : option Z;
  rl_quota_period : Period;
  rl_quota_used : Z;
  rl_quota_reset_at : Z;
  rl_ctrl : option Z;
  rl_metrics : option Z;
}.

Definition from_entry_with_metrics (now : Z) (bw quota : option RatePer) (bw_partitions : Z)
    (metrics : option Z) : RateLimitState :=
  let partitions := Z.max bw_partitions 1 in
  let buckets :=
    r ← bw;
    let total_bps := Z.min (as_bytes_per_second r) (u_max 32) in
    let per_core_bps := Z.max (total_bps / partitions) 1 in
    let bps := wrap 32 per_core_bps in
    if bps =? 0 then None else Some (repeat bps (Z.to_nat partitions)) in
  let (cap, period) :=
    match quota with
    | Some q => (Some (rp_bytes q), rp_period q)
    | None => (None, Month)
    end in
  {| rl_bw := buckets; rl_quota_cap := cap; rl_quota_period := period; rl_quota_used := 0;
     rl_quota_reset_at := now + as_duration period; rl_ctrl := None; rl_metrics := metrics |}.

Definition from_entry (now : Z) (bw quota : option RatePer) (bw_partitions : Z) :
    RateLimitState := from_entry_with_metrics now bw quota bw_partitions None.

Definition set_quota (used reset_at : Z) (st : RateLimitState) : RateLimitState :=
  {| rl_bw := rl_bw st; rl_quota_cap := rl_quota_cap st; rl_quota_period := rl_quota_period st;
     rl_quota_used := used; rl_quota_reset_at := reset_at; rl_ctrl := rl_ctrl st;
     rl_metrics := rl_metrics st |}.

Definition set_ctrl (tx : option Z) (st : RateLimitState) : RateLimitState :=
  {| rl_bw := rl_bw st; rl_quota_cap := rl_quota_cap st; rl_quota_period := rl_quota_period st;
     rl_quota_used := rl_quota_used st; rl_quota_reset_at := rl_quota_reset_at st;
     rl_ctrl := tx; rl_metrics := rl_metrics st |}.

Definition attach_ctrl (tx : Z) (st : RateLimitState) : RateLimitState := set_ctrl (Some tx) st.
Definition detach_ctrl (st : RateLimitState) : RateLimitState := set_ctrl None st.

(** [throttle]: the (bucket, tokens) requests made of the limiter.  [burst_ok bps n] is
    [governor]'s answer to whether [n] tokens fit the bucket's burst; if not, the tokens
    are awaited one at a time. *)
Definition throttle (burst_ok : Z -> Z -> bool) (worker : Z) (n : Z) (st : RateLimitState) :
    list (nat * Z) :=
  match rl_bw st with
  | None => []
  | Some buckets =>
    if n =? 0 then []
    else
      let idx := Z.to_nat (worker mod len buckets) in
      if burst_ok (nth idx buckets 0) n then [(idx, n)] else repeat (idx, 1) (Z.to_nat n)
  end.

(** [Duration::as_millis] of the time to the reset, clamped to [u32]. *)
Definition retry_after_ms (now : Z) (st : RateLimitState) : Z :=
  let d := Z.max (rl_quota_reset_at st - now) 0 in
  let ms := d / 1000000 in
  if ms <=? u_max 32 then ms else u_max 32.

(** The first atomic action of [charge]: roll the counter over. *)
Definition charge_roll (now : Z) (st : RateLimitState) : RateLimitState :=
  if rl_quota_reset_at st <=? now
  then set_quota 0 (now + as_duration (rl_quota_period st)) st
  else st.

(** The second: count the bytes and compare.  [now] is the clock [retry_after_ms] reads.
    The third component is the frame queued for the control stream. *)
Definition charge_add (now : Z) (tunnel_id : TunnelId) (n cap : Z) (st : RateLimitState) :
    Charge * RateLimitState * list (Z * ServerFrame) :=
  let prev := rl_quota_used st in
  let st := set_quota (wrap 64 (prev + n)) (rl_quota_reset_at st) st in
  if cap <? wrap 64 (prev + n)
  then
    let ms := retry_after_ms now st in
    let sent := match rl_ctrl st with
                | Some tx => [(tx, RateLimit (Some tunnel_id) ms)]
                | None => []
                end in
    let st := {| rl_bw := rl_bw st; rl_quota_cap := rl_quota_cap st;
                 rl_quota_period := rl_quota_period st; rl_quota_used := rl_quota_used st;
                 rl_quota_reset_at := rl_quota_reset_at st; rl_ctrl := rl_ctrl st;
                 rl_metrics := (fun m => wrap 64 (m + 1)) <$> rl_metrics st |} in
    (QuotaExceeded ms, st, sent)
  else (ChargeOk, st, []).

Definition RateLimitState_charge (now : Z) (tunnel_id : TunnelId) (n : Z) (st : RateLimitState) :
    Charge * RateLimitState * list (Z * ServerFrame) :=
  match rl_quota_cap st with
  | None => (ChargeOk, st, [])
  | Some cap => charge_add now tunnel_id n cap (charge_roll now st)
  end.

Definition quota_used_snapshot (st : RateLimitState) : Z := rl_quota_used st.

(** ** The metered shovel *)

Inductive IoError :=
| IoTimedOut
| IoOther (msg : str)
| IoErr (e : Z).

(** Where one direction of the shovel stands: before its next [read], reading (with or
    without the first-byte deadline), or waiting for bandwidth tokens with a full chunk. *)
Inductive ShovelWait :=
| AtLoop
| Reading (deadline : bool)
| Throttled (buf : bytes).

Record Shovel := {
  sh_wait : ShovelWait;
  sh_first : bool;
  sh_total : Z;
  sh_written : bytes;
  sh_tokens : list (nat * Z);
  sh_shutdown : bool;
  sh_done : option (Result Z IoError);
}.

(** What can happen to it: it is polled at the head of the loop, the deadline fires, the
    read completes, or the tokens are granted, when [charge] and [write_all] run ([now] is
    the clock [charge] reads, [wr] the error of [write_all]). *)
Inductive ShovelEvent :=
| EvPoll
| EvDeadline
| EvRead (res : Result bytes Z)
| EvTokens (now : Z) (wr : option Z).

Definition shovel_start : Shovel :=
  {| sh_wait := AtLoop; sh_first := true; sh_total := 0; sh_written := []; sh_tokens := [];
     sh_shutdown := false; sh_done := None |}.

Definition shovel_finish (r : Result Z IoError) (close : bool) (sh : Shovel) : Shovel :=
  {| sh_wait := sh_wait sh; sh_first := sh_first sh; sh_total := sh_total sh;
     sh_written := sh_written sh; sh_tokens := sh_tokens sh;
     sh_shutdown := sh_shutdown sh || close; sh_done := Some r |}.

Definition shovel_await (deadline : bool) (sh : Shovel) : Shovel :=
  {| sh_wait := Reading deadline; sh_first := sh_first sh; sh_total := sh_total sh;
     sh_written := sh_written sh; sh_tokens := sh_tokens sh; sh_shutdown := sh_shutdown sh;
     sh_done := sh_done sh |}.

Section Metering.
Context (burst_ok : Z -> Z -> bool) (worker : Z) (tunnel_id : TunnelId).

(** A completed read: up to the bandwidth throttle. *)
Definition shovel_read (res : Result bytes Z) (seen : bool) (rate : RateLimitState)
    (sh : Shovel) : Shovel * bool :=
  match res with
  | Err e => (shovel_finish (Err (IoErr e)) false sh, seen)
  | Ok [] => (shovel_finish (Ok (sh_total sh)) true sh, seen)
  | Ok buf =>
    let n := Z.min (len buf) (u_max 32) in
    ({| sh_wait := Throttled buf; sh_first := false; sh_total := sh_total sh;
        sh_written := sh_written sh;
        sh_tokens := sh_tokens sh ++ throttle burst_ok worker n rate;
        sh_shutdown := sh_shutdown sh; sh_done := None |}, true)
  end.

(** The tokens are there: charge the quota and forward the chunk. *)
Definition shovel_forward (buf : bytes) (now : Z) (wr : option Z) (rate : RateLimitState)
    (sh : Shovel) : Shovel * RateLimitState * list (Z * ServerFrame) :=
  match RateLimitState_charge now tunnel_id (len buf) rate with
  | (QuotaExceeded _, rate, sent) =>
    (shovel_finish (Err (IoOther (lit "period quota exceeded"))) true sh, rate, sent)
  | (ChargeOk, rate, sent) =>
    match wr with
    | Some e => (shovel_finish (Err (IoErr e)) false sh, rate, sent)
    | None =>
      ({| sh_wait := AtLoop; sh_first := sh_first sh;
          sh_total := wrap 64 (sh_total sh + len buf);
          sh_written := sh_written sh ++ buf; sh_tokens := sh_tokens sh;
          sh_shutdown := sh_shutdown sh; sh_done := None |}, rate, sent)
    end
  end.

Definition shovel_step (ev : ShovelEvent) (seen : bool) (rate : RateLimitState) (sh : Shovel) :
    Shovel * bool * RateLimitState * list (Z * ServerFrame) :=
  match sh_done sh, sh_wait sh, ev with
  | None, AtLoop, EvPoll => (shovel_await (sh_first sh && negb seen) sh, seen, rate, [])
  | None, Reading true, EvDeadline =>
    if seen then (shovel_await false sh, seen, rate, [])
    else (shovel_finish (Err IoTimedOut) false sh, seen, rate, [])
  | None, Reading _, EvRead res =>
    let (sh, seen) := shovel_read res seen rate sh in (sh, seen, rate, [])
  | None, Throttled buf, EvTokens now wr =>
    let '(sh, rate, sent) := shovel_forward buf now wr rate sh in (sh, seen, rate, sent)
  | _, _, _ => (sh, seen, rate, [])
  end.

(** [run_metered]: the two directions, the shared flag and the shared limiter. *)
Record Metered := {
  mt_ab : Shovel;
  mt_ba : Shovel;
  mt_seen : bool;
  mt_rate : RateLimitState;
  mt_sent : list (Z * ServerFrame);
}.

Inductive Dir := AtoB | BtoA.

Definition metered_start (rate : RateLimitState) : Metered :=
  {| mt_ab := shovel_start; mt_ba := shovel_start; mt_seen := false; mt_rate := rate;
     mt_sent := [] |}.

(** The value of [try_join!]: an error of either side, or both counts. *)
Definition metered_result (m : Metered) : option (Result (Z * Z) IoError) :=
  match sh_done (mt_ab m), sh_done (mt_ba m) with
  | Some (Err e), _ => Some (Err e)
  | _, Some (Err e) => Some (Err e)
  | Some (Ok x), Some (Ok y) => Some (Ok (x, y))
  | _, _ => None
  end.

(** Once [try_join!] has a value the futures are dropped and nothing more happens. *)
Definition metered_step (m : Metered) (de : Dir * ShovelEvent) : Metered :=
  match metered_result m with
  | Some _ => m
  | None =>
    match de with
    | (AtoB, ev) =>
      let '(sh, seen, rate, sent) := shovel_step ev (mt_seen m) (mt_rate m) (mt_ab m) in
      {| mt_ab := sh; mt_ba := mt_ba m; mt_seen := seen; mt_rate := rate;
         mt_sent := mt_sent m ++ sent |}
    | (BtoA, ev) =>
      let '(sh, seen, rate, sent) := shovel_step ev (mt_seen m) (mt_rate m) (mt_ba m) in
      {| mt_ab := mt_ab m; mt_ba := sh; mt_seen := seen; mt_rate := rate;
         mt_sent := mt_sent m ++ sent |}
    end
  end.

Definition run_metered (rate : RateLimitState) (evs : list (Dir * ShovelEvent)) : Metered :=
  foldl metered_step (metered_start rate) evs.

End Metering.

(** ** Rates *)

Lemma span_digits_app ds u :
  Forall (fun c => 48 <= c <= 57) ds ->
  (forall c u', u = c :: u' -> is_ascii_digit c = false) ->
  span_digits (ds ++ u) = (ds, u).
Proof.
  intros Hd Hu. induction Hd as [|c ds Hc _ IH]; simpl.
  - destruct u as [|c u]; [done|]. simpl. by rewrite (Hu c u eq_refl).
  - unfold is_ascii_digit. rewrite !(proj2 (Z.leb_le _ _)) by lia. simpl. by rewrite IH.
Qed.

(** The rate an operator sees on the status endpoint is the rate the parser reads: every
    rate of the limiter's width, formatted by [format_rate], parses back to itself. *)
Theorem rate_roundtrip (r : RatePer) (Hb : in_u 64 (rp_bytes r)) :
  parse_rate_per (format_rate r) = Some r.
Proof.
  destruct r as [n p]; simpl in Hb. unfold format_rate. simpl rp_bytes. simpl rp_period.
  destruct (fmt_dec_spec n (proj1 Hb)) as (Hne & Hd & _).
  assert (Hu : 47 ∉ period_unit p /\ match_str (trim (period_unit p)) period_table = Some p).
  { destruct p; (split; [apply (bool_decide_unpack _); vm_compute; exact I|
                                  vm_compute; reflexivity]). }
  destruct Hu as [Hu Hp]. unfold parse_rate_per.
  generalize dependent (period_unit p). intros u Hu Hp.
  change (fmt_dec n ++ lit "B/" ++ u) with (fmt_dec n ++ [66] ++ 47 :: u).
  rewrite app_assoc, rsplit_once_app by done. simpl. rewrite Hp. simpl.
  assert (trim (fmt_dec n ++ [66]) = fmt_dec n ++ [66]) as ->.
  { apply trim_id.
    - intros c s' Hs. destruct (fmt_dec n) as [|d ds]; [done|]. injection Hs as <- _.
      apply Forall_cons_1 in Hd as [Hd _]. by apply digit_not_whitespace.
    - intros c s' [_ <-]%app_inj_tail. reflexivity. }
  unfold parse_bytes. rewrite span_digits_app; [|done|].
  - rewrite parse_uint_fmt_dec by done.
    change (match_str (trim [66]) unit_table) with (Some 1). simpl. rewrite Z.mul_1_r. unfold checked. by rewrite decide_True by apply Hb.
  - by intros c u' [= <- _].
Qed.

(** The bandwidth cap is split evenly: one bucket per worker, all of the same positive
    rate; as soon as the cap gives every worker a byte per second, the buckets together
    stay within the cap (rounded up to whole bytes per second and clamped to 32 bits) and
    fall short of it by less than one byte per worker; below that each bucket still gets
    one byte per second. *)
Theorem bandwidth_split (now : Z) (r : RatePer) (quota : option RatePer) (p : Z)
    (Hr : 0 <= rp_bytes r) (Hp : 1 <= p) :
  exists b, rl_bw (from_entry now (Some r) quota p) = Some (repeat b (Z.to_nat p)) /\ 1 <= b /\
  let secs := period_secs (rp_period r) in
  let cap := as_bytes_per_second r in
  let total := Z.min cap (u_max 32) in
  rp_bytes r <= cap * secs < rp_bytes r + secs /\
  (p <= total -> b * p <= total < b * p + p) /\
  (total < p -> b = 1).
Proof.
  assert (Hs : 1 <= period_secs (rp_period r)) by (by destruct (rp_period r)).
  unfold from_entry, from_entry_with_metrics. simpl rl_bw. rewrite (Z.max_l p 1) by done.
  set (total := Z.min _ _).
  assert (Ht : 0 <= total <= u_max 32).
  { subst total. unfold as_bytes_per_second, div_ceil. rewrite Z.max_l by done.
    pose proof (Z.div_pos (rp_bytes r + period_secs (rp_period r) - 1) (period_secs (rp_period r))
                  ltac:(lia) ltac:(lia)). uint. lia. }
  pose proof (Z.div_pos total p ltac:(lia) ltac:(lia)).
  pose proof (Z.div_mod total p ltac:(lia)). pose proof (Z.mod_pos_bound total p ltac:(lia)).
  assert (total / p <= u_max 32).
  { etrans; [|apply Ht]. apply Z.div_le_upper_bound; [lia|]. nia. }
  exists (Z.max (total / p) 1). split_and!.
  - destruct quota; simpl; unfold wrap, u_max in *; rewrite Z.mod_small by lia;
      by rewrite (proj2 (Z.eqb_neq _ _)) by lia.
  - lia.
  - unfold as_bytes_per_second, div_ceil. rewrite Z.max_l by done.
    set (s := period_secs (rp_period r)) in *.
    pose proof (Z.div_mod (rp_bytes r + s - 1) s ltac:(lia)).
    pose proof (Z.mod_pos_bound (rp_bytes r + s - 1) s ltac:(lia)). nia.
  - unfold as_bytes_per_second, div_ceil. rewrite Z.max_l by done.
    set (s := period_secs (rp_period r)) in *.
    pose proof (Z.div_mod (rp_bytes r + s - 1) s ltac:(lia)).
    pose proof (Z.mod_pos_bound (rp_bytes r + s - 1) s ltac:(lia)). nia.
  - intros Hle. assert (1 <= total / p) by (apply Z.div_le_lower_bound; lia). nia.
  - intros Hlt. rewrite Z.div_small by lia. done.
Qed.

(** ** The quota *)

(** The atomic actions of concurrent [charge] calls on one limiter. *)
Inductive QuotaAction :=
| QRoll (now : Z)
| QAdd (now : Z) (tunnel_id : TunnelId) (n : Z).

Definition action_bytes (a : QuotaAction) : Z :=
  match a with QRoll _ => 0 | QAdd _ _ n => n end.

(** The limiter and the bytes accepted since its counter was last rolled over. *)
Definition quota_action (cap : Z) (sa : RateLimitState * Z) (a : QuotaAction) :
    RateLimitState * Z :=
  let (st, acc) := sa in
  match a with
  | QRoll now => (charge_roll now st, if rl_quota_reset_at st <=? now then 0 else acc)
  | QAdd now tid n =>
    match charge_add now tid n cap st with
    | (ChargeOk, st, _) => (st, acc + n)
    | (QuotaExceeded _, st, _) => (st, acc)
    end
  end.

Definition quota_run (cap : Z) (st : RateLimitState) (l : list QuotaAction) :
    RateLimitState * Z := foldl (quota_action cap) (st, 0) l.

Definition total_bytes (l : list QuotaAction) : Z := foldr (fun a z => action_bytes a + z) 0 l.

Lemma total_bytes_snoc l a : total_bytes (l ++ [a]) = total_bytes l + action_bytes a.
Proof. induction l as [|b l IH]; simpl; lia. Qed.

Lemma charge_add_used now tid n cap st :
  rl_quota_used (charge_add now tid n cap st).1.2 = wrap 64 (rl_quota_used st + n).
Proof. unfold charge_add. simpl. by case_match. Qed.

Lemma quota_run_inv cap st l :
  0 <= cap -> 0 <= rl_quota_used st ->
  Forall (fun a => 0 <= action_bytes a) l ->
  rl_quota_used st + total_bytes l < 2 ^ 64 ->
  let '(st', acc) := quota_run cap st l in
  0 <= acc <= rl_quota_used st' /\ acc <= cap /\
  rl_quota_used st' <= rl_quota_used st + total_bytes l.
Proof.
  intros Hc Hu. induction l as [|a l IH] using rev_ind; intros Hl Ht.
  { simpl. lia. }
  apply Forall_app in Hl as [Hl [Ha _]%Forall_cons_1]. rewrite total_bytes_snoc in *.
  unfold quota_run in *. rewrite foldl_snoc.
  destruct (foldl (quota_action cap) (st, 0) l) as [st' acc].
  destruct IH as (Hacc & Hcap & Hus); [done|lia|].
  destruct a as [now|now tid n]; simpl in *.
  - unfold charge_roll. destruct (_ <=? now); simpl; lia.
  - pose proof (charge_add_used now tid n cap st') as Hadd.
    unfold wrap in Hadd. rewrite Z.mod_small in Hadd by lia.
    destruct (charge_add now tid n cap st') as [[[|ms] st2] sent] eqn:E; simpl in Hadd; rewrite Hadd.
    + unfold charge_add in E. unfold wrap in E. rewrite Z.mod_small in E by lia.
      destruct (Z.ltb_spec cap (rl_quota_used st' + n)); simplify_eq. lia.
    + lia.
Qed.

(** C5: The period quota is never exceeded, however the atomic actions of concurrent
    charges interleave: as long as the counter has not been driven around its 64 bits,
    the bytes accepted since the last roll-over stay within the cap. *)
Theorem quota_never_exceeded (cap : Z) (st : RateLimitState) (l : list QuotaAction)
    (Hcap : 0 <= cap) (Hused : 0 <= rl_quota_used st)
    (Hpos : Forall (fun a => 0 <= action_bytes a) l)
    (Hwidth : rl_quota_used st + total_bytes l < 2 ^ 64) :
  (quota_run cap st l).2 <= cap.
Proof.
  pose proof (quota_run_inv cap st l Hcap Hused Hpos Hwidth) as H.
  destruct (quota_run cap st l) as [st' acc]. apply H.
Qed.

(** One charge, on every branch.  Without a cap nothing is counted.  With a cap, after
    the roll-over that is due, a chunk is accepted exactly when the count with it stays
    within the cap; the chunk is counted either way; a refusal tells the attached control
    stream (and only it) how long to wait, at most until the reset and within 32 bits, and
    bumps the metrics counter. *)
Theorem charge_outcome (now : Z) (tid : TunnelId) (n : Z) (st : RateLimitState)
    (Hn : 0 <= n) (Hu : 0 <= rl_quota_used st) (Hw : rl_quota_used st + n < 2 ^ 64) :
  match rl_quota_cap st with
  | None => RateLimitState_charge now tid n st = (ChargeOk, st, [])
  | Some cap =>
    let due := rl_quota_reset_at st <=? now in
    let used := if due then 0 else rl_quota_used st in
    let reset := if due then now + as_duration (rl_quota_period st) else rl_quota_reset_at st in
    let '(c, st', sent) := RateLimitState_charge now tid n st in
    rl_quota_used st' = used + n /\ rl_quota_reset_at st' = reset /\
    if used + n <=? cap
    then c = ChargeOk /\ sent = [] /\ rl_metrics st' = rl_metrics st
    else exists ms, c = QuotaExceeded ms /\ in_u 32 ms /\ ms * 1000000 <= Z.max (reset - now) 0 /\
      sent = match rl_ctrl st with
             | Some tx => [(tx, RateLimit (Some tid) ms)]
             | None => []
             end /\
      rl_metrics st' = (fun m => wrap 64 (m + 1)) <$> rl_metrics st
  end.
Proof.
  unfold RateLimitState_charge. destruct (rl_quota_cap st) as [cap|] eqn:Ec; [|done].
  cbv zeta. set (used := if _ <=? now then _ else _). set (reset := if _ <=? now then _ else _).
  assert (Hr : charge_roll now st = set_quota used reset st).
  { unfold charge_roll. subst used reset. by destruct (_ <=? now), st. }
  assert (Hused : 0 <= used /\ used + n < 2 ^ 64) by (subst used; destruct (_ <=? now); lia).
  assert (Hwr : wrap 64 (used + n) = used + n) by (unfold wrap; apply Z.mod_small; lia).
  rewrite Hr. unfold charge_add. simpl. rewrite !Hwr.
  destruct (Z.ltb_spec cap (used + n)).
  - rewrite (proj2 (Z.leb_gt _ _)) by done. split_and!; [done|done|].
    eexists. split_and!; [done| | |done|done]; unfold retry_after_ms; simpl.
    + pose proof (Z.div_pos (Z.max (reset - now) 0) 1000000 ltac:(lia) ltac:(lia)).
      destruct (Z.leb_spec (Z.max (reset - now) 0 / 1000000) (u_max 32)); uint; lia.
    + pose proof (Z.mul_div_le (Z.max (reset - now) 0) 1000000 ltac:(lia)).
      destruct (Z.leb_spec (Z.max (reset - now) 0 / 1000000) (u_max 32)); lia.
  - by rewrite (proj2 (Z.leb_le (used + n) cap)).
Qed.

(** ** Metered copying *)

(** The bytes a direction has read so far: what the events add to them. *)
Definition read_step (sh : Shovel) (ev : ShovelEvent) (log : bytes) : bytes :=
  match sh_done sh, sh_wait sh, ev with
  | None, Reading _, EvRead (Ok buf) => log ++ buf
  | _, _, _ => log
  end.

(** A direction whose reads are [log] stands where the code left it: it has forwarded
    everything it read, except a chunk that waits for tokens or was refused. *)
Definition shovel_ok (sh : Shovel) (log : bytes) : Prop :=
  sh_total sh = wrap 64 (len (sh_written sh)) /\
  match sh_done sh with
  | Some (Ok t) => sh_written sh = log /\ t = wrap 64 (len log) /\ sh_shutdown sh = true
  | Some (Err _) => exists rest, log = sh_written sh ++ rest
  | None => match sh_wait sh with
            | Throttled buf => log = sh_written sh ++ buf
            | _ => log = sh_written sh
            end
  end.

Section MeteringTheorems.
Context (burst_ok : Z -> Z -> bool) (worker : Z) (tunnel_id : TunnelId).

Lemma shovel_read_ok res seen rate sh log d :
  sh_done sh = None -> sh_wait sh = Reading d -> shovel_ok sh log ->
  let '(sh', seen') := shovel_read burst_ok worker res seen rate sh in
  let log' := read_step sh (EvRead res) log in
  shovel_ok sh' log' /\ seen' = seen || bool_decide (log' <> log) /\
  sh_done sh' <> Some (Err IoTimedOut).
Proof.
  intros Hd Hw [Ht Hok]. rewrite Hd, Hw in Hok. unfold read_step. rewrite Hd, Hw.
  unfold shovel_ok. destruct res as [[|b buf]|e]; simpl.
  - rewrite app_nil_r, bool_decide_eq_false_2, !orb_false_r by naive_solver.
    split_and!; try done; [by subst log|by rewrite orb_true_r].
  - subst log. split_and!; try done.
    rewrite bool_decide_eq_true_2, orb_true_r; [done|].
    intros H. apply (f_equal length) in H. rewrite length_app in H. simpl in H. lia.
  - rewrite bool_decide_eq_false_2, orb_false_r by naive_solver.
    split_and!; try done. exists []. by rewrite app_nil_r.
Qed.

Lemma shovel_forward_ok buf now wr rate sh log :
  sh_done sh = None -> sh_wait sh = Throttled buf -> shovel_ok sh log ->
  let '(sh', rate', sent) := shovel_forward tunnel_id buf now wr rate sh in
  shovel_ok sh' log /\ sh_done sh' <> Some (Err IoTimedOut).
Proof.
  intros Hd Hw [Ht Hok]. rewrite Hd, Hw in Hok. subst log. unfold shovel_forward.
  destruct (RateLimitState_charge now tunnel_id (len buf) rate) as [[[|ms] rate'] sent].
  - destruct wr as [e|]; (split; [|done]); unfold shovel_ok; simpl; [eauto|].
    split; [|done]. rewrite Ht, len_app. unfold wrap. by rewrite Z.add_mod_idemp_l.
  - split; [|done]. unfold shovel_ok. simpl. eauto.
Qed.

(** One step keeps the account, raises the flag exactly on a non-empty read, and times
    out only while the flag is down. *)
Lemma shovel_step_ok ev seen rate sh log :
  shovel_ok sh log -> sh_done sh <> Some (Err IoTimedOut) ->
  let '(sh', seen', rate', sent) := shovel_step burst_ok worker tunnel_id ev seen rate sh in
  let log' := read_step sh ev log in
  shovel_ok sh' log' /\ seen' = seen || bool_decide (log' <> log) /\
  (sh_done sh' = Some (Err IoTimedOut) -> seen = false /\ log' = log).
Proof.
  intros Hok Hto.
  assert (Hsame : forall s : bool, s = s || bool_decide (log <> log)).
  { intros s. by rewrite bool_decide_eq_false_2, orb_false_r by naive_solver. }
  destruct (sh_done sh) as [res|] eqn:Hd.
  { unfold shovel_step, read_step. rewrite !Hd. naive_solver. }
  unfold shovel_step. rewrite Hd. destruct (sh_wait sh) as [|d|buf] eqn:Hw.
  - unfold read_step. rewrite Hd, Hw. destruct ev; split_and!; try done; try naive_solver congruence.
    destruct Hok as [Ht Hok]. rewrite Hd, Hw in Hok. unfold shovel_ok. simpl. by rewrite Hd.
  - destruct ev as [| |res|now wr].
    + unfold read_step. rewrite Hd, Hw. destruct d; split_and!; try done; naive_solver congruence.
    + unfold read_step. rewrite Hd, Hw. destruct Hok as [Ht Hok]. rewrite Hd, Hw in Hok.
      destruct d; [destruct seen|]; (split_and!; [|apply Hsame|]); unfold shovel_ok;
        simpl; rewrite ?Hd, ?Hw; try done; try (split; [done|]; exists []; by rewrite app_nil_r).
    + pose proof (shovel_read_ok res seen rate sh log d Hd Hw Hok) as Hr.
      replace (match d with true | _ => _ end) with
        (let (sh, seen) := shovel_read burst_ok worker res seen rate sh in
         (sh, seen, rate, @nil (Z * ServerFrame))) by by destruct d.
      destruct (shovel_read burst_ok worker res seen rate sh) as [sh' seen'].
      destruct Hr as (? & ? & ?). done.
    + unfold read_step. rewrite Hd, Hw. destruct d; split_and!; try done; naive_solver congruence.
  - destruct ev as [| |res|now wr]; [| | |].
    4: { pose proof (shovel_forward_ok buf now wr rate sh log Hd Hw Hok) as Hf.
         destruct (shovel_forward tunnel_id buf now wr rate sh) as [[sh' rate'] sent].
         destruct Hf as [? ?]. unfold read_step. rewrite Hd, Hw. done. }
    all: unfold read_step; rewrite Hd, Hw; split_and!; (done || naive_solver congruence).
Qed.

(** The run, with the bytes each direction read. *)
Definition metered_reads (m : Metered) (de : Dir * ShovelEvent) (logs : bytes * bytes) :
    bytes * bytes :=
  match metered_result m, de with
  | Some _, _ => logs
  | None, (AtoB, ev) => (read_step (mt_ab m) ev logs.1, logs.2)
  | None, (BtoA, ev) => (logs.1, read_step (mt_ba m) ev logs.2)
  end.

Definition metered_trace (rate : RateLimitState) (evs : list (Dir * ShovelEvent)) :
    Metered * (bytes * bytes) :=
  foldl (fun ml de => (metered_step burst_ok worker tunnel_id ml.1 de, metered_reads ml.1 de ml.2))
    (metered_start rate, ([], [])) evs.

Lemma metered_trace_run rate evs :
  (metered_trace rate evs).1 = run_metered burst_ok worker tunnel_id rate evs.
Proof.
  unfold metered_trace, run_metered. induction evs as [|e evs IH] using rev_ind; [done|].
  rewrite !foldl_snoc. simpl. by rewrite IH.
Qed.

Record metered_inv (m : Metered) (logs : bytes * bytes) : Prop := {
  mi_ab : shovel_ok (mt_ab m) logs.1;
  mi_ba : shovel_ok (mt_ba m) logs.2;
  mi_seen : mt_seen m = bool_decide (logs.1 <> []) || bool_decide (logs.2 <> []);
  mi_timeout : sh_done (mt_ab m) = Some (Err IoTimedOut) \/
               sh_done (mt_ba m) = Some (Err IoTimedOut) -> logs = ([], []);
}.

Lemma read_step_extends sh ev log : exists more, read_step sh ev log = log ++ more.
Proof. unfold read_step. repeat case_match; eauto using app_nil_r; exists []; by rewrite app_nil_r. Qed.

(** The flag after a read of one side. *)
Lemma seen_extend (a b more : bytes) :
  (bool_decide (a <> []) || bool_decide (b <> [])) || bool_decide (a ++ more <> a) =
  bool_decide (a ++ more <> []) || bool_decide (b <> []).
Proof.
  destruct more as [|x more].
  - rewrite app_nil_r. rewrite (bool_decide_eq_false_2 (a <> a)) by naive_solver.
    apply orb_false_r.
  - rewrite (bool_decide_eq_true_2 (a ++ x :: more <> a)).
    + rewrite (bool_decide_eq_true_2 (a ++ x :: more <> [])) by by destruct a.
      by rewrite orb_true_r.
    + intros H. apply (f_equal length) in H. rewrite length_app in H. simpl in H. lia.
Qed.

Lemma result_None_not_timeout m :
  metered_result m = None ->
  sh_done (mt_ab m) <> Some (Err IoTimedOut) /\ sh_done (mt_ba m) <> Some (Err IoTimedOut).
Proof. unfold metered_result. repeat case_match; naive_solver. Qed.

Lemma flag_down (la lb : bytes) :
  bool_decide (la <> []) || bool_decide (lb <> []) = false -> la = [] /\ lb = [].
Proof. intros [Ha Hb]%orb_false_iff. case_bool_decide; [done|]. by case_bool_decide. Qed.

Lemma metered_step_inv m logs de :
  metered_inv m logs ->
  metered_inv (metered_step burst_ok worker tunnel_id m de) (metered_reads m de logs).
Proof.
  intros [Hab Hba Hs Ht]. unfold metered_step, metered_reads.
  destruct (metered_result m) eqn:Er; [by split|].
  destruct (result_None_not_timeout m Er) as [Na Nb].
  destruct de as [[] ev].
  - pose proof (shovel_step_ok ev (mt_seen m) (mt_rate m) _ _ Hab Na) as H.
    destruct (shovel_step _ _ _ _ _ _ _) as [[[sh seen] rate] sent]. destruct H as (H1 & H2 & H3).
    destruct (read_step_extends (mt_ab m) ev logs.1) as [more E].
    rewrite E in *. split; simpl; [done|done|by rewrite H2, Hs, seen_extend|].
    intros [Hto|Hto]; [|done]. destruct (H3 Hto) as [Hf Hl]. rewrite Hs in Hf.
    apply flag_down in Hf as [Ha Hb]. by rewrite Hl, Ha, Hb.
  - pose proof (shovel_step_ok ev (mt_seen m) (mt_rate m) _ _ Hba Nb) as H.
    destruct (shovel_step _ _ _ _ _ _ _) as [[[sh seen] rate] sent]. destruct H as (H1 & H2 & H3).
    destruct (read_step_extends (mt_ba m) ev logs.2) as [more E].
    rewrite E in *. split; simpl; [done|done| |].
    + rewrite H2, Hs, (orb_comm (bool_decide (logs.1 <> []))), seen_extend. apply orb_comm.
    + intros [Hto|Hto]; [done|]. destruct (H3 Hto) as [Hf Hl]. rewrite Hs in Hf.
      apply flag_down in Hf as [Ha Hb]. by rewrite Hl, Ha, Hb.
Qed.

Lemma metered_trace_inv rate evs :
  metered_inv (metered_trace rate evs).1 (metered_trace rate evs).2.
Proof.
  induction evs as [|e evs IH] using rev_ind.
  - by split.
  - unfold metered_trace. rewrite foldl_snoc. by apply metered_step_inv.
Qed.

Lemma shovel_ok_prefix sh log : shovel_ok sh log -> exists rest, log = sh_written sh ++ rest.
Proof.
  intros [_ H]. repeat case_match; try naive_solver; exists [];
    rewrite app_nil_r; naive_solver.
Qed.

(** Metered copying loses, invents and reorders nothing, whatever the interleaving of
    the two directions, timeouts, refusals and write errors: what a direction has
    forwarded is a prefix of what it read; when [run_metered] returns counts, both
    directions forwarded every byte they read and the counts are their lengths; and it
    reports the first-byte timeout only when no byte had been read on either side. *)
Theorem metered_account (rate : RateLimitState) (evs : list (Dir * ShovelEvent)) :
  let m := run_metered burst_ok worker tunnel_id rate evs in
  let '(la, lb) := (metered_trace rate evs).2 in
  (exists ra rb, la = sh_written (mt_ab m) ++ ra /\ lb = sh_written (mt_ba m) ++ rb) /\
  (forall x y, metered_result m = Some (Ok (x, y)) ->
     sh_written (mt_ab m) = la /\ sh_written (mt_ba m) = lb /\
     x = wrap 64 (len la) /\ y = wrap 64 (len lb)) /\
  (metered_result m = Some (Err IoTimedOut) -> la = [] /\ lb = []).
Proof.
  pose proof (metered_trace_inv rate evs) as [Ha Hb Hs Ht].
  rewrite metered_trace_run in *. destruct ((metered_trace rate evs).2) as [la lb].
  simpl in *. set (m := run_metered _ _ _ _ _) in *. split_and!.
  - destruct (shovel_ok_prefix _ _ Ha) as [ra Hra]. destruct (shovel_ok_prefix _ _ Hb) as [rb Hrb].
    by exists ra, rb.
  - intros x y Hr. unfold metered_result in Hr. destruct Ha as [_ Ha], Hb as [_ Hb].
    destruct (sh_done (mt_ab m)) as [[|]|], (sh_done (mt_ba m)) as [[|]|]; simplify_eq.
    naive_solver.
  - intros Hr. assert ((la, lb) = ([], [])) as [= -> ->]; [|done]. apply Ht.
    unfold metered_result in Hr. repeat case_match; naive_solver.
Qed.

End MeteringTheorems.

(** ** Witnesses *)

Definition ten_gb_day : RatePer := {| rp_bytes := 10000000000; rp_period := Day |}.

Lemma rate_roundtrip_witness : parse_rate_per (lit "10000000000B/day") = Some ten_gb_day.
Proof. apply (rate_roundtrip ten_gb_day). solve_in_u. Defined.

Lemma bandwidth_split_witness :
  exists b, rl_bw (from_entry 0 (Some ten_gb_day) None 4) = Some (repeat b 4) /\ 1 <= b /\
  let secs := 86400 in
  let cap := as_bytes_per_second ten_gb_day in
  let total := Z.min cap (u_max 32) in
  10000000000 <= cap * secs < 10000000000 + secs /\
  (4 <= total -> b * 4 <= total < b * 4 + 4) /\ (total < 4 -> b = 1).
Proof. apply (bandwidth_split 0 ten_gb_day None 4); vm_compute; congruence. Defined.

Definition small_quota : RateLimitState :=
  attach_ctrl 7 (from_entry 0 None (Some {| rp_bytes := 100; rp_period := Second |}) 1).

Lemma quota_never_exceeded_witness :
  (quota_run 100 small_quota
     [QAdd 1 {| tid_raw := 1 |} 60; QAdd 2 {| tid_raw := 1 |} 60; QAdd 3 {| tid_raw := 2 |} 40]).2 <= 100.
Proof.
  apply quota_never_exceeded.
  - vm_compute. congruence.
  - vm_compute. congruence.
  - repeat (apply Forall_cons_2; [vm_compute; congruence|]). apply Forall_nil_2.
  - vm_compute. reflexivity.
Defined.

Lemma charge_outcome_witness :
  let '(c, st', sent) := RateLimitState_charge 1 {| tid_raw := 1 |} 160 small_quota in
  rl_quota_used st' = 160 /\ rl_quota_reset_at st' = 1000000000 /\
  exists ms, c = QuotaExceeded ms /\ in_u 32 ms /\ ms * 1000000 <= 999999999 /\
    sent = [(7, RateLimit (Some {| tid_raw := 1 |}) ms)] /\ rl_metrics st' = None.
Proof.
  assert (0 <= 160) as H1 by (vm_compute; congruence).
  assert (0 <= rl_quota_used small_quota) as H2 by (vm_compute; congruence).
  assert (rl_quota_used small_quota + 160 < 2 ^ 64) as H3 by (vm_compute; reflexivity).
  exact (charge_outcome 1 {| tid_raw := 1 |} 160 small_quota H1 H2 H3).
Defined.
