(* ===== verification/Keys.v ===== *)
(** * Keys: the [authorized_keys] file and its in-memory index

    [krot-server/src/keys.rs].  The file is its text ([None] when it cannot be read as
    UTF-8); the base64 decoder is a parameter.  [atomic_write] goes through six system
    calls, each of which may fail: the file has the new contents exactly when the
    rename was reached.  Revocations broadcast by [reload] are returned as a list. *)

From S2P Require Import Prelude RustStr Wire Types Rate.

Local Open Scope Z_scope.

Definition REVOCATION_CAPACITY : Z := 256.

Record AuthorizedEntry := {
  ae_allow_any_subdomain : bool;
  ae_allowed_subdomains : list str;
  ae_max_conns : option Z;
  ae_allowed_ports : option (list Z);
  ae_bw : option RatePer;
  ae_quota : option RatePer;
  ae_federation : list str;
  ae_comment : option str;
}.

#[global] Instance AuthorizedEntry_eq_dec : EqDecision AuthorizedEntry.
Proof. solve_decision. Defined.

Definition AuthorizedEntry_default : AuthorizedEntry :=
  {| ae_allow_any_subdomain := false; ae_allowed_subdomains := []; ae_max_conns := None;
     ae_allowed_ports := None; ae_bw := None; ae_quota := None; ae_federation := [];
     ae_comment := None |}.

Definition authorization_equal (a b : AuthorizedEntry) : bool :=
  bool_decide (ae_allow_any_subdomain a = ae_allow_any_subdomain b)
  && bool_decide (ae_allowed_subdomains a = ae_allowed_subdomains b)
  && bool_decide (ae_max_conns a = ae_max_conns b)
  && bool_decide (ae_allowed_ports a = ae_allowed_ports b)
  && bool_decide (ae_bw a = ae_bw b)
  && bool_decide (ae_quota a = ae_quota b)
  && bool_decide (ae_federation a = ae_federation b).

(** ** Parsing *)

(** [parse_ports]: one item of the list, and the whole list. *)
Definition parse_port_item (part : str) : option (list Z) :=
  let part := trim part in
  match split_once 45 part with
  | Some (lo, hi) =>
    lo ← parse_uint 16 (trim lo);
    hi ← parse_uint 16 (trim hi);
    if hi <? lo then None else Some (seqZ lo (hi - lo + 1))
  | None => p ← parse_uint 16 part; Some [p]
  end.

Fixpoint parse_port_items (parts : list str) : option (list Z) :=
  match parts with
  | [] => Some []
  | part :: parts =>
    ps ← parse_port_item part;
    rest ← parse_port_items parts;
    Some (ps ++ rest)
  end.

Definition parse_ports (s : str) : option (list Z) :=
  out ← parse_port_items (split_char 44 s);
  match out with [] => None | _ => Some out end.

Definition known_options : list str :=
  [lit "subdomain"; lit "conns"; lit "bw"; lit "quota"; lit "ports"; lit "federation"].

(** The last value, extended with a comma and a list item. *)
Fixpoint extend_last (tok : str) (pairs : list (str * str)) : list (str * str) :=
  match pairs with
  | [] => []
  | [(k, v)] => [(k, v ++ [44] ++ tok)]
  | p :: pairs => p :: extend_last tok pairs
  end.

Definition option_pair (pairs : list (str * str)) (tok : str) : list (str * str) :=
  match split_once 61 tok with
  | Some (k, v) =>
    if bool_decide (k ∈ known_options) then pairs ++ [(k, v)] else extend_last tok pairs
  | None => extend_last tok pairs
  end.

Definition option_pairs (joined : str) : list (str * str) :=
  foldl option_pair [] (split_char 44 joined).

Definition apply_option (e : AuthorizedEntry) (kv : str * str) : AuthorizedEntry :=
  let (k, v) := kv in
  if bool_decide (k = lit "subdomain") then
    if bool_decide (v = lit "*") then
      {| ae_allow_any_subdomain := true; ae_allowed_subdomains := ae_allowed_subdomains e;
         ae_max_conns := ae_max_conns e; ae_allowed_ports := ae_allowed_ports e; ae_bw := ae_bw e;
         ae_quota := ae_quota e; ae_federation := ae_federation e; ae_comment := ae_comment e |}
    else
      {| ae_allow_any_subdomain := ae_allow_any_subdomain e;
         ae_allowed_subdomains := split_char 44 v;
         ae_max_conns := ae_max_conns e; ae_allowed_ports := ae_allowed_ports e; ae_bw := ae_bw e;
         ae_quota := ae_quota e; ae_federation := ae_federation e; ae_comment := ae_comment e |}
  else if bool_decide (k = lit "conns") then
    {| ae_allow_any_subdomain := ae_allow_any_subdomain e;
       ae_allowed_subdomains := ae_allowed_subdomains e;
       ae_max_conns := parse_uint 32 v; ae_allowed_ports := ae_allowed_ports e; ae_bw := ae_bw e;
       ae_quota := ae_quota e; ae_federation := ae_federation e; ae_comment := ae_comment e |}
  else if bool_decide (k = lit "bw") then
    {| ae_allow_any_subdomain := ae_allow_any_subdomain e;
       ae_allowed_subdomains := ae_allowed_subdomains e;
       ae_max_conns := ae_max_conns e; ae_allowed_ports := ae_allowed_ports e;
       ae_bw := parse_rate_per v;
       ae_quota := ae_quota e; ae_federation := ae_federation e; ae_comment := ae_comment e |}
  else if bool_decide (k = lit "quota") then
    {| ae_allow_any_subdomain := ae_allow_any_subdomain e;
       ae_allowed_subdomains := ae_allowed_subdomains e;
       ae_max_conns := ae_max_conns e; ae_allowed_ports := ae_allowed_ports e; ae_bw := ae_bw e;
       ae_quota := parse_rate_per v; ae_federation := ae_federation e;
       ae_comment := ae_comment e |}
  else if bool_decide (k = lit "ports") then
    {| ae_allow_any_subdomain := ae_allow_any_subdomain e;
       ae_allowed_subdomains := ae_allowed_subdomains e;
       ae_max_conns := ae_max_conns e; ae_allowed_ports := parse_ports v; ae_bw := ae_bw e;
       ae_quota := ae_quota e; ae_federation := ae_federation e; ae_comment := ae_comment e |}
  else if bool_decide (k = lit "federation") then
    {| ae_allow_any_subdomain := ae_allow_any_subdomain e;
       ae_allowed_subdomains := ae_allowed_subdomains e;
       ae_max_conns := ae_max_conns e; ae_allowed_ports := ae_allowed_ports e; ae_bw := ae_bw e;
       ae_quota := ae_quota e;
       ae_federation := List.filter (fun s => negb (bool_decide (s = [])))
                          (map trim (split_char 44 v));
       ae_comment := ae_comment e |}
  else e.

Definition with_comment (c : option str) (e : AuthorizedEntry) : AuthorizedEntry :=
  {| ae_allow_any_subdomain := ae_allow_any_subdomain e;
     ae_allowed_subdomains := ae_allowed_subdomains e; ae_max_conns := ae_max_conns e;
     ae_allowed_ports := ae_allowed_ports e; ae_bw := ae_bw e; ae_quota := ae_quota e;
     ae_federation := ae_federation e; ae_comment := c |}.

(** The trimmed text behind the first ['#'], unless empty. *)
Definition line_comment (line : str) : option str :=
  '(_, c) ← split_once 35 line;
  match trim c with [] => None | c => Some c end.

Section Parser.
Context (b64_decode : str -> option bytes).

Definition parse_line (line : str) : option (PubKey * AuthorizedEntry) :=
  let bare := trim (hd [] (split_char 35 line)) in
  match split_whitespace bare with
  | algo :: b64 :: rest =>
    if bool_decide (algo <> lit "ed25519") then None
    else
      raw ← b64_decode b64;
      if bool_decide (length raw <> 32%nat) then None
      else
        let joined := str_join [44] rest in
        let entry := foldl apply_option AuthorizedEntry_default (option_pairs joined) in
        Some ({| pk_raw := raw |}, with_comment (line_comment line) entry)
  | _ => None
  end.

(** A line that [parse_file] skips. *)
Definition skipped (trimmed : str) : bool :=
  bool_decide (trimmed = []) || starts_with [35] trimmed.

(** The loop of [parse_file]; [idx] counts lines from 0. *)
Fixpoint parse_lines (idx : Z) (ls : list str) (out : gmap PubKey AuthorizedEntry) :
    Result (gmap PubKey AuthorizedEntry) ServerError :=
  match ls with
  | [] => Ok out
  | line :: ls =>
    let trimmed := trim line in
    if skipped trimmed then parse_lines (idx + 1) ls out
    else match parse_line trimmed with
         | None => Err (SE_Keys (lit "line " ++ fmt_dec (idx + 1) ++ lit ": " ++ line))
         | Some (pk, entry) => parse_lines (idx + 1) ls (<[pk := entry]> out)
         end
  end.

Definition parse_text (text : str) : Result (gmap PubKey AuthorizedEntry) ServerError :=
  parse_lines 0 (lines text) ∅.

(** [fs::read_to_string] of an unreadable file fails with [io_read]. *)
Definition parse_file (io_read : Z) (file : option str) :
    Result (gmap PubKey AuthorizedEntry) ServerError :=
  match file with
  | None => Err (SE_Io io_read)
  | Some text => parse_text text
  end.

(** ** The registry *)

Record KeyRegistry := {
  kr_file : option str;
  kr_entries : gmap PubKey AuthorizedEntry;
}.

(** The outcome of the system calls of [atomic_write], in order: open the temporary file,
    write, [fsync], set permissions, rename, sync the directory. *)
Record WriteIo := {
  io_open : option Z;
  io_write : option Z;
  io_sync : option Z;
  io_chmod : option Z;
  io_rename : option Z;
  io_sync_parent : option Z;
}.

Definition write_all_ok : WriteIo :=
  {| io_open := None; io_write := None; io_sync := None; io_chmod := None;
     io_rename := None; io_sync_parent := None |}.

Definition atomic_write (io : WriteIo) (contents : str) (file : option str) :
    Result unit ServerError * option str :=
  match io_open io, io_write io, io_sync io, io_chmod io, io_rename io, io_sync_parent io with
  | Some e, _, _, _, _, _ => (Err (SE_Io e), file)
  | None, Some e, _, _, _, _ => (Err (SE_Io e), file)
  | None, None, Some e, _, _, _ => (Err (SE_Io e), file)
  | None, None, None, Some e, _, _ => (Err (SE_Io e), file)
  | None, None, None, None, Some e, _ => (Err (SE_Io e), file)
  | None, None, None, None, None, Some e => (Err (SE_Io e), Some contents)
  | None, None, None, None, None, None => (Ok tt, Some contents)
  end.

(** [KeyRegistry::open]; a file that [Path::exists] does not see is created empty first
    ([io_create] is a failure to do so). *)
Definition KeyRegistry_open (io_create : option Z) (io_read : Z) (exists_ : bool)
    (file : option str) : Result KeyRegistry ServerError :=
  let? file := (if exists_ then Ok file
                else match io_create with
                     | Some e => Err (SE_Io e)
                     | None => Ok (Some [])
                     end) in
  let? entries := parse_file io_read file in
  Ok {| kr_file := file; kr_entries := entries |}.

Definition KeyRegistry_contains (pk : PubKey) (k : KeyRegistry) : bool :=
  bool_decide (is_Some (kr_entries k !! pk)).

Definition KeyRegistry_get (pk : PubKey) (k : KeyRegistry) : option AuthorizedEntry :=
  kr_entries k !! pk.

Definition KeyRegistry_snapshot (k : KeyRegistry) : list (PubKey * AuthorizedEntry) :=
  map_to_list (kr_entries k).

Definition KeyRegistry_len (k : KeyRegistry) : nat := size (kr_entries k).

Definition removed_keys (current new : gmap PubKey AuthorizedEntry) : list PubKey :=
  List.filter (fun k => bool_decide (new !! k = None)) (map fst (map_to_list current)).

Definition modified_keys (current new : gmap PubKey AuthorizedEntry) : list PubKey :=
  map fst (List.filter (fun kv =>
    match current !! kv.1 with
    | Some old => negb (authorization_equal old kv.2)
    | None => false
    end) (map_to_list new)).

(** [reload]: the result, the registry afterwards, the keys broadcast. *)
Definition reload (io_read : Z) (k : KeyRegistry) :
    Result unit ServerError * KeyRegistry * list PubKey :=
  match parse_file io_read (kr_file k) with
  | Err e => (Err e, k, [])
  | Ok new_entries =>
    let removed := removed_keys (kr_entries k) new_entries in
    let modified := modified_keys (kr_entries k) new_entries in
    (Ok tt, {| kr_file := kr_file k; kr_entries := new_entries |}, removed ++ modified)
  end.

Definition append_line (io : WriteIo) (line : str) (k : KeyRegistry) :
    Result str ServerError * KeyRegistry :=
  match parse_line line with
  | None => (Err (SE_Keys (lit "cannot parse: " ++ line)), k)
  | Some (pubkey, entry) =>
    let contents := default [] (kr_file k) in
    let new := contents ++
      (if negb (bool_decide (contents = [])) && negb (ends_with [10] contents) then [10] else []) in
    let new := new ++ line ++ (if ends_with [10] line then [] else [10]) in
    match atomic_write io new (kr_file k) with
    | (Err e, file) => (Err e, {| kr_file := file; kr_entries := kr_entries k |})
    | (Ok _, file) =>
      (Ok (trim_end line), {| kr_file := file; kr_entries := <[pubkey := entry]> (kr_entries k) |})
    end
  end.

(** Does [remove_pubkey] drop the line? *)
Definition drops (target : PubKey) (line : str) : bool :=
  let trimmed := trim line in
  if skipped trimmed then false
  else match parse_line trimmed with
       | Some (pk, _) => bool_decide (pk = target)
       | None => false
       end.

Fixpoint remove_lines (target : PubKey) (ls : list str) (out : str) (removed : bool) :
    str * bool :=
  match ls with
  | [] => (out, removed)
  | line :: ls =>
    if drops target line then remove_lines target ls out true
    else remove_lines target ls (out ++ line ++ [10]) removed
  end.

Definition remove_pubkey (io : WriteIo) (io_read : Z) (target : PubKey) (k : KeyRegistry) :
    Result bool ServerError * KeyRegistry * list PubKey :=
  let contents := default [] (kr_file k) in
  let (out, removed) := remove_lines target (lines contents) [] false in
  if removed then
    match atomic_write io out (kr_file k) with
    | (Err e, file) => (Err e, {| kr_file := file; kr_entries := kr_entries k |}, [])
    | (Ok _, file) =>
      match reload io_read {| kr_file := file; kr_entries := kr_entries k |} with
      | (Err e, k, sent) => (Err e, k, sent)
      | (Ok _, k, sent) => (Ok true, k, sent)
      end
    end
  else (Ok false, k, []).

(** ** The watcher *)

Inductive FsEventKind := FsModify | FsCreate | FsRemove | FsOther.

(** One event of [watch_loop]: [None] is a watcher error, otherwise its kind and whether
    one of its paths is the watched file. *)
Definition watch_event (io_read : Z) (ev : option (FsEventKind * bool)) (k : KeyRegistry) :
    KeyRegistry * list PubKey :=
  match ev with
  | None => (k, [])
  | Some (kind, touches_target) =>
    if negb touches_target then (k, [])
    else match kind with
         | FsOther => (k, [])
         | _ => let '(_, k, sent) := reload io_read k in (k, sent)
         end
  end.

End Parser.

(** ** Parsing ignores the white space around a line *)

Lemma hd_split_char c s :
  hd [] (split_char c s) = match split_once c s with Some (a, _) => a | None => s end.
Proof.
  unfold split_char. induction s as [|x s IH]; simpl; [done|].
  destruct (c =? x); [done|]. destruct (split_by (Z.eqb c) s) as [|h t] eqn:E.
  { by apply split_by_not_nil in E. }
  simpl in *. subst h. by destruct (split_once c s) as [[a b]|].
Qed.

Section ParserTheorems.
Context (b64_decode : str -> option bytes).

Lemma parse_line_trim line : parse_line b64_decode (trim line) = parse_line b64_decode line.
Proof.
  unfold parse_line, line_comment. rewrite !hd_split_char.
  destruct (split_once 35 line) as [[a c]|] eqn:E.
  - apply split_once_Some in E as [-> Ha]. rewrite trim_mid by done.
    assert (35 ∉ trim_start a) as Ha'.
    { destruct (trim_start_suffix a) as [p Hp]. rewrite Hp in Ha. set_solver. }
    rewrite !split_once_hit by done. rewrite trim_trim_start. simpl. by rewrite trim_trim_end.
  - apply split_once_None in E.
    assert (split_once 35 (trim line) = None) as ->.
    { apply split_once_None. by intros ?%elem_of_trim. }
    by rewrite trim_idemp.
Qed.

(** A line that parses is neither blank nor a comment. *)
Lemma parse_line_not_skipped line r :
  parse_line b64_decode line = Some r -> skipped (trim line) = false.
Proof.
  intros H. apply not_true_is_false. unfold skipped. rewrite orb_true_iff, bool_decide_eq_true.
  assert (Hbare : forall l, parse_line b64_decode l = Some r ->
            trim (hd [] (split_char 35 l)) <> []).
  { intros l Hl Hb. unfold parse_line in Hl. by rewrite Hb in Hl. }
  rewrite <-parse_line_trim in H. apply Hbare in H. rewrite hd_split_char in H.
  intros [E|E].
  - by rewrite E in H.
  - unfold starts_with in E. destruct (strip_prefix _ _) as [t|] eqn:Es; [|done].
    apply strip_prefix_Some in Es. rewrite Es in H.
    change ([35] ++ t) with ([] ++ 35 :: t) in H. by rewrite split_once_hit in H by set_solver.
Qed.

(** Loading depends on the lines up to surrounding white space. *)
Lemma parse_lines_trim i j l l' m r :
  Forall2 (fun a b => trim a = trim b) l l' ->
  parse_lines b64_decode i l m = Ok r -> parse_lines b64_decode j l' m = Ok r.
Proof.
  intros Hl. revert i j m. induction Hl as [|a b l l' Hab _ IH]; intros i j m; simpl; [done|].
  rewrite <-Hab. destruct (skipped (trim a)); [apply IH|].
  destruct (parse_line _ _) as [[pk e]|]; [apply IH|done].
Qed.

Lemma parse_lines_app i l l' m :
  parse_lines b64_decode i (l ++ l') m =
  match parse_lines b64_decode i l m with
  | Ok m' => parse_lines b64_decode (i + len l) l' m'
  | Err e => Err e
  end.
Proof.
  revert i m. induction l as [|a l IH]; intros i m; simpl.
  { f_equal. unfold len. simpl. lia. }
  rewrite len_cons. replace (i + (1 + len l)) with (i + 1 + len l) by lia.
  destruct (skipped (trim a)); [apply IH|]. destruct (parse_line _ _) as [[pk e]|]; [apply IH|done].
Qed.

(** Ending a text with a newline does not change what it loads to. *)
Lemma parse_text_newline text m :
  text <> [] -> (forall t, text <> t ++ [10]) ->
  parse_text b64_decode text = Ok m -> parse_text b64_decode (text ++ [10]) = Ok m.
Proof.
  intros Hne Hnl. unfold parse_text, lines.
  destruct (split_inclusive_nl_end text Hne Hnl) as (l & h & -> & -> & Hh).
  apply parse_lines_trim. rewrite !map_app. apply Forall2_app.
  - induction l; simpl; constructor; auto.
  - simpl. constructor; [|done]. by rewrite trim_chomp, chomp_no_nl.
Qed.

(** Appending a line to a text that is empty or ends with a newline. *)
Lemma parse_text_append text line m pk e :
  (text = [] \/ exists t, text = t ++ [10]) -> 10 ∉ line ->
  parse_text b64_decode text = Ok m -> parse_line b64_decode line = Some (pk, e) ->
  parse_text b64_decode (text ++ line ++ [10]) = Ok (<[pk := e]> m).
Proof.
  intros Ht Hl Hm Hp. unfold parse_text, lines in *.
  rewrite split_inclusive_nl_app, map_app, parse_lines_app, Hm by done.
  rewrite split_inclusive_nl_line by done. simpl. rewrite trim_chomp.
  by rewrite (parse_line_not_skipped _ _ Hp), parse_line_trim, Hp.
Qed.

(** ** Revocations *)

Lemma authorization_equal_refl e : authorization_equal e e = true.
Proof. unfold authorization_equal. by rewrite !bool_decide_eq_true_2. Qed.

Lemma elem_of_removed cur new pk :
  pk ∈ removed_keys cur new <-> is_Some (cur !! pk) /\ new !! pk = None.
Proof.
  unfold removed_keys. rewrite list_elem_of_In, filter_In, in_map_iff, bool_decide_eq_true.
  split.
  - intros [([k e] & <- & Hin) Hn]. rewrite <-list_elem_of_In, elem_of_map_to_list in Hin. eauto.
  - intros [[e He] Hn]. split; [|done]. exists (pk, e). split; [done|].
    by rewrite <-list_elem_of_In, elem_of_map_to_list.
Qed.

Lemma elem_of_modified cur new pk :
  pk ∈ modified_keys cur new <->
  exists old e, cur !! pk = Some old /\ new !! pk = Some e /\ authorization_equal old e = false.
Proof.
  unfold modified_keys. rewrite list_elem_of_In, in_map_iff. split.
  - intros ([k e] & <- & [Hin Ht]%filter_In).
    rewrite <-list_elem_of_In, elem_of_map_to_list in Hin. simpl in *.
    destruct (cur !! k) as [old|] eqn:E; [|done]. exists old, e.
    by apply negb_true_iff in Ht.
  - intros (old & e & Hc & Hn & Ht). exists (pk, e). split; [done|]. apply filter_In.
    rewrite <-list_elem_of_In, elem_of_map_to_list. simpl. by rewrite Hc, Ht.
Qed.

Lemma no_self_revocation m : removed_keys m m = [] /\ modified_keys m m = [].
Proof.
  split.
  - destruct (removed_keys m m) as [|pk l] eqn:E; [done|].
    assert (pk ∈ removed_keys m m) as [[e He] Hn]%elem_of_removed by (rewrite E; set_solver).
    congruence.
  - destruct (modified_keys m m) as [|pk l] eqn:E; [done|].
    assert (pk ∈ modified_keys m m) as (o & e & Ho & He & Ha)%elem_of_modified
      by (rewrite E; set_solver).
    assert (o = e) as -> by congruence. by rewrite authorization_equal_refl in Ha.
Qed.

(** A reload loads exactly what the file says and revokes exactly the sessions it must:
    a key is broadcast if and only if it was authorised before and is now gone or carries a
    different authorisation (a changed comment is not one); a file that does not parse
    changes nothing and revokes nobody. *)
Theorem reload_revokes (io_read : Z) (k : KeyRegistry) :
  let '(res, k', sent) := reload b64_decode io_read k in
  kr_file k' = kr_file k /\
  match parse_file b64_decode io_read (kr_file k) with
  | Err e => res = Err e /\ k' = k /\ sent = []
  | Ok m => res = Ok tt /\ kr_entries k' = m /\
      forall pk, pk ∈ sent <-> exists old, kr_entries k !! pk = Some old /\
        match m !! pk with
        | None => True
        | Some e => authorization_equal old e = false
        end
  end.
Proof.
  unfold reload. destruct (parse_file b64_decode io_read (kr_file k)) as [m|e]; [|done].
  split_and!; [done|done|done|]. intros pk.
  rewrite elem_of_app, elem_of_removed, elem_of_modified. split.
  - intros [[[old Ho] Hn]|(old & e & Ho & He & Ha)]; exists old; [by rewrite Hn|by rewrite He].
  - intros (old & Ho & Hm). destruct (m !! pk) as [e|] eqn:E; [right|left]; eauto.
Qed.

(** Enrolling keeps the file and the memory index in step.  If they agree, then after a
    successful [append_line] of a line without a newline they agree again: the file gained
    exactly that entry, the index is the file's, every other key is untouched, and the
    reload the watcher then runs revokes nobody. *)
Theorem append_keeps_sync (io : WriteIo) (io_read : Z) (line text out : str)
    (k k' : KeyRegistry)
    (Hfile : kr_file k = Some text) (Hsync : parse_text b64_decode text = Ok (kr_entries k))
    (Hline : 10 ∉ line) (Happ : append_line b64_decode io line k = (Ok out, k')) :
  exists pk e, parse_line b64_decode line = Some (pk, e) /\
    kr_entries k' = <[pk := e]> (kr_entries k) /\
    parse_file b64_decode io_read (kr_file k') = Ok (kr_entries k') /\
    out = trim_end line /\
    reload b64_decode io_read k' = (Ok tt, k', []).
Proof.
  unfold append_line in Happ. destruct (parse_line b64_decode line) as [[pk e]|] eqn:Hp; [|done].
  rewrite Hfile in Happ. simpl in Happ.
  assert (ends_with [10] line = false) as Hend.
  { apply not_true_is_false. rewrite ends_with_true. intros [r ->]. set_solver. }
  rewrite Hend in Happ. set (new := (_ ++ _) ++ _) in Happ.
  assert (Hnew : parse_text b64_decode new = Ok (<[pk := e]> (kr_entries k))).
  { subst new. destruct (bool_decide (text = [])) eqn:Ee; simpl.
    - apply bool_decide_eq_true in Ee as ->. apply (parse_text_append [] line); auto.
    - apply bool_decide_eq_false in Ee. destruct (ends_with [10] text) eqn:Et; simpl.
      + rewrite app_nil_r. apply parse_text_append; [|done|done|done]. right.
        by apply ends_with_true in Et.
      + apply parse_text_append; [by right; exists text|done| |done].
        apply parse_text_newline; [done| |done]. intros t ->.
        apply not_true_iff_false in Et. rewrite ends_with_true in Et. eauto. }
  assert (Hk' : k' = {| kr_file := Some new; kr_entries := <[pk := e]> (kr_entries k) |} /\
                out = trim_end line).
  { clear -Happ. clearbody new. unfold atomic_write in Happ.
    destruct io as [[] [] [] [] [] []]; simpl in Happ; by inversion Happ. }
  destruct Hk' as [-> ->]. exists pk, e. simpl. split_and!; try done.
  unfold reload. simpl. rewrite Hnew. destruct (no_self_revocation (<[pk := e]> (kr_entries k))) as [-> ->].
  done.
Qed.

(** ** Removing a key *)

Lemma remove_lines_spec t ls out b :
  remove_lines b64_decode t ls out b =
  (out ++ concat (map (fun l => l ++ [10]) (List.filter (fun l => negb (drops b64_decode t l)) ls)),
   b || existsb (drops b64_decode t) ls).
Proof.
  revert out b. induction ls as [|l ls IH]; intros out b; simpl; [by rewrite app_nil_r, orb_false_r|].
  destruct (drops b64_decode t l); rewrite IH; simpl.
  - by rewrite orb_true_r.
  - by rewrite <-!app_assoc.
Qed.

Lemma parse_lines_drop t i j ls m0 m :
  parse_lines b64_decode i ls m0 = Ok m ->
  parse_lines b64_decode j (List.filter (fun l => negb (drops b64_decode t l)) ls) (delete t m0) =
    Ok (delete t m) /\
  (is_Some (m !! t) <-> is_Some (m0 !! t) \/ existsb (drops b64_decode t) ls = true).
Proof.
  revert i j m0. induction ls as [|l ls IH]; intros i j m0; simpl.
  { intros [= <-]. split; [done|]. naive_solver. }
  destruct (drops b64_decode t l) eqn:Ed; simpl; unfold drops in Ed;
    destruct (skipped (trim l)) eqn:Es; try done.
  - destruct (parse_line b64_decode (trim l)) as [[pk e]|] eqn:Ep; [|done].
    apply bool_decide_eq_true in Ed as ->. intros Hp. apply (IH _ j) in Hp as [Hp Hs].
    rewrite delete_insert_eq in Hp. split; [done|]. rewrite Hs, lookup_insert_eq. naive_solver.
  - intros Hp. by apply (IH _ (j + 1)) in Hp.
  - destruct (parse_line b64_decode (trim l)) as [[pk e]|] eqn:Ep; [|done].
    apply bool_decide_eq_false in Ed. intros Hp. apply (IH _ (j + 1)) in Hp as [Hp Hs].
    rewrite delete_insert_ne in Hp by done. split; [done|].
    by rewrite Hs, lookup_insert_ne.
Qed.

(** What a removal does, on a file and an index that agree. *)
Lemma remove_pubkey_spec (io_read : Z) (target : PubKey) (text : str) (k : KeyRegistry)
    (Hfile : kr_file k = Some text) (Hsync : parse_text b64_decode text = Ok (kr_entries k)) :
  let '(res, k', sent) := remove_pubkey b64_decode write_all_ok io_read target k in
  match kr_entries k !! target with
  | Some _ => res = Ok true /\ kr_entries k' = delete target (kr_entries k) /\
      parse_file b64_decode io_read (kr_file k') = Ok (kr_entries k') /\
      forall pk, pk ∈ sent <-> pk = target
  | None => res = Ok false /\ k' = k /\ sent = []
  end.
Proof.
  unfold remove_pubkey. rewrite Hfile. simpl default. rewrite remove_lines_spec. simpl orb.
  destruct (parse_lines_drop target 0 0 _ _ _ Hsync) as [Hp Hs].
  rewrite delete_empty in Hp. rewrite lookup_empty in Hs.
  destruct (existsb (drops b64_decode target) (lines text)) eqn:Ex.
  2: { destruct (kr_entries k !! target) as [e|]; [|done]. naive_solver. }
  assert (is_Some (kr_entries k !! target)) as [e He] by naive_solver. rewrite He.
  set (kept := List.filter _ _) in *. set (out := [] ++ _).
  assert (Hout : parse_text b64_decode out = Ok (delete target (kr_entries k))).
  { subst out. simpl. unfold parse_text, lines. rewrite split_inclusive_nl_concat.
    - eapply parse_lines_trim; [|exact Hp]. clear. induction kept as [|l ls IH]; simpl; constructor;
        [by rewrite trim_chomp|done].
    - subst kept. apply Forall_forall. intros l [Hl _]%filter_In.
      pose proof (lines_no_nl text) as Hn. rewrite List.Forall_forall in Hn. by apply Hn. }
  simpl. unfold reload. simpl. rewrite Hout. split_and!; [done|done|done|].
  intros pk. rewrite elem_of_app, elem_of_removed, elem_of_modified. simpl. split.
  - intros [[Hi Hn]|(old & e' & Ho & Hn & Ha)].
    + apply lookup_delete_None in Hn as [->|Hn]; [done|]. rewrite Hn in Hi. by destruct Hi.
    + apply lookup_delete_Some in Hn as [_ Hn]. assert (old = e') as -> by congruence.
      by rewrite authorization_equal_refl in Ha.
  - intros ->. left. rewrite He, lookup_delete_eq. eauto.
Qed.

(** Removing a key does exactly that.  On a file and index that agree, with the write
    going through, [remove_pubkey] answers whether the key was authorised; if it was, file
    and index lose that key and no other, and still agree, and the key, and only the key,
    is broadcast so that its live sessions end; otherwise nothing changes. *)
Theorem remove_pubkey_effect (io_read : Z) (target : PubKey) (text : str) (k : KeyRegistry)
    (Hfile : kr_file k = Some text) (Hsync : parse_text b64_decode text = Ok (kr_entries k)) :
  let '(res, k', sent) := remove_pubkey b64_decode write_all_ok io_read target k in
  match kr_entries k !! target with
  | Some _ => res = Ok true /\ kr_entries k' = delete target (kr_entries k) /\
      parse_file b64_decode io_read (kr_file k') = Ok (kr_entries k') /\
      forall pk, pk ∈ sent <-> pk = target
  | None => res = Ok false /\ k' = k /\ sent = []
  end.
Proof. exact (remove_pubkey_spec io_read target text k Hfile Hsync). Qed.

End ParserTheorems.

(** ** Port lists *)

(** An item of [ports=] as an operator writes it. *)
Inductive PortItem := PortOne (p : Z) | PortSpan (lo hi : Z).

Definition port_item_text (i : PortItem) : str :=
  match i with
  | PortOne p => fmt_dec p
  | PortSpan lo hi => fmt_dec lo ++ [45] ++ fmt_dec hi
  end.

Definition port_item_ports (i : PortItem) : list Z :=
  match i with
  | PortOne p => [p]
  | PortSpan lo hi => seqZ lo (hi - lo + 1)
  end.

Definition port_item_ok (i : PortItem) : Prop :=
  match i with
  | PortOne p => in_u 16 p
  | PortSpan lo hi => in_u 16 lo /\ in_u 16 hi /\ lo <= hi
  end.

Lemma parse_port_item_text i :
  port_item_ok i -> parse_port_item (port_item_text i) = Some (port_item_ports i).
Proof.
  intros Hi. unfold parse_port_item. rewrite trim_visible.
  2: { destruct i as [p|lo hi]; simpl in *; [by apply fmt_dec_visible, Hi|].
       apply Forall_app; split; [by apply fmt_dec_visible, Hi|].
       constructor; [done|]. by apply fmt_dec_visible, Hi. }
  destruct i as [p|lo hi]; simpl in *.
  - rewrite (proj2 (split_once_None 45 (fmt_dec p))) by (apply fmt_dec_no; [apply Hi|lia]).
    by rewrite parse_uint_fmt_dec.
  - destruct Hi as (Hlo & Hhi & Hle).
    rewrite split_once_hit by (apply fmt_dec_no; [apply Hlo|lia]).
    rewrite !trim_visible by (apply fmt_dec_visible; [apply Hlo || apply Hhi]).
    rewrite !parse_uint_fmt_dec by done. simpl. by rewrite (proj2 (Z.ltb_ge _ _)).
Qed.

(** A [ports=] list reads as written: the rendering of any non-empty list of ports and
    ascending ranges parses to exactly those ports in that order. *)
Theorem ports_roundtrip (items : list PortItem)
    (Hne : items <> []) (Hok : Forall port_item_ok items) :
  parse_ports (str_join [44] (map port_item_text items)) =
    Some (concat (map port_item_ports items)).
Proof.
  unfold parse_ports. rewrite split_char_join.
  - assert (parse_port_items (map port_item_text items) =
            Some (concat (map port_item_ports items))) as ->.
    { clear Hne. induction Hok as [|i items Hi _ IH]; simpl; [done|].
      rewrite parse_port_item_text by done. simpl. by rewrite IH. }
    simpl. destruct items as [|i items]; [done|]. simpl.
    apply Forall_cons_1 in Hok as [Hi _].
    destruct i as [p|lo hi]; simpl; [done|]. rewrite seqZ_cons by (simpl in Hi; lia). done.
  - by destruct items.
  - apply Forall_map. eapply Forall_impl; [|exact Hok]. intros [p|lo hi] Hi; simpl in *.
    + apply fmt_dec_no; [apply Hi|lia].
    + rewrite !not_elem_of_app, not_elem_of_cons. split_and!; [|lia|].
      * apply fmt_dec_no; [apply Hi|lia].
      * apply fmt_dec_no; [apply Hi|lia].
Qed.

(** ** Witnesses

    A decoder that knows two keys by name. *)
Definition toy_b64 (s : str) : option bytes :=
  if bool_decide (s = lit "AAAA") then Some (repeat 1 32)
  else if bool_decide (s = lit "BBBB") then Some (repeat 2 32) else None.

Definition toy_text : str := lit "# trusted" ++ [10] ++ lit "ed25519 AAAA subdomain=web conns=3".

Definition toy_keys : KeyRegistry :=
  {| kr_file := Some toy_text;
     kr_entries := match parse_text toy_b64 toy_text with Ok m => m | Err _ => ∅ end |}.

Lemma append_keeps_sync_witness :
  exists pk e, parse_line toy_b64 (lit "ed25519 BBBB ports=8080,9000-9002 # ci") = Some (pk, e) /\
    kr_entries (append_line toy_b64 write_all_ok (lit "ed25519 BBBB ports=8080,9000-9002 # ci") toy_keys).2
      = <[pk := e]> (kr_entries toy_keys).
Proof.
  set (line := lit "ed25519 BBBB ports=8080,9000-9002 # ci").
  destruct (append_keeps_sync toy_b64 write_all_ok 0 line toy_text (trim_end line) toy_keys
              (append_line toy_b64 write_all_ok line toy_keys).2) as (pk & e & H1 & H2 & _).
  - reflexivity.
  - vm_compute. reflexivity.
  - apply (bool_decide_unpack _). vm_compute. exact I.
  - vm_compute. reflexivity.
  - exists pk, e. split; [exact H1|exact H2].
Defined.

Lemma remove_pubkey_effect_witness :
  kr_entries (remove_pubkey toy_b64 write_all_ok 0 {| pk_raw := repeat 1 32 |} toy_keys).1.2
    = delete {| pk_raw := repeat 1 32 |} (kr_entries toy_keys).
Proof.
  assert (H1 : kr_file toy_keys = Some toy_text) by reflexivity.
  assert (H2 : parse_text toy_b64 toy_text = Ok (kr_entries toy_keys)) by (vm_compute; reflexivity).
  pose proof (remove_pubkey_effect toy_b64 0 {| pk_raw := repeat 1 32 |} toy_text toy_keys H1 H2) as H.
  destruct (remove_pubkey toy_b64 write_all_ok 0 {| pk_raw := repeat 1 32 |} toy_keys)
    as [[res k'] sent].
  assert (is_Some (kr_entries toy_keys !! {| pk_raw := repeat 1 32 |})) as [e He]
    by (apply (bool_decide_unpack _); vm_compute; exact I).
  rewrite He in H. apply H.
Defined.

Lemma ports_roundtrip_witness :
  parse_ports (lit "8080,10000-10003") = Some [8080; 10000; 10001; 10002; 10003].
Proof.
  apply (ports_roundtrip [PortOne 8080; PortSpan 10000 10003]); [discriminate|].
  repeat (apply Forall_cons_2; [repeat split; vm_compute; congruence|]). apply Forall_nil_2.
Defined.

(** [Path::exists] also answers no when the metadata call fails; the key file that is there
    is then emptied, and the registry opens without a key. *)
Example metadata_error_empties_keys :
  KeyRegistry_open toy_b64 None 0 true (kr_file toy_keys) = Ok toy_keys /\
  kr_entries toy_keys <> ∅ /\
  KeyRegistry_open toy_b64 None 0 false (kr_file toy_keys) = Ok {| kr_file := Some []; kr_entries := ∅ |}.
Proof. split_and!; [vm_compute; reflexivity|vm_compute; congruence|vm_compute; reflexivity]. Qed.
