(* ===== verification/Admin.v ===== *)
(** * Admin: the single-use admin token, and the authentication primitives

    [krot-server/src/admin.rs] (issuing and consuming the enrolment token) and
    [krot-proto/src/auth.rs] (the challenge signature).  The hash, the base32
    alphabet, the random source and Ed25519 are third-party code: parameters of the
    definitions, with what the program relies on in the classes below. *)

From S2P Require Import Prelude RustStr Wire Types Keys.

Local Open Scope Z_scope.

(** ** Comparison *)

Definition ct_fold (acc : Z) (xy : Z * Z) : Z := Z.lor acc (Z.lxor xy.1 xy.2).

Definition constant_time_eq_public (a b : bytes) : bool :=
  if negb (Nat.eqb (length a) (length b)) then false
  else foldl ct_fold 0 (combine a b) =? 0.

Definition constant_time_eq (a b : bytes) : bool := constant_time_eq_public a b.

(** ** The token store *)

Record TokenState := { tok_hash : bytes; tok_expires_at : Z }.

(** [ats_file] is the hash file on disk. *)
Record AdminTokenStore := { ats_state : option TokenState; ats_file : option bytes }.

Definition AdminTokenStore_new (file : option bytes) : AdminTokenStore :=
  {| ats_state := None; ats_file := file |}.

Definition TOKEN_NONE : str := lit "no admin token issued".
Definition TOKEN_EXPIRED_MSG : str := lit "admin token expired".
Definition TOKEN_MISMATCH : str := lit "admin token mismatch".

Section TokenStore.
Context (blake3 : bytes -> bytes) (base32_encode : bytes -> str).

(** [write_secret]: the same system calls as [atomic_write], on bytes. *)
Definition write_secret (io : WriteIo) (contents : bytes) (file : option bytes) :
    Result unit ServerError * option bytes :=
  match io_open io, io_write io, io_sync io, io_chmod io, io_rename io, io_sync_parent io with
  | Some e, _, _, _, _, _ => (Err (SE_Io e), file)
  | None, Some e, _, _, _, _ => (Err (SE_Io e), file)
  | None, None, Some e, _, _, _ => (Err (SE_Io e), file)
  | None, None, None, Some e, _, _ => (Err (SE_Io e), file)
  | None, None, None, None, Some e, _ => (Err (SE_Io e), file)
  | None, None, None, None, None, Some e => (Err (SE_Io e), Some contents)
  | None, None, None, None, None, None => (Ok tt, Some contents)
  end.

(** [raw] are the random bytes drawn; [io_mkdir] an error of [create_dir_all]. *)
Definition issue (now : Z) (raw : bytes) (io_mkdir : option Z) (io : WriteIo)
    (s : AdminTokenStore) : Result str ServerError * AdminTokenStore :=
  let token := base32_encode raw in
  let hash := blake3 (str_bytes token) in
  match io_mkdir with
  | Some e => (Err (SE_Io e), s)
  | None =>
    match write_secret io hash (ats_file s) with
    | (Err e, file) => (Err e, {| ats_state := ats_state s; ats_file := file |})
    | (Ok _, file) =>
      (Ok token, {| ats_state := Some {| tok_hash := hash; tok_expires_at := now + ADMIN_TOKEN_TTL |};
                    ats_file := file |})
    end
  end.

(** [rm_ok]: whether [remove_file] succeeds; its error is ignored. *)
Definition consume (now : Z) (rm_ok : bool) (presented : str) (s : AdminTokenStore) :
    Result unit ServerError * AdminTokenStore :=
  let cleared := {| ats_state := None; ats_file := if rm_ok then None else ats_file s |} in
  match ats_state s with
  | None => (Err (SE_AdminToken TOKEN_NONE), s)
  | Some st =>
    if tok_expires_at st <=? now then (Err (SE_AdminToken TOKEN_EXPIRED_MSG), cleared)
    else if negb (constant_time_eq (blake3 (str_bytes presented)) (tok_hash st))
    then (Err (SE_AdminToken TOKEN_MISMATCH), s)
    else (Ok tt, cleared)
  end.

Definition is_active (s : AdminTokenStore) : bool :=
  match ats_state s with Some _ => true | None => false end.

End TokenStore.

(** ** Challenge signatures *)

Definition AUTH_DOMAIN_SEPARATOR : bytes := lit "krot-auth-v1" ++ [0].

Definition signing_payload (nonce : Nonce) : bytes := AUTH_DOMAIN_SEPARATOR ++ nonce_raw nonce.

(** [ed25519_dalek]: key parsing, signing, verification. *)
Class Ed25519 (SK VK : Type) := {
  ed_public : SK -> bytes;
  ed_sign : SK -> bytes -> bytes;
  ed_from_bytes : bytes -> option VK;
  ed_verify : VK -> bytes -> bytes -> bool;
}.

(** What the protocol relies on: a signature verifies under its own public key. *)
Class Ed25519Laws (SK VK : Type) `{Ed25519 SK VK} := {
  ed_complete : forall sk msg, exists vk,
    ed_from_bytes (ed_public sk) = Some vk /\ ed_verify vk msg (ed_sign sk msg) = true;
}.

Section Challenge.
Context {SK VK : Type} `{Ed25519 SK VK}.

Definition sign_challenge (key : SK) (nonce : Nonce) : Signature :=
  {| sig_raw := ed_sign key (signing_payload nonce) |}.

Definition verify_challenge (pubkey : PubKey) (nonce : Nonce) (signature : Signature) : bool :=
  match ed_from_bytes (pk_raw pubkey) with
  | None => false
  | Some vk => ed_verify vk (signing_payload nonce) (sig_raw signature)
  end.

End Challenge.

(** ** Comparison is equality *)

Lemma ct_fold_zero l acc :
  foldl ct_fold acc l = 0 <-> acc = 0 /\ Forall (fun xy => xy.1 = xy.2) l.
Proof.
  revert acc. induction l as [|[x y] l IH]; intros acc; simpl; [naive_solver|].
  rewrite IH. unfold ct_fold; simpl. rewrite Z.lor_eq_0_iff, Z.lxor_eq_0_iff, List.Forall_cons_iff.
  naive_solver.
Qed.

Lemma combine_eq (a b : bytes) :
  length a = length b -> Forall (fun xy => xy.1 = xy.2) (combine a b) <-> a = b.
Proof.
  revert b. induction a as [|x a IH]; intros [|y b] Hl; simpl; try done.
  injection Hl as Hl. rewrite List.Forall_cons_iff, IH by done. simpl. naive_solver.
Qed.

(** The constant-time comparison decides equality of byte strings. *)
Lemma constant_time_eq_true (a b : bytes) : constant_time_eq a b = true <-> a = b.
Proof.
  unfold constant_time_eq, constant_time_eq_public.
  destruct (Nat.eqb_spec (length a) (length b)) as [Hl|Hl]; simpl.
  - rewrite Z.eqb_eq, ct_fold_zero, combine_eq by done. naive_solver.
  - split; [done|]. intros ->. done.
Qed.

(** ** The token is single-use *)

Section TokenTheorems.
Context (blake3 : bytes -> bytes) (base32_encode : bytes -> str).

(** What can happen to the store: tokens are issued and presented, in any order. *)
Inductive TokenOp :=
| TokIssue (now : Z) (raw : bytes) (io_mkdir : option Z) (io : WriteIo)
| TokConsume (now : Z) (rm_ok : bool) (presented : str).

(** Whether an operation succeeds, and the store after it. *)
Definition token_step (o : TokenOp) (s : AdminTokenStore) : bool * AdminTokenStore :=
  match o with
  | TokIssue now raw mk io =>
    let '(r, s) := issue blake3 base32_encode now raw mk io s in
    (match r with Ok _ => true | Err _ => false end, s)
  | TokConsume now rm p =>
    let '(r, s) := consume blake3 now rm p s in
    (match r with Ok _ => true | Err _ => false end, s)
  end.

Definition token_run (ops : list TokenOp) (file : option bytes) : AdminTokenStore :=
  foldl (fun s o => (token_step o s).2) (AdminTokenStore_new file) ops.

Lemma token_run_snoc ops o file : token_run (ops ++ [o]) file = (token_step o (token_run ops file)).2.
Proof. unfold token_run; by rewrite foldl_snoc. Qed.

(** [issue] ran after [pre], and nothing in [post] has issued or spent a token since. *)
Definition outstanding (file : option bytes) (pre : list TokenOp) (issue : TokenOp) (post : list TokenOp) : Prop :=
  (token_step issue (token_run pre file)).1 = true /\
  forall a o b, post = a ++ o :: b -> (token_step o (token_run (pre ++ issue :: a) file)).1 = false.

Lemma outstanding_snoc file pre i post o :
  outstanding file pre i post -> (token_step o (token_run (pre ++ i :: post) file)).1 = false ->
  outstanding file pre i (post ++ [o]).
Proof.
  intros [Hi Hq] Ho. split; [done|]. intros a o' b E.
  destruct b as [|x b _] using rev_ind.
  - apply app_inj_tail in E as [-> ->]. done.
  - rewrite app_comm_cons, app_assoc in E. apply app_inj_tail in E as [-> _]. by eapply Hq.
Qed.

(** The active token is the last one issued, and still outstanding. *)
Lemma active_outstanding ops file st :
  ats_state (token_run ops file) = Some st ->
  exists pre now raw mk io post, ops = pre ++ TokIssue now raw mk io :: post /\
    outstanding file pre (TokIssue now raw mk io) post /\
    st = {| tok_hash := blake3 (str_bytes (base32_encode raw)); tok_expires_at := now + ADMIN_TOKEN_TTL |}.
Proof.
  induction ops as [|o ops IH] using rev_ind; [done|]. rewrite token_run_snoc.
  assert (Hkeep : ats_state (token_run ops file) = Some st -> (token_step o (token_run ops file)).1 = false ->
    exists pre now raw mk io post, ops ++ [o] = pre ++ TokIssue now raw mk io :: post /\
      outstanding file pre (TokIssue now raw mk io) post /\
      st = {| tok_hash := blake3 (str_bytes (base32_encode raw)); tok_expires_at := now + ADMIN_TOKEN_TTL |}).
  { intros (pre & now & raw & mk & io & post & -> & Ho & Hst)%IH Hf.
    exists pre, now, raw, mk, io, (post ++ [o]). rewrite <-app_assoc. split_and!; [done| |done].
    by apply outstanding_snoc. }
  destruct o as [now raw mk io|now rm p].
  - unfold token_step, issue. cbn in Hkeep. unfold issue in Hkeep. destruct mk as [e|]; [by auto|].
    destruct (write_secret io _ _) as [[u|e] f] eqn:Ew; cbn in *; [|by auto].
    intros [= <-]. exists ops, now, raw, None, io, []. split_and!; [done| |done]. split.
    + cbn. unfold issue. by rewrite Ew.
    + by intros [] ? ?.
  - unfold token_step, consume. cbn in Hkeep. unfold consume in Hkeep.
    destruct (ats_state (token_run ops file)) as [st'|] eqn:Est; [|cbn; by rewrite Est].
    destruct (tok_expires_at st' <=? now); [done|].
    destruct (negb _); cbn in *; [|done]. rewrite Est. auto.
Qed.

Lemma consume_Ok_inactive now rm p s s' :
  consume blake3 now rm p s = (Ok tt, s') -> is_active s' = false.
Proof.
  unfold consume. destruct (ats_state s) as [st|]; [|done].
  destruct (tok_expires_at st <=? now); [done|]. destruct (negb _); [done|]. by intros [= <-].
Qed.

(** C31: An admin token enrols at most once and only in its ten minutes.  Over any sequence
    of issues and presentations, a presentation that is accepted at [now] stands against the
    last token issued: that token was issued less than [ADMIN_TOKEN_TTL] before, the text
    presented has its hash, no token has been issued or spent since, and the token's own
    text would be accepted too; after it the store accepts nothing until the next issue. *)
Theorem token_single_use (ops : list TokenOp) (file : option bytes) (now : Z) (rm_ok : bool) (p : str)
    (s' : AdminTokenStore) (Hc : consume blake3 now rm_ok p (token_run ops file) = (Ok tt, s')) :
  exists pre issued raw mk io post, ops = pre ++ TokIssue issued raw mk io :: post /\
    outstanding file pre (TokIssue issued raw mk io) post /\
    now < issued + ADMIN_TOKEN_TTL /\
    blake3 (str_bytes p) = blake3 (str_bytes (base32_encode raw)) /\
    (consume blake3 now rm_ok (base32_encode raw) (token_run ops file)).1 = Ok tt /\
    forall now' rm' q, (consume blake3 now' rm' q s').1 = Err (SE_AdminToken TOKEN_NONE).
Proof.
  unfold consume in Hc. destruct (ats_state (token_run ops file)) as [st|] eqn:Est; [|done].
  destruct (active_outstanding ops file st Est) as (pre & issued & raw & mk & io & post & Hops & Ho & ->).
  cbn in Hc. destruct (Z.leb_spec (issued + ADMIN_TOKEN_TTL) now) as [|Hlt]; [done|].
  destruct (constant_time_eq _ _) eqn:Eq; [|done]. apply constant_time_eq_true in Eq. injection Hc as <-.
  exists pre, issued, raw, mk, io, post. split_and!; try done. unfold consume. rewrite Est. cbn.
  rewrite (proj2 (Z.leb_gt _ _) Hlt), (proj2 (constant_time_eq_true _ _) eq_refl). done.
Qed.

(** Presenting a token, on every branch: without an active token, or after its ten
    minutes, or with a different hash, enrolment is refused with the matching error (an
    expired token is also cleared); within its lifetime a token with the right hash is
    accepted, clears the store, and cannot be presented again. *)
Theorem consume_outcome (now : Z) (rm_ok : bool) (p : str) (s : AdminTokenStore) :
  let '(r, s') := consume blake3 now rm_ok p s in
  match ats_state s with
  | None => r = Err (SE_AdminToken TOKEN_NONE) /\ s' = s
  | Some st =>
    if tok_expires_at st <=? now
    then r = Err (SE_AdminToken TOKEN_EXPIRED_MSG) /\ is_active s' = false
    else if bool_decide (blake3 (str_bytes p) = tok_hash st)
    then r = Ok tt /\ is_active s' = false /\
         forall now' rm' q, (consume blake3 now' rm' q s').1 = Err (SE_AdminToken TOKEN_NONE)
    else r = Err (SE_AdminToken TOKEN_MISMATCH) /\ s' = s
  end.
Proof.
  unfold consume. destruct (ats_state s) as [st|]; [|done].
  destruct (tok_expires_at st <=? now); [done|].
  pose proof (constant_time_eq_true (blake3 (str_bytes p)) (tok_hash st)) as Hc.
  destruct (constant_time_eq _ _); simpl; case_bool_decide as Hb; try done; naive_solver.
Qed.

End TokenTheorems.

(** ** Signatures *)

(** The signed message determines the nonce. *)
Lemma signing_payload_inj n1 n2 : signing_payload n1 = signing_payload n2 -> n1 = n2.
Proof.
  unfold signing_payload. intros H%app_inv_head. destruct n1, n2. simpl in H. by subst.
Qed.

Lemma verify_sign {SK VK} `{Ed25519Laws SK VK} (sk : SK) (nonce : Nonce) :
  verify_challenge {| pk_raw := ed_public sk |} nonce (sign_challenge sk nonce) = true.
Proof.
  unfold verify_challenge, sign_challenge. simpl.
  by destruct (ed_complete sk (signing_payload nonce)) as (vk & -> & ?).
Qed.

(** ** A witness *)

(** A token is issued, a wrong one presented, a newer one issued and presented in time. *)
Definition sample_token_ops : list TokenOp :=
  [TokIssue 0 (lit "old") None write_all_ok; TokConsume 5 true (lit "guess");
   TokIssue 10 (lit "new") None write_all_ok; TokConsume 11 true (lit "old")].

Lemma token_single_use_witness :
  exists pre issued raw mk io post, sample_token_ops = pre ++ TokIssue issued raw mk io :: post /\
    20 < issued + ADMIN_TOKEN_TTL /\ str_bytes (lit "new") = str_bytes (str_bytes raw).
Proof.
  destruct (token_single_use (fun b => b) str_bytes sample_token_ops None 20 true (lit "new")
    {| ats_state := None; ats_file := None |}) as (pre & issued & raw & mk & io & post & Hops & _ & Hlt & Hh & _).
  - vm_compute. reflexivity.
  - exists pre, issued, raw, mk, io, post. split; [exact Hops|]. split; [exact Hlt|exact Hh].
Defined.
