(* ===== verification/Handshake.v ===== *)
(** * Handshake: who gets a session

    [krot-server/src/handshake.rs]: the first client stream either authenticates (a
    registered key signs a fresh nonce) or enrols a key with an admin token.  The
    receive half is any [RecvStream], frames are decoded by [read_frame] of
    [Framing]; the send half records the frames written, each write may fail.  Random
    draws, the clock and the formatted time are inputs. *)

From S2P Require Import Prelude RustStr Wire Framing Types Rate Keys Admin.

Local Open Scope Z_scope.

(** ** The send half *)

(** Frames written so far, the outcomes of the writes to come ([None] is success; when
    the list is exhausted writes succeed), and whether the stream was finished. *)
Record SendSide := {
  ss_sent : list ServerFrame;
  ss_outcomes : list (option TErr);
  ss_finished : bool;
}.

Definition send_side_write (f : ServerFrame) (s : SendSide) : Result unit TErr * SendSide :=
  match ss_outcomes s with
  | Some e :: rest => (Err e, {| ss_sent := ss_sent s; ss_outcomes := rest; ss_finished := ss_finished s |})
  | None :: rest =>
    (Ok tt, {| ss_sent := ss_sent s ++ [f]; ss_outcomes := rest; ss_finished := ss_finished s |})
  | [] => (Ok tt, {| ss_sent := ss_sent s ++ [f]; ss_outcomes := []; ss_finished := ss_finished s |})
  end.

(** ** Data *)

Record HandshakeOk := {
  ho_pubkey : PubKey;
  ho_session_id : SessionId;
  ho_entry : AuthorizedEntry;
}.

Inductive HandshakeOutcome :=
| HAuth (ok : HandshakeOk)
| EnrollmentDone (success : bool)
| HFailed (code : ErrorCode).

(** [base64]'s standard alphabet. *)
Class Base64 := {
  b64_encode : bytes -> str;
  b64_decode : str -> option bytes;
}.

(** It round-trips, and its text is one visible word without the characters the key file
    gives a meaning to. *)
Class Base64Laws `{Base64} := {
  b64_roundtrip : forall bs, Forall is_byte bs -> b64_decode (b64_encode bs) = Some bs;
  b64_word : forall bs, bs <> [] -> Forall is_byte bs -> b64_encode bs <> [] /\
    Forall (fun c => is_whitespace c = false /\ c <> 35) (b64_encode bs);
}.

(** What a handshake draws from its environment: the nonce, the session id, the clock, the
    formatted time of day, the outcome of file operations. *)
Record HsEnv := {
  he_nonce : Nonce;
  he_sid : SessionId;
  he_now : Z;
  he_time : str;
  he_rm_ok : bool;
  he_write : WriteIo;
}.

(** The state a handshake works on. *)
Record HsWorld (S : Type) := {
  hw_send : SendSide;
  hw_recv : S;
  hw_keys : KeyRegistry;
  hw_admin : AdminTokenStore;
}.
Arguments hw_send {S} _.
Arguments hw_recv {S} _.
Arguments hw_keys {S} _.
Arguments hw_admin {S} _.
Arguments Build_HsWorld {S} _ _ _ _.

Section Handshake.
Context {S : Type} `{RecvStream S Z Z} `{Postcard ClientFrame Z}.
Context {SK VK : Type} `{Ed25519 SK VK} `{Base64}.
Context (blake3 : bytes -> bytes).
Context (env : HsEnv).

Abbreviation HM := (SM (HsWorld S) ServerError).

(** [recv.read_exact(..)] and [read_frame(recv)], errors as [ServerError::Transport]. *)
Definition recv_exact (n : nat) : HM bytes := fun w =>
  let '(r, s) := read_exact n (hw_recv w) in
  (map_err SE_Transport r, Build_HsWorld (hw_send w) s (hw_keys w) (hw_admin w)).

Definition recv_frame : HM ClientFrame := fun w =>
  let '(r, s) := read_frame (hw_recv w) in
  (map_err SE_Transport r, Build_HsWorld (hw_send w) s (hw_keys w) (hw_admin w)).

(** [write_frame(send, &f)]. *)
Definition send_frame (f : ServerFrame) : HM unit := fun w =>
  let '(r, s) := send_side_write f (hw_send w) in
  (map_err SE_Transport r, Build_HsWorld s (hw_recv w) (hw_keys w) (hw_admin w)).

(** [send.finish()] and [send.stopped()], errors ignored. *)
Definition finish : HM unit := sm_modify (fun w =>
  Build_HsWorld {| ss_sent := ss_sent (hw_send w); ss_outcomes := ss_outcomes (hw_send w);
                   ss_finished := true |} (hw_recv w) (hw_keys w) (hw_admin w)).

(** The code of an enrolment refusal. *)
Definition enroll_code (e : ServerError) : ErrorCode :=
  match e with
  | SE_AdminToken m =>
    if bool_decide (m = TOKEN_EXPIRED_MSG) then TOKEN_EXPIRED
    else if bool_decide (m = TOKEN_NONE) then ENROLL_DISABLED
    else AUTHENTICATION_FAILED
  | _ => AUTHENTICATION_FAILED
  end.

Definition enroll_line (pubkey : PubKey) (label_hint : option str) : str :=
  lit "ed25519 " ++ b64_encode (pk_raw pubkey) ++ lit " subdomain=* # enrolled "
    ++ he_time env ++ lit " " ++ default [] label_hint.

Definition handle_enroll (token : str) (pubkey : PubKey) (label_hint : option str) :
    HM HandshakeOutcome := fun w =>
  let '(r, admin) := consume blake3 (he_now env) (he_rm_ok env) token (hw_admin w) in
  let w := Build_HsWorld (hw_send w) (hw_recv w) (hw_keys w) admin in
  match r with
  | Err e =>
    (let! _ := send_frame (EnrollRejected (enroll_code e)) in
     let! _ := finish in
     sm_ret (EnrollmentDone false)) w
  | Ok _ =>
    let '(r, keys) := append_line b64_decode (he_write env) (enroll_line pubkey label_hint) (hw_keys w) in
    let w := Build_HsWorld (hw_send w) (hw_recv w) keys (hw_admin w) in
    match r with
    | Err e => (Err e, w)
    | Ok stored =>
      (let! _ := send_frame (EnrollOk stored) in
       let! _ := finish in
       sm_ret (EnrollmentDone true)) w
    end
  end.

Definition handle_auth (pubkey : PubKey) : HM HandshakeOutcome :=
  let! entry := sm_gets (fun w => KeyRegistry_get pubkey (hw_keys w)) in
  match entry with
  | None =>
    let! _ := send_frame (AuthReject UNKNOWN_IDENTITY) in
    let! _ := finish in
    sm_ret (HFailed AUTHENTICATION_FAILED)
  | Some entry =>
    let! _ := send_frame (AuthChallenge (he_nonce env)) in
    let! response := recv_frame in
    match response with
    | AuthResponse signature =>
      if negb (verify_challenge pubkey (he_nonce env) signature) then
        let! _ := send_frame (AuthReject AUTHENTICATION_FAILED) in
        let! _ := finish in
        sm_ret (HFailed AUTHENTICATION_FAILED)
      else
        let! _ := send_frame (AuthOk (he_sid env)) in
        sm_ret (HAuth {| ho_pubkey := pubkey; ho_session_id := he_sid env; ho_entry := entry |})
    | _ =>
      let! _ := send_frame (AuthReject PROTOCOL_VIOLATION) in
      let! _ := finish in
      sm_ret (HFailed AUTHENTICATION_FAILED)
    end
  end.

Definition perform : HM HandshakeOutcome :=
  let! kind_byte := recv_exact 1 in
  match StreamKind_try_from (hd 0 kind_byte) with
  | Err _ => sm_ret (HFailed UNKNOWN_STREAM_KIND)
  | Ok kind =>
    if negb (bool_decide (kind = Control)) then sm_ret (HFailed UNEXPECTED_STREAM)
    else
      let! first := recv_frame in
      match first with
      | Enroll admin_token pubkey label_hint => handle_enroll admin_token pubkey label_hint
      | AuthRequest pubkey => handle_auth pubkey
      | _ =>
        let! _ := sm_ignore (send_frame (AuthReject PROTOCOL_VIOLATION)) in
        let! _ := finish in
        sm_ret (HFailed AUTHENTICATION_FAILED)
      end
  end.

End Handshake.

(** ** The monad's steps *)

Section HandshakeTheorems.
Context {S : Type} `{RecvStream S Z Z} `{Postcard ClientFrame Z}.
Context {SK VK : Type} `{Ed25519 SK VK} `{Base64}.
Context (blake3 : bytes -> bytes).

Lemma send_frame_Ok f (w w' : HsWorld S) u :
  send_frame f w = (Ok u, w') ->
  ss_sent (hw_send w') = ss_sent (hw_send w) ++ [f] /\
  hw_recv w' = hw_recv w /\ hw_keys w' = hw_keys w /\ hw_admin w' = hw_admin w.
Proof.
  unfold send_frame, send_side_write.
  destruct (ss_outcomes (hw_send w)) as [|[e|] rest]; intros [= _ <-]; done.
Qed.

Lemma recv_frame_Ok (w w' : HsWorld S) f :
  recv_frame w = (Ok f, w') ->
  read_frame (hw_recv w) = (Ok f, hw_recv w') /\
  hw_send w' = hw_send w /\ hw_keys w' = hw_keys w /\ hw_admin w' = hw_admin w.
Proof.
  unfold recv_frame. destruct (read_frame (hw_recv w)) as [[g|e] s]; [|done].
  intros [= <- <-]. done.
Qed.

Lemma recv_exact_Ok n (w w' : HsWorld S) bs :
  recv_exact n w = (Ok bs, w') ->
  read_exact n (hw_recv w) = (Ok bs, hw_recv w') /\
  hw_send w' = hw_send w /\ hw_keys w' = hw_keys w /\ hw_admin w' = hw_admin w.
Proof.
  unfold recv_exact. destruct (read_exact n (hw_recv w)) as [[g|e] s]; [|done].
  intros [= <- <-]. done.
Qed.

(** What the challenge-response branch can return. *)
Lemma handle_auth_Ok env pk (w w' : HsWorld S) o :
  handle_auth env pk w = (Ok o, w') ->
  hw_keys w' = hw_keys w /\ hw_admin w' = hw_admin w /\
  match o with
  | HAuth ok => ho_pubkey ok = pk /\ ho_session_id ok = he_sid env /\
      KeyRegistry_get pk (hw_keys w) = Some (ho_entry ok) /\
      (exists sig, read_frame (hw_recv w) = (Ok (AuthResponse sig), hw_recv w') /\
        verify_challenge pk (he_nonce env) sig = true) /\
      ss_sent (hw_send w') = ss_sent (hw_send w) ++ [AuthChallenge (he_nonce env); AuthOk (he_sid env)]
  | HFailed c => c = AUTHENTICATION_FAILED
  | EnrollmentDone _ => False
  end.
Proof.
  unfold handle_auth. intros (entry & w1 & [= <- <-] & Hk)%sm_bind_Ok.
  destruct (KeyRegistry_get pk (hw_keys w)) as [entry|] eqn:Eg.
  2: { apply sm_bind_Ok in Hk as (u & w2 & Hsf%send_frame_Ok & Hk). injection Hk as <- <-.
       naive_solver. }
  apply sm_bind_Ok in Hk as (u & w2 & (Hs2 & Hr2 & Hk2 & Ha2)%send_frame_Ok & Hk).
  apply sm_bind_Ok in Hk as (f & w3 & (Hf3 & Hs3 & Hk3 & Ha3)%recv_frame_Ok & Hk).
  destruct f; try (apply sm_bind_Ok in Hk as (u4 & w4 & (Hs4 & Hr4 & Hk4 & Ha4)%send_frame_Ok & Hk);
    injection Hk as <- <-; simpl; split_and!; congruence).
  destruct (verify_challenge pk (he_nonce env) signature) eqn:Ev; simpl in Hk;
    apply sm_bind_Ok in Hk as (u4 & w4 & (Hs4 & Hr4 & Hk4 & Ha4)%send_frame_Ok & Hk);
    injection Hk as <- <-; simpl; split_and!; try congruence.
  - exists signature. split; congruence.
  - by rewrite Hs4, Hs3, Hs2, <-app_assoc.
Qed.

(** The other branches keep keys and tokens except in an enrolment. *)
Lemma handle_enroll_Ok env tok pk hint (w w' : HsWorld S) o :
  handle_enroll blake3 env tok pk hint w = (Ok o, w') ->
  match o with
  | EnrollmentDone true =>
      consume blake3 (he_now env) (he_rm_ok env) tok (hw_admin w) = (Ok tt, hw_admin w') /\
      exists stored, append_line b64_decode (he_write env) (enroll_line env pk hint) (hw_keys w) =
        (Ok stored, hw_keys w') /\ ss_sent (hw_send w') = ss_sent (hw_send w) ++ [EnrollOk stored]
  | EnrollmentDone false => hw_keys w' = hw_keys w /\
      exists e, consume blake3 (he_now env) (he_rm_ok env) tok (hw_admin w) = (Err e, hw_admin w') /\
        ss_sent (hw_send w') = ss_sent (hw_send w) ++ [EnrollRejected (enroll_code e)]
  | _ => False
  end.
Proof.
  unfold handle_enroll. destruct (consume _ _ _ _ _) as [[[]|e] adm] eqn:Ec.
  - simpl. destruct (append_line _ _ _ _) as [[stored|e] keys] eqn:Ea; [|done].
    intros (u & w1 & (Hs & Hr & Hk & Ha)%send_frame_Ok & Hk')%sm_bind_Ok.
    injection Hk' as <- <-. simpl in *. split; [congruence|]. exists stored. split; congruence.
  - intros (u & w1 & (Hs & Hr & Hk & Ha)%send_frame_Ok & Hk')%sm_bind_Ok.
    injection Hk' as <- <-. simpl in *. split; [congruence|]. exists e. split; congruence.
Qed.

(** [perform] up to its dispatch on the first frame. *)
Lemma perform_Ok env (w w' : HsWorld S) o :
  perform blake3 env w = (Ok o, w') ->
  exists kb w1, read_exact 1 (hw_recv w) = (Ok kb, hw_recv w1) /\
    hw_send w1 = hw_send w /\ hw_keys w1 = hw_keys w /\ hw_admin w1 = hw_admin w /\
    match StreamKind_try_from (hd 0 kb) with
    | Err _ => o = HFailed UNKNOWN_STREAM_KIND /\ w' = w1
    | Ok Control => exists f w2, read_frame (hw_recv w1) = (Ok f, hw_recv w2) /\
        hw_send w2 = hw_send w /\ hw_keys w2 = hw_keys w /\ hw_admin w2 = hw_admin w /\
        match f with
        | Enroll tok pk hint => handle_enroll blake3 env tok pk hint w2 = (Ok o, w')
        | AuthRequest pk => handle_auth env pk w2 = (Ok o, w')
        | _ => o = HFailed AUTHENTICATION_FAILED /\ hw_keys w' = hw_keys w /\ hw_admin w' = hw_admin w
        end
    | Ok _ => o = HFailed UNEXPECTED_STREAM /\ w' = w1
    end.
Proof.
  unfold perform. intros (kb & w1 & (Hr1 & Hs1 & Hk1 & Ha1)%recv_exact_Ok & Hk)%sm_bind_Ok.
  exists kb, w1. split_and!; try done.
  destruct (StreamKind_try_from (hd 0 kb)) as [[]|]; simpl in Hk;
    try (by injection Hk as <- <-).
  apply sm_bind_Ok in Hk as (f & w2 & (Hr2 & Hs2 & Hk2 & Ha2)%recv_frame_Ok & Hk).
  exists f, w2. split_and!; try congruence. destruct f; try done.
  all: unfold sm_ignore, sm_bind in Hk; unfold send_frame, send_side_write in Hk;
    destruct (ss_outcomes (hw_send w2)) as [|[|]]; simpl in Hk; injection Hk as <- <-;
    simpl; split_and!; congruence.
Qed.

(** The facts behind a session. *)
Lemma perform_authenticates (env : HsEnv) (w w' : HsWorld S) (ok : HandshakeOk)
    (Hp : perform blake3 env w = (Ok (HAuth ok), w')) :
  KeyRegistry_get (ho_pubkey ok) (hw_keys w) = Some (ho_entry ok) /\
  ho_session_id ok = he_sid env /\
  (exists kb s1 s2 sig, read_exact 1 (hw_recv w) = (Ok kb, s1) /\
     hd 0 kb = StreamKind_as_byte Control /\
     read_frame s1 = (Ok (AuthRequest (ho_pubkey ok)), s2) /\
     read_frame s2 = (Ok (AuthResponse sig), hw_recv w') /\
     verify_challenge (ho_pubkey ok) (he_nonce env) sig = true) /\
  ss_sent (hw_send w') =
    ss_sent (hw_send w) ++ [AuthChallenge (he_nonce env); AuthOk (he_sid env)] /\
  hw_keys w' = hw_keys w /\ hw_admin w' = hw_admin w.
Proof.
  apply perform_Ok in Hp as (kb & w1 & Hr1 & Hs1 & Hk1 & Ha1 & Hp).
  destruct (StreamKind_try_from (hd 0 kb)) as [[]|] eqn:Ek; try (by destruct Hp as [? ?]).
  destruct Hp as (f & w2 & Hr2 & Hs2 & Hk2 & Ha2 & Hp). destruct f; try (by destruct Hp as [? ?]).
  - apply handle_auth_Ok in Hp as (Hk & Ha & <- & Hsid & Hg & (sig & Hr3 & Hv) & Hs).
    rewrite Hk2 in Hg. split_and!; try congruence.
    exists kb, (hw_recv w1), (hw_recv w2), sig. split_and!; try done.
    by apply StreamKind_try_from_Ok in Ek.
  - by apply handle_enroll_Ok in Hp.
Qed.

(** Authentication is sound.  If the handshake ends in a session, the peer opened a
    Control stream, presented a key that is registered, and answered this handshake's
    nonce with a signature that verifies under that key; the session carries that key, its
    authorisation entry and the fresh session id; exactly the challenge and the
    acceptance were sent; and no key and no token changed. *)
Theorem auth_sound (env : HsEnv) (w w' : HsWorld S) (ok : HandshakeOk)
    (Hp : perform blake3 env w = (Ok (HAuth ok), w')) :
  KeyRegistry_get (ho_pubkey ok) (hw_keys w) = Some (ho_entry ok) /\
  ho_session_id ok = he_sid env /\
  (exists kb s1 s2 sig, read_exact 1 (hw_recv w) = (Ok kb, s1) /\
     hd 0 kb = StreamKind_as_byte Control /\
     read_frame s1 = (Ok (AuthRequest (ho_pubkey ok)), s2) /\
     read_frame s2 = (Ok (AuthResponse sig), hw_recv w') /\
     verify_challenge (ho_pubkey ok) (he_nonce env) sig = true) /\
  ss_sent (hw_send w') =
    ss_sent (hw_send w) ++ [AuthChallenge (he_nonce env); AuthOk (he_sid env)] /\
  hw_keys w' = hw_keys w /\ hw_admin w' = hw_admin w.
Proof. by apply perform_authenticates. Qed.

(** A failed handshake names one of three close codes: an unknown stream kind, an
    unexpected stream, or the uniform authentication failure (an unknown identity and a
    bad signature are not told apart); it leaves keys and tokens as they were. *)
Theorem auth_failure_codes (env : HsEnv) (w w' : HsWorld S) (c : ErrorCode)
    (Hp : perform blake3 env w = (Ok (HFailed c), w')) :
  c ∈ [UNKNOWN_STREAM_KIND; UNEXPECTED_STREAM; AUTHENTICATION_FAILED] /\
  hw_keys w' = hw_keys w /\ hw_admin w' = hw_admin w.
Proof.
  apply perform_Ok in Hp as (kb & w1 & Hr1 & Hs1 & Hk1 & Ha1 & Hp). rewrite !elem_of_cons.
  destruct (StreamKind_try_from (hd 0 kb)) as [[]|] eqn:Ek.
  - destruct Hp as (f & w2 & Hr2 & Hs2 & Hk2 & Ha2 & Hp).
    destruct f; try (by destruct Hp as ([= <-] & ? & ?); eauto 10).
    + apply handle_auth_Ok in Hp as (? & ? & ->). split; [auto|]. split; congruence.
    + by apply handle_enroll_Ok in Hp.
  - destruct Hp as [[= <-] ->]. auto.
  - destruct Hp as [[= <-] ->]. auto.
  - destruct Hp as [[= <-] ->]. auto.
Qed.

Context `{!Base64Laws}.









Context `{!RecvStreamLaws S Z Z} `{!PostcardLaws ClientFrame Z} `{!Ed25519Laws SK VK}.

(** The run of a handshake with an honest client. *)
Lemma honest_auth_run (env : HsEnv) (w : HsWorld S) (sk : SK)
    (entry : AuthorizedEntry) (f1 f2 rest : bytes) (n1 n2 : Z)
    (Hget : KeyRegistry_get {| pk_raw := ed_public sk |} (hw_keys w) = Some entry)
    (Hf1 : encode_frame (AuthRequest {| pk_raw := ed_public sk |}) [] = (Ok n1, f1))
    (Hf2 : encode_frame (AuthResponse (sign_challenge sk (he_nonce env))) [] = (Ok n2, f2))
    (Hin : rs_pending (hw_recv w) = StreamKind_as_byte Control :: f1 ++ f2 ++ rest)
    (Hrest : Forall is_byte rest) (Hio : ss_outcomes (hw_send w) = []) :
  exists w', perform blake3 env w =
      (Ok (HAuth {| ho_pubkey := {| pk_raw := ed_public sk |}; ho_session_id := he_sid env;
                    ho_entry := entry |}), w') /\
    rs_pending (hw_recv w') = rest /\
    ss_sent (hw_send w') = ss_sent (hw_send w) ++ [AuthChallenge (he_nonce env); AuthOk (he_sid env)].
Proof.
  destruct (encode_frame_Ok _ _ _ _ Hf1) as (p1 & Hp1 & Hs1).
  destruct (encode_frame_Ok _ _ _ _ Hf2) as (p2 & Hp2 & Hs2).
  destruct (read_frame_encoded (S := S) _ _ Hp1 Hs1) as (g1 & Hb1 & Hg1 & Hread1).
  destruct (read_frame_encoded (S := S) _ _ Hp2 Hs2) as (g2 & Hb2 & Hg2 & Hread2).
  rewrite Hg1 in Hf1. rewrite Hg2 in Hf2. injection Hf1 as _ <-. injection Hf2 as _ <-.
  destruct (read_exact_enough 1 (hw_recv w)) as (s1 & Hr1 & Hq1); [rewrite Hin; simpl; lia|].
  rewrite Hin in Hr1, Hq1. simpl in Hr1, Hq1. rewrite ?drop_0 in Hq1.
  destruct (Hread1 s1 (g2 ++ rest)) as (s2 & Hr2 & Hq2); [by apply Forall_app|done|].
  destruct (Hread2 s2 rest) as (s3 & Hr3 & Hq3); [done|done|].
  unfold perform, sm_bind, recv_exact. rewrite Hr1. simpl. rewrite ?take_0.
  unfold recv_frame at 1. simpl. rewrite Hr2. simpl.
  unfold handle_auth, sm_bind, sm_gets. simpl. rewrite Hget.
  unfold send_frame at 1, send_side_write at 1. simpl. rewrite Hio. simpl.
  unfold recv_frame. simpl. rewrite Hr3. simpl. rewrite verify_sign. simpl.
  eexists. split; [done|]. split; [done|]. simpl. by rewrite <-app_assoc.
Qed.


(** The run with a key that is not registered: refused at once, before any challenge. *)
Lemma unknown_key_run (env : HsEnv) (w : HsWorld S) (pk : PubKey) (f1 rest : bytes) (n1 : Z)
    (Hget : KeyRegistry_get pk (hw_keys w) = None)
    (Hf1 : encode_frame (AuthRequest pk) [] = (Ok n1, f1))
    (Hin : rs_pending (hw_recv w) = StreamKind_as_byte Control :: f1 ++ rest)
    (Hrest : Forall is_byte rest) (Hio : ss_outcomes (hw_send w) = []) :
  exists w', perform blake3 env w = (Ok (HFailed AUTHENTICATION_FAILED), w') /\
    ss_sent (hw_send w') = ss_sent (hw_send w) ++ [AuthReject UNKNOWN_IDENTITY] /\
    ss_finished (hw_send w') = true.
Proof.
  destruct (encode_frame_Ok _ _ _ _ Hf1) as (p1 & Hp1 & Hs1).
  destruct (read_frame_encoded (S := S) _ _ Hp1 Hs1) as (g1 & Hb1 & Hg1 & Hread1).
  rewrite Hg1 in Hf1. injection Hf1 as _ <-.
  destruct (read_exact_enough 1 (hw_recv w)) as (s1 & Hr1 & Hq1); [rewrite Hin; simpl; lia|].
  rewrite Hin in Hr1, Hq1. simpl in Hr1, Hq1. rewrite ?drop_0 in Hq1.
  destruct (Hread1 s1 rest) as (s2 & Hr2 & Hq2); [done|done|].
  unfold perform, sm_bind, recv_exact. rewrite Hr1. simpl. rewrite ?take_0.
  unfold recv_frame at 1. simpl. rewrite Hr2. simpl.
  unfold handle_auth, sm_bind, sm_gets. simpl. rewrite Hget.
  unfold send_frame at 1, send_side_write at 1. simpl. rewrite Hio. simpl.
  eexists. split; [done|]. done.
Qed.

(** Authentication is complete: a client that holds the private key of a registered
    identity, announces it on a Control stream and signs the challenge is given a session,
    and the bytes that follow its answer are left for the session to read. *)
Theorem honest_client_authenticates (env : HsEnv) (w : HsWorld S) (sk : SK)
    (entry : AuthorizedEntry) (f1 f2 rest : bytes) (n1 n2 : Z)
    (Hget : KeyRegistry_get {| pk_raw := ed_public sk |} (hw_keys w) = Some entry)
    (Hf1 : encode_frame (AuthRequest {| pk_raw := ed_public sk |}) [] = (Ok n1, f1))
    (Hf2 : encode_frame (AuthResponse (sign_challenge sk (he_nonce env))) [] = (Ok n2, f2))
    (Hin : rs_pending (hw_recv w) = StreamKind_as_byte Control :: f1 ++ f2 ++ rest)
    (Hrest : Forall is_byte rest) (Hio : ss_outcomes (hw_send w) = []) :
  exists w', perform blake3 env w =
      (Ok (HAuth {| ho_pubkey := {| pk_raw := ed_public sk |}; ho_session_id := he_sid env;
                    ho_entry := entry |}), w') /\
    rs_pending (hw_recv w') = rest.
Proof.
  destruct (honest_auth_run env w sk entry f1 f2 rest n1 n2 Hget Hf1 Hf2 Hin Hrest Hio)
    as (w' & Hp & Hr & _). by exists w'.
Qed.

End HandshakeTheorems.

(** ** Witnesses

    A small instance of every parameter: frames of two kinds, a key that is its own
    signing secret, an alphabet that shifts bytes, a buffer as the stream. *)
Definition toy_to (f : ClientFrame) : Result bytes Z :=
  match f with
  | AuthRequest pk => if bool_decide (Forall is_byte (pk_raw pk)) then Ok (0 :: pk_raw pk) else Err 0
  | AuthResponse sig => if bool_decide (Forall is_byte (sig_raw sig)) then Ok (1 :: sig_raw sig) else Err 0
  | Enroll tok pk None =>
    if bool_decide (Forall is_byte (pk_raw pk)) then
      if bool_decide (length (pk_raw pk) = 32%nat /\ Forall is_byte tok) then Ok (6 :: pk_raw pk ++ tok)
      else Err 0
    else Err 0
  | _ => Err 0
  end.

Definition toy_from (bs : bytes) : Result ClientFrame Z :=
  match bs with
  | 0 :: r => Ok (AuthRequest {| pk_raw := r |})
  | 1 :: r => Ok (AuthResponse {| sig_raw := r |})
  | 6 :: r => Ok (Enroll (drop 32 r) {| pk_raw := take 32 r |} None)
  | _ => Err 1
  end.

#[local] Instance is_byte_dec b : Decision (is_byte b).
Proof. unfold is_byte, in_u. apply _. Defined.

#[local] Instance toy_postcard : Postcard ClientFrame Z :=
  {| to_stdvec := toy_to; from_bytes := toy_from |}.

#[local] Instance toy_postcard_laws : PostcardLaws ClientFrame Z.
Proof.
  split; intros v bs; simpl; unfold toy_to; destruct v as [[pk]|[sg]| | | | |tok [pk] [h|]|]; simpl; try done;
    repeat case_bool_decide; intros [= <-].
  - constructor; [solve_in_u|done].
  - constructor; [solve_in_u|done].
  - constructor; [solve_in_u|]. apply Forall_app. naive_solver.
  - done.
  - done.
  - simpl. rewrite drop_app_length', take_app_length' by naive_solver. done.
Qed.

#[local] Instance toy_stream : RecvStream bytes Z Z := {|
  read_exact n (s : bytes) := if decide (n <= length s)%nat then (Ok (take n s), drop n s)
                              else (Err TE_UnexpectedEof, []);
  rs_pending (s : bytes) := s;
|}.

#[local] Instance toy_stream_laws : RecvStreamLaws bytes Z Z.
Proof.
  split; intros n s Hn; simpl in *.
  - rewrite decide_True by done. by eexists.
  - rewrite decide_False by lia. by eexists _, _.
Qed.

#[local] Instance toy_ed : Ed25519 bytes bytes := {|
  ed_public sk := sk;
  ed_sign sk msg := take 64 (sk ++ msg);
  ed_from_bytes vk := Some vk;
  ed_verify vk msg sig := bool_decide (sig = take 64 (vk ++ msg));
|}.

#[local] Instance toy_ed_laws : Ed25519Laws bytes bytes.
Proof. split. intros sk msg. exists sk. split; [done|]. by apply bool_decide_eq_true. Qed.

#[local] Instance toy_base64 : Base64 := {|
  b64_encode bs := map (fun b => b + 256) bs;
  b64_decode s := Some (map (fun c => c - 256) s);
|}.

#[local] Instance toy_base64_laws : Base64Laws.
Proof.
  split.
  - intros bs _. simpl. f_equal. rewrite map_map. rewrite <-(map_id bs) at 2.
    apply map_ext. intros. lia.
  - intros bs Hne Hb. simpl. split; [by destruct bs|]. apply Forall_map.
    eapply Forall_impl; [|exact Hb]. intros b Hby. uint. split; [|lia].
    apply not_true_is_false. unfold is_whitespace.
    rewrite !orb_true_iff, !andb_true_iff, !Z.leb_le, !Z.eqb_eq. lia.
Qed.

Definition toy_env : HsEnv :=
  {| he_nonce := {| nonce_raw := repeat 9 32 |}; he_sid := {| sid_raw := repeat 4 16 |};
     he_now := 5; he_time := lit "2025"; he_rm_ok := true; he_write := write_all_ok |}.

Definition toy_secret : bytes := repeat 1 32.

(** One registered key, one admin token whose text is a single letter. *)
Definition toy_world (input : bytes) : HsWorld bytes :=
  {| hw_send := {| ss_sent := []; ss_outcomes := []; ss_finished := false |};
     hw_recv := input;
     hw_keys := {| kr_file := Some [];
                   kr_entries := {[ {| pk_raw := toy_secret |} := AuthorizedEntry_default ]} |};
     hw_admin := {| ats_state := Some {| tok_hash := [84]; tok_expires_at := 100 |};
                    ats_file := None |} |}.

Definition toy_frame (f : ClientFrame) : bytes := (encode_frame f []).2.

Definition auth_input : bytes :=
  StreamKind_as_byte Control :: toy_frame (AuthRequest {| pk_raw := toy_secret |})
    ++ toy_frame (AuthResponse (sign_challenge toy_secret (he_nonce toy_env))) ++ [42].

Lemma honest_client_authenticates_witness :
  exists w', perform (fun b => b) toy_env (toy_world auth_input) =
      (Ok (HAuth {| ho_pubkey := {| pk_raw := ed_public toy_secret |};
                    ho_session_id := he_sid toy_env; ho_entry := AuthorizedEntry_default |}), w') /\
    rs_pending (hw_recv w') = [42].
Proof.
  apply (honest_client_authenticates (S := bytes) (SK := bytes) (VK := bytes) (fun b => b) toy_env (toy_world auth_input) toy_secret
    AuthorizedEntry_default (toy_frame (AuthRequest {| pk_raw := toy_secret |}))
    (toy_frame (AuthResponse (sign_challenge toy_secret (he_nonce toy_env)))) [42]
    (len (toy_frame (AuthRequest {| pk_raw := toy_secret |})))
    (len (toy_frame (AuthResponse (sign_challenge toy_secret (he_nonce toy_env)))))).
  - vm_compute. reflexivity.
  - vm_compute. reflexivity.
  - vm_compute. reflexivity.
  - reflexivity.
  - solve_bytes.
  - reflexivity.
Defined.

Lemma auth_sound_witness :
  KeyRegistry_get {| pk_raw := toy_secret |} (hw_keys (toy_world auth_input)) =
    Some AuthorizedEntry_default.
Proof.
  pose (ok := {| ho_pubkey := {| pk_raw := toy_secret |}; ho_session_id := he_sid toy_env;
                 ho_entry := AuthorizedEntry_default |}).
  apply (auth_sound (S := bytes) (SK := bytes) (VK := bytes) (fun b => b) toy_env (toy_world auth_input)
           (perform (fun b => b) toy_env (toy_world auth_input)).2 ok).
  vm_compute. reflexivity.
Defined.

Lemma auth_failure_codes_witness :
  AUTHENTICATION_FAILED ∈ [UNKNOWN_STREAM_KIND; UNEXPECTED_STREAM; AUTHENTICATION_FAILED].
Proof.
  pose (input := StreamKind_as_byte Control :: toy_frame (AuthRequest {| pk_raw := [7] |})).
  apply (auth_failure_codes (S := bytes) (SK := bytes) (VK := bytes) (fun b => b) toy_env (toy_world input)
           (perform (fun b => b) toy_env (toy_world input)).2 AUTHENTICATION_FAILED).
  vm_compute. reflexivity.
Defined.




(** The label hint of an enrolment is written into the key file as it is: a hint with a
    newline adds a second, self-chosen key at the next reload. *)
Example enroll_hint_injects_key :
  let evil := lit "x" ++ [10] ++ lit "ed25519 " ++ b64_encode (repeat 8 32) ++ lit " subdomain=*" in
  let line := enroll_line toy_env {| pk_raw := repeat 3 32 |} (Some evil) in
  let '(_, k) := append_line b64_decode write_all_ok line {| kr_file := Some []; kr_entries := ∅ |} in
  let '(_, k', _) := reload b64_decode 0 k in
  KeyRegistry_contains {| pk_raw := repeat 8 32 |} k = false /\
  KeyRegistry_contains {| pk_raw := repeat 8 32 |} k' = true.
Proof. vm_compute. split; reflexivity. Qed.
