(* ===== verification/Peers.v ===== *)
(** * Peers: the federated-peer list and the cross-relay collision check

    [krot-server/src/peers.rs] (a file of apex domains, de-duplicated, hot-reloaded)
    and [krot-server/src/peer_lookup.rs].  The pluggable lookup, a trait in the source,
    is the class [PeerLabelLookup]. *)

From S2P Require Import Prelude RustStr Wire Types Keys.

Local Open Scope Z_scope.

(** ** The list *)

(** The file may be missing, or present and readable ([PeerText]) or not. *)
Inductive PeerFile :=
| PeerMissing
| PeerUnreadable (e : Z)
| PeerText (text : str).

Record PeerRegistry := { pr_file : PeerFile; pr_peers : list str }.

(** One line of [parse_file]. *)
Definition peer_line (out : list str) (line : str) : list str :=
  let trimmed := trim line in
  if skipped trimmed then out
  else if bool_decide (trimmed ∈ out) then out else out ++ [trimmed].

Definition parse_peers (text : str) : list str := foldl peer_line [] (lines text).

Definition parse_peer_file (f : PeerFile) (missing : list str) : Result (list str) ServerError :=
  match f with
  | PeerMissing => Ok missing
  | PeerUnreadable e => Err (SE_Io e)
  | PeerText text => Ok (parse_peers text)
  end.

Definition PeerRegistry_open (f : PeerFile) : Result PeerRegistry ServerError :=
  let? peers := parse_peer_file f [] in
  Ok {| pr_file := f; pr_peers := peers |}.

Definition PeerRegistry_snapshot (r : PeerRegistry) : list str := pr_peers r.
Definition PeerRegistry_len (r : PeerRegistry) : nat := length (pr_peers r).

Definition PeerRegistry_reload (r : PeerRegistry) : Result unit ServerError * PeerRegistry :=
  match parse_peer_file (pr_file r) [] with
  | Err e => (Err e, r)
  | Ok new => (Ok tt, {| pr_file := pr_file r; pr_peers := new |})
  end.

(** One event of the watcher: reload on a change of the watched file, errors logged. *)
Definition peers_watch_event (ev : option (FsEventKind * bool)) (r : PeerRegistry) : PeerRegistry :=
  match ev with
  | None => r
  | Some (kind, touches_target) =>
    if negb touches_target then r
    else match kind with FsOther => r | _ => (PeerRegistry_reload r).2 end
  end.

(** ** The collision check *)

Inductive PeerLookupOutcome :=
| PeerNotFound
| PeerFound (owner : PubKey)
| PeerUnavailable.

Class PeerLabelLookup (L : Type) := {
  find_owner : L -> str -> str -> PeerLookupOutcome;
}.

Inductive NoOpPeerLookup := NoOp.

#[global] Instance NoOp_lookup : PeerLabelLookup NoOpPeerLookup := {|
  find_owner _ _ _ := PeerNotFound;
|}.

Inductive CollisionCheck :=
| CC_Clear (matched_peers : list str)
| CC_Conflict (first_conflict : str).

Section Collision.
Context {L : Type} `{PeerLabelLookup L}.

Fixpoint check_collision_loop (lookup : L) (peers : list str) (label : str) (self_pubkey : PubKey)
    (matched_peers : list str) : CollisionCheck :=
  match peers with
  | [] => CC_Clear matched_peers
  | peer :: peers =>
    match find_owner lookup peer label with
    | PeerNotFound | PeerUnavailable =>
      check_collision_loop lookup peers label self_pubkey matched_peers
    | PeerFound owner =>
      if bool_decide (owner = self_pubkey)
      then check_collision_loop lookup peers label self_pubkey (matched_peers ++ [peer])
      else CC_Conflict peer
    end
  end.

Definition check_collision (lookup : L) (peers : list str) (label : str) (self_pubkey : PubKey) :
    CollisionCheck := check_collision_loop lookup peers label self_pubkey [].

(** The peer reports the label as held by this very identity. *)
Definition same_owner (lookup : L) (label : str) (pk : PubKey) (peer : str) : bool :=
  match find_owner lookup peer label with
  | PeerFound o => bool_decide (o = pk)
  | _ => false
  end.

(** The peer reports the label as held by somebody else. *)
Definition other_owner (lookup : L) (label : str) (pk : PubKey) (peer : str) : bool :=
  match find_owner lookup peer label with
  | PeerFound o => negb (bool_decide (o = pk))
  | _ => false
  end.

(** ** Theorems *)

Lemma check_collision_loop_spec lookup peers label pk acc :
  check_collision_loop lookup peers label pk acc =
  match find_first (other_owner lookup label pk) peers with
  | Some c => CC_Conflict c
  | None => CC_Clear (acc ++ List.filter (same_owner lookup label pk) peers)
  end.
Proof.
  revert acc. induction peers as [|p peers IH]; intros acc; simpl; [by rewrite app_nil_r|].
  unfold other_owner at 1, same_owner at 1.
  destruct (find_owner lookup p label) as [|o|]; [apply IH| |apply IH].
  case_bool_decide; simpl; [|done]. rewrite IH. by rewrite <-app_assoc.
Qed.

(** The collision check refuses exactly when some consulted peer reports the label under
    a different key, and names the first such peer in order; peers that do not know the
    label or cannot be reached never block; otherwise it lists, in order, the peers where
    this identity already holds the label. *)
Theorem collision_check_exact (lookup : L) (peers : list str) (label : str) (pk : PubKey) :
  match check_collision lookup peers label pk with
  | CC_Conflict c => c ∈ peers /\ other_owner lookup label pk c = true /\
      find_first (other_owner lookup label pk) peers = Some c
  | CC_Clear m => m = List.filter (same_owner lookup label pk) peers /\
      forall p, p ∈ peers -> other_owner lookup label pk p = false
  end.
Proof.
  unfold check_collision. rewrite check_collision_loop_spec.
  destruct (find_first _ _) as [c|] eqn:E.
  - by pose proof (find_first_Some _ _ _ E) as [? ?].
  - by rewrite find_first_None in E.
Qed.

End Collision.

Lemma peer_line_spec out line :
  NoDup out -> NoDup (peer_line out line) /\
  forall p, p ∈ peer_line out line <-> p ∈ out \/ (p = trim line /\ skipped (trim line) = false).
Proof.
  intros Hn. unfold peer_line. destruct (skipped (trim line)) eqn:Es; [naive_solver|].
  case_bool_decide as Hin; [naive_solver|]. split.
  - apply list.NoDup_app. split_and!; [done|set_solver|apply NoDup_singleton].
  - intros p. rewrite elem_of_app, list_elem_of_singleton. naive_solver.
Qed.

(** The peer list holds each configured peer exactly once: it has no duplicates, and it
    contains a name exactly when some line of the file is that name up to surrounding
    white space and is neither blank nor a comment. *)
Theorem peer_list_exact (text : str) :
  NoDup (parse_peers text) /\
  forall p, p ∈ parse_peers text <->
    exists line, line ∈ lines text /\ p = trim line /\ skipped (trim line) = false.
Proof.
  unfold parse_peers. induction (lines text) as [|l ls IH] using rev_ind; simpl.
  { split; [apply NoDup_nil_2|]. set_solver. }
  rewrite foldl_snoc. destruct IH as [Hn Hp].
  destruct (peer_line_spec (foldl peer_line [] ls) l Hn) as [Hn' Hp']. split; [done|].
  intros p. rewrite Hp', Hp. setoid_rewrite elem_of_app. setoid_rewrite list_elem_of_singleton.
  naive_solver.
Qed.
