(* ===== verification/Metrics.v ===== *)
(** * Metrics: the process-wide counters and their Prometheus text

    [krot-server/src/metrics.rs].  Every counter is an [AtomicU64] bumped by
    [fetch_add(1)]; a scrape renders them with two gauges computed by the caller and the
    per-identity byte counts.  The wall clock and the build version are inputs. *)

From S2P Require Import Prelude RustStr.

Local Open Scope Z_scope.

(** The fields of [ServerMetrics]. *)
Inductive Counter :=
| handshake_auth_ok
| handshake_unknown_identity
| handshake_signature_invalid
| handshake_timed_out
| handshake_protocol_violation
| enrollment_ok
| enrollment_rejected
| session_bye
| session_dropped
| session_terminal
| resume_reattached
| resume_identity_mismatch
| resume_unknown
| tunnel_registered_http
| tunnel_registered_tcp
| tunnel_rejected_label
| tunnel_rejected_conns
| tunnel_rejected_ports
| tunnel_rejected_pool
| tunnel_rejected_peer_collision
| rate_limit_quota_exceeded
| transport_quic_accepted
| transport_tcp_fallback_accepted
| admin_api_session_minted
| admin_api_session_rejected
| admin_api_key_appended
| admin_api_key_removed
| admin_api_key_remove_not_found
| admin_api_auth_failed
| process_start_unix_secs.

#[global] Instance Counter_eq_dec : EqDecision Counter.
Proof. solve_decision. Defined.

(** [ServerMetrics]: the value of each field. *)
Definition ServerMetrics : Type := Counter -> Z.

Definition metrics_store (c : Counter) (v : Z) (m : ServerMetrics) : ServerMetrics :=
  fun c' => if decide (c' = c) then v else m c'.

(** [fetch_add(1, Relaxed)]. *)
Definition bump (c : Counter) (m : ServerMetrics) : ServerMetrics :=
  metrics_store c (wrap 64 (m c + 1)) m.

(** [now] is the wall clock in seconds since the epoch. *)
Definition ServerMetrics_new (now : Z) : ServerMetrics :=
  metrics_store process_start_unix_secs now (fun _ => 0).

(** A Rust string literal that may hold non-ASCII characters. *)
Definition text (s : string) : str := default [] (from_utf8 (lit s)).

Definition nl : str := [10].
Definition quote : str := [34].

Definition counter (out name help : str) (value : Z) : str :=
  out ++ lit "# HELP " ++ name ++ lit " " ++ help ++ nl
      ++ lit "# TYPE " ++ name ++ lit " counter" ++ nl
      ++ name ++ lit " " ++ fmt_dec value ++ nl.

(** The [counter] calls of [to_prometheus_text], in order: name, help and field. *)
Definition families : list (str * str * Counter) :=
  [ (lit "krot_handshake_auth_ok_total", text "Successful `AuthOk` responses (§7.1).", handshake_auth_ok);
   (lit "krot_handshake_unknown_identity_total", text "Handshakes rejected because the presented pubkey is not in authorized_keys.", handshake_unknown_identity);
   (lit "krot_handshake_signature_invalid_total", text "Handshakes rejected due to bad Ed25519 signature.", handshake_signature_invalid);
   (lit "krot_handshake_timed_out_total", text "Handshakes that exceeded the §10 auth deadline.", handshake_timed_out);
   (lit "krot_handshake_protocol_violation_total", text "First-stream protocol violations (unknown StreamKind, etc.).", handshake_protocol_violation);
   (lit "krot_enrollment_ok_total", text "Successful enrollments (§14).", enrollment_ok);
   (lit "krot_enrollment_rejected_total", text "Enrollments rejected (bad / expired / consumed admin token).", enrollment_rejected);
   (lit "krot_session_bye_total", text "Sessions that ended with an explicit client `Bye` (§7.5).", session_bye);
   (lit "krot_session_dropped_total", text "Sessions that ended without a `Bye` — tunnels marked Dangling.", session_dropped);
   (lit "krot_session_terminal_total", text "Sessions terminated by shutdown / revocation / protocol violation.", session_terminal);
   (lit "krot_resume_reattached_total", text "Successful §7.3 resume — same tunnel_id reused.", resume_reattached);
   (lit "krot_resume_identity_mismatch_total", text "Resume attempts rejected because the presenting pubkey does not own the lease.", resume_identity_mismatch);
   (lit "krot_resume_unknown_total", text "Resume attempts against expired / never-registered leases.", resume_unknown);
   (lit "krot_tunnel_registered_http_total", text "HTTP tunnels successfully registered.", tunnel_registered_http);
   (lit "krot_tunnel_registered_tcp_total", text "TCP tunnels successfully registered.", tunnel_registered_tcp);
   (lit "krot_tunnel_rejected_label_total", text "Tunnels rejected because the requested label is forbidden or already taken.", tunnel_rejected_label);
   (lit "krot_tunnel_rejected_conns_total", text "Tunnels rejected by the §13 `conns=` cap.", tunnel_rejected_conns);
   (lit "krot_tunnel_rejected_ports_total", text "Tunnels rejected by the §13 `ports=` allowlist.", tunnel_rejected_ports);
   (lit "krot_tunnel_rejected_pool_total", text "Tunnels rejected because the TCP port pool was exhausted.", tunnel_rejected_pool);
   (lit "krot_tunnel_rejected_peer_collision_total", text "Tunnels rejected by §16.3.4 cross-relay collision detection.", tunnel_rejected_peer_collision);
   (lit "krot_rate_limit_quota_exceeded_total", text "Data-path chunks that tripped the §9 period quota.", rate_limit_quota_exceeded);
   (lit "krot_transport_quic_accepted_total", text "QUIC (`krot/1`) connections that reached handle_connection.", transport_quic_accepted);
   (lit "krot_transport_tcp_fallback_accepted_total", text "`krot-tcp/1` connections that reached handle_connection.", transport_tcp_fallback_accepted);
   (lit "krot_admin_api_session_minted_total", text "Sessions minted via POST /admin/v1/session.", admin_api_session_minted);
   (lit "krot_admin_api_session_rejected_total", text "POST /session calls rejected — bad admin token.", admin_api_session_rejected);
   (lit "krot_admin_api_key_appended_total", text "authorized_keys entries appended via POST /admin/v1/keys.", admin_api_key_appended);
   (lit "krot_admin_api_key_removed_total", text "authorized_keys entries removed via DELETE /admin/v1/keys/*.", admin_api_key_removed);
   (lit "krot_admin_api_key_remove_not_found_total", text "DELETE /admin/v1/keys/* against a pubkey that isn't present.", admin_api_key_remove_not_found);
   (lit "krot_admin_api_auth_failed_total", text "Unauthenticated hits to the admin API.", admin_api_auth_failed)].

Definition counters (m : ServerMetrics) (out : str) : str :=
  foldl (fun out nhc => counter out nhc.1.1 nhc.1.2 (m nhc.2)) out families.

(** The gauges that open the exposition. *)
Definition gauges (version : str) (uptime tunnels_live tunnels_dangling : Z) : str :=
  lit "# HELP krot_uptime_seconds Seconds since the server process started." ++ nl
  ++ lit "# TYPE krot_uptime_seconds gauge" ++ nl
  ++ lit "krot_uptime_seconds " ++ fmt_dec uptime ++ nl
  ++ lit "# HELP krot_build_info Static build metadata as labels; value is always 1." ++ nl
  ++ lit "# TYPE krot_build_info gauge" ++ nl
  ++ lit "krot_build_info{version=" ++ quote ++ version ++ quote ++ lit "} 1" ++ nl
  ++ lit "# HELP krot_tunnels_total Tunnels currently in the registry (live + dangling)." ++ nl
  ++ lit "# TYPE krot_tunnels_total gauge" ++ nl
  ++ lit "krot_tunnels_total " ++ fmt_dec (tunnels_live + tunnels_dangling) ++ nl
  ++ text "# HELP krot_tunnels_dangling_total Dangling tunnels in the §7.3 grace window." ++ nl
  ++ lit "# TYPE krot_tunnels_dangling_total gauge" ++ nl
  ++ lit "krot_tunnels_dangling_total " ++ fmt_dec tunnels_dangling ++ nl.

(** The per-identity lines that close it. *)
Definition identity_lines (per_identity_bytes : list (str * Z)) (out : str) : str :=
  foldl (fun out ku =>
    out ++ lit "krot_bytes_period_used{pubkey=" ++ quote ++ ku.1 ++ quote ++ lit "} "
        ++ fmt_dec ku.2 ++ nl) out per_identity_bytes.

Definition to_prometheus_text (version : str) (now tunnels_live tunnels_dangling : Z)
    (per_identity_bytes : list (str * Z)) (m : ServerMetrics) : str :=
  let uptime := Z.max 0 (now - m process_start_unix_secs) in
  let out := counters m (gauges version uptime tunnels_live tunnels_dangling) in
  let out := out ++ lit "# HELP krot_bytes_period_used Bytes counted against the identity's period quota." ++ nl
                 ++ lit "# TYPE krot_bytes_period_used counter" ++ nl in
  identity_lines per_identity_bytes out.
(** ** Reading a scrape back *)

#[local] Arguments lit : simpl never.
#[local] Arguments text : simpl never.
#[local] Arguments nl : simpl never.
#[local] Arguments counter : simpl never.

(** The first sample of a counter family in an exposition, as a scraper reads it. *)
Definition scrape (name : str) (exposition : str) : option Z :=
  find_map (fun l => strip_prefix (name ++ [32]) l ≫= parse_uint 64) (lines exposition).

(** Two texts of which neither is a prefix of the other: nothing starts with both. *)
Definition clash (p q : str) : bool :=
  match strip_prefix p q, strip_prefix q p with None, None => true | _, _ => false end.

Lemma clash_spec p q x : clash p q = true -> strip_prefix p (q ++ x) = None.
Proof.
  unfold clash. revert q. induction p as [|c p IH]; intros [|d q]; simpl; try done.
  destruct (Z.eqb_spec c d) as [->|Hne].
  - rewrite Z.eqb_refl. by apply IH.
  - done.
Qed.

Lemma find_map_app {A B} (f : A -> option B) l1 l2 :
  find_map f l1 = None -> find_map f (l1 ++ l2) = find_map f l2.
Proof. induction l1 as [|x l1 IH]; simpl; [done|]. by destruct (f x). Qed.

Lemma lines_app a b : lines (a ++ nl ++ b) = lines (a ++ nl) ++ lines b.
Proof.
  unfold lines. rewrite app_assoc, split_inclusive_nl_app by (right; by eexists).
  by rewrite map_app.
Qed.

(** A line of text that [lines] returns as it is. *)
Definition plain (l : str) : Prop := 10 ∉ l /\ 13 ∉ l.

Lemma lines_cons l b : plain l -> lines (l ++ nl ++ b) = l :: lines b.
Proof.
  intros [Hn Hr]. rewrite lines_app. unfold lines at 1.
  unfold nl. rewrite split_inclusive_nl_line by done. simpl.
  destruct (chomp_nl l) as (t & -> & [->| ->]); [done|]. set_solver.
Qed.

Definition plainb (l : str) : bool := forallb (fun c => negb (c =? 10) && negb (c =? 13)) l.

Lemma plainb_spec l : plainb l = true -> plain l.
Proof.
  unfold plainb. rewrite forallb_forall. intros H. split; intros Hin%list_elem_of_In%H; done.
Qed.

Lemma plain_app a b : plain a -> plain b -> plain (a ++ b).
Proof. unfold plain. set_solver. Qed.

Lemma plain_dec z : 0 <= z -> plain (fmt_dec z).
Proof. intros H. split; apply fmt_dec_no; lia. Qed.

(** The lines of one family. *)
Definition family_lines (m : ServerMetrics) (f : str * str * Counter) : list str :=
  [lit "# HELP " ++ f.1.1 ++ [32] ++ f.1.2; lit "# TYPE " ++ f.1.1 ++ lit " counter";
   f.1.1 ++ [32] ++ fmt_dec (m f.2)].

Lemma families_plain : forall f, f ∈ families -> plain f.1.1 /\ plain f.1.2.
Proof.
  assert (H : forallb (fun f => plainb f.1.1 && plainb f.1.2) families = true) by (vm_compute; reflexivity).
  rewrite forallb_forall in H. intros f [? ?]%list_elem_of_In%H%andb_true_iff.
  split; by apply plainb_spec.
Qed.

(** Different families never start a line alike, nor do the comment lines. *)
Lemma families_clash : forall f g, f ∈ families -> g ∈ families ->
  f = g \/ clash (f.1.1 ++ [32]) (g.1.1 ++ [32]) = true.
Proof.
  assert (H : forallb (fun f => forallb (fun g =>
      bool_decide (f = g) || clash (f.1.1 ++ [32]) (g.1.1 ++ [32])) families) families = true)
    by (vm_compute; reflexivity).
  rewrite forallb_forall in H. intros f g Hf%list_elem_of_In Hg%list_elem_of_In.
  apply H in Hf. rewrite forallb_forall in Hf. apply Hf, orb_true_iff in Hg as [Hg|Hg]; [left|by right].
  by apply bool_decide_eq_true in Hg.
Qed.

(** The fixed text that starts each of the other lines. *)
Definition line_heads : list str :=
  [lit "# HELP "; lit "# TYPE "; lit "krot_uptime_seconds "; lit "krot_build_info{version=";
   lit "krot_tunnels_total "; lit "krot_tunnels_dangling_total "].

Lemma heads_clash f q x : f ∈ families -> q ∈ line_heads ->
  strip_prefix (f.1.1 ++ [32]) (q ++ x) ≫= parse_uint 64 = None.
Proof.
  assert (H : forallb (fun f => forallb (clash (f.1.1 ++ [32])) line_heads) families = true)
    by (vm_compute; reflexivity).
  rewrite forallb_forall in H. intros Hf%list_elem_of_In Hq%list_elem_of_In.
  apply H in Hf. rewrite forallb_forall in Hf. by rewrite clash_spec by auto.
Qed.

(** Membership in [line_heads], without unfolding the texts. *)
Ltac in_heads := unfold line_heads; repeat first [apply list_elem_of_here|apply list_elem_of_further].

Lemma lines_counter m f b : f ∈ families -> 0 <= m f.2 ->
  lines (counter [] f.1.1 f.1.2 (m f.2) ++ b) = family_lines m f ++ lines b.
Proof.
  intros [Hn Hh]%families_plain Hv. unfold counter, family_lines.
  assert (Hp : forall s, plainb (lit s) = true -> plain (lit s)) by (intros; by apply plainb_spec).
  rewrite app_nil_l.
  change (lit " ") with [32].
  replace (_ ++ b) with
    ((lit "# HELP " ++ f.1.1 ++ [32] ++ f.1.2) ++ nl ++
     (lit "# TYPE " ++ f.1.1 ++ lit " counter") ++ nl ++
     (f.1.1 ++ [32] ++ fmt_dec (m f.2)) ++ nl ++ b) by (by rewrite <-!app_assoc).
  pose proof (plain_dec _ Hv).
  rewrite !lines_cons; [done| | |];
    repeat first [apply plain_app|assumption|by apply plainb_spec].
Qed.

Lemma counters_concat (m : ServerMetrics) l out :
  foldl (fun out nhc => counter out nhc.1.1 nhc.1.2 (m nhc.2)) out l =
  out ++ concat (map (fun f => counter [] f.1.1 f.1.2 (m f.2)) l).
Proof.
  revert out. induction l as [|f l IH]; intros out; cbn [foldl map concat]; [by rewrite app_nil_r|].
  rewrite IH. unfold counter. rewrite (app_nil_l (lit _ ++ _)). by rewrite <-!app_assoc.
Qed.

Lemma scrape_counters (m : ServerMetrics) l f b : (forall g, g ∈ l -> g ∈ families) -> (forall c, 0 <= m c < 2 ^ 64) ->
  f ∈ l ->
  find_map (fun x => strip_prefix (f.1.1 ++ [32]) x ≫= parse_uint 64)
    (lines (concat (map (fun f => counter [] f.1.1 f.1.2 (m f.2)) l) ++ b)) = Some (m f.2).
Proof.
  intros Hl Hm. induction l as [|g l IH]; intros Hf; [by apply not_elem_of_nil in Hf|].
  assert (Hg : g ∈ families) by (apply Hl; left). cbn [map concat].
  assert (Hff : f ∈ families) by auto.
  rewrite <-app_assoc, lines_counter by (auto; apply Hm). unfold family_lines. cbn [app find_map].
  rewrite !(heads_clash f _ _ Hff) by in_heads.
  destruct (families_clash f g Hff Hg) as [<-|Hc].
  - replace (f.1.1 ++ 32 :: fmt_dec (m f.2)) with ((f.1.1 ++ [32]) ++ fmt_dec (m f.2))
      by (by rewrite <-app_assoc).
    rewrite (proj2 (strip_prefix_Some _ _ _) eq_refl). cbn [mbind option_bind].
    rewrite parse_uint_fmt_dec by apply Hm. done.
  - replace (g.1.1 ++ 32 :: fmt_dec (m g.2)) with ((g.1.1 ++ [32]) ++ fmt_dec (m g.2))
      by (by rewrite <-app_assoc).
    rewrite clash_spec by exact Hc. cbn [mbind option_bind].
    apply IH; [intros g' Hg'; apply Hl; by apply list_elem_of_further|].
    apply elem_of_cons in Hf as [->|]; [|done]. exfalso. unfold clash in Hc.
    by rewrite (proj2 (strip_prefix_Some _ _ []) (eq_sym (app_nil_r _))) in Hc.
Qed.

Lemma fixed_line f q l : f ∈ families -> q ∈ line_heads -> starts_with q l = true ->
  strip_prefix (f.1.1 ++ [32]) l ≫= parse_uint 64 = None.
Proof. intros Hf Hq [x ->]%starts_with_true. by apply heads_clash. Qed.

Lemma find_map_skip {A B} (g : A -> option B) x l : g x = None -> find_map g (x :: l) = find_map g l.
Proof. intros H. simpl. by rewrite H. Qed.

(** The line is not a sample of the family [f]. *)
Ltac skip_line f Hf :=
  first [ apply (fixed_line f (lit "# HELP ")); [exact Hf|in_heads|vm_compute; reflexivity]
        | apply (fixed_line f (lit "# TYPE ")); [exact Hf|in_heads|vm_compute; reflexivity]
        | apply heads_clash; [exact Hf|in_heads] ].

Lemma scrape_gauges version uptime live dangling f b :
  f ∈ families -> 10 ∉ version -> 13 ∉ version -> 0 <= uptime -> 0 <= live -> 0 <= dangling ->
  find_map (fun x => strip_prefix (f.1.1 ++ [32]) x ≫= parse_uint 64)
    (lines (gauges version uptime live dangling ++ b)) =
  find_map (fun x => strip_prefix (f.1.1 ++ [32]) x ≫= parse_uint 64) (lines b).
Proof.
  intros Hf Hv Hv' Hu Hl Hd. unfold gauges.
  assert (Hpv : plain version) by done.
  pose proof (plain_dec _ Hu). pose proof (plain_dec _ Hd).
  pose proof (plain_dec (live + dangling) ltac:(lia)).
  replace (_ ++ b) with
    (lit "# HELP krot_uptime_seconds Seconds since the server process started." ++ nl ++
     lit "# TYPE krot_uptime_seconds gauge" ++ nl ++
     (lit "krot_uptime_seconds " ++ fmt_dec uptime) ++ nl ++
     lit "# HELP krot_build_info Static build metadata as labels; value is always 1." ++ nl ++
     lit "# TYPE krot_build_info gauge" ++ nl ++
     (lit "krot_build_info{version=" ++ quote ++ version ++ quote ++ lit "} 1") ++ nl ++
     lit "# HELP krot_tunnels_total Tunnels currently in the registry (live + dangling)." ++ nl ++
     lit "# TYPE krot_tunnels_total gauge" ++ nl ++
     (lit "krot_tunnels_total " ++ fmt_dec (live + dangling)) ++ nl ++
     text "# HELP krot_tunnels_dangling_total Dangling tunnels in the §7.3 grace window." ++ nl ++
     lit "# TYPE krot_tunnels_dangling_total gauge" ++ nl ++
     (lit "krot_tunnels_dangling_total " ++ fmt_dec dangling) ++ nl ++ b)
    by (by rewrite <-!app_assoc).
  rewrite !lines_cons;
    try (repeat first [apply plain_app|assumption|by apply plainb_spec]).
  repeat (rewrite find_map_skip by (skip_line f Hf)). done.
Qed.

Lemma identity_lines_app l out : identity_lines l out = out ++ identity_lines l [].
Proof.
  unfold identity_lines. revert out. induction l as [|k l IH]; intros out; cbn [foldl].
  - by rewrite app_nil_r.
  - rewrite IH, (IH ([] ++ _)). by rewrite <-!app_assoc.
Qed.

(** A scrape is faithful: for every counter the exposition lists, reading the family's
    sample back out of the text yields exactly the counter's value, whatever the gauges
    and the per-identity lines are. *)
Theorem scrape_roundtrip (version : str) (now live dangling : Z) (ids : list (str * Z))
    (m : ServerMetrics) (name help : str) (c : Counter)
    (Hf : (name, help, c) ∈ families) (Hm : forall c, in_u 64 (m c))
    (Hv : 10 ∉ version /\ 13 ∉ version) (Hl : 0 <= live) (Hd : 0 <= dangling) :
  scrape name (to_prometheus_text version now live dangling ids m) = Some (m c).
Proof.
  unfold scrape, to_prometheus_text, counters.
  rewrite counters_concat.
  rewrite identity_lines_app.
  rewrite <-!app_assoc.
  rewrite (scrape_gauges _ _ _ _ (name, help, c)) by (done || lia || tauto).
  by rewrite (scrape_counters m families (name, help, c)).
Qed.

Lemma scrape_roundtrip_witness :
  scrape (lit "krot_session_bye_total")
    (to_prometheus_text (lit "0.1.0") 1700000000 1 2 [(lit "AAAA", 5)]
       (bump session_bye (ServerMetrics_new 1600000000))) = Some 1.
Proof.
  apply (scrape_roundtrip _ _ _ _ _ (bump session_bye (ServerMetrics_new 1600000000)) _
    (text "Sessions that ended with an explicit client `Bye` (§7.5).") session_bye).
  - apply (bool_decide_unpack _). vm_compute. exact I.
  - intros c. unfold in_u. destruct c; vm_compute; split; congruence.
  - split; apply (bool_decide_unpack _); vm_compute; exact I.
  - lia.
  - lia.
Defined.
