(* ===== verification/Config.v ===== *)
(** * Config: the deployment mode and the command line

    [krot-server/src/config.rs] and the argument handling of [krot-server/src/main.rs]
    (the [clap] derive itself, which fills [Args], is the library's; the rules it is
    told, as [requires = "domain"], are hypotheses where they are used). *)

From S2P Require Import Prelude RustStr Wire.

Local Open Scope Z_scope.

(** An address as text and a port. *)
Record SocketAddr := { sa_ip : str; sa_port : Z }.

Definition LOCALHOST : str := lit "127.0.0.1".
Definition UNSPECIFIED : str := lit "0.0.0.0".

Inductive DomainTls :=
| PemFile (cert key : str)
| Acme (contact : str) (directory : option str).

Definition LETSENCRYPT_PRODUCTION : str := lit "https://acme-v02.api.letsencrypt.org/directory".
Definition LETSENCRYPT_STAGING : str := lit "https://acme-staging-v02.api.letsencrypt.org/directory".

(** Deployment mode; a [RangeInclusive<u16>] is the pair of its ends. *)
Inductive Mode :=
| ModeIp (public_host : str) (port_pool : Z * Z)
| ModeDomain (apex : str) (tls : DomainTls) (http_bind https_bind : SocketAddr)
             (tcp_port_pool : Z * Z).

Definition Mode_default : Mode := ModeIp LOCALHOST (10000, 19999).

Definition Mode_tcp_port_pool (m : Mode) : Z * Z :=
  match m with
  | ModeIp _ port_pool | ModeDomain _ _ _ _ port_pool => port_pool
  end.

Record ServerConfig := {
  sc_bind : SocketAddr;
  sc_data_dir : str;
  sc_authorized_keys_path : str;
  sc_mode : Mode;
  sc_issue_admin_token : bool;
  sc_admin_bind : option SocketAddr;
  sc_admin_session_ttl : Z;
  sc_peer_list_path : str;
  sc_tcp_fallback_bind : option SocketAddr;
  sc_bw_partitions : Z;
  sc_resume_grace : option Z;
}.

(** [admin_api::DEFAULT_SESSION_TTL]. *)
Definition DEFAULT_SESSION_TTL : Z := Duration_from_secs (24 * 3600).

(** [Path::join] of a relative file name. *)
Definition path_join (dir file : str) : str :=
  if bool_decide (dir = []) then file
  else if ends_with [47] dir then dir ++ file else dir ++ [47] ++ file.

Definition local_in (data_dir : str) : ServerConfig :=
  {| sc_bind := {| sa_ip := LOCALHOST; sa_port := 0 |};
     sc_authorized_keys_path := path_join data_dir (lit "authorized_keys");
     sc_peer_list_path := path_join data_dir (lit "peers.txt");
     sc_data_dir := data_dir;
     sc_mode := Mode_default;
     sc_issue_admin_token := false;
     sc_admin_bind := Some {| sa_ip := LOCALHOST; sa_port := 0 |};
     sc_admin_session_ttl := DEFAULT_SESSION_TTL;
     sc_tcp_fallback_bind := None;
     sc_bw_partitions := 1;
     sc_resume_grace := None |}.

(** The builders; a rate limit is split over at least one core. *)
Definition with_bind (bind : SocketAddr) (c : ServerConfig) : ServerConfig :=
  {| sc_bind := bind; sc_data_dir := sc_data_dir c; sc_authorized_keys_path := sc_authorized_keys_path c;
     sc_mode := sc_mode c; sc_issue_admin_token := sc_issue_admin_token c; sc_admin_bind := sc_admin_bind c;
     sc_admin_session_ttl := sc_admin_session_ttl c; sc_peer_list_path := sc_peer_list_path c;
     sc_tcp_fallback_bind := sc_tcp_fallback_bind c; sc_bw_partitions := sc_bw_partitions c;
     sc_resume_grace := sc_resume_grace c |}.
Definition with_mode (mode : Mode) (c : ServerConfig) : ServerConfig :=
  {| sc_bind := sc_bind c; sc_data_dir := sc_data_dir c; sc_authorized_keys_path := sc_authorized_keys_path c;
     sc_mode := mode; sc_issue_admin_token := sc_issue_admin_token c; sc_admin_bind := sc_admin_bind c;
     sc_admin_session_ttl := sc_admin_session_ttl c; sc_peer_list_path := sc_peer_list_path c;
     sc_tcp_fallback_bind := sc_tcp_fallback_bind c; sc_bw_partitions := sc_bw_partitions c;
     sc_resume_grace := sc_resume_grace c |}.
Definition with_issue_admin_token (issue : bool) (c : ServerConfig) : ServerConfig :=
  {| sc_bind := sc_bind c; sc_data_dir := sc_data_dir c; sc_authorized_keys_path := sc_authorized_keys_path c;
     sc_mode := sc_mode c; sc_issue_admin_token := issue; sc_admin_bind := sc_admin_bind c;
     sc_admin_session_ttl := sc_admin_session_ttl c; sc_peer_list_path := sc_peer_list_path c;
     sc_tcp_fallback_bind := sc_tcp_fallback_bind c; sc_bw_partitions := sc_bw_partitions c;
     sc_resume_grace := sc_resume_grace c |}.
Definition with_tcp_fallback_bind (addr : SocketAddr) (c : ServerConfig) : ServerConfig :=
  {| sc_bind := sc_bind c; sc_data_dir := sc_data_dir c; sc_authorized_keys_path := sc_authorized_keys_path c;
     sc_mode := sc_mode c; sc_issue_admin_token := sc_issue_admin_token c; sc_admin_bind := sc_admin_bind c;
     sc_admin_session_ttl := sc_admin_session_ttl c; sc_peer_list_path := sc_peer_list_path c;
     sc_tcp_fallback_bind := Some addr; sc_bw_partitions := sc_bw_partitions c;
     sc_resume_grace := sc_resume_grace c |}.
Definition with_bw_partitions (n : Z) (c : ServerConfig) : ServerConfig :=
  {| sc_bind := sc_bind c; sc_data_dir := sc_data_dir c; sc_authorized_keys_path := sc_authorized_keys_path c;
     sc_mode := sc_mode c; sc_issue_admin_token := sc_issue_admin_token c; sc_admin_bind := sc_admin_bind c;
     sc_admin_session_ttl := sc_admin_session_ttl c; sc_peer_list_path := sc_peer_list_path c;
     sc_tcp_fallback_bind := sc_tcp_fallback_bind c; sc_bw_partitions := Z.max n 1;
     sc_resume_grace := sc_resume_grace c |}.

Definition default_bind : SocketAddr := {| sa_ip := UNSPECIFIED; sa_port := DEFAULT_UDP_PORT |}.

(** ** The command line *)

Record PortRange := { prg_lo : Z; prg_hi : Z }.

(** Errors carry their text; [parse_msg] is the text of a [ParseIntError]. *)
Definition PortRange_from_str (parse_msg : str -> str) (s : str) : Result PortRange str :=
  match split_once 45 s with
  | None => Err (lit "expected lo-hi")
  | Some (lo, hi) =>
    match parse_uint 16 lo with
    | None => Err (parse_msg lo)
    | Some lo =>
      match parse_uint 16 hi with
      | None => Err (parse_msg hi)
      | Some hi => if hi <? lo then Err (lit "lo > hi") else Ok {| prg_lo := lo; prg_hi := hi |}
      end
    end
  end.

Definition PortRange_fmt (r : PortRange) : str :=
  fmt_dec (prg_lo r) ++ [45] ++ fmt_dec (prg_hi r).

Record Args := {
  a_domain : option str;
  a_public_host : option str;
  a_public_quic : option Z;
  a_bind : SocketAddr;
  a_data_dir : str;
  a_authorized_keys : str;
  a_peer_list : str;
  a_tcp_fallback_bind : option SocketAddr;
  a_tcp_port_pool : PortRange;
  a_issue_admin_token : bool;
  a_admin_bind : option SocketAddr;
  a_cores : Z;
  a_resume_grace_secs : Z;
  a_tls_cert : option str;
  a_tls_key : option str;
  a_acme_contact : option str;
  a_acme_directory : option str;
  a_acme_production : bool;
  a_http_bind : SocketAddr;
  a_https_bind : SocketAddr;
}.

Definition MODE_MSG : str :=
  lit "DomainMode requires either --tls-cert + --tls-key, or --acme-contact".

Definition domain_tls (args : Args) : option DomainTls :=
  match a_tls_cert args, a_tls_key args, a_acme_contact args with
  | Some cert, Some key, None => Some (PemFile cert key)
  | None, None, Some contact =>
    let directory :=
      match a_acme_directory args with
      | Some d => Some d
      | None => if a_acme_production args then Some LETSENCRYPT_PRODUCTION else None
      end in
    Some (Acme contact directory)
  | _, _, _ => None
  end.

(** The configuration [main] builds; [parallelism] is [available_parallelism()]. *)
Definition build_config (parallelism : option Z) (args : Args) : Result (ServerConfig * Z) str :=
  let bind :=
    match a_public_quic args with
    | Some port => {| sa_ip := sa_ip (a_bind args); sa_port := port |}
    | None => a_bind args
    end in
  let pool := (prg_lo (a_tcp_port_pool args), prg_hi (a_tcp_port_pool args)) in
  let? mode :=
    match a_domain args with
    | Some apex =>
      match domain_tls args with
      | Some tls => Ok (ModeDomain apex tls (a_http_bind args) (a_https_bind args) pool)
      | None => Err MODE_MSG
      end
    | None => Ok (ModeIp (default (sa_ip bind) (a_public_host args)) pool)
    end in
  let cores := if a_cores args =? 0 then default 1 parallelism else a_cores args in
  Ok ({| sc_bind := bind; sc_data_dir := a_data_dir args;
         sc_authorized_keys_path := a_authorized_keys args; sc_mode := mode;
         sc_issue_admin_token := a_issue_admin_token args; sc_admin_bind := a_admin_bind args;
         sc_admin_session_ttl := DEFAULT_SESSION_TTL; sc_peer_list_path := a_peer_list args;
         sc_tcp_fallback_bind := a_tcp_fallback_bind args; sc_bw_partitions := cores;
         sc_resume_grace := Some (Duration_from_secs (a_resume_grace_secs args)) |}, cores).

(** ** Theorems *)

Lemma PortRange_from_str_Ok msg s r :
  PortRange_from_str msg s = Ok r ->
  0 <= prg_lo r <= prg_hi r /\ prg_hi r < 65536.
Proof.
  unfold PortRange_from_str. destruct (split_once 45 s) as [[lo hi]|]; [|done].
  destruct (parse_uint 16 lo) as [l|] eqn:El; [|done].
  destruct (parse_uint 16 hi) as [h|] eqn:Eh; [|done].
  apply parse_uint_bound in El; [|lia]. apply parse_uint_bound in Eh; [|lia].
  destruct (Z.ltb_spec h l); [done|]. intros [= <-]. uint. simpl. lia.
Qed.

(** The port-pool option round-trips: printing a valid range and parsing it again yields
    it, and whatever text the parser accepts is a non-empty range of 16-bit ports. *)
Theorem port_range_roundtrip (msg : str -> str) (r : PortRange)
    (Hr : 0 <= prg_lo r <= prg_hi r /\ prg_hi r < 65536) :
  PortRange_from_str msg (PortRange_fmt r) = Ok r /\
  forall s r', PortRange_from_str msg s = Ok r' ->
    0 <= prg_lo r' <= prg_hi r' /\ prg_hi r' < 65536.
Proof.
  split; [|apply PortRange_from_str_Ok]. unfold PortRange_from_str, PortRange_fmt.
  rewrite (proj2 (split_once_Some 45 _ (fmt_dec (prg_lo r)) (fmt_dec (prg_hi r)))).
  2: { split; [done|]. apply fmt_dec_no; lia. }
  rewrite !parse_uint_fmt_dec by (uint; lia).
  rewrite (proj2 (Z.ltb_ge _ _)) by lia. by destruct r.
Qed.

Lemma port_range_roundtrip_witness :
  PortRange_from_str (fun _ => []) (lit "10000-19999") = Ok {| prg_lo := 10000; prg_hi := 19999 |}.
Proof.
  apply (port_range_roundtrip (fun _ => []) {| prg_lo := 10000; prg_hi := 19999 |}).
  simpl. lia.
Defined.
