(* ===== verification/Http.v ===== *)
(** * Http: requests as [httparse] reports them

    The admin API of the server and the proxy of the client parse request heads with the
    third-party crate [httparse] and build responses by hand.  The parser is a parameter;
    this file holds its interface and the helpers both sides share. *)

From S2P Require Import Prelude RustStr.

Local Open Scope Z_scope.

(** What a [Request] holds after [parse]: method and path as far as they were seen, and the
    headers in order. *)
Record HttpHead := {
  hh_method : option str;
  hh_path : option str;
  hh_headers : list (str * bytes);
}.

(** [Complete(end)], [Partial] or an error. *)
Inductive HttpStatus :=
| HsComplete (end_ : nat)
| HsPartial
| HsError.

(** [Request::parse] with room for 32 headers, and [Response::parse] as far as its status
    code. *)
Class Httparse := {
  parse_request : bytes -> HttpStatus * HttpHead;
  parse_response : bytes -> HttpStatus * option Z;
}.

(** The documented promise on the offset of [Complete]: it lies behind the head and within
    the buffer. *)
Class HttparseLaws `{Httparse} := {
  complete_within : forall buf n head,
    parse_request buf = (HsComplete n, head) -> (0 < n <= length buf)%nat;
}.

(** The value of the first header of that name. *)
Definition header (name : str) (headers : list (str * bytes)) : option bytes :=
  snd <$> find_first (fun h => eq_ignore_ascii_case h.1 name) headers.

Definition CRLF : str := [13; 10].

(** The head of a hand-written response, up to and with the empty line. *)
Definition response_head (status content_type : str) (length : Z) : str :=
  lit "HTTP/1.1 " ++ status ++ CRLF ++ lit "Content-Type: " ++ content_type ++ CRLF
    ++ lit "Content-Length: " ++ fmt_dec length ++ CRLF ++ lit "Connection: close" ++ CRLF ++ CRLF.

(** The offset behind the empty line that ends a head: the first place where the four bytes
    stand, as [windows(4).position] finds it, plus four. *)
Definition HEAD_END : bytes := [13; 10; 13; 10].

Fixpoint find_head_end (buf : bytes) : option nat :=
  if starts_with HEAD_END buf then Some 4%nat
  else match buf with [] => None | _ :: rest => S <$> find_head_end rest end.

Lemma starts_with_app p s r : (length p <= length s)%nat -> starts_with p (s ++ r) = starts_with p s.
Proof.
  intros Hl. apply eq_true_iff_eq. rewrite !starts_with_true. split.
  - intros [t Ht]. exists (drop (length p) s). apply (f_equal (take (length p))) in Ht.
    rewrite take_app_le, take_app_length in Ht by done. rewrite <-Ht at 1. by rewrite take_drop.
  - intros [t ->]. exists (t ++ r). by rewrite app_assoc.
Qed.

Lemma find_head_end_bounds buf n : find_head_end buf = Some n -> (4 <= n <= length buf)%nat.
Proof.
  revert n. induction buf as [|c buf IH]; intros n; cbn [find_head_end]; [done|].
  destruct (starts_with HEAD_END (c :: buf)) eqn:E.
  - intros [= <-]. apply starts_with_true in E as [r ->]. rewrite length_app. simpl. lia.
  - destruct (find_head_end buf) as [m|]; [|done]. intros [= <-]. specialize (IH m eq_refl). simpl. lia.
Qed.

(** More bytes do not move the end of a head. *)
Lemma find_head_end_app buf n rest :
  find_head_end buf = Some n ->
  find_head_end (buf ++ rest) = Some n /\ take n (buf ++ rest) = take n buf.
Proof.
  intros Hn. pose proof (find_head_end_bounds _ _ Hn) as Hb. split; [|rewrite take_app_le by lia; done].
  revert n Hn Hb. induction buf as [|c buf IH]; intros n Hn Hb; [done|].
  rewrite <-app_comm_cons. cbn [find_head_end] in *. rewrite app_comm_cons, starts_with_app.
  2: { simpl in *. lia. }
  destruct (starts_with HEAD_END (c :: buf)); [done|].
  destruct (find_head_end buf) as [m|] eqn:E; [|done]. injection Hn as <-.
  by rewrite (IH m eq_refl (find_head_end_bounds _ _ E)).
Qed.

(** ** A toy parser, for executable examples

    Requests of the form [METHOD SP PATH CRLF], header lines [NAME : SP VALUE CRLF] and an
    empty line. *)
Fixpoint split_crlf (fuel : nat) (s : bytes) (line : bytes) : option (bytes * bytes) :=
  match fuel, s with
  | S fuel, 13 :: 10 :: s => Some (line, s)
  | S fuel, c :: s => split_crlf fuel s (line ++ [c])
  | _, _ => None
  end.

Fixpoint toy_headers (fuel : nat) (s : bytes) (acc : list (str * bytes)) :
    option (list (str * bytes) * bytes) :=
  match fuel with
  | O => None
  | S fuel =>
    '(line, s) ← split_crlf (length s) s [];
    match line with
    | [] => Some (acc, s)
    | _ => match split_once 58 line with
           | Some (name, value) => toy_headers fuel s (acc ++ [(name, trim value)])
           | None => None
           end
    end
  end.

Definition no_head : HttpHead := {| hh_method := None; hh_path := None; hh_headers := [] |}.

Definition toy_parse (buf : bytes) : HttpStatus * HttpHead :=
  match split_crlf (length buf) buf [] with
  | None => (HsPartial, no_head)
  | Some (line, rest) =>
    match split_char 32 line with
    | [method; path] =>
      match toy_headers (length buf) rest [] with
      | Some (headers, body) =>
        (HsComplete (length buf - length body),
         {| hh_method := Some method; hh_path := Some path; hh_headers := headers |})
      | None => (HsPartial, {| hh_method := Some method; hh_path := Some path; hh_headers := [] |})
      end
    | _ => (HsError, no_head)
    end
  end.

Definition toy_httparse : Httparse := {|
  parse_request := toy_parse;
  parse_response := fun _ => (HsPartial, None);
|}.

Lemma split_crlf_spec fuel s line l r :
  split_crlf fuel s line = Some (l, r) -> (length r + 2 <= length s)%nat.
Proof.
  revert s line. induction fuel as [|fuel IH]; intros s line; simpl; [done|].
  destruct s as [|c s]; [done|].
  assert (Hrec : split_crlf fuel s (line ++ [c]) = Some (l, r) ->
    (length r + 2 <= length (c :: s))%nat) by (intros Hs%IH; simpl; lia).
  destruct c as [|p|p]; try exact Hrec. repeat (destruct p as [p|p|]; try exact Hrec).
  destruct s as [|d s]; [exact Hrec|]. destruct d as [|p|p]; try exact Hrec.
  repeat (destruct p as [p|p|]; try exact Hrec). intros [= _ ->]. simpl. lia.
Qed.

Lemma toy_headers_spec fuel s acc hs r :
  toy_headers fuel s acc = Some (hs, r) -> (length r + 2 <= length s)%nat.
Proof.
  revert s acc. induction fuel as [|fuel IH]; intros s acc; simpl; [done|].
  destruct (split_crlf _ s []) as [[line s1]|] eqn:E; simpl; [|done].
  apply split_crlf_spec in E. destruct line as [|c line]; [by intros [= _ <-]|].
  destruct (split_once 58 _) as [[name value]|]; [|done]. intros Hs%IH. lia.
Qed.

#[global] Instance toy_httparse_laws : HttparseLaws (H := toy_httparse).
Proof.
  split. intros buf n head. simpl. unfold toy_parse.
  destruct (split_crlf _ buf []) as [[line rest]|] eqn:E; [|done]. apply split_crlf_spec in E.
  destruct (split_char 32 line) as [|? [|? [|]]]; try done.
  destruct (toy_headers _ rest []) as [[hs body]|] eqn:Et; [|done]. apply toy_headers_spec in Et.
  intros [= <- _]. lia.
Qed.
