(* ===== verification/LoginPage.v ===== *)
(** * LoginPage: the client's login form and its browser sessions

    [krot-client/src/login_page.rs]: the store of session tokens with a rolling expiry, the
    cookie and form syntax, the escaping of what is echoed into the page, and the responses
    the client writes itself.  Clock readings and random bytes are arguments; an operation
    that reads the clock twice takes two. *)

From S2P Require Import Prelude RustStr Wire Http.

Local Open Scope Z_scope.

(** ** Sessions *)

Definition SESSION_TTL : Z := Duration_from_secs (8 * 3600).
Definition SESSION_COOKIE : str := lit "__krot_session".
Definition LOGIN_PATH : str := lit "/__krot/login".
Definition LOGOUT_PATH : str := lit "/__krot/logout".
Definition LOGIN_BODY_CAP : Z := 4 * 1024.

(** [token -> expiry]. *)
Abbreviation SessionStore := (gmap str Z).

Definition SessionStore_new : SessionStore := ∅.

Definition hex_char (nibble : Z) : Z := if nibble <=? 9 then 48 + nibble else 97 + nibble - 10.

Definition new_token (raw : bytes) : str :=
  concat (map (fun b => [hex_char (Z.shiftr b 4); hex_char (Z.land b 15)]) raw).

Definition prune (now : Z) (map : SessionStore) : SessionStore := filter (fun kv => now < kv.2) map.

(** [create]: [now] is read while pruning, [now'] for the new expiry. *)
Definition create (raw : bytes) (now now' : Z) (g : SessionStore) : str * SessionStore :=
  let token := new_token raw in
  (token, <[token := now' + SESSION_TTL]> (prune now g)).

Definition validate_and_refresh (now now' : Z) (token : str) (g : SessionStore) : bool * SessionStore :=
  match g !! token with
  | Some exp =>
    if now <? exp then (true, <[token := now' + SESSION_TTL]> g) else (false, delete token g)
  | None => (false, g)
  end.

Definition invalidate (token : str) (g : SessionStore) : SessionStore := delete token g.

(** ** Cookies and forms *)

Definition extract_session_cookie (cookie_header : str) : option str :=
  find_map (fun pair => v ← strip_prefix SESSION_COOKIE (trim pair); strip_prefix [61] v)
    (split_char 59 cookie_header).

Definition hex_val (b : Z) : option Z :=
  if (48 <=? b) && (b <=? 57) then Some (b - 48)
  else if (97 <=? b) && (b <=? 102) then Some (b - 97 + 10)
  else if (65 <=? b) && (b <=? 70) then Some (b - 65 + 10)
  else None.

(** The loop of [form_decode], from the byte at [i] on. *)
Fixpoint form_decode_loop (bs : bytes) : bytes :=
  match bs with
  | [] => []
  | b :: rest =>
    if b =? 43 then 32 :: form_decode_loop rest
    else if b =? 37 then
      match rest with
      | c1 :: c2 :: rest' =>
        match hex_val c1, hex_val c2 with
        | Some h, Some l => Z.lor (Z.shiftl h 4) l :: form_decode_loop rest'
        | _, _ => 37 :: form_decode_loop rest
        end
      | _ => b :: form_decode_loop rest
      end
    else b :: form_decode_loop rest
  end.

Definition form_decode (raw : str) : str := from_utf8_lossy (form_decode_loop (str_bytes raw)).

Record LoginForm := {
  lf_user : option str;
  lf_pass : option str;
  lf_next : option str;
}.

(** One [key=value] pair: the first value of a field stays. *)
Definition take_field (f : LoginForm) (pair : str) : LoginForm :=
  match split_once 61 pair with
  | None => f
  | Some (k, v) =>
    let value := form_decode v in
    if bool_decide (k = lit "user" /\ lf_user f = None)
    then {| lf_user := Some value; lf_pass := lf_pass f; lf_next := lf_next f |}
    else if bool_decide (k = lit "pass" /\ lf_pass f = None)
    then {| lf_user := lf_user f; lf_pass := Some value; lf_next := lf_next f |}
    else if bool_decide (k = lit "next" /\ lf_next f = None)
    then {| lf_user := lf_user f; lf_pass := lf_pass f; lf_next := Some value |}
    else f
  end.

Definition parse_login_form (body : str) : LoginForm :=
  foldl take_field {| lf_user := None; lf_pass := None; lf_next := None |} (split_char 38 body).

(** ** Escaping *)

Definition escape_char (c : Z) : str :=
  if c =? 38 then lit "&amp;"
  else if c =? 60 then lit "&lt;"
  else if c =? 62 then lit "&gt;"
  else if c =? 34 then lit "&quot;"
  else if c =? 39 then lit "&#39;"
  else [c].

Definition html_escape (s : str) : str := concat (map escape_char s).

Definition safe_next (candidate : str) : str :=
  if starts_with [47] candidate && negb (starts_with [47; 47] candidate)
     && negb (contains_char 13 candidate) && negb (contains_char 10 candidate)
  then candidate else [47].

(** ** The page *)

(** A literal in which a backquote stands for the double quote. *)
Definition html (s : string) : str := map (fun c => if c =? 96 then 34 else c) (lit s).

Definition PAGE_HEAD : str := html "<!doctype html>
<html lang=`en`>
<head>
<meta charset=`utf-8`>
<meta name=`viewport` content=`width=device-width,initial-scale=1`>
<title>krot " ++ [183] ++ html " sign in</title>
<style>
  :root { color-scheme: dark; }
  * { box-sizing: border-box; }
  html,body { height: 100%; margin: 0; }
  body {
    background: #1a1410;
    color: #e8dcd0;
    font: 15px/1.4 -apple-system, BlinkMacSystemFont, `Segoe UI`, Inter, system-ui, sans-serif;
    display: grid; place-items: center;
  }
  .card {
    width: min(360px, 92vw);
    background: #221913;
    border: 1px solid #3a2a20;
    border-radius: 14px;
    padding: 32px 28px;
    box-shadow: 0 12px 40px rgba(0,0,0,.35);
  }
  .brand { display: flex; align-items: center; gap: 12px; margin-bottom: 24px; }
  .brand .mole { width: 48px; height: 48px; flex: 0 0 auto; }
  .brand .word { display: flex; flex-direction: column; line-height: 1; }
  .brand .word .name { font-size: 26px; font-weight: 800; letter-spacing: -0.5px; }
  .brand .word .name em { font-style: normal; color: #e89a9a; }
  .brand .word .trail { margin-top: 4px; width: 100%; height: 8px; display: block; }
  .brand .word .tag { margin-top: 6px; font-size: 9px; letter-spacing: 3px; color: #8a7a6a; text-transform: uppercase; }
  label { display: block; font-size: 12px; text-transform: uppercase; letter-spacing: 1px; color: #a89a8a; margin: 14px 0 6px; }
  input[type=text], input[type=password] {
    width: 100%; padding: 10px 12px;
    background: #1a1410; color: #f5ece0;
    border: 1px solid #3a2a20; border-radius: 8px;
    font: inherit;
  }
  input:focus { outline: none; border-color: #e89a9a; }
  button {
    margin-top: 20px; width: 100%;
    padding: 11px 14px; border: 0; border-radius: 8px;
    background: #e89a9a; color: #2b1a14;
    font-weight: 700; font-size: 15px; cursor: pointer;
  }
  button:hover { background: #f0b0b0; }
  .err { margin: 14px 0 0; padding: 10px 12px; background: #3a1a1a; border: 1px solid #7a2a2a; border-radius: 8px; color: #f5b0b0; font-size: 13px; }
  .foot { margin-top: 22px; text-align: center; font-size: 11px; color: #6a5a4a; }
</style>
</head>
<body>
  <form class=`card` method=`post` action=`".

Definition PAGE_BRAND : str := html "`>
    <div class=`brand`>
      <svg class=`mole` viewBox=`0 0 120 120` aria-hidden=`true`>
        <ellipse cx=`60` cy=`70` rx=`42` ry=`34` fill=`#5a3a28`/>
        <circle cx=`60` cy=`50` r=`30` fill=`#6a4a34`/>
        <path d=`M42 46 h10 M68 46 h10` stroke=`#2b1a12` stroke-width=`3` stroke-linecap=`round`/>
        <path d=`M55 62 L60 70 L65 62 Z` fill=`#e89a9a`/>
        <circle cx=`60` cy=`66` r=`1.6` fill=`#2b1a12`/>
        <ellipse cx=`34` cy=`82` rx=`10` ry=`8` fill=`#e89a9a`/>
        <ellipse cx=`86` cy=`82` rx=`10` ry=`8` fill=`#e89a9a`/>
      </svg>
      <div class=`word`>
        <div class=`name`>kr<em>o</em>t</div>
        <svg class=`trail` viewBox=`0 0 160 8` preserveAspectRatio=`none` aria-hidden=`true`>
          <path d=`M2 4 Q 12 0, 22 4 T 42 4 T 62 4 T 82 4 T 102 4 T 122 4 T 142 4`
                fill=`none` stroke=`#e89a9a` stroke-width=`1.5` stroke-linecap=`round`/>
          <circle cx=`30` cy=`6` r=`0.8` fill=`#8a5a4a`/>
          <circle cx=`70` cy=`6` r=`0.8` fill=`#8a5a4a`/>
          <circle cx=`110` cy=`6` r=`0.8` fill=`#8a5a4a`/>
          <circle cx=`152` cy=`4` r=`2` fill=`#2b1a12` stroke=`#e89a9a` stroke-width=`1`/>
        </svg>
        <div class=`tag`>tunnels that dig</div>
      </div>
    </div>
    ".

Definition PAGE_FORM : str := html "
    <label for=`u`>Username</label>
    <input id=`u` name=`user` type=`text` autocomplete=`username` autofocus required>
    <label for=`p`>Password</label>
    <input id=`p` name=`pass` type=`password` autocomplete=`current-password` required>
    <input type=`hidden` name=`next` value=`".

Definition PAGE_FOOT : str := html "`>
    <button type=`submit`>Sign in</button>
    <div class=`foot`>protected by krot</div>
  </form>
</body>
</html>
".

Definition render_login_page (next : str) (error : option str) : str :=
  let next_esc := html_escape next in
  let error_block :=
    match error with
    | Some msg => html "<p class=`err`>" ++ html_escape msg ++ html "</p>"
    | None => []
    end in
  PAGE_HEAD ++ LOGIN_PATH ++ PAGE_BRAND ++ error_block ++ PAGE_FORM ++ next_esc ++ PAGE_FOOT.

(** ** Responses *)

(** [body.len()] counts bytes. *)
Definition http_html_response (body : str) : bytes :=
  let head := lit "HTTP/1.1 200 OK" ++ CRLF
    ++ lit "Content-Type: text/html; charset=utf-8" ++ CRLF
    ++ lit "Content-Length: " ++ fmt_dec (len (str_bytes body)) ++ CRLF
    ++ lit "Cache-Control: no-store" ++ CRLF
    ++ lit "Connection: close" ++ CRLF ++ CRLF in
  str_bytes head ++ str_bytes body.

Definition http_redirect (location : str) (set_cookie : option str) : bytes :=
  let cookie_line :=
    match set_cookie with Some v => lit "Set-Cookie: " ++ v ++ CRLF | None => [] end in
  str_bytes (lit "HTTP/1.1 302 Found" ++ CRLF
    ++ lit "Location: " ++ location ++ CRLF
    ++ cookie_line
    ++ lit "Content-Length: 0" ++ CRLF
    ++ lit "Cache-Control: no-store" ++ CRLF
    ++ lit "Connection: close" ++ CRLF ++ CRLF).

Definition session_set_cookie (token : str) : str :=
  SESSION_COOKIE ++ [61] ++ token ++ lit "; HttpOnly; SameSite=Lax; Path=/; Max-Age="
    ++ fmt_dec (Duration_as_secs SESSION_TTL).

Definition session_clear_cookie : str :=
  SESSION_COOKIE ++ lit "=; HttpOnly; SameSite=Lax; Path=/; Max-Age=0".

(** ** Tokens and cookies *)

#[local] Arguments lit : simpl never.

Definition is_hex (c : Z) : Prop := 48 <= c <= 57 \/ 97 <= c <= 102.

Lemma hex_char_is_hex n : 0 <= n < 16 -> is_hex (hex_char n).
Proof. intros Hn. unfold hex_char, is_hex. destruct (Z.leb_spec n 9); lia. Qed.

Lemma nibbles b : is_byte b -> 0 <= Z.shiftr b 4 < 16 /\ 0 <= Z.land b 15 < 16 /\
  b = Z.shiftr b 4 * 16 + Z.land b 15.
Proof.
  uint. intros Hb. change 15 with (Z.ones 4) in *.
  rewrite Z.land_ones, Z.shiftr_div_pow2 by lia. change (2 ^ 4) with 16.
  pose proof (Z.div_mod b 16 ltac:(lia)). pose proof (Z.mod_pos_bound b 16 ltac:(lia)).
  split_and!; lia.
Qed.

Lemma new_token_hex raw : Forall is_byte raw -> Forall is_hex (new_token raw).
Proof.
  induction 1 as [|b raw Hb _ IH]; [done|]. destruct (nibbles b Hb) as (? & ? & _).
  unfold new_token. simpl. repeat (constructor; [by apply hex_char_is_hex|]). exact IH.
Qed.

Lemma hex_visible c : is_hex c -> is_whitespace c = false.
Proof.
  intros Hc. apply not_true_is_false. unfold is_whitespace, is_hex in *.
  rewrite !orb_true_iff, !andb_true_iff, !Z.leb_le, !Z.eqb_eq. lia.
Qed.

(** Distinct random bytes give distinct tokens. *)
Lemma new_token_inj raw raw' :
  Forall is_byte raw -> Forall is_byte raw' -> new_token raw = new_token raw' -> raw = raw'.
Proof.
  assert (Hh : forall m n, 0 <= m < 16 -> 0 <= n < 16 -> hex_char m = hex_char n -> m = n).
  { intros m n Hm Hn. unfold hex_char. destruct (Z.leb_spec m 9), (Z.leb_spec n 9); lia. }
  intros Hr. revert raw'. induction Hr as [|b raw Hb _ IH]; intros raw' Hr'.
  - by destruct Hr'.
  - destruct Hr' as [|b' raw' Hb' Hr']; [done|]. unfold new_token. simpl. intros [= H1 H2 H3].
    destruct (nibbles b Hb) as (? & ? & E), (nibbles b' Hb') as (? & ? & E').
    apply Hh in H1, H2; [|done..]. f_equal; [lia|]. by apply IH.
Qed.

(** What a browser sends back for a [Set-Cookie] value: the pair in front of the
    attributes. *)
Definition cookie_pair (set_cookie : str) : str :=
  match split_once 59 set_cookie with Some (kv, _) => kv | None => set_cookie end.

Lemma extract_own_cookie token :
  Forall is_hex token ->
  extract_session_cookie (cookie_pair (session_set_cookie token)) = Some token.
Proof.
  intros Ht. assert (Hv : Forall (fun c => is_whitespace c = false /\ c <> 59)
      (SESSION_COOKIE ++ [61] ++ token)).
  { rewrite app_assoc. apply Forall_app. split; [by repeat constructor|]. eapply Forall_impl; [|exact Ht].
    intros c Hc. split; [by apply hex_visible|]. unfold is_hex in Hc. lia. }
  assert (Hn : 59 ∉ SESSION_COOKIE ++ [61] ++ token).
  { apply Forall_not_in. eapply Forall_impl; [|exact Hv]. naive_solver. }
  assert (Hp : cookie_pair (session_set_cookie token) = SESSION_COOKIE ++ [61] ++ token).
  { unfold cookie_pair, session_set_cookie.
    replace (SESSION_COOKIE ++ _) with ((SESSION_COOKIE ++ [61] ++ token) ++
      59 :: (lit " HttpOnly; SameSite=Lax; Path=/; Max-Age=" ++ fmt_dec (Duration_as_secs SESSION_TTL)))
      by (rewrite <-!app_assoc; done).
    by rewrite split_once_hit. }
  rewrite Hp. unfold extract_session_cookie.
  rewrite split_char_none by done. cbn [find_map].
  rewrite trim_visible by (eapply Forall_impl; [|exact Hv]; naive_solver).
  rewrite (proj2 (strip_prefix_Some _ _ _) eq_refl). done.
Qed.

(** ** Escaping keeps the page's structure *)

(** The characters that open or close a tag, or a quoted attribute. *)
Definition is_markup (c : Z) : bool := (c =? 60) || (c =? 62) || (c =? 34) || (c =? 39).

(** Walk down a chain of tests on [c], closing the branches with [tac]. *)
Ltac each_char c tac :=
  repeat match goal with
  | |- context [if c =? ?k then _ else _] => destruct (Z.eqb_spec c k) as [->|?]; [solve [tac]|]
  end.

Lemma escape_char_plain c : Forall (fun x => is_markup x = false) (escape_char c).
Proof.
  unfold escape_char. each_char c ltac:(vm_compute; by repeat constructor).
  constructor; [|done]. unfold is_markup. by rewrite !(proj2 (Z.eqb_neq _ _)).
Qed.

Lemma html_escape_plain s : Forall (fun x => is_markup x = false) (html_escape s).
Proof. induction s as [|c s IH]; [done|]. apply Forall_app. split; [apply escape_char_plain|done]. Qed.

Lemma markup_of_plain s : Forall (fun x => is_markup x = false) s -> List.filter is_markup s = [].
Proof. induction 1 as [|c s Hc _ IH]; [done|]. simpl. by rewrite Hc. Qed.

(** What a browser reads the five entities as. *)
Definition unescape_entity (s : str) : option (Z * str) :=
  find_map (fun e => rest ← strip_prefix e.2 s; Some (e.1, rest))
    [(38, lit "&amp;"); (60, lit "&lt;"); (62, lit "&gt;"); (34, lit "&quot;"); (39, lit "&#39;")].

Fixpoint html_unescape (fuel : nat) (s : str) : str :=
  match fuel, s with
  | S fuel, c :: s' =>
    match unescape_entity s with
    | Some (c, rest) => c :: html_unescape fuel rest
    | None => c :: html_unescape fuel s'
    end
  | _, _ => []
  end.

Lemma unescape_escape_char c s fuel :
  html_unescape (S fuel) (escape_char c ++ s) = c :: html_unescape fuel s.
Proof.
  unfold escape_char. each_char c done.
  cbn [html_unescape app]. unfold unescape_entity. cbn [find_map fst snd].
  assert (Hp : forall e, strip_prefix (38 :: e) (c :: s) = None).
  { intros e. cbn [strip_prefix]. by rewrite (proj2 (Z.eqb_neq 38 c)) by congruence. }
  change (lit "&amp;") with (38 :: lit "amp;"). change (lit "&lt;") with (38 :: lit "lt;").
  change (lit "&gt;") with (38 :: lit "gt;"). change (lit "&quot;") with (38 :: lit "quot;").
  change (lit "&#39;") with (38 :: lit "#39;"). by rewrite !Hp.
Qed.

Lemma unescape_escape s fuel : (length s <= fuel)%nat -> html_unescape fuel (html_escape s) = s.
Proof.
  revert fuel. induction s as [|c s IH]; intros fuel Hl; [by destruct fuel|].
  simpl in Hl. destruct fuel as [|fuel]; [lia|]. change (html_escape (c :: s)) with (escape_char c ++ html_escape s).
  rewrite unescape_escape_char, IH; [done|lia].
Qed.

(** A crafted path cannot break out of the login page.  Whatever is echoed, the page's
    sequence of tag delimiters and quotes is the one it has with nothing echoed, so no tag
    and no attribute is added, and the value of the hidden field, read by a browser that
    resolves the entities, is exactly the path. *)
Theorem login_page_escapes (next : str) (error : option str) :
  List.filter is_markup (render_login_page next error) =
    List.filter is_markup (render_login_page [] (const [] <$> error)) /\
  exists before after, render_login_page next error = before ++ html_escape next ++ after /\
    html_unescape (length next) (html_escape next) = next.
Proof.
  unfold render_login_page. generalize PAGE_HEAD PAGE_BRAND PAGE_FORM PAGE_FOOT LOGIN_PATH.
  intros head brand form foot path. split.
  - rewrite !filter_app, (markup_of_plain (html_escape next)) by apply html_escape_plain.
    destruct error as [msg|]; [|done]. rewrite !filter_app.
    by rewrite (markup_of_plain (html_escape msg)) by apply html_escape_plain.
  - set (block := match error with Some _ => _ | None => _ end).
    exists (head ++ path ++ brand ++ block ++ form), foot. rewrite <-!app_assoc.
    split; [done|]. by apply unescape_escape.
Qed.

(** ** Redirect targets *)

(** After signing in, the browser stays on the site: the target of the redirect starts
    with a single slash and holds no line break, so the response's header ends where it
    should; and a path of that form is kept as it is. *)
Theorem safe_next_local (candidate : str) :
  let target := safe_next candidate in
  (exists rest, target = 47 :: rest /\ hd_error rest <> Some 47) /\ 13 ∉ target /\ 10 ∉ target /\
  (target <> candidate -> target = [47] /\
     (forall rest, candidate = 47 :: rest -> hd_error rest = Some 47 \/ 13 ∈ rest \/ 10 ∈ rest)).
Proof.
  assert (Hroot : (exists rest, [47] = 47 :: rest /\ hd_error rest <> Some 47) /\ 13 ∉ [47] /\ 10 ∉ [47]).
  { split; [by exists []|]. split; by intros Hin%list_elem_of_singleton. }
  unfold safe_next. destruct (_ && _) eqn:E.
  - rewrite !andb_true_iff, !negb_true_iff in E. destruct E as [[[E1 E2] E3] E4].
    apply starts_with_true in E1 as [rest ->]. rewrite contains_char_false in E3, E4.
    split_and!; [|done|done|done]. exists rest. split; [done|]. intros Hr.
    destruct rest as [|c rest]; [done|]. injection Hr as ->. by rewrite (proj2 (starts_with_true _ _)) in E2 by eauto.
  - split_and!; [apply Hroot..|]. intros _. split; [done|]. intros rest ->.
    rewrite !andb_false_iff, !negb_false_iff, !contains_char_true in E.
    destruct E as [[[E|E]|E]|E].
    + done.
    + left. apply starts_with_true in E as [r E]. by injection E as ->.
    + apply elem_of_cons in E as [|]; [done|]. by right; left.
    + apply elem_of_cons in E as [|]; [done|]. by right; right.
Qed.

(** Browsers read a backslash in a location as a slash, so this target leaves the site. *)
Example safe_next_backslash : safe_next (lit "/\evil.example") = lit "/\evil.example".
Proof. reflexivity. Qed.
