(* ===== verification/LocalAuth.v ===== *)
(** * LocalAuth: the client's gate in front of a published service

    [krot-client/src/local_auth.rs]: a tunnel may demand a login with a session cookie
    ([--auth]) or an API key in a header ([--api-key]).  The session store is shared by all
    streams of the tunnel and passed along as state; each request carries the clock readings
    and random bytes it meets.  A Rust panic is [None]. *)

From S2P Require Import Prelude RustStr Wire Admin Http LoginPage.

Local Open Scope Z_scope.

(** ** Data *)

(** The session policy's store is the state of [decide_session]. *)
Inductive AuthPolicy :=
| Session (user pass : str)
| ApiKey (key : str).

Record AuthConfig := { ac_policy : AuthPolicy; ac_realm : str }.

Definition DEFAULT_REALM : str := lit "KROT Protected Tunnel".

Inductive Outcome := OutOk | OutMissing | OutBadCreds.

Inductive SessionAction :=
| Forward
| ServeLoginPage (next : str) (error : option str)
| Redirect (location : str) (set_cookie : option str).

Inductive AuthConfigError :=
| MissingColon
| EmptyUser
| EnvUnset (var : str)
| FileRead (path error : str)
| FileEmpty (path : str).

(** What a request meets: two readings of the clock and the bytes of a fresh token. *)
Record AuthEnv := { ae_now : Z; ae_now' : Z; ae_raw : bytes }.

(** ** Sessions *)

Definition current_session_token (headers : list (str * bytes)) : option str :=
  find_map (fun h =>
    if eq_ignore_ascii_case h.1 (lit "cookie")
    then value ← from_utf8 h.2; extract_session_cookie value
    else None) headers.

Definition hex_upper (n : Z) : Z := if n <=? 9 then 48 + n else 65 + n - 10.

(** The characters [percent_encode_path] leaves alone. *)
Definition is_unreserved (b : Z) : bool :=
  is_ascii_upper b || is_ascii_lower b || is_ascii_digit b
  || (b =? 45) || (b =? 95) || (b =? 46) || (b =? 126) || (b =? 47) || (b =? 58) || (b =? 64)
  || (b =? 44) || (b =? 59) || (b =? 61).

Definition percent_encode_path (s : str) : str :=
  concat (map (fun b => if is_unreserved b then [b]
                        else [37; hex_upper (Z.shiftr b 4); hex_upper (Z.land b 15)]) (str_bytes s)).

(** The same loop as in the server's [admin.rs]. *)
Definition auth_constant_time_eq (a b : bytes) : bool :=
  if negb (Nat.eqb (length a) (length b)) then false
  else foldl (fun acc xy => Z.lor acc (Z.lxor xy.1 xy.2)) 0 (combine a b) =? 0.

Definition INVALID_LOGIN : str := lit "Invalid username or password.".
Definition NEXT_PARAM : str := lit "next=".

Definition decide_session_inner (env : AuthEnv) (user pass method path : str)
    (headers : list (str * bytes)) (body : bytes) (store : SessionStore) :
    SessionAction * SessionStore :=
  let (path_only, query) :=
    match split_once 63 path with Some (p, q) => (p, Some q) | None => (path, None) end in
  if bool_decide (path_only = LOGOUT_PATH) then
    (Redirect [47] (Some session_clear_cookie),
     match current_session_token headers with Some tok => invalidate tok store | None => store end)
  else if bool_decide (path_only = LOGIN_PATH) && eq_ignore_ascii_case method (lit "POST") then
    let form := parse_login_form (default [] (from_utf8 body)) in
    let ok := bool_decide (lf_user form = Some user)
                && auth_constant_time_eq (str_bytes (default [] (lf_pass form))) (str_bytes pass) in
    let next := match lf_next form with None => [47] | Some n => safe_next n end in
    if ok then
      let (token, store) := create (ae_raw env) (ae_now env) (ae_now' env) store in
      (Redirect next (Some (session_set_cookie token)), store)
    else (ServeLoginPage next (Some INVALID_LOGIN), store)
  else if bool_decide (path_only = LOGIN_PATH) then
    let next :=
      match q ← query; find_map (strip_prefix NEXT_PARAM) (split_char 38 q) with
      | None => [47]
      | Some raw => safe_next (form_decode raw)
      end in
    (ServeLoginPage next None, store)
  else
    let refused := Redirect (LOGIN_PATH ++ lit "?next=" ++ percent_encode_path path) None in
    match current_session_token headers with
    | None => (refused, store)
    | Some tok =>
      let (valid, store) := validate_and_refresh (ae_now env) (ae_now' env) tok store in
      if valid then (Forward, store) else (refused, store)
    end.

(** In a release build; the caller looks at the policy first. *)
Definition decide_session (env : AuthEnv) (policy : AuthPolicy) (method path : str)
    (headers : list (str * bytes)) (body : bytes) (store : SessionStore) :
    SessionAction * SessionStore :=
  match policy with
  | Session user pass => decide_session_inner env user pass method path headers body store
  | ApiKey _ => (Redirect [47] None, store)
  end.

(** ** API keys *)

Definition str_len (s : str) : Z := len (str_bytes s).

(** [None] is a panic of [split_at]. *)
Definition strip_scheme_ci (value scheme : str) : option (option str) :=
  if str_len value <=? str_len scheme then Some None
  else
    '(head, tail) ← split_at (str_len scheme) value;
    if negb (eq_ignore_ascii_case head scheme) then Some None
    else
      match tail with
      | c :: _ => if is_whitespace c then Some (Some tail) else Some None
      | [] => Some None
      end.

Fixpoint check_api_key_loop (key : str) (headers : list (str * bytes)) (saw_header : bool) :
    option Outcome :=
  match headers with
  | [] => Some (if saw_header then OutBadCreds else OutMissing)
  | h :: rest =>
    let api := eq_ignore_ascii_case h.1 (lit "x-api-key") in
    let saw_header := saw_header || api in
    let bearer saw_header :=
      if eq_ignore_ascii_case h.1 (lit "authorization") then
        match from_utf8 h.2 with
        | None => Some OutBadCreds
        | Some value =>
          stripped ← strip_scheme_ci (trim value) (lit "bearer");
          match stripped with
          | None => check_api_key_loop key rest true
          | Some token =>
            if auth_constant_time_eq (str_bytes (trim token)) (str_bytes key) then Some OutOk
            else check_api_key_loop key rest true
          end
        end
      else check_api_key_loop key rest saw_header in
    if api then
      match from_utf8 h.2 with
      | None => Some OutBadCreds
      | Some value =>
        if auth_constant_time_eq (str_bytes (trim value)) (str_bytes key) then Some OutOk
        else bearer saw_header
      end
    else bearer saw_header
  end.

Definition check_api_key (policy : AuthPolicy) (headers : list (str * bytes)) : option Outcome :=
  match policy with
  | ApiKey key => check_api_key_loop key headers false
  | Session _ _ => Some OutBadCreds
  end.

Definition api_key_reject_response : bytes :=
  str_bytes (lit "HTTP/1.1 403 Forbidden" ++ CRLF ++ lit "Content-Type: text/plain" ++ CRLF
    ++ lit "Content-Length: " ++ fmt_dec 9 ++ CRLF ++ lit "Connection: close" ++ CRLF ++ CRLF)
  ++ lit "Forbidden".

Definition looks_like_tls (first_byte : Z) : bool := first_byte =? 22.

(** ** Configuration *)

Definition session_from_userpass (s : str) : Result AuthPolicy AuthConfigError :=
  match split_once 58 s with
  | None => Err MissingColon
  | Some (user, pass) =>
    if bool_decide (user = []) then Err EmptyUser else Ok (Session user pass)
  end.

Definition api_key_from_str (s : str) : AuthPolicy := ApiKey (trim s).

(** [value] is what the process environment holds. *)
Definition read_env (var : str) (value : option str) : Result str AuthConfigError :=
  match value with
  | None => Err (EnvUnset var)
  | Some v => if bool_decide (v = []) then Err (EnvUnset var) else Ok v
  end.

Fixpoint trim_start_eol (s : str) : str :=
  match s with
  | c :: s' => if (c =? 13) || (c =? 10) then trim_start_eol s' else s
  | [] => []
  end.

(** [contents] is the file, or the text of the error that reading it gives. *)
Definition read_file (path : str) (contents : Result str str) : Result str AuthConfigError :=
  match contents with
  | Err e => Err (FileRead path e)
  | Ok raw =>
    let trimmed := rev (trim_start_eol (rev raw)) in
    if bool_decide (trimmed = []) then Err (FileEmpty path) else Ok trimmed
  end.

#[local] Arguments lit : simpl never.

Lemma auth_constant_time_eq_true a b : auth_constant_time_eq a b = true <-> a = b.
Proof. exact (constant_time_eq_true a b). Qed.

(** ** Sessions over time *)

(** A request with what it meets. *)
Record AuthReq := {
  aq_method : str;
  aq_path : str;
  aq_headers : list (str * bytes);
  aq_body : bytes;
  aq_env : AuthEnv;
}.

Definition path_only (path : str) : str :=
  match split_once 63 path with Some (p, _) => p | None => path end.

Section Sessions.
Context (user pass : str).

Definition decide_req (r : AuthReq) (g : SessionStore) : SessionAction * SessionStore :=
  decide_session (aq_env r) (Session user pass) (aq_method r) (aq_path r) (aq_headers r) (aq_body r) g.

Definition auth_run (reqs : list AuthReq) (g : SessionStore) : SessionStore :=
  foldl (fun g r => (decide_req r g).2) g reqs.

(** The login form of a request carries the configured user and password. *)
Definition credentials_match (body : bytes) : Prop :=
  let form := parse_login_form (default [] (from_utf8 body)) in
  lf_user form = Some user /\ str_bytes (default [] (lf_pass form)) = str_bytes pass.

#[global] Instance credentials_match_dec body : Decision (credentials_match body).
Proof. unfold credentials_match. apply _. Defined.

Definition is_login (r : AuthReq) : Prop :=
  path_only (aq_path r) = LOGIN_PATH /\
  eq_ignore_ascii_case (aq_method r) (lit "POST") = true /\ credentials_match (aq_body r).

#[global] Instance is_login_dec r : Decision (is_login r).
Proof. unfold is_login. apply _. Defined.

(** The token a successful login is given. *)
Definition mints (r : AuthReq) : option str :=
  if decide (is_login r) then Some (new_token (ae_raw (aq_env r))) else None.

(** The token a request logs out. *)
Definition logs_out (r : AuthReq) : option str :=
  if decide (path_only (aq_path r) = LOGOUT_PATH) then current_session_token (aq_headers r) else None.

Definition is_gated (path : str) : Prop :=
  path_only path <> LOGIN_PATH /\ path_only path <> LOGOUT_PATH.

#[global] Instance is_gated_dec path : Decision (is_gated path).
Proof. unfold is_gated. apply _. Defined.

Definition refused_to (path : str) : SessionAction :=
  Redirect (LOGIN_PATH ++ lit "?next=" ++ percent_encode_path path) None.

(** [decide_session] by the kind of request. *)
Lemma decide_logout r g :
  path_only (aq_path r) = LOGOUT_PATH ->
  decide_req r g = (Redirect [47] (Some session_clear_cookie),
    match logs_out r with Some tok => delete tok g | None => g end).
Proof.
  intros Hp. unfold decide_req, logs_out. simpl. unfold decide_session_inner.
  rewrite decide_True by done. unfold path_only in Hp. destruct (split_once 63 (aq_path r)) as [[p q]|];
    by rewrite bool_decide_eq_true_2.
Qed.

Lemma logout_not_login : LOGIN_PATH <> LOGOUT_PATH.
Proof. by vm_compute. Qed.

Lemma decide_login r g :
  is_login r -> exists next,
  decide_req r g = (Redirect next (Some (session_set_cookie (new_token (ae_raw (aq_env r))))),
    <[new_token (ae_raw (aq_env r)) := ae_now' (aq_env r) + SESSION_TTL]> (prune (ae_now (aq_env r)) g)).
Proof.
  intros (Hp & Hm & Hu & Hpass). unfold decide_req. simpl. unfold decide_session_inner, path_only in *.
  destruct (split_once 63 (aq_path r)) as [[p q]|]; rewrite Hp;
    (rewrite bool_decide_eq_false_2 by (apply logout_not_login));
    (rewrite bool_decide_eq_true_2 by done); rewrite Hm; simpl andb; cbn match;
    (rewrite bool_decide_eq_true_2 by done); rewrite (proj2 (auth_constant_time_eq_true _ _) Hpass);
    eexists; reflexivity.
Qed.

Lemma decide_form r g :
  path_only (aq_path r) = LOGIN_PATH -> ~ is_login r ->
  exists next error, decide_req r g = (ServeLoginPage next error, g).
Proof.
  intros Hp Hn. unfold decide_req. simpl. unfold decide_session_inner, is_login, path_only in *.
  destruct (split_once 63 (aq_path r)) as [[p q]|]; rewrite Hp in *;
    (rewrite bool_decide_eq_false_2 by (apply logout_not_login));
    (rewrite bool_decide_eq_true_2 by done);
    (destruct (eq_ignore_ascii_case _ _); [|by eexists _, _]); simpl andb; cbn match;
    (destruct (bool_decide _ && _) eqn:E; [|by eexists _, _]);
    apply andb_true_iff in E as [E1%bool_decide_eq_true E2%auth_constant_time_eq_true];
    exfalso; by apply Hn.
Qed.

Lemma decide_gated r g :
  is_gated (aq_path r) ->
  decide_req r g =
    match current_session_token (aq_headers r) with
    | None => (refused_to (aq_path r), g)
    | Some tok =>
      let (valid, g) := validate_and_refresh (ae_now (aq_env r)) (ae_now' (aq_env r)) tok g in
      (if valid then Forward else refused_to (aq_path r), g)
    end.
Proof.
  intros [Hl Ho]. unfold decide_req. simpl. unfold decide_session_inner, path_only in *.
  destruct (split_once 63 (aq_path r)) as [[p q]|];
    rewrite !bool_decide_eq_false_2 by done; simpl andb; cbn match;
    (destruct (current_session_token _) as [tok|]; [|done]);
    by destruct (validate_and_refresh _ _ _ _) as [[] ?].
Qed.

(** Every request is of one of four kinds. *)
Lemma req_kinds r :
  path_only (aq_path r) = LOGOUT_PATH \/ is_login r \/
  (path_only (aq_path r) = LOGIN_PATH /\ ~ is_login r) \/ is_gated (aq_path r).
Proof.
  destruct (decide (path_only (aq_path r) = LOGOUT_PATH)); [by left|right].
  destruct (decide (is_login r)); [by left|right].
  destruct (decide (path_only (aq_path r) = LOGIN_PATH)); [by left|right]. done.
Qed.

Lemma logs_out_None r : path_only (aq_path r) <> LOGOUT_PATH -> logs_out r = None.
Proof. intros Hp. unfold logs_out. by rewrite decide_False. Qed.

(** Where an entry of the store comes from, one request back. *)
Lemma decide_store_step r g tok exp :
  (decide_req r g).2 !! tok = Some exp ->
  (mints r = Some tok /\ exp = ae_now' (aq_env r) + SESSION_TTL) \/
  (logs_out r <> Some tok /\
   (g !! tok = Some exp \/
    (is_Some (g !! tok) /\ current_session_token (aq_headers r) = Some tok /\
     exp = ae_now' (aq_env r) + SESSION_TTL))).
Proof.
  destruct (req_kinds r) as [Hk|[Hk|[[Hp Hk]|Hk]]].
  - rewrite decide_logout by done. simpl. intros Hg. right. destruct (logs_out r) as [t|]; [|by split; [|left]].
    apply lookup_delete_Some in Hg as [Hne Hg]. split; [congruence|by left].
  - destruct (decide_login r g Hk) as [next ->]. simpl. unfold mints. rewrite decide_True by done.
    intros [[<- <-]|[Hne Hg]]%lookup_insert_Some; [by left|right].
    apply map_lookup_filter_Some in Hg as [Hg _]. split; [|by left].
    rewrite logs_out_None; [done|]. destruct Hk as [-> _]. apply logout_not_login.
  - destruct (decide_form r g Hp Hk) as (next & error & ->). simpl. intros Hg. right.
    split; [|by left]. rewrite logs_out_None; [done|]. rewrite Hp. apply logout_not_login.
  - rewrite decide_gated by done. intros Hg. right. rewrite logs_out_None by apply Hk. split; [done|].
    destruct (current_session_token _) as [t|]; [|by left]. unfold validate_and_refresh in Hg.
    destruct (g !! t) as [e|] eqn:Et; [|by left]. destruct (_ <? _); simpl in Hg.
    + apply lookup_insert_Some in Hg as [[<- <-]|[_ Hg]]; [right|by left]. split_and!; [by rewrite Et|done..].
    + apply lookup_delete_Some in Hg as [_ Hg]. by left.
Qed.

Lemma auth_run_snoc reqs r g : auth_run (reqs ++ [r]) g = (decide_req r (auth_run reqs g)).2.
Proof. unfold auth_run. by rewrite foldl_app. Qed.

(** Every stored token was minted by a login and has not been logged out since; its expiry
    was set by that login or by a later request that carried it. *)
Lemma stored_token reqs tok exp :
  auth_run reqs SessionStore_new !! tok = Some exp ->
  exists pre login post last, reqs = pre ++ login :: post /\ mints login = Some tok /\
    Forall (fun r => logs_out r <> Some tok) post /\ last ∈ login :: post /\
    (last = login \/ current_session_token (aq_headers last) = Some tok) /\
    exp = ae_now' (aq_env last) + SESSION_TTL.
Proof.
  revert exp. induction reqs as [|r reqs IH] using rev_ind; intros exp.
  { unfold SessionStore_new. simpl. by rewrite lookup_empty. }
  rewrite auth_run_snoc. intros [[Hm ->]|[Hl Hg]]%decide_store_step.
  { exists reqs, r, [], r. split_and!; try done; [by apply list_elem_of_here|by left]. }
  assert (exists e, auth_run reqs SessionStore_new !! tok = Some e) as [e He]
    by (destruct Hg as [?|[[]]]; eauto).
  destruct (IH _ He) as (pre & login & post & last & -> & Hm & Hp & Hin & Hu & Hexp).
  exists pre, login, (post ++ [r]).
  assert (Hsplit : (pre ++ login :: post) ++ [r] = pre ++ login :: post ++ [r]) by by rewrite <-app_assoc.
  assert (Hp' : Forall (fun r => logs_out r <> Some tok) (post ++ [r])) by (apply Forall_app; auto).
  destruct Hg as [Hg|(_ & Hc & ->)].
  - assert (e = exp) as -> by congruence. exists last. split_and!; try done.
    change (login :: post ++ [r]) with ((login :: post) ++ [r]). apply elem_of_app. by left.
  - exists r. split_and!; try done; [|by right].
    apply list_elem_of_further, elem_of_app. right. apply list_elem_of_here.
Qed.

(** C14: Only a browser that logged in reaches the service.  Over any history of requests to
    a tunnel protected with [--auth], a request that is forwarded carries a session token
    that an earlier request was given for presenting the configured user and password; the
    token has not been logged out since, and the login or some later use of it lies less
    than the session lifetime back. *)
Theorem session_forward_sound (reqs : list AuthReq) (r : AuthReq)
    (Hf : (decide_req r (auth_run reqs SessionStore_new)).1 = Forward) :
  exists tok pre login post last, reqs = pre ++ login :: post /\
    current_session_token (aq_headers r) = Some tok /\
    credentials_match (aq_body login) /\ tok = new_token (ae_raw (aq_env login)) /\
    Forall (fun r => logs_out r <> Some tok) post /\
    last ∈ login :: post /\ (last = login \/ current_session_token (aq_headers last) = Some tok) /\
    ae_now (aq_env r) < ae_now' (aq_env last) + SESSION_TTL.
Proof.
  set (g := auth_run reqs SessionStore_new) in *.
  destruct (req_kinds r) as [Hk|[Hk|[[Hp Hk]|Hk]]].
  - by rewrite decide_logout in Hf by done.
  - destruct (decide_login r g Hk) as [next E]. by rewrite E in Hf.
  - destruct (decide_form r g Hp Hk) as (next & error & E). by rewrite E in Hf.
  - rewrite decide_gated in Hf by done. destruct (current_session_token _) as [tok|]; [|done].
    unfold validate_and_refresh in Hf. destruct (g !! tok) as [exp|] eqn:Eg; [|done].
    destruct (Z.ltb_spec (ae_now (aq_env r)) exp); [|done].
    destruct (stored_token _ _ _ Eg) as (pre & login & post & last & -> & Hm & Hp & Hin & Hu & ->).
    unfold mints in Hm. case_decide as Hl; [|done]. injection Hm as <-.
    eexists _, pre, login, post, last. split_and!; [done..|apply Hl|done|done|done|done|done].
Qed.

(** A stored token with an expiry beyond [t] stays so through requests that happen by [t],
    after [t0], and do not log it out. *)
Lemma token_kept reqs g tok t t0 :
  t < t0 + SESSION_TTL ->
  Forall (fun m => ae_now (aq_env m) <= t /\ t0 <= ae_now' (aq_env m) /\ logs_out m <> Some tok) reqs ->
  (exists exp, g !! tok = Some exp /\ t < exp) ->
  exists exp, auth_run reqs g !! tok = Some exp /\ t < exp.
Proof.
  intros Ht. induction reqs as [|r reqs IH] using rev_ind; [done|]. rewrite Forall_app, auth_run_snoc.
  intros [Hreqs Hr] Hg. destruct (IH Hreqs Hg) as (exp & He & Hexp). clear IH Hg.
  apply Forall_cons_1 in Hr as [(Hn & Hn' & Hl) _]. set (g' := auth_run reqs g) in *.
  destruct (req_kinds r) as [Hk|[Hk|[[Hp Hk]|Hk]]].
  - rewrite decide_logout by done. simpl. exists exp. split; [|done].
    destruct (logs_out r) as [t'|]; [|done]. rewrite lookup_delete_ne; [done|congruence].
  - destruct (decide_login r g' Hk) as [next ->]. simpl.
    destruct (decide (new_token (ae_raw (aq_env r)) = tok)) as [<-|Hne].
    + rewrite lookup_insert_eq. eexists. split; [done|]. lia.
    + rewrite lookup_insert_ne by done. exists exp. split; [|done].
      apply map_lookup_filter_Some. split; [done|]. simpl. lia.
  - destruct (decide_form r g' Hp Hk) as (next & error & ->). by exists exp.
  - rewrite decide_gated by done. destruct (current_session_token _) as [t'|]; [|by exists exp].
    unfold validate_and_refresh. destruct (decide (t' = tok)) as [->|Hne].
    + rewrite He, (proj2 (Z.ltb_lt _ _)) by lia. simpl. rewrite lookup_insert_eq. eexists.
      split; [done|]. lia.
    + exists exp. split; [|done]. destruct (g' !! t') as [e|]; [|done]. destruct (_ <? _); simpl;
        [by rewrite lookup_insert_ne|by rewrite lookup_delete_ne].
Qed.

(** C33: A browser that logged in is let through.  After a login with the configured
    credentials, and any further requests by anyone that do not log this session out, a
    request that returns the cookie of the login's response is forwarded for the whole
    session lifetime. *)
Theorem login_then_forward (g : SessionStore) (login r : AuthReq) (mid : list AuthReq)
    (Hlogin : is_login login) (Hraw : Forall is_byte (ae_raw (aq_env login)))
    (Hmid : Forall (fun m => ae_now (aq_env m) <= ae_now (aq_env r) /\
       ae_now' (aq_env login) <= ae_now' (aq_env m) /\
       logs_out m <> Some (new_token (ae_raw (aq_env login)))) mid)
    (Hgated : is_gated (aq_path r))
    (Htime : ae_now (aq_env r) < ae_now' (aq_env login) + SESSION_TTL) :
  exists next cookie, (decide_req login g).1 = Redirect next (Some cookie) /\
    (current_session_token (aq_headers r) = extract_session_cookie (cookie_pair cookie) ->
     (decide_req r (auth_run (login :: mid) g)).1 = Forward).
Proof.
  destruct (decide_login login g Hlogin) as [next E]. rewrite E. eexists _, _. split; [done|].
  rewrite extract_own_cookie by by apply new_token_hex. intros Hc. rewrite decide_gated, Hc by done.
  change (auth_run (login :: mid) g) with (auth_run mid (decide_req login g).2). rewrite E. simpl snd.
  destruct (token_kept mid (<[new_token (ae_raw (aq_env login)) := ae_now' (aq_env login) + SESSION_TTL]>
    (prune (ae_now (aq_env login)) g)) _ _ _ Htime Hmid) as (exp & He & Hexp).
  { eexists. split; [apply lookup_insert_eq|done]. }
  unfold validate_and_refresh. by rewrite He, (proj2 (Z.ltb_lt _ _)).
Qed.
End Sessions.

(** ** The way back after a login *)

Lemma hex_val_upper n : 0 <= n < 16 -> hex_val (hex_upper n) = Some n.
Proof.
  intros Hn. unfold hex_upper, hex_val. destruct (Z.leb_spec n 9); decide_cmp; simpl; f_equal; lia.
Qed.

Definition encode_byte (b : Z) : str :=
  if is_unreserved b then [b] else [37; hex_upper (Z.shiftr b 4); hex_upper (Z.land b 15)].

Lemma encode_byte_ascii b : is_byte b -> Forall (fun c => 0 <= c < 128 /\ c <> 38) (encode_byte b).
Proof.
  intros Hb. destruct (nibbles b Hb) as (Hh & Hl & _). unfold encode_byte.
  destruct (is_unreserved b) eqn:E.
  - constructor; [|done]. unfold is_unreserved, is_ascii_upper, is_ascii_lower, is_ascii_digit in E.
    rewrite !orb_true_iff, !andb_true_iff, !Z.leb_le, !Z.eqb_eq in E. lia.
  - assert (Hx : forall n, 0 <= n < 16 -> 0 <= hex_upper n < 128 /\ hex_upper n <> 38).
    { intros n Hn. unfold hex_upper. destruct (Z.leb_spec n 9); lia. }
    apply Forall_cons_2; [lia|]. repeat (apply Forall_cons_2; [by apply Hx|]). done.
Qed.

Lemma form_decode_byte b s :
  is_byte b -> form_decode_loop (encode_byte b ++ s) = b :: form_decode_loop s.
Proof.
  intros Hb. destruct (nibbles b Hb) as (Hh & Hl & Eb). unfold encode_byte.
  destruct (is_unreserved b) eqn:E; cbn [app form_decode_loop].
  - unfold is_unreserved, is_ascii_upper, is_ascii_lower, is_ascii_digit in E.
    rewrite !orb_true_iff, !andb_true_iff, !Z.leb_le, !Z.eqb_eq in E. by decide_cmp.
  - change (37 =? 43) with false. change (37 =? 37) with true. cbn match.
    rewrite !hex_val_upper by done. f_equal. rewrite Eb at 3. rewrite Z.shiftl_mul_pow2 by lia.
    assert (Hz : Z.land (Z.shiftr b 4 * 2 ^ 4) (Z.land b 15) = 0).
    { apply Z.bits_inj'. intros n Hn. rewrite Z.land_spec, Z.bits_0, Z.mul_pow2_bits, Z.land_spec by lia.
      destruct (Z.lt_ge_cases n 4); [by rewrite Z.testbit_neg_r by lia|].
      change 15 with (Z.ones 4). rewrite Z.ones_spec_high by lia. by rewrite !andb_false_r. }
    change 16 with (2 ^ 4). by rewrite Z.add_nocarry_lxor, Z.lxor_lor.
Qed.

Lemma percent_encode_path_concat s : percent_encode_path s = concat (map encode_byte (str_bytes s)).
Proof. done. Qed.

Lemma encode_bytes_ascii bs :
  Forall is_byte bs -> Forall (fun c => 0 <= c < 128 /\ c <> 38) (concat (map encode_byte bs)).
Proof.
  induction 1 as [|b bs Hb _ IH]; [done|]. simpl. apply Forall_app. split; [by apply encode_byte_ascii|done].
Qed.

(** Decoding undoes the encoding of any path. *)
Lemma form_decode_percent_encode s :
  Forall (fun c => is_scalar c = true) s -> form_decode (percent_encode_path s) = s.
Proof.
  intros Hs. pose proof (str_bytes_byte s Hs) as Hb. unfold form_decode.
  rewrite percent_encode_path_concat, str_bytes_ascii.
  2: { eapply Forall_impl; [|by apply encode_bytes_ascii]. naive_solver. }
  rewrite <-(utf8_lossy_str_bytes s Hs) at 2. f_equal. clear Hs.
  induction Hb as [|b bs Hb _ IH]; [done|]. simpl. by rewrite form_decode_byte, IH.
Qed.

(** The login page knows where the browser wanted to go.  A request that is refused is
    redirected to a location; opening that location shows the form for exactly the path of
    the request, query included (or for the root, when the path is no safe target). *)
Theorem login_returns (user pass : str) (r r' : AuthReq) (g : SessionStore) (location : str)
    (cookie : option str) (Hs : Forall (fun c => is_scalar c = true) (aq_path r))
    (Hgated : is_gated (aq_path r))
    (Hr : (decide_req user pass r g).1 = Redirect location cookie)
    (Hget : aq_path r' = location /\ eq_ignore_ascii_case (aq_method r') (lit "POST") = false) :
  cookie = None /\ (decide_req user pass r' g).1 = ServeLoginPage (safe_next (aq_path r)) None.
Proof.
  assert (location = LOGIN_PATH ++ lit "?next=" ++ percent_encode_path (aq_path r) /\ cookie = None) as [-> ->].
  { rewrite decide_gated in Hr by done. unfold refused_to in Hr.
    generalize dependent (LOGIN_PATH ++ lit "?next=" ++ percent_encode_path (aq_path r)). intros l Hr.
    destruct (current_session_token _); [|by injection Hr].
    destruct (validate_and_refresh _ _ _ _) as [[] ?]; [done|by injection Hr]. }
  split; [done|]. destruct Hget as [Hp Hm].
  unfold decide_req. simpl. unfold decide_session_inner. rewrite Hp, Hm.
  change (LOGIN_PATH ++ lit "?next=" ++ percent_encode_path (aq_path r))
    with (LOGIN_PATH ++ 63 :: NEXT_PARAM ++ percent_encode_path (aq_path r)).
  rewrite split_once_hit by (apply Forall_not_in; by repeat constructor).
  rewrite bool_decide_eq_false_2 by apply logout_not_login. rewrite bool_decide_eq_true_2 by done.
  simpl andb. cbn match. cbn [mbind option_bind].
  rewrite split_char_none.
  - cbn [find_map]. rewrite (proj2 (strip_prefix_Some _ _ _) eq_refl). simpl.
    by rewrite form_decode_percent_encode.
  - apply Forall_not_in, Forall_app. split; [by repeat constructor|].
    eapply Forall_impl; [|apply encode_bytes_ascii, str_bytes_byte, Hs]. naive_solver.
Qed.

(** ** API keys *)

(** The text after the scheme [bearer], in any case, and a space. *)
Definition bearer_token (value rest : str) : Prop :=
  exists scheme c tail, value = scheme ++ c :: tail /\ rest = c :: tail /\
    eq_ignore_ascii_case scheme (lit "bearer") = true /\ is_whitespace c = true.

Lemma split_at_app a b : split_at (str_len a) (a ++ b) = Some (a, b).
Proof.
  induction a as [|c a IH]; [by destruct b|].
  assert (Hl : 0 < len (utf8_char c)) by (unfold utf8_char; repeat case_match; done).
  unfold str_len in *. rewrite str_bytes_cons, len_app. cbn [split_at app].
  pose proof (len_nonneg (str_bytes a)).
  destruct (Z.eqb_spec (len (utf8_char c) + len (str_bytes a)) 0); [lia|].
  destruct (Z.ltb_spec (len (utf8_char c) + len (str_bytes a)) (len (utf8_char c))); [lia|].
  replace (_ + _ - _) with (len (str_bytes a)) by lia. by rewrite IH.
Qed.

Lemma split_at_Some n s a b : split_at n s = Some (a, b) -> s = a ++ b /\ n = str_len a.
Proof.
  revert n a. induction s as [|c s IH]; intros n a; cbn [split_at].
  - destruct (Z.eqb_spec n 0); [|done]. by intros [= <- <-].
  - destruct (Z.eqb_spec n 0); [by intros [= <- <-]|].
    destruct (_ <? _); [done|]. destruct (split_at _ s) as [[x y]|] eqn:E; [|done].
    intros [= <- <-]. apply IH in E as [-> E]. split; [done|].
    unfold str_len in *. rewrite str_bytes_cons, len_app. lia.
Qed.

(** Equal up to case with an ASCII word: as long as it. *)
Lemma eq_ignore_case_len a b :
  Forall (fun c => 0 <= c < 128) b -> eq_ignore_ascii_case a b = true -> str_len a = len b.
Proof.
  unfold eq_ignore_ascii_case. intros Hb Heq%bool_decide_eq_true.
  assert (Ha : Forall (fun c => 0 <= c < 128) a).
  { apply Forall_forall. intros c Hc. apply list_elem_of_In in Hc.
    assert (Hin : ascii_lower c ∈ to_ascii_lowercase b)
      by (rewrite <-Heq; apply list_elem_of_fmap; eauto).
    apply list_elem_of_fmap in Hin as (d & Hd & Hin). rewrite List.Forall_forall in Hb.
    specialize (Hb d (proj1 (list_elem_of_In _ _) Hin)). unfold ascii_lower, is_ascii_upper in Hd.
    repeat case_match; rewrite ?andb_true_iff, ?Z.leb_le in *; lia. }
  unfold str_len. rewrite str_bytes_ascii by done. apply (f_equal length) in Heq.
  unfold to_ascii_lowercase in Heq. rewrite !length_map in Heq. unfold len. congruence.
Qed.

Lemma bearer_ascii : Forall (fun c => 0 <= c < 128) (lit "bearer").
Proof. by repeat constructor. Qed.

(** Unless it panics, [strip_scheme_ci] finds exactly a bearer token. *)
Lemma strip_scheme_ci_spec value rest :
  strip_scheme_ci value (lit "bearer") = Some (Some rest) <-> bearer_token value rest.
Proof.
  unfold strip_scheme_ci, bearer_token. change (str_len (lit "bearer")) with 6. split.
  - destruct (_ <=? _); [done|]. destruct (split_at 6 value) as [[head tail]|] eqn:E; [|done]. simpl.
    destruct (eq_ignore_ascii_case head _) eqn:Eh; [|done]. simpl.
    destruct tail as [|c tail]; [done|]. destruct (is_whitespace c) eqn:Ec; [|done].
    intros [= <-]. apply split_at_Some in E as [-> _]. by exists head, c, tail.
  - intros (scheme & c & tail & -> & -> & Hs & Hc).
    pose proof (eq_ignore_case_len _ _ bearer_ascii Hs) as Hl. change (len (lit "bearer")) with 6 in Hl.
    assert (0 < str_len (c :: tail)).
    { unfold str_len. rewrite str_bytes_cons, len_app. pose proof (len_nonneg (str_bytes tail)).
      assert (0 < len (utf8_char c)) by (unfold utf8_char; repeat case_match; done). lia. }
    assert (Happ : str_len (scheme ++ c :: tail) = 6 + str_len (c :: tail)).
    { unfold str_len in *. unfold str_bytes. rewrite map_app, concat_app, len_app. f_equal. exact Hl. }
    rewrite Happ. destruct (Z.leb_spec (6 + str_len (c :: tail)) 6); [lia|].
    rewrite <-Hl, split_at_app. simpl. by rewrite Hs, Hc.
Qed.

(** A header that presents the key. *)
Definition presents_key (key : str) (h : str * bytes) : Prop :=
  exists value, from_utf8 h.2 = Some value /\
    ((eq_ignore_ascii_case h.1 (lit "x-api-key") = true /\ str_bytes (trim value) = str_bytes key) \/
     (eq_ignore_ascii_case h.1 (lit "authorization") = true /\
      exists rest, bearer_token (trim value) rest /\ str_bytes (trim rest) = str_bytes key)).

Definition is_key_header (h : str * bytes) : bool :=
  eq_ignore_ascii_case h.1 (lit "x-api-key") || eq_ignore_ascii_case h.1 (lit "authorization").

(** A header the check does not stumble over: no credential header that is not UTF-8, no
    authorization value that makes [split_at] panic. *)
Definition readable (h : str * bytes) : Prop :=
  is_key_header h = true -> exists value, from_utf8 h.2 = Some value /\
    is_Some (strip_scheme_ci (trim value) (lit "bearer")).

Lemma check_loop_sound key headers saw :
  check_api_key_loop key headers saw = Some OutOk -> exists h, h ∈ headers /\ presents_key key h.
Proof.
  revert saw. induction headers as [|h rest IH]; intros saw; cbn [check_api_key_loop]; [by destruct saw|].
  assert (Hrec : forall b, check_api_key_loop key rest b = Some OutOk ->
    exists h', h' ∈ h :: rest /\ presents_key key h').
  { intros b (h' & Hin & Hp)%IH. exists h'. split; [by apply list_elem_of_further|done]. }
  assert (Hhere : presents_key key h -> exists h', h' ∈ h :: rest /\ presents_key key h').
  { intros Hp. exists h. split; [apply list_elem_of_here|done]. }
  clear IH. unfold presents_key in Hhere at 1.
  destruct (eq_ignore_ascii_case h.1 (lit "x-api-key")) eqn:Ea,
    (eq_ignore_ascii_case h.1 (lit "authorization")) eqn:Eb; cbn [orb];
    try (destruct (from_utf8 h.2) as [value|] eqn:Ev; [|done]);
    try (destruct (auth_constant_time_eq (str_bytes (trim value)) _) eqn:Ec;
         [apply auth_constant_time_eq_true in Ec; intros _; apply Hhere; by eauto|]);
    try apply Hrec;
    (destruct (strip_scheme_ci _ _) as [[token|]|] eqn:Es; simpl; [|apply Hrec|done]);
    apply strip_scheme_ci_spec in Es;
    (destruct (auth_constant_time_eq (str_bytes (trim token)) _) eqn:Et; [|apply Hrec]);
    apply auth_constant_time_eq_true in Et; intros _; apply Hhere; eauto 10.
Qed.

Lemma constant_time_neq a b : auth_constant_time_eq a b = false -> a <> b.
Proof. intros Hf Heq. apply auth_constant_time_eq_true in Heq. congruence. Qed.

(** One readable header: it settles the check or is passed over. *)
Lemma check_loop_step key h rest saw :
  readable h ->
  (presents_key key h /\ check_api_key_loop key (h :: rest) saw = Some OutOk) \/
  (~ presents_key key h /\
   check_api_key_loop key (h :: rest) saw = check_api_key_loop key rest (saw || is_key_header h)).
Proof.
  unfold readable, is_key_header, presents_key. cbn [check_api_key_loop]. intros Hr.
  destruct (eq_ignore_ascii_case h.1 (lit "x-api-key")) eqn:Ea,
    (eq_ignore_ascii_case h.1 (lit "authorization")) eqn:Eb; cbn [orb] in *;
    rewrite ?orb_true_r, ?orb_false_r;
    try (destruct (Hr eq_refl) as (value & Hv & o & Ho); rewrite Hv);
    try (destruct (auth_constant_time_eq (str_bytes (trim value)) _) eqn:Ec;
         [apply auth_constant_time_eq_true in Ec; left; by eauto 10|apply constant_time_neq in Ec]);
    try (rewrite Ho; simpl; destruct o as [token|];
         [destruct (auth_constant_time_eq (str_bytes (trim token)) _) eqn:Et;
          [apply auth_constant_time_eq_true in Et; left; apply strip_scheme_ci_spec in Ho; by eauto 10
          |apply constant_time_neq in Et]|]);
    right; (split; [|done]); intros (v & Hv' & [[? Hk]|(? & t & Hb & Hk)]);
    try done; assert (v = value) as -> by congruence; try done;
    apply strip_scheme_ci_spec in Hb; congruence.
Qed.

(** An API key opens the tunnel and nothing else does.  The check succeeds only if some
    [X-API-Key] or bearer header holds exactly the key; on headers that are readable it
    always ends with a verdict, succeeds whenever such a header is present, wherever it
    stands, and otherwise reports missing credentials exactly when no header of the two
    names is there. *)
Theorem api_key_exact (key : str) (headers : list (str * bytes)) :
  (check_api_key (ApiKey key) headers = Some OutOk -> exists h, h ∈ headers /\ presents_key key h) /\
  (Forall readable headers ->
   exists out, check_api_key (ApiKey key) headers = Some out /\
    (out = OutOk <-> exists h, h ∈ headers /\ presents_key key h) /\
    (out = OutMissing <-> forall h, h ∈ headers -> is_key_header h = false)).
Proof.
  split; [apply check_loop_sound|]. simpl. intros Hr.
  assert (Hgen : forall saw, exists out, check_api_key_loop key headers saw = Some out /\
    (out = OutOk <-> exists h, h ∈ headers /\ presents_key key h) /\
    (out = OutMissing <-> saw = false /\ forall h, h ∈ headers -> is_key_header h = false)).
  2: { destruct (Hgen false) as (out & ? & ? & ?). exists out. naive_solver. }
  induction Hr as [|h rest Hh _ IH]; intros saw.
  { exists (if saw then OutBadCreds else OutMissing). split; [done|]. split.
    - split; [by destruct saw|]. by intros (h & Hin%elem_of_nil & _).
    - destruct saw; split; try done; [by intros [? _]|]. intros _. split; [done|]. by intros h ?%elem_of_nil. }
  destruct (check_loop_step key h rest saw Hh) as [[Hp ->]|[Hp ->]].
  - exists OutOk. split; [done|]. split.
    + split; [|done]. intros _. exists h. split; [apply list_elem_of_here|done].
    + split; [done|]. intros [_ Hall]. specialize (Hall h ltac:(apply list_elem_of_here)).
      destruct Hp as (v & _ & [[E _]|[E _]]); unfold is_key_header in Hall; rewrite E in Hall;
        [done|by rewrite orb_true_r in Hall].
  - destruct (IH (saw || is_key_header h)) as (out & Hc & Hok & Hmiss). exists out. split; [done|].
    setoid_rewrite elem_of_cons. split.
    + rewrite Hok. naive_solver.
    + rewrite Hmiss, orb_false_iff. naive_solver.
Qed.

(** The check panics on an authorization value whose seventh byte is inside a character. *)
Example strip_scheme_panics :
  strip_scheme_ci (lit "Basic" ++ [233; 33; 33]) (lit "bearer") = None.
Proof. vm_compute. reflexivity. Qed.

(** A blank [--api-key] accepts a blank header. *)
Example blank_api_key :
  check_api_key (api_key_from_str (lit "  ")) [(lit "X-API-Key", [])] = Some OutOk.
Proof. vm_compute. reflexivity. Qed.

(** ** The theorems at concrete inputs *)

Definition toy_req (method path : str) (headers : list (str * bytes)) (body : bytes) (now : Z) : AuthReq :=
  {| aq_method := method; aq_path := path; aq_headers := headers; aq_body := body;
     aq_env := {| ae_now := now; ae_now' := now; ae_raw := repeat 171 32 |} |}.

Definition toy_login : AuthReq :=
  toy_req (lit "POST") LOGIN_PATH [] (lit "user=alice&pass=s%33cret&next=%2Fdash") 10.

Definition toy_cookie : list (str * bytes) :=
  [(lit "Cookie", cookie_pair (session_set_cookie (new_token (repeat 171 32))))].

Definition toy_visit : AuthReq := toy_req (lit "GET") (lit "/dash") toy_cookie [] 20.

Lemma toy_login_ok : is_login (lit "alice") (lit "s3cret") toy_login.
Proof. split; [|split; [|split]]; vm_compute; reflexivity. Defined.

Lemma session_forward_sound_witness :
  exists tok, current_session_token toy_cookie = Some tok /\ tok = new_token (repeat 171 32).
Proof.
  assert (Hf : (decide_req (lit "alice") (lit "s3cret") toy_visit
    (auth_run (lit "alice") (lit "s3cret") [toy_login] SessionStore_new)).1 = Forward)
    by (vm_compute; reflexivity).
  destruct (session_forward_sound (lit "alice") (lit "s3cret") [toy_login] toy_visit Hf)
    as (tok & pre & login & post & last & Heq & Hc & _ & Htok & _).
  exists tok. split; [exact Hc|].
  destruct pre as [|x pre]; [|destruct pre; discriminate Heq]. injection Heq as <- _. exact Htok.
Defined.

Lemma login_then_forward_witness :
  exists next cookie, (decide_req (lit "alice") (lit "s3cret") toy_login ∅).1 = Redirect next (Some cookie) /\
    (decide_req (lit "alice") (lit "s3cret") toy_visit
      (auth_run (lit "alice") (lit "s3cret") [toy_login] ∅)).1 = Forward.
Proof.
  destruct (login_then_forward (lit "alice") (lit "s3cret") ∅ toy_login toy_visit [])
    as (next & cookie & Hr & Hf).
  - exact toy_login_ok.
  - solve_bytes.
  - constructor.
  - split; vm_compute; discriminate.
  - vm_compute. reflexivity.
  - exists next, cookie. split; [exact Hr|]. apply Hf. revert Hr. vm_compute. intros [= <- <-]. reflexivity.
Defined.

Lemma login_returns_witness :
  (decide_req (lit "alice") (lit "s3cret")
    (toy_req (lit "GET") (lit "/__krot/login?next=/a%3Fb=%26c") [] [] 5) ∅).1
    = ServeLoginPage (lit "/a?b=&c") None.
Proof.
  destruct (login_returns (lit "alice") (lit "s3cret") (toy_req (lit "GET") (lit "/a?b=&c") [] [] 4)
    (toy_req (lit "GET") (lit "/__krot/login?next=/a%3Fb=%26c") [] [] 5) ∅
    (lit "/__krot/login?next=/a%3Fb=%26c") None) as [_ H].
  - repeat constructor.
  - split; vm_compute; discriminate.
  - vm_compute. reflexivity.
  - split; vm_compute; reflexivity.
  - exact H.
Defined.
