(* ===== verification/ClientConfig.v ===== *)
(** * ClientConfig: identity, server pin, command line

    [krot-client/src/config.rs], [tls.rs], [error.rs] and the pure parts of [main.rs]: the
    key pair and the pinned server in [config.toml], how the file is written, how a
    certificate is checked against the pin, and how the command line becomes a policy.

    The crates [hex], [toml], [sha2] and [x509-parser] are parameters; outcomes of file
    operations and the texts of operating-system errors are inputs. *)

From S2P Require Import Prelude RustStr Wire Framing Registry Admin Http LoginPage LocalAuth.

Local Open Scope Z_scope.

(** ** Errors *)

Inductive ClientError :=
| CE_Io (e : Z)
| CE_Transport (e : TransportError Z Z)
| CE_QuinnWrite (e : Z)
| CE_QuinnConnect (e : Z)
| CE_QuinnConnection (e : Z)
| CE_Rustls (e : Z)
| CE_Config (msg : str)
| CE_BadFingerprint
| CE_BadServerAddr (addr : str)
| CE_EnrollRejected (code : ErrorCode)
| CE_AuthRejected (code : ErrorCode)
| CE_TunnelRejected (code : ErrorCode) (msg : str)
| CE_RegistrationTimeout
| CE_Protocol (msg : str).


(** ** Interfaces *)

(** The crate [hex]. *)
Class Hex := {
  hex_encode : bytes -> str;
  hex_decode : str -> option bytes;
}.

Class HexLaws `{Hex} := {
  hex_roundtrip : forall bs, Forall is_byte bs -> hex_decode (hex_encode bs) = Some bs;
}.

(** The seed of a signing key. *)
Class SeedBytes (SK : Type) := {
  sk_to_bytes : SK -> bytes;
  sk_from_bytes : bytes -> SK;
}.

Class SeedBytesLaws (SK : Type) `{SeedBytes SK} := {
  seed_roundtrip : forall sk, sk_from_bytes (sk_to_bytes sk) = sk;
  seed_bytes : forall sk, Forall is_byte (sk_to_bytes sk) /\ length (sk_to_bytes sk) = 32%nat;
}.

(** ** Identity and pin *)

Record Identity := { id_private_key : str; id_public_key : str }.

Record ServerPin := {
  sp_host : str;
  sp_quic_port : Z;
  sp_tcp_port : option Z;
  sp_sni : option str;
  sp_fingerprint : option str;
}.

Record ClientConfig := { cc_identity : Identity; cc_server : ServerPin }.

#[global] Instance Identity_eq_dec : EqDecision Identity.
Proof. solve_decision. Defined.
#[global] Instance ServerPin_eq_dec : EqDecision ServerPin.
Proof. solve_decision. Defined.
#[global] Instance ClientConfig_eq_dec : EqDecision ClientConfig.
Proof. solve_decision. Defined.

Definition default_quic_port : Z := DEFAULT_UDP_PORT.

Definition effective_sni (pin : ServerPin) : str := default (sp_host pin) (sp_sni pin).
Definition effective_tcp_port (pin : ServerPin) : Z := default (sp_quic_port pin) (sp_tcp_port pin).

Section Identity.
Context {SK VK : Type} `{Ed25519 SK VK} `{SeedBytes SK} `{Hex}.

(** The text of a [hex] error. *)
Context (hex_error : str -> str).

Definition Identity_generate (sk : SK) : Identity :=
  {| id_private_key := hex_encode (sk_to_bytes sk); id_public_key := hex_encode (ed_public sk) |}.

(** [hex::decode(..)?.try_into()] into 32 bytes, for the field [name]. *)
Definition decode_32 (name text : str) : Result bytes ClientError :=
  match hex_decode text with
  | None => Err (CE_Config (lit "bad " ++ name ++ lit " hex: " ++ hex_error text))
  | Some raw =>
    if Nat.eqb (length raw) 32 then Ok raw else Err (CE_Config (name ++ lit " not 32 bytes"))
  end.

Definition signing_key (i : Identity) : Result SK ClientError :=
  let? seed := decode_32 (lit "private_key") (id_private_key i) in Ok (sk_from_bytes seed).

Definition pubkey (i : Identity) : Result PubKey ClientError :=
  let? raw := decode_32 (lit "public_key") (id_public_key i) in Ok {| pk_raw := raw |}.

Definition SHA256_PREFIX : str := lit "sha256:".

Definition parse_fingerprint (fp : str) : Result bytes ClientError :=
  match strip_prefix SHA256_PREFIX fp with
  | None => Err CE_BadFingerprint
  | Some rest =>
    match hex_decode rest with
    | None => Err CE_BadFingerprint
    | Some raw => if Nat.eqb (length raw) 32 then Ok raw else Err CE_BadFingerprint
    end
  end.

Definition fingerprint_bytes (pin : ServerPin) : Result (option bytes) ClientError :=
  match sp_fingerprint pin with
  | None => Ok None
  | Some fp => let? raw := parse_fingerprint fp in Ok (Some raw)
  end.

(** ** Certificates *)

(** The public-key part of a certificate, as [x509-parser] finds it, and SHA-256. *)
Context (spki : bytes -> option bytes) (sha256 : bytes -> bytes).

(** [SpkiPinVerifier::verify_server_cert]. *)
Definition pin_accepts (expected cert : bytes) : bool :=
  match spki cert with
  | None => false
  | Some key => bool_decide (sha256 key = expected)
  end.

(** [TofuVerifier::verify_server_cert]: accept, and remember the fingerprint. *)
Definition tofu_learns (cert : bytes) : option str :=
  key ← spki cert; Some (SHA256_PREFIX ++ hex_encode (sha256 key)).

Definition NO_FINGERPRINT : str := lit "server pin has no fingerprint (only IpMode is supported today)".

(** [build_client_tls] of [session.rs]: the pin the verifier is built with. *)
Definition build_client_tls (pin : ServerPin) : Result bytes ClientError :=
  let? fp := fingerprint_bytes pin in
  match fp with Some raw => Ok raw | None => Err (CE_Config NO_FINGERPRINT) end.

End Identity.

(** ** The configuration file *)

Section ConfigFile.

(** [toml]: serialising and parsing a configuration; the errors are texts. *)
Context (toml_to : ClientConfig -> Result str str) (toml_from : str -> Result ClientConfig str).
Context (path : str).

(** The file and its temporary sibling. *)
Record ConfigDir := { cd_file : option str; cd_tmp : option str }.

(** Outcomes of the calls of [save_to], in order; a failed write may have put a part of the
    text into the temporary file. *)
Record SaveIo := {
  si_mkdir : option Z;
  si_write : option (option nat * Z);
  si_chmod : option Z;
  si_rename : option Z;
}.

(** [read_error] is the text of the error when there is no file to read. *)
Definition load_from (read_error : str) (d : ConfigDir) : Result ClientConfig ClientError :=
  match cd_file d with
  | None => Err (CE_Config (lit "read " ++ path ++ lit ": " ++ read_error))
  | Some text =>
    map_err (fun e => CE_Config (lit "parse " ++ path ++ lit ": " ++ e)) (toml_from text)
  end.

Definition save_to (io : SaveIo) (cfg : ClientConfig) (d : ConfigDir) : Result unit ClientError * ConfigDir :=
  match si_mkdir io with
  | Some e => (Err (CE_Io e), d)
  | None =>
    match toml_to cfg with
    | Err e => (Err (CE_Config (lit "serialize: " ++ e)), d)
    | Ok text =>
      match si_write io with
      | Some (part, e) =>
        (Err (CE_Io e), {| cd_file := cd_file d;
                           cd_tmp := match part with Some k => Some (take k text) | None => cd_tmp d end |})
      | None =>
        let d := {| cd_file := cd_file d; cd_tmp := Some text |} in
        match si_chmod io with
        | Some e => (Err (CE_Io e), d)
        | None =>
          match si_rename io with
          | Some e => (Err (CE_Io e), d)
          | None => (Ok tt, {| cd_file := cd_tmp d; cd_tmp := None |})
          end
        end
      end
    end
  end.

Context (Htoml : forall cfg text, toml_to cfg = Ok text -> toml_from text = Ok cfg).

(** Saving is all or nothing: either it succeeds and what is loaded next is what was saved,
    or the file is what it was. *)
Lemma save_atomic (io : SaveIo) (cfg : ClientConfig) (d : ConfigDir) (read_error : str) :
  let '(r, d') := save_to io cfg d in
  match r with
  | Ok _ => load_from read_error d' = Ok cfg
  | Err _ => cd_file d' = cd_file d
  end.
Proof.
  unfold save_to. destruct (si_mkdir io); [done|]. destruct (toml_to cfg) as [text|] eqn:E; [|done].
  destruct (si_write io) as [[]|]; [done|]. destruct (si_chmod io); [done|]. destruct (si_rename io); [done|].
  unfold load_from. simpl. by rewrite (Htoml _ _ E).
Qed.
End ConfigFile.

(** ** The command line *)

(** [split_host_port]. *)
Definition split_host_port (server : str) : str * Z :=
  match rsplit_once 58 server with
  | Some (host, port) =>
    match parse_uint 16 port with Some p => (host, p) | None => (server, DEFAULT_UDP_PORT) end
  | None => (server, DEFAULT_UDP_PORT)
  end.

(** [Display] of [AuthConfigError]. *)
Definition AuthConfigError_fmt (e : AuthConfigError) : str :=
  match e with
  | MissingColon => lit "--auth value missing the `:` separator"
  | EmptyUser => lit "--auth username is empty"
  | EnvUnset var => lit "env var `" ++ var ++ lit "` is unset or empty"
  | FileRead path err => lit "cannot read `" ++ path ++ lit "`: " ++ err
  | FileEmpty path => lit "file `" ++ path ++ lit "` is empty"
  end.

Definition auth_err (e : AuthConfigError) : ClientError := CE_Config (lit "auth flag: " ++ AuthConfigError_fmt e).

(** The seven flags; the session store is fresh. *)
Record AuthFlags := {
  af_auth : option str;
  af_auth_env : option str;
  af_auth_file : option str;
  af_api_key : option str;
  af_api_key_env : option str;
  af_api_key_file : option str;
  af_auth_realm : option str;
}.

Definition build_auth_config (getenv : str -> option str) (read : str -> Result str str) (f : AuthFlags) :
    Result (option AuthConfig) ClientError :=
  let realm := default DEFAULT_REALM (af_auth_realm f) in
  let? policy :=
    match af_auth f, af_auth_env f, af_auth_file f, af_api_key f, af_api_key_env f, af_api_key_file f with
    | Some value, _, _, _, _, _ =>
      let? p := map_err auth_err (session_from_userpass value) in Ok (Some p)
    | None, Some var, _, _, _, _ =>
      let? v := map_err auth_err (read_env var (getenv var)) in
      let? p := map_err auth_err (session_from_userpass v) in Ok (Some p)
    | None, None, Some path, _, _, _ =>
      let? v := map_err auth_err (read_file path (read path)) in
      let? p := map_err auth_err (session_from_userpass v) in Ok (Some p)
    | None, None, None, Some v, _, _ => Ok (Some (api_key_from_str v))
    | None, None, None, None, Some var, _ =>
      let? v := map_err auth_err (read_env var (getenv var)) in Ok (Some (api_key_from_str v))
    | None, None, None, None, None, Some path =>
      let? v := map_err auth_err (read_file path (read path)) in Ok (Some (api_key_from_str v))
    | None, None, None, None, None, None => Ok None
    end in
  Ok ((fun p => {| ac_policy := p; ac_realm := realm |}) <$> policy).

(** [format!("krot-{n:08x}")] of a random [u32]. *)
Definition hex8 (n : Z) : str :=
  map (fun i => hex_char (Z.land (Z.shiftr n (4 * i)) 15)) [7; 6; 5; 4; 3; 2; 1; 0].

Definition default_label (n : Z) : str := lit "krot-" ++ hex8 n.

#[local] Arguments lit : simpl never.

(** ** Key pair and pin *)

Section PinTheorems.
Context {SK VK : Type} `{Ed25519 SK VK} `{SeedBytes SK} `{!SeedBytesLaws SK} `{Hex} `{!HexLaws}.
Context (hex_error : str -> str).

Lemma decode_32_encode name bs :
  Forall is_byte bs -> length bs = 32%nat -> decode_32 hex_error name (hex_encode bs) = Ok bs.
Proof. intros Hb Hl. unfold decode_32. by rewrite hex_roundtrip, Hl. Qed.

(** A generated identity reads back as its key pair. *)
Lemma generated_signing_key (sk : SK) : signing_key hex_error (Identity_generate sk) = Ok sk.
Proof.
  destruct (seed_bytes sk) as [Hb Hl]. unfold signing_key. simpl.
  rewrite decode_32_encode by done. simpl. by rewrite seed_roundtrip.
Qed.

Lemma generated_pubkey (sk : SK) :
  Forall is_byte (ed_public sk) -> length (ed_public sk) = 32%nat ->
  pubkey hex_error (Identity_generate sk) = Ok {| pk_raw := ed_public sk |}.
Proof. intros Hb Hl. unfold pubkey. simpl. by rewrite decode_32_encode. Qed.

End PinTheorems.

Section Tofu.
Context `{Hex} `{!HexLaws} (spki : bytes -> option bytes) (sha256 : bytes -> bytes).

(** Trust on first use pins the server.  The fingerprint remembered while enrolling
    against a certificate is accepted as a pin, and a later connection is accepted exactly
    when the server presents a certificate whose public key has the same SHA-256 digest. *)
Theorem tofu_pins (pin : ServerPin) (cert cert' key : bytes)
    (Hkey : spki cert = Some key) (Hpin : sp_fingerprint pin = tofu_learns spki sha256 cert)
    (Hsha : Forall is_byte (sha256 key) /\ length (sha256 key) = 32%nat) :
  build_client_tls pin = Ok (sha256 key) /\
  (pin_accepts spki sha256 (sha256 key) cert' = true <->
     exists key', spki cert' = Some key' /\ sha256 key' = sha256 key).
Proof.
  destruct Hsha as [Hb Hl]. unfold tofu_learns in Hpin. rewrite Hkey in Hpin. cbn [mbind option_bind] in Hpin.
  unfold build_client_tls, fingerprint_bytes, parse_fingerprint. rewrite Hpin.
  rewrite (proj2 (strip_prefix_Some _ _ _) eq_refl), hex_roundtrip, Hl by done. split; [done|].
  unfold pin_accepts. destruct (spki cert') as [key'|]; [|naive_solver].
  rewrite bool_decide_eq_true. naive_solver.
Qed.
End Tofu.

(** Saving the configuration is all or nothing: either it succeeds and the next load
    gives back what was saved, or the configuration file is untouched, wherever the write
    failed. *)
Theorem config_save_atomic (toml_to : ClientConfig -> Result str str)
    (toml_from : str -> Result ClientConfig str)
    (Htoml : forall cfg text, toml_to cfg = Ok text -> toml_from text = Ok cfg)
    (path read_error : str) (io : SaveIo) (cfg : ClientConfig) (d : ConfigDir) :
  let '(r, d') := save_to toml_to io cfg d in
  match r with
  | Ok _ => load_from toml_from path read_error d' = Ok cfg
  | Err _ => cd_file d' = cd_file d
  end.
Proof. by apply save_atomic. Qed.

(** ** The command line *)

Definition auth_given (f : AuthFlags) : bool :=
  existsb (fun o => bool_decide (is_Some o))
    [af_auth f; af_auth_env f; af_auth_file f; af_api_key f; af_api_key_env f; af_api_key_file f].

(** A flag that is given is not dropped. *)
Lemma auth_given_kept (getenv : str -> option str) (read : str -> Result str str) (f : AuthFlags) :
  auth_given f = true -> build_auth_config getenv read f <> Ok None.
Proof.
  unfold auth_given, build_auth_config, result_bind, map_err. intros Hg.
  repeat case_match; simplify_eq/=; done.
Qed.

(** C38: An authentication flag is never silently dropped.  If any of the six sources is
    given, the result is a policy or an error, and a session policy has a user name. *)
Theorem auth_flags_respected (getenv : str -> option str) (read : str -> Result str str) (f : AuthFlags)
    (Hgiven : auth_given f = true) :
  match build_auth_config getenv read f with
  | Ok None => False
  | Ok (Some cfg) => ac_realm cfg = default DEFAULT_REALM (af_auth_realm f) /\
      match ac_policy cfg with
      | Session user _ => user <> []
      | ApiKey key => trim key = key
      end
  | Err _ => True
  end.
Proof.
  assert (Hu : forall v p, session_from_userpass v = Ok p ->
    match p with Session user _ => user <> [] | ApiKey key => trim key = key end).
  { intros v p. unfold session_from_userpass. destruct (split_once 58 v) as [[user pass]|]; [|done].
    case_bool_decide; [done|]. by intros [= <-]. }
  unfold auth_given, build_auth_config, result_bind, map_err, api_key_from_str in *.
  repeat case_match; simplify_eq/=; try done; (split; [done|]); try apply trim_idemp;
    match goal with Hp : session_from_userpass _ = Ok _ |- _ => by apply Hu in Hp end.
Qed.

Lemma hex_char_label n : 0 <= n < 16 -> is_label_alnum (hex_char n) = true.
Proof.
  intros Hn. unfold is_label_alnum, is_ascii_lower, is_ascii_digit, hex_char.
  rewrite orb_true_iff, !andb_true_iff, !Z.leb_le. destruct (Z.leb_spec n 9); lia.
Qed.

Lemma nibble_range n : 0 <= Z.land n 15 < 16.
Proof. change 15 with (Z.ones 4). rewrite Z.land_ones by lia. apply Z.mod_pos_bound. lia. Qed.

(** The name the client makes up is one the server accepts: [krot-] and eight hex digits
    is a valid label, for every random number. *)
Theorem default_label_valid (n : Z) : is_valid_label (default_label n) = true.
Proof.
  assert (Hd : forall i, is_label_alnum (hex_char (Z.land (Z.shiftr n i) 15)) = true)
    by (intros i; apply hex_char_label, nibble_range).
  assert (Hg : label_grammar (default_label n)).
  { unfold default_label, hex8.
    set (d := fun i => hex_char (Z.land (Z.shiftr n (4 * i)) 15)).
    assert (Hd' : forall i, is_label_alnum (d i) = true) by (intros i; apply Hd). clearbody d. clear Hd.
    cbn [map]. exists 107, (lit "rot-" ++ [d 7; d 6; d 5; d 4; d 3; d 2; d 1; d 0]). split; [reflexivity|].
    split; [reflexivity|]. right. exists (lit "rot-" ++ [d 7; d 6; d 5; d 4; d 3; d 2; d 1]), (d 0).
    split; [reflexivity|]. split; [vm_compute; lia|]. split; [|apply Hd'].
    rewrite forallb_app. cbn [forallb]. by rewrite !Hd'. }
  apply valid_label_grammar.
  - eapply Forall_impl; [|by apply label_grammar_ascii]. intros c Hc. simpl in Hc.
    apply is_scalar_true. lia.
  - split; [|done]. unfold default_label. intros Heq. by apply (f_equal (hd 0)) in Heq.
Qed.

(** A server given with its port is split there, whatever the host looks like. *)
Lemma split_host_port_with_port host p :
  in_u 16 p -> split_host_port (host ++ [58] ++ fmt_dec p) = (host, p).
Proof.
  intros Hp. unfold split_host_port. simpl. rewrite rsplit_once_app.
  - by rewrite parse_uint_fmt_dec.
  - apply fmt_dec_no; [apply Hp|lia].
Qed.

Lemma split_host_port_bare host : 58 ∉ host -> split_host_port host = (host, DEFAULT_UDP_PORT).
Proof.
  intros Hh. unfold split_host_port. destruct (rsplit_once 58 host) as [[a b]|] eqn:E; [|done].
  exfalso. apply Hh. unfold rsplit_once in E.
  destruct (split_once 58 (rev host)) as [[x y]|] eqn:Es; [|done].
  apply split_once_Some in Es as [Es _]. apply (f_equal (@rev Z)) in Es. rewrite rev_involutive in Es.
  rewrite Es, rev_app_distr. simpl. set_solver.
Qed.

(** A bare IPv6 address loses its last group to the port. *)
Example ipv6_host_split : split_host_port (lit "2001:db8::1") = (lit "2001:db8:", 1).
Proof. vm_compute. reflexivity. Qed.

(** ** The theorems at concrete inputs *)

(** Hex digits that are bytes themselves, two per byte. *)
Definition toy_hex_encode (bs : bytes) : str := concat (map (fun b => [b / 16; b mod 16]) bs).

Fixpoint toy_hex_decode (s : str) : option bytes :=
  match s with
  | [] => Some []
  | h :: l :: s => bs ← toy_hex_decode s; Some (h * 16 + l :: bs)
  | _ => None
  end.

#[local] Instance toy_hex : Hex := {| hex_encode := toy_hex_encode; hex_decode := toy_hex_decode |}.

#[local] Instance toy_hex_laws : HexLaws.
Proof.
  split. intros bs _. simpl. induction bs as [|b bs IH]; [done|]. unfold toy_hex_encode in *. simpl.
  rewrite IH. simpl. do 2 f_equal. pose proof (Z.div_mod b 16 ltac:(lia)). lia.
Qed.

Definition toy_sha (bs : bytes) : bytes := repeat (len bs mod 256) 32.

Definition toy_pin : ServerPin :=
  {| sp_host := lit "relay"; sp_quic_port := 7853; sp_tcp_port := None; sp_sni := None;
     sp_fingerprint := tofu_learns Some toy_sha (lit "cert") |}.

Lemma tofu_pins_witness : build_client_tls toy_pin = Ok (toy_sha (lit "cert")).
Proof.
  apply (tofu_pins Some toy_sha toy_pin (lit "cert") (lit "cert") (lit "cert")).
  - reflexivity.
  - reflexivity.
  - split; [solve_bytes|reflexivity].
Defined.

Definition toy_config : ClientConfig :=
  {| cc_identity := {| id_private_key := lit "k"; id_public_key := lit "p" |}; cc_server := toy_pin |}.

(** A serialiser for one configuration. *)
Definition toy_toml_to (c0 c : ClientConfig) : Result str str :=
  if bool_decide (c = c0) then Ok (lit "text") else Err (lit "unsupported").
Definition toy_toml_from (c0 : ClientConfig) (t : str) : Result ClientConfig str :=
  if bool_decide (t = lit "text") then Ok c0 else Err (lit "expected text").

Lemma toy_toml_law c0 cfg text : toy_toml_to c0 cfg = Ok text -> toy_toml_from c0 text = Ok cfg.
Proof.
  unfold toy_toml_to. case_bool_decide as Hc; [|done]. intros [= <-]. by rewrite Hc.
Qed.

Definition toy_dir : ConfigDir := {| cd_file := Some (lit "old"); cd_tmp := None |}.

Lemma config_save_atomic_witness :
  load_from (toy_toml_from toy_config) (lit "config.toml") [] (save_to (toy_toml_to toy_config)
    {| si_mkdir := None; si_write := None; si_chmod := None; si_rename := None |} toy_config toy_dir).2
    = Ok toy_config.
Proof.
  exact (config_save_atomic (toy_toml_to toy_config) (toy_toml_from toy_config) (toy_toml_law toy_config) (lit "config.toml") []
    {| si_mkdir := None; si_write := None; si_chmod := None; si_rename := None |} toy_config toy_dir).
Defined.

Definition toy_flags : AuthFlags :=
  {| af_auth := None; af_auth_env := Some (lit "CREDS"); af_auth_file := None; af_api_key := None;
     af_api_key_env := None; af_api_key_file := None; af_auth_realm := None |}.

Lemma auth_flags_respected_witness :
  match build_auth_config (fun _ => Some (lit "alice:pw")) (fun _ => Err []) toy_flags with
  | Ok None => False
  | Ok (Some cfg) => ac_realm cfg = DEFAULT_REALM /\
      match ac_policy cfg with Session user _ => user <> [] | ApiKey key => trim key = key end
  | Err _ => True
  end.
Proof.
  exact (auth_flags_respected (fun _ => Some (lit "alice:pw")) (fun _ => Err []) toy_flags eq_refl).
Defined.
