(* ===== verification/Certs.v ===== *)
(** * Certs: the server's certificate on disk

    [krot-server/src/identity.rs] (the self-signed identity of IpMode),
    [krot-server/src/domain/tls_source.rs] (certificate files given by the operator) and
    [krot-server/src/fsync.rs]: the two PEM readers, the files, and how an identity is
    created once and found again by every later start.

    The certificate generator [rcgen], the parser [x509-parser], [sha2], [base64], [hex] and
    [rustls] are parameters.  The disk is a map from paths to files with their permission
    bits; every call of the operating system may fail, and a failed write leaves a part of
    the text. *)

From S2P Require Import Prelude RustStr Wire Framing Types Registry Admin Handshake Config Http LoginPage LocalAuth ClientConfig.

Local Open Scope Z_scope.

(** ** The disk *)

(** A file: its text and its permission bits. *)
Record File := { f_text : str; f_mode : Z }.

(** The files, the permission bits of a new file ([0o666] less the umask), and the outcomes
    of the calls to come: an error and, for a write, how much of the text reached the file. *)
Record Disk := {
  dk_files : gmap str File;
  dk_create_mode : Z;
  dk_calls : list (option (Z * nat));
}.

Abbreviation FsM := (SM Disk ServerError).

Definition ENOENT : Z := 2.

Definition set_files (f : gmap str File) (d : Disk) : Disk :=
  {| dk_files := f; dk_create_mode := dk_create_mode d; dk_calls := dk_calls d |}.

Definition set_calls (c : list (option (Z * nat))) (d : Disk) : Disk :=
  {| dk_files := dk_files d; dk_create_mode := dk_create_mode d; dk_calls := c |}.

(** The outcome of the next call. *)
Definition next_call (d : Disk) : option (Z * nat) * Disk :=
  match dk_calls d with
  | o :: c => (o, set_calls c d)
  | [] => (None, d)
  end.

(** A call that has no effect on a file. *)
Definition fs_call : FsM unit := fun d =>
  match next_call d with
  | (Some (e, _), d) => (Err (SE_Io e), d)
  | (None, d) => (Ok tt, d)
  end.

Definition on_files (f : gmap str File -> gmap str File) : FsM unit :=
  sm_modify (fun d => set_files (f (dk_files d)) d).

(** [Path::exists]: a metadata call, whose error is taken for absence. *)
Definition fs_exists (p : str) : FsM bool := fun d =>
  match next_call d with
  | (Some _, d) => (Ok false, d)
  | (None, d) => (Ok (bool_decide (is_Some (dk_files d !! p))), d)
  end.

(** [p.exists() && q.exists()]. *)
Definition both_exist (p q : str) : FsM bool :=
  let! has_p := fs_exists p in
  if has_p : bool then fs_exists q else sm_ret false.

Definition read_to_string (p : str) : FsM str :=
  let! _ := fs_call in
  let! f := sm_gets (fun d => dk_files d !! p) in
  match f with
  | None => sm_throw (SE_Io ENOENT)
  | Some f => sm_ret (f_text f)
  end.

(** [OpenOptions] with [write], [create] and [truncate]. *)
Definition open_truncate (p : str) : FsM unit :=
  let! _ := fs_call in
  sm_modify (fun d => set_files
    (<[p := {| f_text := []; f_mode := from_option f_mode (dk_create_mode d) (dk_files d !! p) |}]>
      (dk_files d)) d).

(** [write_all] into the file that was just truncated. *)
Definition fs_write_all (p text : str) : FsM unit := fun d =>
  let put t d := set_files (alter (fun f => {| f_text := t; f_mode := f_mode f |}) p (dk_files d)) d in
  match next_call d with
  | (Some (e, k), d) => (Err (SE_Io e), put (take k text) d)
  | (None, d) => (Ok tt, put text d)
  end.

Definition set_permissions (p : str) (mode : Z) : FsM unit :=
  let! _ := fs_call in
  on_files (alter (fun f => {| f_text := f_text f; f_mode := mode |}) p).

Definition fs_rename (from to : str) : FsM unit :=
  let! _ := fs_call in
  let! f := sm_gets (fun d => dk_files d !! from) in
  match f with
  | None => sm_throw (SE_Io ENOENT)
  | Some f => on_files (fun m => <[to := f]> (delete from m))
  end.

(** [fsync::sync_parent]: open the directory, sync it. *)
Definition sync_parent : FsM unit :=
  let! _ := fs_call in
  fs_call.

(** [Path::set_extension] on the path of a file. *)
Definition with_extension (ext path : str) : str :=
  let '(dir, name) :=
    match rsplit_once 47 path with Some (d, n) => (d ++ [47], n) | None => ([], path) end in
  let stem :=
    match rsplit_once 46 name with
    | Some (s, _) => if bool_decide (s = []) then name else s
    | None => name
    end in
  dir ++ stem ++ [46] ++ ext.

Definition write_and_sync (path contents : str) (mode : Z) : FsM unit :=
  let! _ := open_truncate path in
  let! _ := fs_write_all path contents in
  let! _ := fs_call in
  set_permissions path mode.

Definition atomic_write_text (path contents : str) (mode : Z) : FsM unit :=
  let tmp := with_extension (lit "tmp") path in
  let! _ := write_and_sync tmp contents mode in
  let! _ := fs_rename tmp path in
  sync_parent.

(** ** PEM *)

(** The lines of [pem_to_der], until the first end marker of any kind. *)
Fixpoint pem_body (inside : bool) (b64 : str) (ls : list str) : str :=
  match ls with
  | [] => b64
  | line :: ls =>
    if starts_with (lit "-----BEGIN") line then pem_body true b64 ls
    else if starts_with (lit "-----END") line then b64
    else pem_body inside (if inside then b64 ++ trim line else b64) ls
  end.

Section Certificates.
Context `{Base64} `{Hex}.
(** The texts of [base64] and [x509-parser] errors. *)
Context (b64_error : str -> str) (x509_error : bytes -> str).
Context (spki : bytes -> option bytes) (sha256 : bytes -> bytes).

Definition pem_to_der (pem : str) : Result bytes ServerError :=
  let b64 := pem_body false [] (lines pem) in
  ok_or (b64_decode b64) (SE_Keys (lit "bad PEM base64: " ++ b64_error b64)).

(** [pem_bundle]: every block with the expected tag. *)
Fixpoint bundle_loop (begin end_ : str) (in_block : bool) (b64 : str) (out : list bytes)
    (ls : list str) : Result (list bytes) ServerError :=
  match ls with
  | [] => Ok out
  | line :: ls =>
    if starts_with begin line then bundle_loop begin end_ true [] out ls
    else if starts_with end_ line then
      let? bytes := ok_or (b64_decode b64) (SE_Keys (lit "bad base64: " ++ b64_error b64)) in
      bundle_loop begin end_ false b64 (out ++ [bytes]) ls
    else bundle_loop begin end_ in_block (if in_block then b64 ++ trim line else b64) out ls
  end.

Definition begin_line (tag : str) : str := lit "-----BEGIN " ++ tag ++ lit "-----".
Definition end_line (tag : str) : str := lit "-----END " ++ tag ++ lit "-----".

Definition pem_bundle (pem expected_tag : str) : Result (list bytes) ServerError :=
  bundle_loop (begin_line expected_tag) (end_line expected_tag) false [] [] (lines pem).

(** ** The identity *)

Definition CERT_FILE : str := lit "self.pem".
Definition KEY_FILE : str := lit "self.key.pem".

Record ServerIdentity := {
  si_cert_der : bytes;
  si_key_der : bytes;
  si_spki_sha256 : str;
}.

(** What [generate] returns: the certificate and the key, as DER and as PEM. *)
Record Generated := {
  g_cert_der : bytes;
  g_key_der : bytes;
  g_cert_pem : str;
  g_key_pem : str;
}.

Definition compute_spki_fingerprint (cert_der : bytes) : Result str ServerError :=
  match spki cert_der with
  | None => Err (SE_Keys (lit "cert parse: " ++ x509_error cert_der))
  | Some key => Ok (hex_encode (sha256 key))
  end.

Definition lift {A} (r : Result A ServerError) : FsM A := fun d => (r, d).

(** [generated] is the outcome of [generate]; [0o644] and [0o600] are the modes. *)
Definition load_or_create (generated : Result Generated ServerError) (data_dir : str) :
    FsM ServerIdentity :=
  let! _ := fs_call in
  let cert_path := path_join data_dir CERT_FILE in
  let key_path := path_join data_dir KEY_FILE in
  let! present := both_exist cert_path key_path in
  let! ders :=
    if present : bool then
      let! cert_pem := read_to_string cert_path in
      let! key_pem := read_to_string key_path in
      let! cert_der := lift (pem_to_der cert_pem) in
      let! key_der := lift (pem_to_der key_pem) in
      sm_ret (cert_der, key_der)
    else
      let! g := lift generated in
      let! _ := atomic_write_text cert_path (g_cert_pem g) 420 in
      let! _ := atomic_write_text key_path (g_key_pem g) 384 in
      sm_ret (g_cert_der g, g_key_der g) in
  let! spki_sha256 := lift (compute_spki_fingerprint ders.1) in
  sm_ret {| si_cert_der := ders.1; si_key_der := ders.2; si_spki_sha256 := spki_sha256 |}.

(** ** Certificate files of the operator *)

(** [rustls]: whether a chain and a key make a configuration. *)
Context (single_cert : list bytes -> bytes -> option Z).

(** A server configuration: the chain it presents and its key. *)
Record TlsConfig := { tc_chain : list bytes; tc_key : bytes }.

Definition with_single_cert (chain : list bytes) (key : bytes) : Result TlsConfig ServerError :=
  match single_cert chain key with
  | Some e => Err (SE_Rustls e)
  | None => Ok {| tc_chain := chain; tc_key := key |}
  end.

Definition into_rustls (i : ServerIdentity) : Result TlsConfig ServerError :=
  with_single_cert [si_cert_der i] (si_key_der i).

Definition CERTIFICATE : str := lit "CERTIFICATE".
Definition PRIVATE_KEY : str := lit "PRIVATE KEY".

Definition load_tls_from_pem (cert_path key_path : str) : FsM TlsConfig :=
  let! cert_pem := read_to_string cert_path in
  let! key_pem := read_to_string key_path in
  let! certs := lift (pem_bundle cert_pem CERTIFICATE) in
  if bool_decide (certs = []) then
    sm_throw (SE_Keys (lit "no CERTIFICATE blocks in " ++ cert_path))
  else
    let! keys := lift (pem_bundle key_pem PRIVATE_KEY) in
    let! key := lift (ok_or (head keys) (SE_Keys (lit "no PRIVATE KEY block in " ++ key_path))) in
    lift (with_single_cert certs key).

Definition from_domain_tls (tls : DomainTls) : FsM TlsConfig :=
  match tls with
  | PemFile cert key => load_tls_from_pem cert key
  | Acme _ _ => sm_throw (SE_Keys (lit "TlsSource::from_domain_tls does not handle ACME; use domain::acme::acquire_cert via Server::start"))
  end.

End Certificates.

(** ** PEM texts

    What [rcgen] writes and the tools of operators write (RFC 7468): blocks of base64 lines
    between a begin and an end line. *)

Record PemBlock := { pb_tag : str; pb_der : bytes; pb_body : list str }.

Definition eol (nl : str) : Prop := nl = [10] \/ nl = [13; 10].

Definition body_char (c : Z) : Prop := is_whitespace c = false /\ c <> 45.
Definition tag_char (c : Z) : Prop := c <> 45 /\ c <> 10 /\ c <> 13.

Definition block_lines (b : PemBlock) : list str :=
  begin_line (pb_tag b) :: pb_body b ++ [end_line (pb_tag b)].

Definition pem_text (nl : str) (ls : list str) : str := concat (map (fun l => l ++ nl) ls).
Definition pem_file (nl : str) (bs : list PemBlock) : str := pem_text nl (concat (map block_lines bs)).

Definition wf_block `{Base64} (b : PemBlock) : Prop :=
  concat (pb_body b) = b64_encode (pb_der b) /\ Forall is_byte (pb_der b) /\
  Forall (Forall body_char) (pb_body b) /\ Forall tag_char (pb_tag b).

#[local] Arguments lit : simpl never.

Definition one_line (l : str) : Prop := 10 ∉ l /\ 13 ∉ l.

Lemma chomp_eol nl l : eol nl -> one_line l -> chomp (l ++ nl) = l.
Proof.
  intros [-> | ->] [H10 H13]; unfold chomp.
  - rewrite strip_suffix_snoc. destruct (strip_suffix [13] l) eqn:E; [|done].
    apply strip_suffix_Some in E as ->. set_solver.
  - change [13; 10] with ([13] ++ [10]). by rewrite app_assoc, !strip_suffix_snoc.
Qed.

Lemma lines_pem_text nl ls : eol nl -> Forall one_line ls -> lines (pem_text nl ls) = ls.
Proof.
  intros Hnl Hls. assert (Hs : split_inclusive_nl (pem_text nl ls) = map (fun l => l ++ nl) ls).
  { unfold pem_text. destruct Hnl as [-> | ->].
    - apply split_inclusive_nl_concat. eapply Forall_impl; [|exact Hls]. by intros l [? ?].
    - pose proof (split_inclusive_nl_concat (map (fun l => l ++ [13]) ls)) as E.
      rewrite map_map in E.
      rewrite (map_ext (fun l => (l ++ [13]) ++ [10]) (fun l => l ++ [13; 10])) in E
        by (intros; by rewrite <-app_assoc).
      apply E, Forall_map. eapply Forall_impl; [|exact Hls]. intros l [? ?]. set_solver. }
  unfold lines. rewrite Hs, map_map. clear Hs.
  induction Hls as [|l ls Hl _ IH]; simpl; [done|]. by rewrite chomp_eol, IH.
Qed.

(** Marker lines tell tags apart. *)
Lemma starts_with_app_common a p s : starts_with (a ++ p) (a ++ s) = starts_with p s.
Proof.
  unfold starts_with. induction a as [|c a IH]; simpl; [done|]. rewrite Z.eqb_refl. exact IH.
Qed.

Lemma marker_starts T t :
  Forall tag_char T -> Forall tag_char t ->
  starts_with (T ++ lit "-----") (t ++ lit "-----") = bool_decide (T = t).
Proof.
  intros HT Ht. case_bool_decide as E.
  - subst. apply starts_with_true. exists []. by rewrite app_nil_r.
  - apply not_true_iff_false. intros [r Hr]%starts_with_true. apply E.
    assert (Hno : forall s, Forall tag_char s -> 45 ∉ s).
    { intros s Hs. apply Forall_not_in. eapply Forall_impl; [|exact Hs]. by intros c [? _]. }
    change (lit "-----") with (45 :: lit "----") in Hr. rewrite <-app_assoc in Hr. simpl in Hr.
    pose proof (split_once_hit 45 t (lit "----") (Hno _ Ht)) as E1.
    rewrite Hr, split_once_hit in E1 by auto. congruence.
Qed.

Lemma begin_starts T t :
  Forall tag_char T -> Forall tag_char t ->
  starts_with (begin_line T) (begin_line t) = bool_decide (T = t).
Proof. intros. unfold begin_line. rewrite starts_with_app_common. by apply marker_starts. Qed.

Lemma end_starts T t :
  Forall tag_char T -> Forall tag_char t ->
  starts_with (end_line T) (end_line t) = bool_decide (T = t).
Proof. intros. unfold end_line. rewrite starts_with_app_common. by apply marker_starts. Qed.

Lemma begin_not_end T t : starts_with (begin_line T) (end_line t) = false.
Proof. reflexivity. Qed.

Lemma end_not_begin T t : starts_with (end_line T) (begin_line t) = false.
Proof. reflexivity. Qed.

Lemma body_not_marker p l : Forall body_char l -> starts_with (45 :: p) l = false.
Proof.
  intros Hl. destruct l as [|c l]; [done|]. apply Forall_cons_1 in Hl as [[_ Hc] _].
  unfold starts_with. cbn [strip_prefix]. by rewrite (proj2 (Z.eqb_neq 45 c)) by done.
Qed.

Lemma body_trim l : Forall body_char l -> trim l = l.
Proof. intros Hl. apply trim_visible. eapply Forall_impl; [|done]. by intros c [? _]. Qed.

Section PemTheorems.
Context `{Base64} `{!Base64Laws} (b64_error : str -> str).

Lemma block_one_line b : wf_block b -> Forall one_line (block_lines b).
Proof.
  intros (_ & _ & Hb & Ht). assert (Htag : 10 ∉ pb_tag b /\ 13 ∉ pb_tag b).
  { split; apply Forall_not_in; (eapply Forall_impl; [|exact Ht]); by intros c (? & ? & ?). }
  constructor; [|apply Forall_app; split; [|constructor; [|done]]].
  - unfold begin_line. split; rewrite !elem_of_app; vm_compute (lit _); set_solver.
  - eapply Forall_impl; [|exact Hb]. intros l Hl.
    split; apply Forall_not_in; (eapply Forall_impl; [|exact Hl]);
      intros c [Hc _] ->; vm_compute in Hc; discriminate.
  - unfold end_line. split; rewrite !elem_of_app; vm_compute (lit _); set_solver.
Qed.

Lemma bundle_loop_body p e in_block b64 out body ls :
  Forall (Forall body_char) body ->
  bundle_loop b64_error (45 :: p) (45 :: e) in_block b64 out (body ++ ls) =
  bundle_loop b64_error (45 :: p) (45 :: e) in_block
    (if in_block then b64 ++ concat body else b64) out ls.
Proof.
  intros Hb. revert b64. induction Hb as [|l body Hl _ IH]; intros b64; simpl.
  { destruct in_block; by rewrite ?app_nil_r. }
  rewrite !body_not_marker, body_trim by done. rewrite IH.
  destruct in_block; by rewrite <-?app_assoc.
Qed.

Lemma bundle_loop_lines T in_block b64 out body ls :
  Forall (Forall body_char) body ->
  bundle_loop b64_error (begin_line T) (end_line T) in_block b64 out (body ++ ls) =
  bundle_loop b64_error (begin_line T) (end_line T) in_block
    (if in_block then b64 ++ concat body else b64) out ls.
Proof. apply (bundle_loop_body (tl (begin_line T)) (tl (end_line T))). Qed.

Lemma bundle_loop_block T b in_b64 out ls :
  Forall tag_char T -> wf_block b ->
  exists b64, bundle_loop b64_error (begin_line T) (end_line T) false in_b64 out (block_lines b ++ ls) =
    bundle_loop b64_error (begin_line T) (end_line T) false b64
      (if bool_decide (T = pb_tag b) then out ++ [pb_der b] else out) ls.
Proof.
  intros HT (Hc & Hd & Hb & Ht). unfold block_lines.
  rewrite <-app_comm_cons, <-app_assoc. cbn [bundle_loop].
  rewrite begin_starts, end_not_begin by done. case_bool_decide as E.
  - rewrite bundle_loop_lines by done.
    cbn [app bundle_loop]. rewrite end_starts, bool_decide_true by done. cbn [app]. rewrite Hc.
    rewrite b64_roundtrip by done. cbn [ok_or result_bind]. eauto.
  - rewrite bundle_loop_lines by done.
    cbn [app bundle_loop]. rewrite begin_not_end, end_starts, bool_decide_false by done. eauto.
Qed.

(** A file of well-formed blocks reads as the contents of the blocks with the asked tag, in
    order, whatever the other blocks and the line ends are. *)
Lemma pem_bundle_file nl bs T :
  eol nl -> Forall tag_char T -> Forall wf_block bs ->
  pem_bundle b64_error (pem_file nl bs) T = Ok (map pb_der (filter (fun b => T = pb_tag b) bs)).
Proof.
  intros Hnl HT Hbs. unfold pem_bundle, pem_file. rewrite lines_pem_text; [|done|].
  2: { induction Hbs; cbn [map concat]; [done|]. apply Forall_app. split; [by apply block_one_line|done]. }
  assert (G : forall b64 out, bundle_loop b64_error (begin_line T) (end_line T) false b64 out
    (concat (map block_lines bs)) = Ok (out ++ map pb_der (filter (fun b => T = pb_tag b) bs))).
  { induction Hbs as [|b bs Hb _ IH]; intros b64 out.
    { by rewrite app_nil_r. }
    cbn [map concat]. destruct (bundle_loop_block T b b64 out (concat (map block_lines bs)) HT Hb) as [b64' ->].
    rewrite IH, filter_cons. case_bool_decide as E.
    - rewrite decide_True by done. by rewrite <-app_assoc.
    - by rewrite decide_False. }
  apply G.
Qed.

Lemma pem_body_lines inside b64 body ls :
  Forall (Forall body_char) body ->
  pem_body inside b64 (body ++ ls) = pem_body inside (if inside then b64 ++ concat body else b64) ls.
Proof.
  intros Hb. revert b64. induction Hb as [|l body Hl _ IH]; intros b64.
  { destruct inside; simpl; by rewrite ?app_nil_r. }
  cbn [app pem_body concat].
  assert (starts_with (lit "-----BEGIN") l = false) as -> by exact (body_not_marker _ l Hl).
  assert (starts_with (lit "-----END") l = false) as -> by exact (body_not_marker _ l Hl).
  rewrite body_trim, IH by done.
  destruct inside; by rewrite <-?app_assoc.
Qed.

(** A file of one block reads as its content. *)
Lemma pem_to_der_file nl b :
  eol nl -> wf_block b -> pem_to_der b64_error (pem_file nl [b]) = Ok (pb_der b).
Proof.
  intros Hnl Hb. unfold pem_to_der, pem_file. cbn [map concat]. rewrite app_nil_r.
  rewrite lines_pem_text by (done || by apply block_one_line). destruct Hb as (Hc & Hd & Hb & Ht).
  unfold block_lines. cbn [pem_body].
  replace (starts_with (lit "-----BEGIN") (begin_line (pb_tag b))) with true by reflexivity.
  rewrite pem_body_lines by done. cbn [pem_body app].
  replace (starts_with (lit "-----BEGIN") (end_line (pb_tag b))) with false by reflexivity.
  replace (starts_with (lit "-----END") (end_line (pb_tag b))) with true by reflexivity.
  by rewrite Hc, b64_roundtrip.
Qed.

End PemTheorems.

(** ** Files that survive *)

(** The files are the same but for those named in [ps]. *)
Definition same_but (ps : list str) (d d' : Disk) : Prop :=
  forall q, q ∉ ps -> dk_files d' !! q = dk_files d !! q.

#[global] Instance same_but_preorder ps : PreOrder (same_but ps).
Proof. split; [by intros d q|]. intros d1 d2 d3 H1 H2 q Hq. by rewrite (H2 q Hq), (H1 q Hq). Qed.

(** [m] changes no file but those named in [ps], however it ends. *)
Abbreviation touches_only ps := (sm_within (same_but ps)).

Lemma touches_lift {A} ps (r : Result A ServerError) : touches_only ps (lift r).
Proof. by intros d. Qed.

Lemma next_call_files d : dk_files (next_call d).2 = dk_files d.
Proof. unfold next_call. by destruct (dk_calls d). Qed.

Lemma fs_call_files d : dk_files (fs_call d).2 = dk_files d.
Proof. unfold fs_call. rewrite <-(next_call_files d). by destruct (next_call d) as [[[e k]|] d']. Qed.

Lemma touches_call ps : touches_only ps fs_call.
Proof. intros d q _. by rewrite fs_call_files. Qed.

Lemma touches_modify ps f p :
  p ∈ ps -> (forall d q, q <> p -> dk_files (f d) !! q = dk_files d !! q) ->
  touches_only ps (sm_modify f : FsM unit).
Proof. intros Hp Hf d q Hq. apply Hf. set_solver. Qed.

#[global] Hint Resolve touches_lift touches_call : within.
#[global] Hint Extern 2 (_ ∈ _) => set_solver : within.

Lemma touches_open ps p : p ∈ ps -> touches_only ps (open_truncate p).
Proof.
  intros Hp. apply within_bind; [apply _|within|]. intros _. apply (touches_modify ps _ p Hp).
  intros d q Hq. cbn. by rewrite lookup_insert_ne.
Qed.

Lemma touches_write ps p text : p ∈ ps -> touches_only ps (fs_write_all p text).
Proof.
  intros Hp d q Hq. unfold fs_write_all. rewrite <-(next_call_files d).
  destruct (next_call d) as [[[e k]|] d']; cbn; (rewrite lookup_alter_ne; [done|set_solver]).
Qed.

Lemma touches_chmod ps p mode : p ∈ ps -> touches_only ps (set_permissions p mode).
Proof.
  intros Hp. apply within_bind; [apply _|within|]. intros _. apply (touches_modify ps _ p Hp).
  intros d q Hq. cbn. by rewrite lookup_alter_ne.
Qed.

Lemma touches_rename ps a b : a ∈ ps -> b ∈ ps -> touches_only ps (fs_rename a b).
Proof.
  intros Ha Hb. apply within_bind; [apply _|within|]. intros _.
  apply within_bind; [apply _|within|]. intros [f|]; [|within].
  intros d q Hq. cbn. rewrite lookup_insert_ne, lookup_delete_ne; [done|set_solver|set_solver].
Qed.

Lemma touches_read ps p : touches_only ps (read_to_string p).
Proof. unfold read_to_string. within. Qed.

Lemma fs_exists_files p d : exists b, (fs_exists p d).1 = Ok b /\ dk_files (fs_exists p d).2 = dk_files d.
Proof. unfold fs_exists, next_call. destruct (dk_calls d) as [|[[]|]]; by eexists. Qed.

Lemma touches_exists ps p : touches_only ps (fs_exists p).
Proof. intros d q _. by destruct (fs_exists_files p d) as (b & _ & ->). Qed.
#[global] Hint Resolve touches_open touches_write touches_chmod touches_rename touches_read touches_exists : within.

Lemma touches_both_exist ps p q : touches_only ps (both_exist p q).
Proof. unfold both_exist. within. Qed.
#[global] Hint Resolve touches_both_exist : within.

Lemma both_exist_files p q d b d' : both_exist p q d = (Ok b, d') -> dk_files d' = dk_files d.
Proof.
  intros E. pose proof (touches_both_exist [] p q d) as Ht. rewrite E in Ht. apply map_eq. intros r.
  apply Ht, not_elem_of_nil.
Qed.

(** Both files are found when the metadata calls succeed. *)
Lemma both_exist_found p q d c k :
  dk_files d !! p = Some c -> dk_files d !! q = Some k ->
  (forall j e, (j < 2)%nat -> dk_calls d !! j <> Some (Some e)) ->
  both_exist p q d = (Ok true, set_calls (drop 2 (dk_calls d)) d).
Proof.
  intros Hp Hq Hc. unfold both_exist, sm_bind, fs_exists, next_call.
  destruct d as [files mode calls]. cbn in *.
  destruct calls as [|[e|] calls]; [..|]; cbn; [by rewrite Hp; cbn; rewrite Hq|by destruct (Hc 0%nat e ltac:(lia))|].
  rewrite Hp. cbn. destruct calls as [|[e|] calls]; cbn; [by rewrite Hq|by destruct (Hc 1%nat e ltac:(lia))|].
  by rewrite Hq, ?drop_0.
Qed.

Lemma fs_call_next d u d' : fs_call d = (Ok u, d') -> dk_calls d' = tail (dk_calls d).
Proof.
  unfold fs_call, next_call. destruct (dk_calls d) as [|[[]|] c] eqn:E; intros [= _ <-]; [by rewrite E|done].
Qed.

Definition tmp_of (path : str) : str := with_extension (lit "tmp") path.

Lemma atomic_write_text_touches path text mode : touches_only [tmp_of path; path] (atomic_write_text path text mode).
Proof. unfold atomic_write_text, write_and_sync, sync_parent. cbv zeta. fold (tmp_of path). within. Qed.

Lemma fs_call_Ok d u d' : fs_call d = (Ok u, d') -> dk_files d' = dk_files d.
Proof. intros E. rewrite <-(fs_call_files d). by rewrite E. Qed.

Lemma write_all_Ok p text d u d' :
  fs_write_all p text d = (Ok u, d') ->
  dk_files d' = alter (fun f => {| f_text := text; f_mode := f_mode f |}) p (dk_files d).
Proof.
  unfold fs_write_all. rewrite <-(next_call_files d).
  destruct (next_call d) as [[[e k]|] y]; [done|]. by intros [= _ <-].
Qed.

Lemma write_and_sync_Ok p text mode d u d' :
  write_and_sync p text mode d = (Ok u, d') ->
  dk_files d' !! p = Some {| f_text := text; f_mode := mode |}.
Proof.
  intros (? & w1 & (? & w0 & _ & [= _ <-])%sm_bind_Ok & Hw)%sm_bind_Ok.
  apply sm_bind_Ok in Hw as (? & w2 & E2%write_all_Ok & Hw).
  apply sm_bind_Ok in Hw as (? & w3 & E3%fs_call_Ok & Hw).
  apply sm_bind_Ok in Hw as (? & w4 & E4%fs_call_Ok & [= _ <-]).
  cbn. rewrite lookup_alter_eq, E4, E3, E2, lookup_alter_eq. cbn. by rewrite lookup_insert_eq.
Qed.

Lemma rename_Ok a b d u d' :
  fs_rename a b d = (Ok u, d') -> dk_files d' !! b = dk_files d !! a.
Proof.
  intros (? & d1 & <-%fs_call_Ok & (f & d2 & [= <- <-] & Hr)%sm_bind_Ok)%sm_bind_Ok.
  destruct (dk_files d1 !! a); [|done]. injection Hr as _ <-. cbn. by rewrite lookup_insert_eq.
Qed.

Lemma atomic_write_text_Ok path text mode d u d' :
  atomic_write_text path text mode d = (Ok u, d') ->
  dk_files d' !! path = Some {| f_text := text; f_mode := mode |}.
Proof.
  intros (? & d1 & Hw%write_and_sync_Ok & (? & d2 & Hr%rename_Ok & Hs)%sm_bind_Ok)%sm_bind_Ok.
  apply sm_bind_Ok in Hs as (? & d3 & E3%fs_call_Ok & E4%fs_call_Ok). congruence.
Qed.

(** ** The identity is created once *)

Lemma path_join_pre dir :
  exists pre, (pre = [] \/ exists x, pre = x ++ [47]) /\ forall f, path_join dir f = pre ++ f.
Proof.
  unfold path_join. case_bool_decide as E; [exists []; by auto|].
  destruct (ends_with [47] dir) eqn:E'.
  - apply ends_with_true in E' as [r ->]. exists (r ++ [47]). eauto.
  - exists (dir ++ [47]). split; [eauto|]. intros f. by rewrite <-app_assoc.
Qed.

Lemma path_join_inj dir f g : path_join dir f = path_join dir g -> f = g.
Proof. destruct (path_join_pre dir) as (pre & _ & Hp). rewrite !Hp. apply app_inv_head. Qed.

Lemma tmp_of_join dir stem ext :
  47 ∉ stem ++ 46 :: ext -> 46 ∉ ext -> stem <> [] ->
  tmp_of (path_join dir (stem ++ 46 :: ext)) = path_join dir (stem ++ 46 :: lit "tmp").
Proof.
  intros H47 H46 Hne. destruct (path_join_pre dir) as (pre & Hpre & Hp). rewrite !Hp.
  unfold tmp_of, with_extension.
  assert (Hn : forall name, name = stem ++ 46 :: ext ->
    match rsplit_once 46 name with
    | Some (s, _) => if bool_decide (s = []) then name else s
    | None => name
    end = stem).
  { intros name ->. rewrite (rsplit_once_app 46 stem ext) by done. by rewrite bool_decide_false. }
  destruct Hpre as [-> |[x ->]].
  - assert (rsplit_once 47 (stem ++ 46 :: ext) = None) as Hr.
    { unfold rsplit_once. rewrite (proj2 (split_once_None 47 (rev (stem ++ 46 :: ext)))); [done|].
      by rewrite list_elem_of_In, <-in_rev, <-list_elem_of_In. }
    cbn [app]. rewrite Hr. by rewrite (Hn _ eq_refl).
  - rewrite <-!(app_assoc x). cbn [app]. rewrite (rsplit_once_app 47 x (stem ++ 46 :: ext)) by done.
    rewrite (Hn _ eq_refl). by rewrite <-app_assoc.
Qed.

Lemma tmp_cert dir : tmp_of (path_join dir CERT_FILE) = path_join dir (lit "self.tmp").
Proof. apply (tmp_of_join dir (lit "self") (lit "pem")); [vm_compute; set_solver..|done]. Qed.

Lemma tmp_key dir : tmp_of (path_join dir KEY_FILE) = path_join dir (lit "self.key.tmp").
Proof. apply (tmp_of_join dir (lit "self.key") (lit "pem")); [vm_compute; set_solver..|done]. Qed.

Section IdentityTheorems.
Context `{Base64} `{!Base64Laws} `{Hex} `{!HexLaws}.
Context (b64_error : str -> str) (x509_error : bytes -> str).
Context (spki : bytes -> option bytes) (sha256 : bytes -> bytes).
Context (dir : str).

Let cert_path := path_join dir CERT_FILE.
Let key_path := path_join dir KEY_FILE.
Let run := fun g => load_or_create b64_error x509_error spki sha256 g dir.

(** What the generator is documented to return: its PEM texts are the blocks of its DER. *)
Definition generated_ok (g : Result Generated ServerError) : Prop :=
  match g with
  | Err _ => True
  | Ok g => exists nl c k, eol nl /\ wf_block c /\ wf_block k /\
      g_cert_pem g = pem_file nl [c] /\ g_key_pem g = pem_file nl [k] /\
      pb_der c = g_cert_der g /\ pb_der k = g_key_der g
  end.

(** The files on disk are those of the identity [i]. *)
Definition settled (i : ServerIdentity) (d : Disk) : Prop :=
  exists c k, dk_files d !! cert_path = Some c /\ dk_files d !! key_path = Some k /\
    pem_to_der b64_error (f_text c) = Ok (si_cert_der i) /\
    pem_to_der b64_error (f_text k) = Ok (si_key_der i) /\
    compute_spki_fingerprint x509_error spki sha256 (si_cert_der i) = Ok (si_spki_sha256 i).

Lemma read_Ok p d t d' :
  read_to_string p d = (Ok t, d') -> exists f, dk_files d !! p = Some f /\ t = f_text f /\ dk_files d' = dk_files d.
Proof.
  intros (? & d1 & E1%fs_call_Ok & (f & d2 & [= <- <-] & Hr)%sm_bind_Ok)%sm_bind_Ok.
  rewrite <-E1. destruct (dk_files d1 !! p) as [f|]; [|done]. injection Hr as <- <-. eauto.
Qed.

(** A run that returns an identity leaves its files. *)
Lemma run_settles g d i d' : generated_ok g -> run g d = (Ok i, d') -> settled i d'.
Proof.
  intros Hg. unfold run, load_or_create. intros (? & d0 & E0%fs_call_Ok & Hr)%sm_bind_Ok.
  apply sm_bind_Ok in Hr as (present & d1 & _ & Hr). apply sm_bind_Ok in Hr as (ders & d2 & Hp & Hr).
  apply sm_bind_Ok in Hr as (fp & ? & Hfp & [= <- <-]). unfold lift in Hfp. injection Hfp as Hfp <-.
  case_match.
  - apply sm_bind_Ok in Hp as (ct & d3 & (c & Hc & -> & E3)%read_Ok & Hp).
    apply sm_bind_Ok in Hp as (kt & d4 & (k & Hk & -> & E4)%read_Ok & Hp).
    apply sm_bind_Ok in Hp as (cd & ? & [= Hcd <-] & Hp).
    apply sm_bind_Ok in Hp as (kd & ? & [= Hkd <-] & [= <- <-]).
    exists c, k. rewrite E4, E3. rewrite E3 in Hk. done.
  - apply sm_bind_Ok in Hp as (g' & ? & [= -> <-] & Hp).
    apply sm_bind_Ok in Hp as (? & d3 & Hc%atomic_write_text_Ok & Hp).
    apply sm_bind_Ok in Hp as (? & d4 & Hk & [= <- <-]).
    pose proof (atomic_write_text_touches key_path (g_key_pem g') 384 d3 cert_path) as Ht.
    fold cert_path key_path in Hc, Hk. rewrite Hk in Ht. cbn [snd] in Ht.
    apply atomic_write_text_Ok in Hk.
    destruct Hg as (nl & c & k & Hnl & Hwc & Hwk & Ec & Ek & Hdc & Hdk).
    eexists _, _. split_and!; [rewrite Ht; [exact Hc|]|exact Hk| | |done]; cbn.
    + unfold key_path. rewrite tmp_key. unfold cert_path.
      intros [E|[E|[]%elem_of_nil]%elem_of_cons]%elem_of_cons; by apply path_join_inj in E.
    + by rewrite Ec, pem_to_der_file, Hdc.
    + by rewrite Ek, pem_to_der_file, Hdk.
Qed.

(** The metadata calls of a start, its second and third, do not fail. *)
Definition checks_answered (calls : list (option (Z * nat))) : Prop :=
  forall j e, (1 <= j <= 2)%nat -> calls !! j <> Some (Some e).

Lemma checks_after d u d1 c k :
  fs_call d = (Ok u, d1) -> checks_answered (dk_calls d) ->
  dk_files d !! cert_path = Some c -> dk_files d !! key_path = Some k ->
  exists calls, both_exist cert_path key_path d1 = (Ok true, set_calls calls d1) /\
    (Exists (fun o => o <> None) calls -> Exists (fun o => o <> None) (dk_calls d)).
Proof.
  intros E Hch Hc Hk. pose proof (fs_call_next _ _ _ E) as Hn. apply fs_call_Ok in E.
  exists (drop 2 (dk_calls d1)). split.
  - apply (both_exist_found _ _ d1 c k); [by rewrite E..|]. intros j e Hj. rewrite Hn, lookup_tail.
    apply Hch. lia.
  - rewrite Hn. destruct (dk_calls d) as [|o calls]; [done|]. cbn [tail]. intros Hx. right.
    rewrite <-(take_drop 2 calls). apply Exists_app. by right.
Qed.

(** A run that finds both files changes neither, however it ends. *)
Lemma run_keeps g d c k p :
  checks_answered (dk_calls d) ->
  dk_files d !! cert_path = Some c -> dk_files d !! key_path = Some k ->
  dk_files (run g d).2 !! p = dk_files d !! p.
Proof.
  intros Hch Hc Hk. assert (Ht : forall b, touches_only (if b : bool then [] else [p])
    (let! ders :=
       if b then
         let! cert_pem := read_to_string cert_path in
         let! key_pem := read_to_string key_path in
         let! cert_der := lift (pem_to_der b64_error cert_pem) in
         let! key_der := lift (pem_to_der b64_error key_pem) in
         sm_ret (cert_der, key_der)
       else sm_throw (SE_Io 0) in
     let! fp := lift (compute_spki_fingerprint x509_error spki sha256 ders.1) in
     sm_ret {| si_cert_der := ders.1; si_key_der := ders.2; si_spki_sha256 := fp |})).
  { intros b. within. }
  specialize (Ht true). unfold run, load_or_create, sm_bind at 1.
  pose proof (fs_call_files d) as E. destruct (fs_call d) as [[u|e] d1] eqn:Ec; cbn [snd] in E; [|by rewrite <-E].
  destruct (checks_after d u d1 c k Ec Hch Hc Hk) as (calls & Eb & _).
  unfold sm_bind at 1. fold cert_path key_path. rewrite Eb.
  change (dk_files d) with (dk_files (set_calls calls d)).
  replace (dk_files (set_calls calls d)) with (dk_files (set_calls calls d1)) by (cbn; by rewrite E).
  apply Ht, not_elem_of_nil.
Qed.

Lemma settled_keeps g i d : checks_answered (dk_calls d) -> settled i d -> settled i (run g d).2.
Proof.
  intros Hch (c & k & Hc & Hk & Hs). exists c, k. by rewrite !(run_keeps g d c k _ Hch Hc Hk).
Qed.

(** Some call to come fails. *)
Definition failing (d : Disk) : Prop := Exists (fun o => o <> None) (dk_calls d).

(** A step that reads: it yields [a], unless its call fails. *)
Definition reads {A} (m : FsM A) (a : A) (d : Disk) : Prop :=
  (exists d', m d = (Ok a, d') /\ dk_files d' = dk_files d /\ (failing d' -> failing d)) \/
  (exists e d', m d = (Err e, d') /\ failing d).

Lemma call_reads d : reads fs_call tt d.
Proof.
  unfold reads, fs_call, next_call, failing. destruct (dk_calls d) as [|[[e k]|] c] eqn:E.
  - left. exists d. by rewrite E.
  - right. eexists _, _. split; [done|]. by left.
  - left. eexists. split_and!; [done|done|]. cbn. intros ?. by right.
Qed.

Lemma read_reads p f d : dk_files d !! p = Some f -> reads (read_to_string p) (f_text f) d.
Proof.
  intros Hf. unfold reads, read_to_string, sm_bind.
  destruct (call_reads d) as [(d' & -> & Hd & Hfail)|(e & d' & -> & ?)]; [|eauto].
  left. exists d'. cbn. by rewrite Hd, Hf.
Qed.

(** A run over the files of [i] returns [i] or an error, and no error when no call fails. *)
Lemma settled_run g i d :
  checks_answered (dk_calls d) -> settled i d ->
  match (run g d).1 with Ok i' => i' = i | Err _ => failing d end.
Proof.
  intros Hch (c & k & Hc & Hk & Hdc & Hdk & Hf). unfold run, load_or_create, sm_bind.
  destruct (call_reads d) as [(d0 & E0 & E1' & _)|(e & d1 & -> & ?)]; [|done].
  destruct (checks_after d tt d0 c k E0 Hch Hc Hk) as (calls & Eb & F1). rewrite E0.
  fold cert_path key_path. rewrite Eb. set (d1 := set_calls calls d0) in *. cbv iota.
  assert (E1 : dk_files d1 = dk_files d) by done.
  destruct (read_reads cert_path c d1) as [(d2 & -> & E2 & F2)|(e & d2 & -> & ?)]; [by rewrite E1| |by apply F1].
  destruct (read_reads key_path k d2) as [(d3 & -> & E3 & F3)|(e & d3 & -> & ?)]; [by rewrite E2, E1| |by apply F1, F2].
  unfold lift, sm_ret. rewrite Hdc, Hdk. cbn. rewrite Hf. cbn. by destruct i.
Qed.

(** A start of the server: what the generator would return, and how its calls end. *)
Record Start := { st_generated : Result Generated ServerError; st_calls : list (option (Z * nat)) }.

Definition start_identity (s : Start) (d : Disk) : Result ServerIdentity ServerError * Disk :=
  load_or_create b64_error x509_error spki sha256 (st_generated s) dir (set_calls (st_calls s) d).

Definition starts (ss : list Start) (d : Disk) : Disk :=
  fold_left (fun d s => (start_identity s d).2) ss d.

Lemma starts_settled ss i d :
  Forall (fun s => checks_answered (st_calls s)) ss -> settled i d -> settled i (starts ss d).
Proof.
  intros Hss. revert d. induction Hss as [|s ss Hs _ IH]; intros d Hd; [done|].
  apply IH. exact (settled_keeps (st_generated s) i (set_calls (st_calls s) d) Hs Hd).
Qed.

(** The pin a user makes of the fingerprint the server prints. *)
Definition printed_pin (i : ServerIdentity) (pin : ServerPin) : ServerPin :=
  {| sp_host := sp_host pin; sp_quic_port := sp_quic_port pin; sp_tcp_port := sp_tcp_port pin;
     sp_sni := sp_sni pin; sp_fingerprint := Some (SHA256_PREFIX ++ si_spki_sha256 i) |}.

Lemma printed_pin_accepts i pin :
  compute_spki_fingerprint x509_error spki sha256 (si_cert_der i) = Ok (si_spki_sha256 i) ->
  (forall key, Forall is_byte (sha256 key) /\ length (sha256 key) = 32%nat) ->
  exists raw, build_client_tls (printed_pin i pin) = Ok raw /\
    pin_accepts spki sha256 raw (si_cert_der i) = true.
Proof.
  unfold compute_spki_fingerprint. destruct (spki (si_cert_der i)) as [key|] eqn:Ek; [|done].
  intros [= Hf] Hsha. destruct (Hsha key) as [Hb Hl]. exists (sha256 key).
  unfold build_client_tls, fingerprint_bytes, parse_fingerprint, printed_pin, pin_accepts.
  cbn [sp_fingerprint]. rewrite Ek, (proj2 (strip_prefix_Some _ _ _) eq_refl), <-Hf, hex_roundtrip, Hl by done.
  split; [done|by apply bool_decide_true].
Qed.

(** C29: The identity of a relay is created once.  As soon as one start has returned an identity,
    every later start returns that same identity - certificate, key and fingerprint - or
    fails because one of its own file calls failed, whatever happened to the starts in
    between; and a client that pinned the printed fingerprint accepts the certificate.
    This holds as long as the operating system answers whether the two files exist: an
    error of that question counts as absence ([metadata_error_replaces_identity]). *)
Theorem identity_survives (first last : Start) (between : list Start) (d : Disk)
    (i : ServerIdentity) (pin : ServerPin)
    (Hgen : generated_ok (st_generated first))
    (Hsha : forall key, Forall is_byte (sha256 key) /\ length (sha256 key) = 32%nat)
    (Hfirst : (start_identity first d).1 = Ok i)
    (Hchecks : Forall (fun s => checks_answered (st_calls s)) (last :: between)) :
  match (start_identity last (starts between (start_identity first d).2)).1 with
  | Ok i' => i' = i
  | Err _ => Exists (fun o => o <> None) (st_calls last)
  end /\
  exists raw, build_client_tls (printed_pin i pin) = Ok raw /\
    pin_accepts spki sha256 raw (si_cert_der i) = true.
Proof.
  destruct (start_identity first d) as [r d1] eqn:E. cbn in *. subst r.
  assert (Hs : settled i d1) by (eapply run_settles; [exact Hgen|exact E]).
  split; [|destruct Hs as (c & k & _ & _ & _ & _ & Hf); by apply printed_pin_accepts].
  apply Forall_cons_1 in Hchecks as [Hlast Hbetween]. apply (starts_settled between) in Hs; [|done].
  exact (settled_run (st_generated last) i (set_calls (st_calls last) _) Hlast Hs).
Qed.
End IdentityTheorems.

(** ** Certificate files of the operator *)

Section TlsTheorems.
Context `{Base64} `{!Base64Laws} (b64_error : str -> str) (single_cert : list bytes -> bytes -> option Z).

Lemma tag_certificate : Forall tag_char CERTIFICATE.
Proof. repeat constructor; done. Qed.
Lemma tag_private_key : Forall tag_char PRIVATE_KEY.
Proof. repeat constructor; done. Qed.

(** Files of well-formed blocks give the configuration of exactly their certificates, in
    order, with the first PKCS#8 key, and blocks of other kinds are passed over. *)
Lemma load_tls_files cert_path key_path nl certs keys cm km d :
  eol nl -> Forall wf_block certs -> Forall wf_block keys ->
  dk_files d !! cert_path = Some {| f_text := pem_file nl certs; f_mode := cm |} ->
  dk_files d !! key_path = Some {| f_text := pem_file nl keys; f_mode := km |} ->
  match (load_tls_from_pem b64_error single_cert cert_path key_path d).1 with
  | Ok cfg =>
      tc_chain cfg = map pb_der (filter (fun b => CERTIFICATE = pb_tag b) certs) /\
      tc_chain cfg <> [] /\
      Some (tc_key cfg) = head (map pb_der (filter (fun b => PRIVATE_KEY = pb_tag b) keys))
  | Err _ => True
  end.
Proof.
  intros Hnl Hc Hk Hfc Hfk.
  destruct (load_tls_from_pem b64_error single_cert cert_path key_path d) as [[cfg|e] d'] eqn:E; [|done].
  cbn [fst]. apply sm_bind_Ok in E as (ct & d1 & (f & Hf & -> & E1)%read_Ok & E).
  apply sm_bind_Ok in E as (kt & d2 & (f' & Hf' & -> & E2)%read_Ok & E).
  rewrite Hfc in Hf. injection Hf as <-. rewrite E1, Hfk in Hf'. injection Hf' as <-. cbn [f_text] in E.
  apply sm_bind_Ok in E as (cs & ? & [= Hcs <-] & E).
  rewrite (pem_bundle_file b64_error nl certs CERTIFICATE Hnl tag_certificate Hc) in Hcs. injection Hcs as <-.
  case_bool_decide as Hne; [done|].
  apply sm_bind_Ok in E as (ks & ? & [= Hks <-] & E).
  rewrite (pem_bundle_file b64_error nl keys PRIVATE_KEY Hnl tag_private_key Hk) in Hks. injection Hks as <-.
  apply sm_bind_Ok in E as (key & ? & [= Hkey%ok_or_Ok <-] & [= E <-]).
  unfold with_single_cert in E. case_match; [done|]. injection E as <-. cbn. by rewrite Hkey.
Qed.
End TlsTheorems.

(** ** Witnesses *)

#[local] Existing Instance toy_base64.
#[local] Existing Instance toy_base64_laws.
#[local] Existing Instance toy_hex.
#[local] Existing Instance toy_hex_laws.

Definition toy_block (tag : str) (der : bytes) : PemBlock :=
  {| pb_tag := tag; pb_der := der; pb_body := [map (fun b => b + 256) der] |}.

Definition toy_generated (cert key : bytes) : Generated :=
  {| g_cert_der := cert; g_key_der := key;
     g_cert_pem := pem_file [10] [toy_block CERTIFICATE cert];
     g_key_pem := pem_file [10] [toy_block PRIVATE_KEY key] |}.

Definition toy_disk : Disk := {| dk_files := ∅; dk_create_mode := 420; dk_calls := [] |}.

Definition toy_start (cert key : bytes) (calls : list (option (Z * nat))) : Start :=
  {| st_generated := Ok (toy_generated cert key); st_calls := calls |}.

Abbreviation toy_run s := (start_identity (fun e => e) (fun e => e) Some toy_sha (lit "/var/lib/krot") s).

Definition toy_identity : ServerIdentity :=
  {| si_cert_der := [1; 2]; si_key_der := [3]; si_spki_sha256 := hex_encode (toy_sha [1; 2]) |}.

Lemma identity_survives_witness :
  (toy_run (toy_start [7; 8] [9] [])
     (starts (fun e => e) (fun e => e) Some toy_sha (lit "/var/lib/krot")
        [toy_start [4] [5] [None; None; None; Some (5, O)]]
        (toy_run (toy_start [1; 2] [3] []) toy_disk).2)).1 = Ok toy_identity.
Proof.
  assert (Hfirst : (toy_run (toy_start [1; 2] [3] []) toy_disk).1 = Ok toy_identity)
    by (vm_compute; reflexivity).
  destruct (identity_survives (fun e => e) (fun e => e) Some toy_sha (lit "/var/lib/krot")
    (toy_start [1; 2] [3] []) (toy_start [7; 8] [9] []) [toy_start [4] [5] [None; None; None; Some (5, O)]]
    toy_disk toy_identity toy_pin) as [Hm _].
  - exists [10], (toy_block CERTIFICATE [1; 2]), (toy_block PRIVATE_KEY [3]).
    split; [left; reflexivity|].
    split; [|split; [|repeat split; reflexivity]];
      (split; [reflexivity|split; [solve_bytes|split; repeat constructor; done]]).
  - intros key. split; [|apply repeat_length]. apply Forall_forall. intros b Hb.
    apply repeat_spec in Hb as ->. unfold is_byte, in_u. apply Z.mod_pos_bound. lia.
  - exact Hfirst.
  - repeat constructor; intros j e Hj; (destruct j as [|[|[|j]]]; [lia|vm_compute; discriminate..|lia]).
  - destruct (start_identity _ _ _ _ _ (toy_start [7; 8] [9] []) _) as [[i|e] d']; cbn [fst] in *.
    + by rewrite Hm.
    + exfalso. inversion Hm.
Defined.

(** The key is readable before it is private: when the call that sets the permissions
    fails (or before it is made), the key lies in the temporary file with the permission
    bits of any new file. *)
Example key_briefly_readable :
  let d := (toy_run (toy_start [1; 2] [3]
              [None; None; None; None; None; None; None; None; None; None; None; None; Some (1, O)])
              toy_disk).2 in
  dk_files d !! lit "/var/lib/krot/self.key.tmp" =
    Some {| f_text := pem_file [10] [toy_block PRIVATE_KEY [3]]; f_mode := 420 |}.
Proof. vm_compute. reflexivity. Qed.

(** A metadata call that fails makes a start take the identity for missing: it writes a new
    one over it and returns that one, without an error. *)
Example metadata_error_replaces_identity :
  let d := (toy_run (toy_start [1; 2] [3] []) toy_disk).2 in
  (toy_run (toy_start [7; 8] [9] []) d).1 = Ok toy_identity /\
  si_cert_der <$> match (toy_run (toy_start [7; 8] [9] [None; Some (13, O)]) d).1 with Ok i => Some i | Err _ => None end =
    Some [7; 8] /\
  f_text <$> dk_files (toy_run (toy_start [7; 8] [9] [None; Some (13, O)]) d).2 !! lit "/var/lib/krot/self.key.pem" =
    Some (pem_file [10] [toy_block PRIVATE_KEY [9]]).
Proof. split_and!; vm_compute; reflexivity. Qed.
