(* ===== verification/ClientSession.v ===== *)
(** * ClientSession: the client's side of the control stream

    [krot-client/src/session.rs], [enroll.rs] and [tunnel.rs]: connecting with the fallback
    from QUIC to TCP, the challenge-response, enrolment, publishing a tunnel and serving its
    streams until shutdown.

    The control stream is a receive half ([RecvStream]) and the bytes written so far;
    outcomes of writes, of name resolution and of connecting are inputs. *)

From S2P Require Import Prelude RustStr Wire Framing Types Registry Rate Keys Admin Handshake Http LoginPage LocalAuth ClientConfig.

Local Open Scope Z_scope.

(** ** Data *)

Inductive SessionTransport := Quic | TcpFallback.

(** The control stream of a connection; [cs_closed] is the code it was closed with. *)
Record ControlWorld (S : Type) := {
  cs_recv : S;
  cs_sent : bytes;
  cs_finished : bool;
  cs_closed : option Z;
  cs_outcomes : list (option (TransportError Z Z));
}.
Arguments cs_recv {S}.
Arguments cs_sent {S}.
Arguments cs_finished {S}.
Arguments cs_closed {S}.
Arguments cs_outcomes {S}.

(** [AuthenticatedSession] without its streams, which are the world. *)
Record AuthenticatedSession := { as_session_id : SessionId; as_transport : SessionTransport }.

Record PublishedTunnel := {
  pt_tunnel_id : TunnelId;
  pt_public_url : str;
  pt_public_port : option Z;
}.

Record EnrollOptions := {
  eo_server_host : str;
  eo_server_quic_port : Z;
  eo_sni : option str;
  eo_admin_token : str;
  eo_label_hint : option str;
  eo_pinned_fingerprint : option str;
}.

Definition EXPECTED_CHALLENGE : str := lit "expected AuthChallenge".
Definition EXPECTED_AUTH_OK : str := lit "expected AuthOk".
Definition EXPECTED_PEERS : str := lit "expected Peers response".
Definition EXPECTED_REGISTERED : str := lit "expected TunnelRegistered".
Definition EXPECTED_ENROLL_OK : str := lit "expected EnrollOk".

Section Client.
Context {S : Type} `{RecvStream S Z Z} `{Postcard ClientFrame Z} `{Postcard ServerFrame Z}.
Context {SK VK : Type} `{Ed25519 SK VK} `{SeedBytes SK} `{Hex}.
Context (hex_error : str -> str).

Abbreviation World := (ControlWorld S).
Abbreviation M := (SM World ClientError).

(** ** The control stream *)

(** [send.write_all(&bs)]. *)
Definition control_write (bs : bytes) : M unit := fun w =>
  let done rest := {| cs_recv := cs_recv w; cs_sent := cs_sent w ++ bs; cs_finished := cs_finished w;
                      cs_closed := cs_closed w; cs_outcomes := rest |} in
  match cs_outcomes w with
  | Some e :: rest =>
    (Err (CE_Transport e), {| cs_recv := cs_recv w; cs_sent := cs_sent w; cs_finished := cs_finished w;
                              cs_closed := cs_closed w; cs_outcomes := rest |})
  | None :: rest => (Ok tt, done rest)
  | [] => (Ok tt, done [])
  end.

Definition control_send (f : ClientFrame) : M unit :=
  match encode_frame f [] with
  | (Err e, _) => sm_throw (CE_Transport (TE_Framing e))
  | (Ok _, buf) => control_write buf
  end.

Definition control_recv : M ServerFrame := fun w =>
  let '(r, s) := read_frame (cs_recv w) in
  (map_err CE_Transport r,
   {| cs_recv := s; cs_sent := cs_sent w; cs_finished := cs_finished w; cs_closed := cs_closed w;
      cs_outcomes := cs_outcomes w |}).

Definition of_result {A} (r : Result A ClientError) : M A := fun w => (r, w).

(** [send.finish()], [send.stopped()] and [connection.close(0, ..)]. *)
Definition control_close : M unit := sm_modify (fun w =>
  {| cs_recv := cs_recv w; cs_sent := cs_sent w; cs_finished := true; cs_closed := Some 0;
     cs_outcomes := cs_outcomes w |}).

(** ** Authentication *)

Definition read_reject : M (option ErrorCode) :=
  let! r := sm_try control_recv in
  sm_ret (match r with
          | Ok (AuthReject code) | Ok (ServerBye code) => Some code
          | _ => None
          end).

Definition finish_auth (identity : Identity) (transport : SessionTransport) : M AuthenticatedSession :=
  let! _ := control_write [StreamKind_as_byte Control] in
  let! pk := of_result (pubkey hex_error identity) in
  let! _ := control_send (AuthRequest pk) in
  let! first := control_recv in
  match first with
  | AuthChallenge nonce =>
    let! signing := of_result (signing_key hex_error identity) in
    let! _ := control_send (AuthResponse (sign_challenge signing nonce)) in
    let! reply := control_recv in
    match reply with
    | AuthOk session_id => sm_ret {| as_session_id := session_id; as_transport := transport |}
    | AuthReject code => sm_throw (CE_AuthRejected code)
    | _ => sm_throw (CE_Protocol EXPECTED_AUTH_OK)
    end
  | _ =>
    let! rejected := read_reject in
    match rejected with
    | Some code => sm_throw (CE_AuthRejected code)
    | None => sm_throw (CE_Protocol EXPECTED_CHALLENGE)
    end
  end.

(** ** Connecting *)

(** What an attempt meets: the name server's answer (an error text, or whether there is an
    address), the outcomes of binding a local socket (QUIC only) and of opening the
    connection, and its control stream. *)
Record Attempt := {
  at_lookup : Result bool str;
  at_bind : option (TransportError Z Z);
  at_connect : option (TransportError Z Z);
  at_control : World;
}.

Definition host_port (pin : ServerPin) (port : Z) : str := sp_host pin ++ lit ":" ++ fmt_dec port.

Definition resolve_server (pin : ServerPin) (port : Z) (lookup : Result bool str) : Result unit ClientError :=
  match lookup with
  | Err e => Err (CE_BadServerAddr (host_port pin port ++ lit ": " ++ e))
  | Ok false => Err (CE_BadServerAddr (host_port pin port))
  | Ok true => Ok tt
  end.

(** The steps that [connect_quic] and [connect_tcp] share. *)
Definition connect_via (transport : SessionTransport) (pin : ServerPin) (port : Z) (identity : Identity)
    (a : Attempt) : Result AuthenticatedSession ClientError * World :=
  match resolve_server pin port (at_lookup a) with
  | Err e => (Err e, at_control a)
  | Ok _ =>
    match build_client_tls pin with
    | Err e => (Err e, at_control a)
    | Ok _ =>
      match (match transport with Quic => at_bind a | TcpFallback => None end), at_connect a with
      | Some e, _ | None, Some e => (Err (CE_Transport e), at_control a)
      | None, None => finish_auth identity transport (at_control a)
      end
    end
  end.

Definition connect_quic (pin : ServerPin) (identity : Identity) (a : Attempt) :
    Result AuthenticatedSession ClientError * World :=
  connect_via Quic pin (sp_quic_port pin) identity a.

Definition connect_tcp (pin : ServerPin) (identity : Identity) (a : Attempt) :
    Result AuthenticatedSession ClientError * World :=
  connect_via TcpFallback pin (effective_tcp_port pin) identity a.

Definition is_transport_failure (e : ClientError) : bool :=
  match e with CE_Transport _ | CE_BadServerAddr _ => true | _ => false end.

Definition connect (pin : ServerPin) (identity : Identity) (quic tcp : Attempt) :
    Result AuthenticatedSession ClientError * World :=
  match connect_quic pin identity quic with
  | (Ok sess, w) => (Ok sess, w)
  | (Err e, w) => if is_transport_failure e then connect_tcp pin identity tcp else (Err e, w)
  end.

(** ** Requests on the control stream *)

Definition shutdown : M unit :=
  let! _ := sm_ignore (control_send Bye) in
  control_close.

Definition list_peers : M (list str) :=
  let! _ := control_send ListPeers in
  let! reply := control_recv in
  match reply with
  | Peers relays => sm_ret relays
  | _ => sm_throw (CE_Protocol EXPECTED_PEERS)
  end.

(** The registration of [publish]; [timely] says whether the reply came before the
    deadline. *)
Definition publish_register (timely : bool) (label : str) (kind : TunnelKind) (inspect : bool)
    (resume_session_id : option SessionId) : M PublishedTunnel :=
  let! _ := control_send (RegisterTunnel label kind resume_session_id inspect) in
  if negb timely then sm_throw CE_RegistrationTimeout
  else
    let! reply := control_recv in
    match reply with
    | TunnelRegistered tunnel_id public_url public_port =>
      sm_ret {| pt_tunnel_id := tunnel_id; pt_public_url := public_url; pt_public_port := public_port |}
    | TunnelRejected code detail => sm_throw (CE_TunnelRejected code detail)
    | _ => sm_throw (CE_Protocol EXPECTED_REGISTERED)
    end.

Definition publish_tcp (timely : bool) (label : str) : M PublishedTunnel :=
  publish_register timely label (TK_Tcp None) false None.

Definition publish_tcp_resume (timely : bool) (label : str) (resume_session_id : SessionId) : M PublishedTunnel :=
  publish_register timely label (TK_Tcp None) false (Some resume_session_id).

(** [inspector] says whether one is attached; an authentication policy stays on this side. *)
Definition publish_http (timely : bool) (label : str) (inspector : bool) : M PublishedTunnel :=
  publish_register timely label TK_Http inspector None.

Definition publish_http_authed (timely : bool) (label : str) (inspector : bool) (auth : AuthConfig) :
    M (PublishedTunnel * AuthConfig) :=
  let! t := publish_register timely label TK_Http inspector None in sm_ret (t, auth).

Definition publish_http_resume (timely : bool) (label : str) (inspector : bool)
    (resume_session_id : SessionId) : M PublishedTunnel :=
  publish_register timely label TK_Http inspector (Some resume_session_id).

(** What the serving task sees: the caller's shutdown, a stream the server opened (by its
    number), or the end of the connection. *)
Inductive PublishEvent := PeShutdown | PeStream (stream : nat) | PeConnectionLost.

(** The serving task: the streams handed to the proxy, in order, and whether it has
    returned. *)
Fixpoint publish_loop (evs : list PublishEvent) : M (list nat * bool) :=
  match evs with
  | [] => sm_ret ([], false)
  | PeShutdown :: _ => let! _ := shutdown in sm_ret ([], true)
  | PeConnectionLost :: _ => sm_ret ([], true)
  | PeStream s :: evs => let! rest := publish_loop evs in sm_ret (s :: rest.1, rest.2)
  end.

(** ** Enrolment *)

(** [fresh] is the key drawn when there is no configuration yet, [learned] what the verifier
    remembered of the server's certificate. *)
Definition enroll_exchange (opts : EnrollOptions) (identity : Identity) : M str :=
  let! _ := control_write [StreamKind_as_byte Control] in
  let! pk := of_result (pubkey hex_error identity) in
  let! _ := control_send (Enroll (eo_admin_token opts) pk (eo_label_hint opts)) in
  let! reply := control_recv in
  let! _ := control_close in
  match reply with
  | EnrollOk authorized_line => sm_ret authorized_line
  | EnrollRejected code => sm_throw (CE_EnrollRejected code)
  | _ => sm_throw (CE_Protocol EXPECTED_ENROLL_OK)
  end.

Definition enrolled_config (opts : EnrollOptions) (identity : Identity) (learned : option str) : ClientConfig :=
  {| cc_identity := identity;
     cc_server := {| sp_host := eo_server_host opts; sp_quic_port := eo_server_quic_port opts;
                     sp_tcp_port := None; sp_sni := eo_sni opts;
                     sp_fingerprint := match eo_pinned_fingerprint opts with
                                       | Some fp => Some fp
                                       | None => learned
                                       end |} |}.

(** [build_enroll_tls]: with a pin given, it must parse. *)
Definition build_enroll_tls (opts : EnrollOptions) : Result (option bytes) ClientError :=
  match eo_pinned_fingerprint opts with
  | Some fp => let? raw := parse_fingerprint fp in Ok (Some raw)
  | None => Ok None
  end.

Definition enroll (toml_to : ClientConfig -> Result str str) (toml_from : str -> Result ClientConfig str)
    (path : str) (io : SaveIo) (opts : EnrollOptions) (fresh : SK) (learned : option str) (a : Attempt)
    (dir : ConfigDir) : Result ClientConfig ClientError * World * ConfigDir :=
  let identity := match load_from toml_from path [] dir with
                  | Ok existing => cc_identity existing
                  | Err _ => Identity_generate fresh
                  end in
  let pin := cc_server (enrolled_config opts identity None) in
  let stop e := (Err e, at_control a, dir) in
  match build_enroll_tls opts with
  | Err e => stop e
  | Ok _ =>
    match at_bind a, resolve_server pin (eo_server_quic_port opts) (at_lookup a) with
    | Some e, _ => stop (CE_Transport e)
    | None, Err e => stop e
    | None, Ok _ =>
      match at_connect a with
      | Some e => stop (CE_Transport e)
      | None =>
        match enroll_exchange opts identity (at_control a) with
        | (Err e, w) => (Err e, w, dir)
        | (Ok _, w) =>
          let config := enrolled_config opts identity learned in
          match save_to toml_to io config dir with
          | (Err e, dir) => (Err e, w, dir)
          | (Ok _, dir) => (Ok config, w, dir)
          end
        end
      end
    end
  end.
End Client.

(** ** Both sides of the handshake *)

Section SessionTheorems.
Context {S : Type} `{RecvStream S Z Z} `{!RecvStreamLaws S Z Z}.
Context `{Postcard ClientFrame Z} `{!PostcardLaws ClientFrame Z}.
Context `{Postcard ServerFrame Z} `{!PostcardLaws ServerFrame Z}.
Context {SK VK : Type} `{Ed25519 SK VK} `{!Ed25519Laws SK VK} `{SeedBytes SK} `{!SeedBytesLaws SK}.
Context `{Hex} `{!HexLaws} `{Base64}.
Context (hex_error : str -> str) (blake3 : bytes -> bytes).

(** A writable control stream sends a frame. *)
Lemma control_send_Ok (f : ClientFrame) n bs (w : ControlWorld S) :
  encode_frame f [] = (Ok n, bs) -> cs_outcomes w = [] ->
  control_send f w = (Ok tt, {| cs_recv := cs_recv w; cs_sent := cs_sent w ++ bs;
    cs_finished := cs_finished w; cs_closed := cs_closed w; cs_outcomes := [] |}).
Proof. intros He Ho. unfold control_send. rewrite He. unfold control_write. by rewrite Ho. Qed.

(** The next frame on the stream is received. *)
Lemma control_recv_Ok (f : ServerFrame) n bs rest (w : ControlWorld S) :
  encode_frame f [] = (Ok n, bs) -> Forall is_byte rest -> rs_pending (cs_recv w) = bs ++ rest ->
  exists s, rs_pending s = rest /\ control_recv w = (Ok f, {| cs_recv := s; cs_sent := cs_sent w;
    cs_finished := cs_finished w; cs_closed := cs_closed w; cs_outcomes := cs_outcomes w |}).
Proof.
  intros He Hr Hp. destruct (encode_frame_Ok _ _ _ _ He) as (p & Hp1 & Hs1).
  destruct (read_frame_encoded (S := S) _ _ Hp1 Hs1) as (g & _ & Hg & Hread).
  rewrite Hg in He. injection He as _ <-. destruct (Hread (cs_recv w) rest Hr Hp) as (s & Hrd & Hs).
  exists s. split; [done|]. unfold control_recv. by rewrite Hrd.
Qed.

Lemma encoded_bytes {T} `{!Postcard T Z} `{!PostcardLaws T Z} (f : T) n bs :
  encode_frame f [] = (Ok n, bs) -> Forall is_byte bs.
Proof.
  intros He. destruct (encode_frame_Ok _ _ _ _ He) as (p & Hp1 & Hs1).
  destruct (read_frame_encoded (S := S) (X := Z) _ _ Hp1 Hs1) as (g & Hb & Hg & _).
  rewrite Hg in He. by injection He as _ <-.
Qed.

(** A fresh control stream on which the server's answers are about to arrive. *)
Record FreshControl (pending : bytes) (w : ControlWorld S) : Prop := {
  fc_pending : rs_pending (cs_recv w) = pending;
  fc_sent : cs_sent w = [];
  fc_writable : cs_outcomes w = [];
}.

(** The client's first step: announce the control stream and the key. *)
Lemma auth_announces (sk : SK) transport (w : ControlWorld S) pending n1 f1 :
  FreshControl pending w -> Forall is_byte (ed_public sk) -> length (ed_public sk) = 32%nat ->
  encode_frame (AuthRequest {| pk_raw := ed_public sk |}) [] = (Ok n1, f1) ->
  finish_auth hex_error (Identity_generate sk) transport w =
    (let! first := control_recv in
     match first with
     | AuthChallenge nonce =>
       let! signing := of_result (signing_key hex_error (Identity_generate sk)) in
       let! _ := control_send (AuthResponse (sign_challenge signing nonce)) in
       let! reply := control_recv in
       match reply with
       | AuthOk session_id => sm_ret {| as_session_id := session_id; as_transport := transport |}
       | AuthReject code => sm_throw (CE_AuthRejected code)
       | _ => sm_throw (CE_Protocol EXPECTED_AUTH_OK)
       end
     | _ =>
       let! rejected := read_reject in
       match rejected with
       | Some code => sm_throw (CE_AuthRejected code)
       | None => sm_throw (CE_Protocol EXPECTED_CHALLENGE)
       end
     end)
    {| cs_recv := cs_recv w; cs_sent := StreamKind_as_byte Control :: f1; cs_finished := cs_finished w;
       cs_closed := cs_closed w; cs_outcomes := [] |}.
Proof.
  intros [_ Hs Ho] Hb Hl Hf. unfold finish_auth. unfold sm_bind at 1. unfold control_write. rewrite Ho, Hs.
  unfold sm_bind at 1. unfold of_result at 1. rewrite generated_pubkey by done.
  unfold sm_bind at 1. by rewrite (control_send_Ok _ n1 f1).
Qed.

(** C25: Client and server agree on a session.  With a registered identity and a stream that
    carries each side's frames to the other, the client's handshake succeeds, the bytes it
    sent make the server's handshake succeed for that identity, the server's answers are the
    frames the client was given, and both end with the same session id; what follows on
    either stream is left for the session. *)
Theorem client_server_session (env : HsEnv) (sk : SK) (entry : AuthorizedEntry)
    (transport : SessionTransport) (cw : ControlWorld S) (sw : HsWorld S) (after_c after_s f1 f2 g1 g2 : bytes)
    (n1 n2 m1 m2 : Z)
    (Hpk : Forall is_byte (ed_public sk) /\ length (ed_public sk) = 32%nat)
    (Hget : KeyRegistry_get {| pk_raw := ed_public sk |} (hw_keys sw) = Some entry)
    (Hf1 : encode_frame (AuthRequest {| pk_raw := ed_public sk |}) [] = (Ok n1, f1))
    (Hf2 : encode_frame (AuthResponse (sign_challenge sk (he_nonce env))) [] = (Ok n2, f2))
    (Hg1 : encode_frame (AuthChallenge (he_nonce env)) [] = (Ok m1, g1))
    (Hg2 : encode_frame (AuthOk (he_sid env)) [] = (Ok m2, g2))
    (Hafter : Forall is_byte after_c /\ Forall is_byte after_s)
    (Hcw : FreshControl (g1 ++ g2 ++ after_s) cw) (Hsio : ss_outcomes (hw_send sw) = []) :
  exists cw', finish_auth hex_error (Identity_generate sk) transport cw =
      (Ok {| as_session_id := he_sid env; as_transport := transport |}, cw') /\
    rs_pending (cs_recv cw') = after_s /\
    (rs_pending (hw_recv sw) = cs_sent cw' ++ after_c ->
     exists sw', perform blake3 env sw =
         (Ok (HAuth {| ho_pubkey := {| pk_raw := ed_public sk |}; ho_session_id := he_sid env;
                       ho_entry := entry |}), sw') /\
       ss_sent (hw_send sw') = ss_sent (hw_send sw) ++ [AuthChallenge (he_nonce env); AuthOk (he_sid env)] /\
       rs_pending (hw_recv sw') = after_c).
Proof.
  destruct Hpk as [Hb Hl], Hafter as [Hc Hs]. rewrite (auth_announces _ _ _ _ _ _ Hcw Hb Hl Hf1).
  destruct Hcw as [Hp _ _]. unfold sm_bind at 1.
  destruct (control_recv_Ok _ _ _ _ {| cs_recv := cs_recv cw; cs_sent := StreamKind_as_byte Control :: f1;
    cs_finished := cs_finished cw; cs_closed := cs_closed cw; cs_outcomes := [] |} Hg1
    ltac:(apply Forall_app; split; [by eapply encoded_bytes|exact Hs]) Hp) as (s1 & Hs1 & ->). simpl.
  unfold sm_bind at 1, of_result at 1. rewrite generated_signing_key.
  unfold sm_bind at 1. rewrite (control_send_Ok _ n2 f2) by done. unfold sm_bind at 1.
  destruct (control_recv_Ok _ _ _ after_s {| cs_recv := s1; cs_sent := (StreamKind_as_byte Control :: f1) ++ f2;
    cs_finished := cs_finished cw; cs_closed := cs_closed cw; cs_outcomes := [] |} Hg2 Hs Hs1) as (s2 & Hs2 & E).
  simpl in E |- *. rewrite E. eexists. split; [done|]. split; [done|]. simpl. intros Hin.
  assert (Hin' : rs_pending (hw_recv sw) = StreamKind_as_byte Control :: f1 ++ f2 ++ after_c)
    by (rewrite Hin; simpl; by rewrite <-app_assoc).
  destruct (honest_auth_run blake3 env sw sk entry f1 f2 after_c n1 n2 Hget Hf1 Hf2 Hin' Hc Hsio)
    as (sw' & Hp' & Hr' & Hsent). by exists sw'.
Qed.

(** C39: A client whose key is not registered is not told so.  The server answers the
    announcement with [AuthReject UNKNOWN_IDENTITY] and finishes the stream; the client,
    which expected a challenge, looks for the reason in a second frame that never comes, and
    reports a protocol error instead of the rejection. *)
Theorem unknown_identity_misreported (env : HsEnv) (sk : SK) (transport : SessionTransport)
    (cw : ControlWorld S) (sw : HsWorld S) (f1 g1 : bytes) (n1 m1 : Z)
    (Hpk : Forall is_byte (ed_public sk) /\ length (ed_public sk) = 32%nat)
    (Hget : KeyRegistry_get {| pk_raw := ed_public sk |} (hw_keys sw) = None)
    (Hf1 : encode_frame (AuthRequest {| pk_raw := ed_public sk |}) [] = (Ok n1, f1))
    (Hg1 : encode_frame (AuthReject UNKNOWN_IDENTITY) [] = (Ok m1, g1))
    (Hcw : FreshControl g1 cw) (Hsio : ss_outcomes (hw_send sw) = [])
    (Hin : rs_pending (hw_recv sw) = StreamKind_as_byte Control :: f1) :
  (exists sw', perform blake3 env sw = (Ok (HFailed AUTHENTICATION_FAILED), sw') /\
     ss_sent (hw_send sw') = ss_sent (hw_send sw) ++ [AuthReject UNKNOWN_IDENTITY] /\
     ss_finished (hw_send sw') = true) /\
  (finish_auth hex_error (Identity_generate sk) transport cw).1 = Err (CE_Protocol EXPECTED_CHALLENGE).
Proof.
  destruct Hpk as [Hb Hl]. split.
  { apply (unknown_key_run blake3 env sw {| pk_raw := ed_public sk |} f1 [] n1); by rewrite ?app_nil_r. }
  rewrite (auth_announces _ _ _ _ _ _ Hcw Hb Hl Hf1). destruct Hcw as [Hp _ _]. unfold sm_bind at 1.
  destruct (control_recv_Ok _ _ _ [] {| cs_recv := cs_recv cw; cs_sent := StreamKind_as_byte Control :: f1;
    cs_finished := cs_finished cw; cs_closed := cs_closed cw; cs_outcomes := [] |} Hg1
    ltac:(done) ltac:(by rewrite app_nil_r)) as (s1 & Hs1 & ->). simpl.
  unfold sm_bind, read_reject, sm_try, sm_bind, control_recv. simpl.
  assert (exists e s', read_frame (T := ServerFrame) s1 = (Err e, s')) as (e & s' & ->); [|done].
  pose proof (read_frame_spec (T := ServerFrame) s1) as Hr. rewrite Hs1 in Hr.
  destruct (Hr ltac:(done)) as (e & s' & Hrd & _). by exists e, s'.
Qed.
End SessionTheorems.

(** ** Enrolment *)

Section EnrolTheorems.
Context {S : Type} `{RecvStream S Z Z} `{Postcard ClientFrame Z} `{Postcard ServerFrame Z}.
Context {SK VK : Type} `{Ed25519 SK VK} `{SeedBytes SK} `{Hex}.
Context (hex_error : str -> str).
Context (toml_to : ClientConfig -> Result str str) (toml_from : str -> Result ClientConfig str).

Lemma control_write_sent bs (w w' : ControlWorld S) u :
  control_write bs w = (Ok u, w') -> cs_sent w' = cs_sent w ++ bs /\ cs_recv w' = cs_recv w.
Proof. unfold control_write. repeat case_match; by intros [= _ <-]. Qed.

Lemma control_send_sent f (w w' : ControlWorld S) u :
  control_send f w = (Ok u, w') ->
  exists n bs, encode_frame f [] = (Ok n, bs) /\ cs_sent w' = cs_sent w ++ bs /\ cs_recv w' = cs_recv w.
Proof.
  unfold control_send. destruct (encode_frame f []) as [[n|e] bs]; [|done].
  intros [Hs Hr]%control_write_sent. by exists n, bs.
Qed.

Lemma control_recv_sent f (w w' : ControlWorld S) : control_recv w = (Ok f, w') -> cs_sent w' = cs_sent w.
Proof. unfold control_recv. destruct (read_frame (cs_recv w)). by intros [= _ <-]. Qed.

(** A handshake that succeeded announced the identity's public key first. *)
Lemma finish_auth_announces identity transport (w w' : ControlWorld S) sess :
  finish_auth hex_error identity transport w = (Ok sess, w') ->
  exists pk n frame more, pubkey hex_error identity = Ok pk /\
    encode_frame (AuthRequest pk) [] = (Ok n, frame) /\
    cs_sent w' = cs_sent w ++ StreamKind_as_byte Control :: frame ++ more.
Proof.
  unfold finish_auth. intros (? & w1 & [Hs1 _]%control_write_sent & Hk)%sm_bind_Ok.
  apply sm_bind_Ok in Hk as (pk & w2 & [= Hpk <-] & Hk).
  apply sm_bind_Ok in Hk as (? & w3 & (n & frame & He & Hs3 & _)%control_send_sent & Hk).
  apply sm_bind_Ok in Hk as (first & w4 & Hs4%control_recv_sent & Hk).
  destruct first as [nonce| | | | | | | | | |];
    try (apply sm_bind_Ok in Hk as ([c|] & w5 & _ & Hk); done).
  apply sm_bind_Ok in Hk as (sk & w5 & [= _ <-] & Hk).
  apply sm_bind_Ok in Hk as (? & w6 & (m & frame' & _ & Hs6 & _)%control_send_sent & Hk).
  apply sm_bind_Ok in Hk as (reply & w7 & Hs7%control_recv_sent & Hk).
  exists pk, n, frame, frame'. split_and!; [done..|].
  destruct reply; try done. injection Hk as _ <-.
  by rewrite Hs7, Hs6, Hs4, Hs3, Hs1, <-!app_assoc.
Qed.

(** Connecting presents that key on the control stream of the attempt that succeeded. *)
Lemma connect_announces pin identity (quic tcp : Attempt (S := S)) sess w :
  connect hex_error pin identity quic tcp = (Ok sess, w) ->
  exists a pk n frame more, (a = quic \/ a = tcp) /\ pubkey hex_error identity = Ok pk /\
    encode_frame (AuthRequest pk) [] = (Ok n, frame) /\
    cs_sent w = cs_sent (at_control a) ++ StreamKind_as_byte Control :: frame ++ more.
Proof.
  assert (Hvia : forall t port a w, connect_via hex_error t pin port identity a = (Ok sess, w) ->
    exists pk n frame more, pubkey hex_error identity = Ok pk /\
    encode_frame (AuthRequest pk) [] = (Ok n, frame) /\
    cs_sent w = cs_sent (at_control a) ++ StreamKind_as_byte Control :: frame ++ more).
  { intros t port a w'. unfold connect_via. destruct (resolve_server _ _ _); [|done].
    destruct (build_client_tls pin); [|done].
    destruct (match t with Quic => at_bind a | TcpFallback => None end), (at_connect a); try done.
    apply finish_auth_announces. }
  unfold connect, connect_quic, connect_tcp. destruct (connect_via _ Quic _ _ _ _) as [[s|e] w'] eqn:E.
  - intros [= -> ->]. exists quic. apply Hvia in E as (pk & n & f & m & ?). exists pk, n, f, m. by auto.
  - destruct (is_transport_failure e); [|done]. intros E'. exists tcp.
    apply Hvia in E' as (pk & n & f & m & ?). exists pk, n, f, m. by auto.
Qed.

(** An enrolment that succeeds announced the identity, and was told [EnrollOk]. *)
Lemma enroll_exchange_Ok opts identity (w w' : ControlWorld S) line :
  enroll_exchange hex_error opts identity w = (Ok line, w') ->
  exists pk n frame, pubkey hex_error identity = Ok pk /\
    encode_frame (Enroll (eo_admin_token opts) pk (eo_label_hint opts)) [] = (Ok n, frame) /\
    cs_sent w' = cs_sent w ++ StreamKind_as_byte Control :: frame /\
    exists s, read_frame (cs_recv w) = (Ok (EnrollOk line), s).
Proof.
  unfold enroll_exchange. intros (? & w1 & [Hs1 Hr1]%control_write_sent & Hk)%sm_bind_Ok.
  apply sm_bind_Ok in Hk as (pk & w2 & Hpk & Hk). unfold of_result in Hpk. injection Hpk as Hpk <-.
  apply sm_bind_Ok in Hk as (? & w3 & (n & frame & He & Hs3 & Hr3)%control_send_sent & Hk).
  apply sm_bind_Ok in Hk as (reply & w4 & Hrv & Hk). unfold control_recv in Hrv.
  destruct (read_frame (cs_recv w3)) as [r s] eqn:Er. injection Hrv as Hr4 <-.
  destruct r as [f|]; [|done]. injection Hr4 as ->.
  apply sm_bind_Ok in Hk as (? & w5 & [= _ <-] & Hk).
  exists pk, n, frame. destruct reply; try done. injection Hk as <- <-. simpl.
  rewrite Hs3, Hs1, <-app_assoc. split_and!; try done. rewrite <-Hr1, <-Hr3. eauto.
Qed.

(** Enrolment persists what was enrolled.  If it succeeds, the server confirmed a request
    that carried the admin token and the public key of an identity, the configuration holds
    that identity (an existing one is reused) with the pinned or learned fingerprint, and
    it is what the next start loads; if it fails anywhere, the configuration file is
    unchanged. *)
Theorem enroll_persists (Htoml : forall cfg text, toml_to cfg = Ok text -> toml_from text = Ok cfg)
    (path : str) (io : SaveIo) (opts : EnrollOptions) (fresh : SK) (learned : option str)
    (a : Attempt (S := S)) (dir : ConfigDir) :
  let '(r, w', dir') := enroll hex_error toml_to toml_from path io opts fresh learned a dir in
  match r with
  | Err _ => cd_file dir' = cd_file dir
  | Ok cfg =>
      cc_identity cfg = match load_from toml_from path [] dir with
                        | Ok existing => cc_identity existing
                        | Err _ => Identity_generate fresh
                        end /\
      sp_fingerprint (cc_server cfg) =
        match eo_pinned_fingerprint opts with Some fp => Some fp | None => learned end /\
      (forall e, load_from toml_from path e dir' = Ok cfg) /\
      exists pk n frame line s, pubkey hex_error (cc_identity cfg) = Ok pk /\
        encode_frame (Enroll (eo_admin_token opts) pk (eo_label_hint opts)) [] = (Ok n, frame) /\
        cs_sent w' = cs_sent (at_control a) ++ StreamKind_as_byte Control :: frame /\
        read_frame (cs_recv (at_control a)) = (Ok (EnrollOk line), s)
  end.
Proof.
  unfold enroll. set (identity := match load_from toml_from path [] dir with Ok _ => _ | Err _ => _ end).
  destruct (build_enroll_tls opts); [|done]. destruct (at_bind a); [done|].
  destruct (resolve_server _ _ _); [|done]. destruct (at_connect a); [done|].
  destruct (enroll_exchange hex_error opts identity (at_control a)) as [[line|e] w'] eqn:E; [|done].
  set (cfg := enrolled_config opts identity learned).
  assert (Hsave : forall e, let '(r, d') := save_to toml_to io cfg dir in
    match r with Ok _ => load_from toml_from path e d' = Ok cfg | Err _ => cd_file d' = cd_file dir end)
    by (intros e; by apply save_atomic).
  destruct (save_to toml_to io cfg dir) as [[u|e] dir']; [|exact (Hsave [])].
  apply enroll_exchange_Ok in E as (pk & n & frame & Hpk & He & Hs & s & Hr). split_and!; try done.
  exists pk, n, frame, line, s. done.
Qed.
End EnrolTheorems.

(** ** Connecting and leaving *)

Section ConnectTheorems.
Context {S : Type} `{RecvStream S Z Z} `{Postcard ClientFrame Z} `{Postcard ServerFrame Z}.
Context {SK VK : Type} `{Ed25519 SK VK} `{SeedBytes SK} `{Hex}.
Context (hex_error : str -> str).

(** A refusal over QUIC is final: the fallback is tried only when the server was not
    reached or the connection failed. *)
Lemma rejection_is_final pin identity (quic tcp : Attempt (S := S)) e w :
  connect_quic hex_error pin identity quic = (Err e, w) -> is_transport_failure e = false ->
  connect hex_error pin identity quic tcp = (Err e, w).
Proof. intros Hq He. unfold connect. by rewrite Hq, He. Qed.

(** Shutting down says goodbye, whatever streams were served before: the serving task sends
    [Bye] as its last frame and closes the connection with code zero. *)
Lemma shutdown_says_bye (streams : list nat) more (w : ControlWorld S) n bye :
  encode_frame Bye [] = (Ok n, bye) -> cs_outcomes w = [] ->
  exists w', publish_loop (map PeStream streams ++ PeShutdown :: more) w = (Ok (streams, true), w') /\
    cs_sent w' = cs_sent w ++ bye /\ cs_finished w' = true /\ cs_closed w' = Some 0.
Proof.
  intros Hb Ho. induction streams as [|s streams IH]; simpl.
  - unfold sm_bind, shutdown, sm_bind, sm_ignore. rewrite (control_send_Ok _ n bye) by done.
    eexists. split; [done|]. done.
  - destruct IH as (w' & IH & Hrest). unfold sm_bind. rewrite IH. by exists w'.
Qed.
End ConnectTheorems.

(** ** The theorems at concrete inputs *)

(** The frames of the examples, a stream that is a buffer, a key pair that is one value. *)
Definition toy_server_to (f : ServerFrame) : Result bytes Z :=
  let tagged t bs := if bool_decide (Forall is_byte bs) then Ok (t :: bs) else Err 0 in
  match f with
  | AuthChallenge n => tagged 0 (nonce_raw n)
  | AuthOk s => tagged 1 (sid_raw s)
  | AuthReject c => tagged 2 [code_raw c]
  | EnrollOk line => tagged 3 line
  | _ => Err 0
  end.

Definition toy_server_from (bs : bytes) : Result ServerFrame Z :=
  match bs with
  | 0 :: r => Ok (AuthChallenge {| nonce_raw := r |})
  | 1 :: r => Ok (AuthOk {| sid_raw := r |})
  | [2; c] => Ok (AuthReject {| code_raw := c |})
  | 3 :: r => Ok (EnrollOk r)
  | _ => Err 1
  end.

#[local] Existing Instance is_byte_dec.

#[local] Instance toy_server_postcard : Postcard ServerFrame Z :=
  {| to_stdvec := toy_server_to; from_bytes := toy_server_from |}.

#[local] Instance toy_server_postcard_laws : PostcardLaws ServerFrame Z.
Proof.
  split; intros v bs; simpl; unfold toy_server_to;
    destruct v as [[n]|[s]|[c]| | | | | |line| |]; simpl; try done; case_bool_decide as Hb; try done;
    intros [= <-]; try done; (constructor; [solve_in_u|done]).
Qed.

#[local] Existing Instances toy_postcard toy_postcard_laws toy_stream toy_stream_laws toy_base64 toy_hex
  toy_hex_laws.

#[local] Instance unit_ed : Ed25519 unit unit := {|
  ed_public _ := toy_secret;
  ed_sign _ msg := msg;
  ed_from_bytes _ := Some tt;
  ed_verify _ msg sig := bool_decide (msg = sig);
|}.

#[local] Instance unit_ed_laws : Ed25519Laws unit unit.
Proof. split. intros [] msg. exists tt. split; [done|]. by apply bool_decide_eq_true. Qed.

#[local] Instance unit_seed : SeedBytes unit := {| sk_to_bytes _ := repeat 5 32; sk_from_bytes _ := tt |}.

#[local] Instance unit_seed_laws : SeedBytesLaws unit.
Proof. split; [by intros []|]. intros sk. split; [solve_bytes|done]. Qed.

Definition toy_control (pending : bytes) : ControlWorld bytes :=
  {| cs_recv := pending; cs_sent := []; cs_finished := false; cs_closed := None; cs_outcomes := [] |}.

Definition server_bytes (f : ServerFrame) : bytes := (encode_frame f []).2.

Lemma client_server_session_witness :
  exists cw', finish_auth (fun e => e) (Identity_generate tt) Quic
      (toy_control (server_bytes (AuthChallenge (he_nonce toy_env)) ++ server_bytes (AuthOk (he_sid toy_env)) ++ [8]))
    = (Ok {| as_session_id := he_sid toy_env; as_transport := Quic |}, cw') /\ rs_pending (cs_recv cw') = [8].
Proof.
  destruct (client_server_session (fun e => e) (fun b => b) toy_env tt AuthorizedEntry_default Quic
    (toy_control (server_bytes (AuthChallenge (he_nonce toy_env)) ++ server_bytes (AuthOk (he_sid toy_env)) ++ [8]))
    (toy_world []) [] [8]
    (toy_frame (AuthRequest {| pk_raw := toy_secret |}))
    (toy_frame (AuthResponse (sign_challenge tt (he_nonce toy_env))))
    (server_bytes (AuthChallenge (he_nonce toy_env))) (server_bytes (AuthOk (he_sid toy_env)))
    (len (toy_frame (AuthRequest {| pk_raw := toy_secret |})))
    (len (toy_frame (AuthResponse (sign_challenge tt (he_nonce toy_env)))))
    (len (server_bytes (AuthChallenge (he_nonce toy_env)))) (len (server_bytes (AuthOk (he_sid toy_env)))))
    as (cw' & Hf & Hp & _).
  - split; [solve_bytes|reflexivity].
  - vm_compute. reflexivity.
  - vm_compute. reflexivity.
  - vm_compute. reflexivity.
  - vm_compute. reflexivity.
  - vm_compute. reflexivity.
  - split; [apply Forall_nil_2|solve_bytes].
  - split; reflexivity.
  - reflexivity.
  - exists cw'. split; [exact Hf|exact Hp].
Defined.

(** A server that knows no key. *)
Definition toy_empty_world (input : bytes) : HsWorld bytes :=
  {| hw_send := {| ss_sent := []; ss_outcomes := []; ss_finished := false |}; hw_recv := input;
     hw_keys := {| kr_file := Some []; kr_entries := ∅ |};
     hw_admin := {| ats_state := None; ats_file := None |} |}.

Lemma unknown_identity_misreported_witness :
  (finish_auth (fun e => e) (Identity_generate tt) Quic
     (toy_control (server_bytes (AuthReject UNKNOWN_IDENTITY)))).1 = Err (CE_Protocol EXPECTED_CHALLENGE).
Proof.
  apply (unknown_identity_misreported (fun e => e) (fun b => b) toy_env tt Quic
    (toy_control (server_bytes (AuthReject UNKNOWN_IDENTITY)))
    (toy_empty_world (StreamKind_as_byte Control :: toy_frame (AuthRequest {| pk_raw := toy_secret |})))
    (toy_frame (AuthRequest {| pk_raw := toy_secret |})) (server_bytes (AuthReject UNKNOWN_IDENTITY))
    (len (toy_frame (AuthRequest {| pk_raw := toy_secret |}))) (len (server_bytes (AuthReject UNKNOWN_IDENTITY)))).
  - split; [solve_bytes|reflexivity].
  - vm_compute. reflexivity.
  - vm_compute. reflexivity.
  - vm_compute. reflexivity.
  - split; reflexivity.
  - reflexivity.
  - reflexivity.
Defined.

Definition toy_enroll : EnrollOptions :=
  {| eo_server_host := lit "relay"; eo_server_quic_port := 7853; eo_sni := None; eo_admin_token := lit "tok";
     eo_label_hint := None; eo_pinned_fingerprint := None |}.

Definition toy_attempt : Attempt (S := bytes) :=
  {| at_lookup := Ok true; at_bind := None; at_connect := None;
     at_control := toy_control (server_bytes (EnrollOk (lit "ok"))) |}.

Definition toy_io : SaveIo := {| si_mkdir := None; si_write := None; si_chmod := None; si_rename := None |}.

Definition toy_enrolled : ClientConfig := enrolled_config toy_enroll (Identity_generate tt) None.

Lemma enroll_persists_witness :
  load_from (toy_toml_from toy_enrolled) (lit "config.toml") []
    (enroll (SK := unit) (fun e => e) (toy_toml_to toy_enrolled) (toy_toml_from toy_enrolled)
      (lit "config.toml") toy_io toy_enroll tt None toy_attempt toy_dir).2 = Ok toy_enrolled.
Proof.
  pose proof (enroll_persists (fun e => e) (toy_toml_to toy_enrolled) (toy_toml_from toy_enrolled)
    (toy_toml_law toy_enrolled) (lit "config.toml") toy_io toy_enroll tt None toy_attempt toy_dir) as H.
  destruct (enroll (SK := unit) (fun e => e) (toy_toml_to toy_enrolled) (toy_toml_from toy_enrolled)
    (lit "config.toml") toy_io toy_enroll tt None toy_attempt toy_dir) as [[r w'] dir'] eqn:E.
  assert (r = Ok toy_enrolled) as -> by (revert E; vm_compute; by intros [= <- _ _]).
  destruct H as (_ & _ & H & _). apply H.
Defined.
