(* ===== verification/Session.v ===== *)
(** * Session: the per-connection loop

    [krot-server/src/session.rs] (and [wait_shutdown] of [server.rs]): after the
    handshake a session reads client frames and turns them into registry operations and
    replies, until a [Bye], a read error, a shutdown or a revocation.

    Sessions share the registry and run on several threads, so other sessions may act
    between any two registry calls of this one: before each of its calls the session runs
    [interfere], which applies the next batch of foreign operations ([sw_others], any
    sequence).  Sessions publish only their own reservations: a foreign batch never
    inserts the id this session has reserved ([sw_mine], ghost state). *)

From S2P Require Import Prelude RustStr Wire Framing Types Registry Rate Keys Admin Handshake Peers Metrics Config.

Local Open Scope Z_scope.

(** ** Shutdown and revocation watches *)

(** A [watch::Receiver<bool>]: the value it would borrow now, and whether the sender is
    still there. *)
Record Watch := { wt_value : bool; wt_open : bool }.

(** Has [wait_shutdown] returned after observing the receiver in these states, in order?
    It returns on the value [true] and on [changed()] failing. *)
Fixpoint wait_shutdown (observed : list Watch) : bool :=
  match observed with
  | [] => false
  | w :: observed => if wt_value w then true else if wt_open w then wait_shutdown observed else true
  end.

Inductive BroadcastEvent :=
| BC_Key (pk : PubKey)
| BC_Lagged (missed : Z)
| BC_Closed.

(** The watch after the watcher task has received these events; the sender goes when the
    task returns. *)
Fixpoint spawn_revocation_watcher (target : PubKey) (rx : list BroadcastEvent) : Watch :=
  match rx with
  | [] => {| wt_value := false; wt_open := true |}
  | BC_Key pk :: rx =>
    if bool_decide (pk = target) then {| wt_value := true; wt_open := false |}
    else spawn_revocation_watcher target rx
  | BC_Lagged _ :: rx => spawn_revocation_watcher target rx
  | BC_Closed :: _ => {| wt_value := false; wt_open := false |}
  end.

(** ** Data *)

Inductive SessionOutcome := SO_Bye | SO_Dropped | SO_Terminal.

Inductive DispatchOutcome := Continue | Stop (reason : SessionOutcome).

(** What a session captures after the handshake.  The registry, metrics and peers it
    shares are in the world and the environment. *)
Record Session := {
  s_pubkey : PubKey;
  s_session_id : SessionId;
  s_connection : Connection;
  s_mode : Mode;
  s_entry : AuthorizedEntry;
  s_rate : RateRef;
}.

(** What one dispatch draws from its environment: the registry's iteration order, the peer
    list, the lookup, the operating system's [bind] (a listener and the port of its local
    address, or an error), the text of an error, the handle of the spawned task. *)
Record DispatchEnv (L : Type) := {
  de_order : list TunnelId;
  de_peers : PeerRegistry;
  de_lookup : L;
  de_bind : Z -> Result (TcpListener * Result Z Z) Z;
  de_message : Z -> str;
  de_abort : AbortHandle;
}.
Arguments de_order {L} _.
Arguments de_peers {L} _.
Arguments de_lookup {L} _.
Arguments de_bind {L} _ _.
Arguments de_message {L} _ _.
Arguments de_abort {L} _.

(** An accept loop spawned with [run_tcp_tunnel]. *)
Record TunnelTask := {
  tt_listener : TcpListener;
  tt_connection : Connection;
  tt_tunnel_id : TunnelId;
  tt_rate : RateRef;
  tt_inspect : bool;
  tt_handle : AbortHandle;
}.

Record SessWorld := {
  sw_reg : RegWorld;
  sw_metrics : ServerMetrics;
  sw_send : SendSide;
  sw_tasks : list TunnelTask;
  sw_others : list (list RegOp);
  sw_mine : option (TunnelId * RegisteredKind);
}.

Abbreviation SeM := (SM SessWorld ServerError).

(** ** Effects *)

Definition set_reg (r : RegWorld) (w : SessWorld) : SessWorld :=
  {| sw_reg := r; sw_metrics := sw_metrics w; sw_send := sw_send w; sw_tasks := sw_tasks w;
     sw_others := sw_others w; sw_mine := sw_mine w |}.

Definition set_send (s : SendSide) (w : SessWorld) : SessWorld :=
  {| sw_reg := sw_reg w; sw_metrics := sw_metrics w; sw_send := s; sw_tasks := sw_tasks w;
     sw_others := sw_others w; sw_mine := sw_mine w |}.

(** An operation of another session: it does not insert what this session has reserved. *)
Definition foreign (mine : option (TunnelId * RegisteredKind)) (o : RegOp) : bool :=
  match o, mine with
  | OpInsert info, Some (id, _) => negb (bool_decide (ti_id info = id))
  | _, _ => true
  end.

(** The other sessions' turn. *)
Definition interfere : SeM unit := sm_modify (fun w =>
  match sw_others w with
  | [] => w
  | batch :: rest =>
    {| sw_reg := run (List.filter (foreign (sw_mine w)) batch) (sw_reg w);
       sw_metrics := sw_metrics w; sw_send := sw_send w; sw_tasks := sw_tasks w;
       sw_others := rest; sw_mine := sw_mine w |}
  end).

(** A registry call that only reads. *)
Definition reg_get {A} (f : TunnelRegistry -> A) : SeM A :=
  let! _ := interfere in
  sm_gets (fun w => f (rw_reg (sw_reg w))).

(** A registry call that acts: its result, and its effect as an operation of [Registry]. *)
Definition reg_call {A} (f : TunnelRegistry -> A) (o : RegOp) : SeM A :=
  let! _ := interfere in
  fun w => (Ok (f (rw_reg (sw_reg w))), set_reg (exec_op o (sw_reg w)) w).

(** Remember the reservation just made. *)
Definition reserve (id : TunnelId) (k : RegisteredKind) : SeM unit := sm_modify (fun w =>
  {| sw_reg := sw_reg w; sw_metrics := sw_metrics w; sw_send := sw_send w;
     sw_tasks := sw_tasks w; sw_others := sw_others w; sw_mine := Some (id, k) |}).

(** [registry.insert(info)]: unconditional, as the source's. *)
Definition reg_insert (info : TunnelInfo) : SeM unit :=
  let! _ := interfere in
  sm_modify (fun w =>
    let r := sw_reg w in
    {| sw_reg := {| rw_reg := TunnelRegistry_insert info (rw_reg r);
                    rw_pending := delete (ti_id info) (rw_pending r);
                    rw_aborted := rw_aborted r |};
       sw_metrics := sw_metrics w; sw_send := sw_send w; sw_tasks := sw_tasks w;
       sw_others := sw_others w; sw_mine := None |}).

Definition metric (c : Counter) : SeM unit := sm_modify (fun w =>
  {| sw_reg := sw_reg w; sw_metrics := bump c (sw_metrics w); sw_send := sw_send w;
     sw_tasks := sw_tasks w; sw_others := sw_others w; sw_mine := sw_mine w |}).

(** [tokio::spawn(run_tcp_tunnel(..))]. *)
Definition spawn_tunnel (t : TunnelTask) : SeM AbortHandle := fun w =>
  (Ok (tt_handle t),
   {| sw_reg := sw_reg w; sw_metrics := sw_metrics w; sw_send := sw_send w;
      sw_tasks := sw_tasks w ++ [t]; sw_others := sw_others w; sw_mine := sw_mine w |}).

(** [write_frame(send, &f).await?]. *)
Definition reply (f : ServerFrame) : SeM unit := fun w =>
  let '(r, s) := send_side_write f (sw_send w) in (map_err SE_Transport r, set_send s w).

(** [send.finish()] and [send.stopped().await], errors ignored. *)
Definition finish_stream : SeM unit := sm_modify (fun w =>
  set_send {| ss_sent := ss_sent (sw_send w); ss_outcomes := ss_outcomes (sw_send w);
              ss_finished := true |} w).

(** ** Registration *)

Section Dispatch.
Context {L : Type} `{PeerLabelLookup L}.
Context (s : Session).

Definition public_host : str :=
  match s_mode s with
  | ModeIp public_host _ => public_host
  | ModeDomain apex _ _ _ _ => apex
  end.

(** The peers this identity may publish on: configured ones in its [federation=] list. *)
Definition candidate_peers (env : DispatchEnv L) : list str :=
  List.filter (fun apex => bool_decide (apex ∈ ae_federation (s_entry s)))
    (PeerRegistry_snapshot (de_peers env)).

Definition label_permitted (label : str) : bool :=
  ae_allow_any_subdomain (s_entry s) || bool_decide (label ∈ ae_allowed_subdomains (s_entry s)).

Definition https_url (label apex : str) : str := lit "https://" ++ label ++ lit "." ++ apex.
Definition tcp_url (host : str) (port : Z) : str := lit "tcp://" ++ host ++ lit ":" ++ fmt_dec port.

Definition register_http (env : DispatchEnv L) (label : str) (inspect : bool) : SeM unit :=
  match s_mode s with
  | ModeIp _ _ => reply (TunnelRejected HTTP_NOT_AVAILABLE (lit "server is in IpMode"))
  | ModeDomain apex _ _ _ _ =>
    if negb (is_valid_label label) then
      let! _ := metric tunnel_rejected_label in
      reply (TunnelRejected LABEL_INVALID (lit "does not match DNS label grammar"))
    else if negb (label_permitted label) then
      let! _ := metric tunnel_rejected_label in
      reply (TunnelRejected LABEL_FORBIDDEN
               (lit "`" ++ label ++ lit "` not permitted for this identity"))
    else
      let peers := candidate_peers env in
      match
        if bool_decide (peers = []) then CC_Clear []
        else check_collision (de_lookup env) peers label (s_pubkey s)
      with
      | CC_Conflict first_conflict =>
        let! _ := metric tunnel_rejected_peer_collision in
        reply (TunnelRejected LABEL_UNAVAILABLE
                 (lit "`" ++ label ++ lit "` already registered on peer " ++ first_conflict
                   ++ lit " by a different identity"))
      | CC_Clear _ =>
        let! r := reg_call (fun r => (allocate_http label r).1) (OpAllocateHttp label) in
        match r with
        | Err _ =>
          let! _ := metric tunnel_rejected_label in
          reply (TunnelRejected LABEL_UNAVAILABLE (lit "`" ++ label ++ lit "` is taken"))
        | Ok tunnel_id =>
          let! _ := reserve tunnel_id (RK_Http label) in
          let! _ := reg_insert
            {| ti_id := tunnel_id; ti_owner := s_pubkey s; ti_session_id := s_session_id s;
               ti_kind := RK_Http label; ti_state := Live (s_connection s) None;
               ti_tcp_listener := None; ti_rate := s_rate s; ti_inspect := inspect |} in
          let! _ := metric tunnel_registered_http in
          reply (TunnelRegistered tunnel_id (https_url label apex) None)
        end
      end
  end.

Definition register_tcp (env : DispatchEnv L) (label : str) (remote_port : option Z)
    (inspect : bool) : SeM unit :=
  let refused :=
    match remote_port, ae_allowed_ports (s_entry s) with
    | Some p, Some allow => if bool_decide (p ∈ allow) then None else Some p
    | _, _ => None
    end in
  match refused with
  | Some p =>
    let! _ := metric tunnel_rejected_ports in
    reply (TunnelRejected LABEL_FORBIDDEN
             (lit "port " ++ fmt_dec p ++ lit " not permitted for this identity"))
  | None =>
    let allowlist := ae_allowed_ports (s_entry s) in
    let! r := reg_call (fun r => (allocate_tcp allowlist r).1) (OpAllocateTcp allowlist) in
    match r with
    | Err _ =>
      let! _ := metric tunnel_rejected_pool in
      reply (TunnelRejected PORT_POOL_EXHAUSTED (lit "no free ports"))
    | Ok (tunnel_id, port) =>
      let! _ := reserve tunnel_id (RK_Tcp port) in
      match de_bind env port with
      | Err e =>
        reply (TunnelRejected INTERNAL_ERROR (lit "bind failed: " ++ de_message env e))
      | Ok (_, Err e) => sm_throw (SE_Io e)
      | Ok (listener, Ok public_port) =>
        let! abort := spawn_tunnel
          {| tt_listener := listener; tt_connection := s_connection s;
             tt_tunnel_id := tunnel_id; tt_rate := s_rate s; tt_inspect := inspect;
             tt_handle := de_abort env |} in
        let! _ := reg_insert
          {| ti_id := tunnel_id; ti_owner := s_pubkey s; ti_session_id := s_session_id s;
             ti_kind := RK_Tcp public_port; ti_state := Live (s_connection s) (Some abort);
             ti_tcp_listener := Some listener; ti_rate := s_rate s; ti_inspect := inspect |} in
        let! _ := metric tunnel_registered_tcp in
        reply (TunnelRegistered tunnel_id (tcp_url public_host public_port) (Some public_port))
      end
    end
  end.

Definition finish_resume (env : DispatchEnv L) (tunnel_id : TunnelId) (info : ResumedInfo)
    (inspect : bool) : SeM unit :=
  match info with
  | RI_Http label =>
    match s_mode s with
    | ModeIp _ _ =>
      let! _ := reply (TunnelRejected INTERNAL_ERROR (lit "resume across mode change")) in
      reg_call (fun _ => tt) (OpRemove tunnel_id)
    | ModeDomain apex _ _ _ _ =>
      reply (TunnelRegistered tunnel_id (https_url label apex) None)
    end
  | RI_Tcp public_port listener =>
    let! abort := spawn_tunnel
      {| tt_listener := listener; tt_connection := s_connection s; tt_tunnel_id := tunnel_id;
         tt_rate := s_rate s; tt_inspect := inspect; tt_handle := de_abort env |} in
    let! _ := reg_call (fun _ => tt) (OpSetTcpAbort tunnel_id abort) in
    reply (TunnelRegistered tunnel_id (tcp_url public_host public_port) (Some public_port))
  end.

(** Registration proper, once no lease was resumed. *)
Definition register_fresh (env : DispatchEnv L) (label : str) (kind : TunnelKind)
    (inspect : bool) : SeM unit :=
  let! over :=
    match ae_max_conns (s_entry s) with
    | None => sm_ret None
    | Some cap =>
      let! live := reg_get (fun r => Z.of_nat (count_owned_by (s_pubkey s) r)) in
      sm_ret (if cap <=? live then Some (live, cap) else None)
    end in
  match over with
  | Some (live, cap) =>
    let! _ := metric tunnel_rejected_conns in
    reply (TunnelRejected TUNNEL_LIMIT_EXCEEDED
             (fmt_dec live ++ lit "/" ++ fmt_dec cap ++ lit " concurrent tunnels"))
  | None =>
    match kind with
    | TK_Http => register_http env label inspect
    | TK_Tcp remote_port => register_tcp env label remote_port inspect
    end
  end.

Definition register (env : DispatchEnv L) (label : str) (kind : TunnelKind)
    (resume_session_id : option SessionId) (inspect : bool) : SeM unit :=
  match resume_session_id with
  | Some prev =>
    let! outcome :=
      reg_call (fun r => (try_resume (de_order env) label prev (s_pubkey s) (s_connection s) r).1)
        (OpTryResume (de_order env) label prev (s_pubkey s) (s_connection s)) in
    match outcome with
    | Reattached tunnel_id info resumed_inspect =>
      let! _ := metric resume_reattached in
      finish_resume env tunnel_id info resumed_inspect
    | IdentityMismatch =>
      let! _ := metric resume_identity_mismatch in
      reply (TunnelRejected RESUME_IDENTITY_MISMATCH
               (lit "resume pubkey does not match original owner"))
    | ResumeUnknown =>
      let! _ := metric resume_unknown in
      register_fresh env label kind inspect
    end
  | None => register_fresh env label kind inspect
  end.

(** ** Dispatch *)

Definition dispatch (env : DispatchEnv L) (frame : ClientFrame) : SeM DispatchOutcome :=
  match frame with
  | Ping nonce =>
    let! _ := reply (Pong nonce) in
    sm_ret Continue
  | RegisterTunnel label kind resume_session_id inspect =>
    let! _ := register env label kind resume_session_id inspect in
    sm_ret Continue
  | UnregisterTunnel tunnel_id =>
    let! _ := reg_call (fun _ => tt) (OpRemove tunnel_id) in
    sm_ret Continue
  | ListPeers =>
    let! _ := reply (Peers (candidate_peers env)) in
    sm_ret Continue
  | Bye => sm_ret (Stop SO_Bye)
  | AuthRequest _ | AuthResponse _ | Enroll _ _ _ =>
    let! _ := reply (ServerBye PROTOCOL_VIOLATION) in
    sm_ret (Stop SO_Terminal)
  end.

(** ** The loop *)

(** What one [select!] finds: how the two waits stand, a completed frame read, a frame
    posted by the data path.  At most the first ready branch runs ([biased]). *)
Record Poll := {
  pl_shutdown : list Watch;
  pl_revoked : list Watch;
  pl_frame : option (Result ClientFrame TErr);
  pl_ctrl : option ServerFrame;
  pl_env : DispatchEnv L;
}.

(** The goodbye of a session the server ends. *)
Definition farewell (code : ErrorCode) : SeM DispatchOutcome :=
  let! _ := sm_ignore (reply (ServerBye code)) in
  let! _ := finish_stream in
  sm_ret (Stop SO_Terminal).

Definition run_step (p : Poll) : SeM DispatchOutcome :=
  if wait_shutdown (pl_shutdown p) then farewell SERVER_SHUTDOWN
  else if wait_shutdown (pl_revoked p) then farewell KEY_REVOKED
  else match pl_frame p with
  | Some (Err _) => sm_ret (Stop SO_Dropped)
  | Some (Ok frame) => dispatch (pl_env p) frame
  | None =>
    match pl_ctrl p with
    | Some outbound =>
      let! _ := sm_ignore (reply outbound) in
      sm_ret Continue
    | None => sm_ret Continue
    end
  end.

(** [run] over a sequence of polls: [None] when the session is still running after them. *)
Fixpoint session_run (polls : list Poll) : SeM (option SessionOutcome) :=
  match polls with
  | [] => sm_ret None
  | p :: polls =>
    let! o := run_step p in
    match o with
    | Continue => session_run polls
    | Stop reason => sm_ret (Some reason)
    end
  end.

End Dispatch.

(** ** Specifications of the effects *)

(** A partial-correctness triple over results, errors included. *)
Definition triple {A} (P : SessWorld -> Prop) (m : SeM A)
    (Q : Result A ServerError -> SessWorld -> Prop) : Prop :=
  forall w, P w -> Q (m w).1 (m w).2.

Lemma triple_bind {A B} P (m : SeM A) (k : A -> SeM B) R Q :
  triple P m (fun r w => match r with Ok a => R a w | Err e => Q (Err e) w end) ->
  (forall a, triple (R a) (k a) Q) -> triple P (sm_bind m k) Q.
Proof.
  intros Hm Hk w Hw. specialize (Hm w Hw). unfold sm_bind.
  destruct (m w) as [[a|e] w1]; simpl in *; [by apply Hk|done].
Qed.

Lemma triple_weaken {A} (P P' : SessWorld -> Prop) (m : SeM A) Q :
  (forall w, P w -> P' w) -> triple P' m Q -> triple P m Q.
Proof. unfold triple. auto. Qed.

(** The registry is well formed, ids suffice for the foreign operations still to come and
    [n] more of this session's, the pool has no port 0, and this session's reservation is
    pending. *)
Record sess_ok (n : Z) (w : SessWorld) : Prop := {
  ok_inv : reg_inv (sw_reg w);
  ok_room : tr_next_id (rw_reg (sw_reg w)) + len (concat (sw_others w)) + n < 2 ^ 64;
  ok_pool : 1 <= tr_port_lo (rw_reg (sw_reg w));
  ok_mine : forall id k, sw_mine w = Some (id, k) -> rw_pending (sw_reg w) !! id = Some k;
}.

Lemma sess_ok_weaken n m w : sess_ok n w -> m <= n -> sess_ok m w.
Proof. intros [] ?. split; auto with lia. Qed.

Lemma remove_locked_pool id r : tr_port_lo (remove_locked id r).1 = tr_port_lo r.
Proof. unfold remove_locked. by repeat case_match. Qed.

Lemma remove_each_pool ids r : tr_port_lo (remove_each ids r).1 = tr_port_lo r.
Proof.
  revert r. induction ids as [|id ids IH]; intros r; [done|]. simpl.
  pose proof (remove_locked_pool id r) as Hp. destruct (remove_locked id r) as [r1 a].
  specialize (IH r1). destruct (remove_each ids r1). simpl in *. congruence.
Qed.

Lemma dangle_each_pool t ids r : tr_port_lo (dangle_each t ids r).1 = tr_port_lo r.
Proof.
  revert r. induction ids as [|id ids IH]; intros r; [done|]. simpl.
  destruct (tr_tunnels r !! id) as [info|]; [|apply IH].
  destruct (is_dangling (ti_state info)); [apply IH|].
  specialize (IH (with_tunnels (<[id:=with_state (Dangling t) info]> (tr_tunnels r)) r)).
  by destruct (dangle_each t ids _).
Qed.

Lemma exec_op_pool o w : tr_port_lo (rw_reg (exec_op o w)) = tr_port_lo (rw_reg w).
Proof.
  destruct o; simpl.
  - unfold allocate_tcp. by destruct (pick_free_port _ _ _ _).
  - unfold allocate_http. by destruct (bool_decide _).
  - by case_decide.
  - apply remove_locked_pool.
  - apply remove_each_pool.
  - apply dangle_each_pool.
  - apply remove_each_pool.
  - unfold try_resume. by repeat case_match.
  - unfold set_tcp_abort. by repeat case_match.
Qed.

(** One operation that is not the insertion of this session's reservation. *)
Lemma sess_ok_exec n w o :
  sess_ok (n + 1) w -> 0 <= n -> foreign (sw_mine w) o = true ->
  sess_ok n (set_reg (exec_op o (sw_reg w)) w).
Proof.
  intros [I Hr Hp Hm] Hn Hf.
  assert (0 <= len (concat (sw_others w))) by apply len_nonneg.
  destruct (inv_exec (sw_reg w) o I) as [I' Hx]; [lia|]. split; simpl; [done|lia| |].
  - by rewrite exec_op_pool.
  - intros id k Hk. apply pending_kept; [done|by apply Hm|].
    intros info -> He. rewrite Hk in Hf. simpl in Hf. by rewrite bool_decide_true in Hf.
Qed.

Lemma sess_ok_run n w ops :
  sess_ok (n + len ops) w -> 0 <= n -> Forall (fun o => foreign (sw_mine w) o = true) ops ->
  sess_ok n (set_reg (run ops (sw_reg w)) w).
Proof.
  revert w. induction ops as [|o ops IH]; intros w Hw Hn Hf.
  - replace (n + len []) with n in Hw by (unfold len; simpl; lia). by destruct w.
  - apply Forall_cons_1 in Hf as [Ho Hf].
    assert (Hl : len (o :: ops) = len ops + 1) by (unfold len; simpl length; lia).
    assert (0 <= len ops) by apply len_nonneg.
    apply (IH (set_reg (exec_op o (sw_reg w)) w)); [|done|done].
    apply sess_ok_exec; [|lia|done]. eapply sess_ok_weaken; [done|lia].
Qed.

Lemma interfere_ok n : 0 <= n -> triple (sess_ok n) interfere (fun _ => sess_ok n).
Proof.
  intros Hn w Hw. unfold interfere. simpl. destruct (sw_others w) as [|b rest] eqn:E; [done|].
  set (w1 := {| sw_reg := sw_reg w; sw_metrics := sw_metrics w; sw_send := sw_send w;
                sw_tasks := sw_tasks w; sw_others := rest; sw_mine := sw_mine w |}).
  set (ops := List.filter (foreign (sw_mine w)) b).
  assert (Hlen : len ops <= len b).
  { unfold len, ops. pose proof (List.filter_length_le (foreign (sw_mine w)) b). lia. }
  apply (sess_ok_run n w1 ops); [|done|].
  - destruct Hw as [I Hr Hp Hm]. rewrite E in Hr. cbn [concat] in Hr. rewrite len_app in Hr.
    split; simpl; [done|lia|done|done].
  - apply List.Forall_forall. unfold ops. by intros o [_ Ho]%filter_In.
Qed.

Lemma reg_get_ok {A} n (f : TunnelRegistry -> A) :
  0 <= n -> triple (sess_ok n) (reg_get f) (fun _ => sess_ok n).
Proof.
  intros Hn. unfold reg_get. apply (triple_bind _ _ _ (fun _ => sess_ok n)); [|by intros a w Hw].
  intros w Hw. exact (interfere_ok n Hn w Hw).
Qed.

(** Calls of this session other than insertions. *)
Definition no_insert (o : RegOp) : Prop := match o with OpInsert _ => False | _ => True end.

Lemma reg_call_ok {A} n (f : TunnelRegistry -> A) o :
  0 <= n -> no_insert o ->
  triple (sess_ok (n + 1)) (reg_call f o)
    (fun r w => sess_ok n w /\ exists w0, sess_ok (n + 1) w0 /\
       r = Ok (f (rw_reg (sw_reg w0))) /\ sw_reg w = exec_op o (sw_reg w0)).
Proof.
  intros Hn Ho. unfold reg_call. apply (triple_bind _ _ _ (fun _ => sess_ok (n + 1))).
  - intros w Hw. exact (interfere_ok (n + 1) ltac:(lia) w Hw).
  - intros [] w Hw. simpl. split; [apply sess_ok_exec; [done|done|by destruct o]|eauto].
Qed.

Lemma reply_ok n f : triple (sess_ok n) (reply f) (fun _ => sess_ok n).
Proof.
  intros w [I Hr Hp Hm]. unfold reply.
  destruct (send_side_write f (sw_send w)) as [r s1]. by split.
Qed.

Lemma metric_ok n c : triple (sess_ok n) (metric c) (fun _ => sess_ok n).
Proof. intros w [I Hr Hp Hm]. by split. Qed.

Lemma spawn_ok n t : triple (sess_ok n) (spawn_tunnel t) (fun _ => sess_ok n).
Proof. intros w [I Hr Hp Hm]. by split. Qed.

Lemma finish_stream_ok n : triple (sess_ok n) finish_stream (fun _ => sess_ok n).
Proof. intros w [I Hr Hp Hm]. by split. Qed.

(** Publishing the reservation. *)
Lemma reg_insert_ok n info :
  0 <= n -> has_listener info = is_tcp (ti_kind info) ->
  triple (fun w => sess_ok n w /\ sw_mine w = Some (ti_id info, ti_kind info)) (reg_insert info)
    (fun _ => sess_ok n).
Proof.
  intros Hn Hl. unfold reg_insert. eapply (triple_bind _ _ _
    (fun _ w => sess_ok n w /\ sw_mine w = Some (ti_id info, ti_kind info))).
  - intros w [Hw Hm]. pose proof (interfere_ok n Hn w Hw) as Hi. unfold interfere in *. simpl in *.
    split; [done|]. by destruct (sw_others w).
  - intros [] w [[I Hr Hp Hmine] Hm]. simpl. split; simpl; [|done|done|done].
    apply inv_insert; [done|by apply Hmine|done].
Qed.

Lemma exec_allocate_http l w id :
  (allocate_http l (rw_reg w)).1 = Ok id ->
  rw_pending (exec_op (OpAllocateHttp l) w) !! id = Some (RK_Http l).
Proof.
  simpl. destruct (allocate_http l (rw_reg w)) as [[i|e] r]; simpl; [|done].
  intros [= ->]. apply lookup_insert_eq.
Qed.

Lemma exec_allocate_tcp allow w id p :
  (allocate_tcp allow (rw_reg w)).1 = Ok (id, p) ->
  rw_pending (exec_op (OpAllocateTcp allow) w) !! id = Some (RK_Tcp p).
Proof.
  simpl. destruct (allocate_tcp allow (rw_reg w)) as [[[i q]|e] r]; simpl; [|done].
  intros [= -> ->]. apply lookup_insert_eq.
Qed.

(** Reserving what the registry has just handed out. *)
Lemma reserve_ok n id k :
  triple (fun w => sess_ok n w /\ rw_pending (sw_reg w) !! id = Some k) (reserve id k)
    (fun _ w => sess_ok n w /\ sw_mine w = Some (id, k)).
Proof.
  intros w [[I Hr Hp Hm] Hk]. split; [|done]. split; simpl; [done|done|done|].
  by intros ? ? [= <- <-].
Qed.

(** ** The registry stays well formed

    [n0] is the number of ids to leave for later. *)

Section Room.
Context (n0 : Z) (Hn0 : 0 <= n0).

Lemma bind_ok {A B} n (m : SeM A) (k : A -> SeM B) :
  n0 <= n -> triple (sess_ok n) m (fun _ => sess_ok n) ->
  (forall a, triple (sess_ok n) (k a) (fun _ => sess_ok n0)) ->
  triple (sess_ok n) (sm_bind m k) (fun _ => sess_ok n0).
Proof.
  intros Hn Hm Hk. apply (triple_bind _ _ _ (fun _ => sess_ok n)); [|done].
  intros w Hw. specialize (Hm w Hw). destruct (m w) as [[|] w1]; simpl in *; [done|].
  by eapply sess_ok_weaken.
Qed.

Lemma ret_ok {A} n (r : Result A ServerError) : n0 <= n -> triple (sess_ok n) (fun w => (r, w)) (fun _ => sess_ok n0).
Proof. intros Hn w Hw. by eapply sess_ok_weaken. Qed.

Lemma last_ok {A} n (m : SeM A) :
  n0 <= n -> triple (sess_ok n) m (fun _ => sess_ok n) -> triple (sess_ok n) m (fun _ => sess_ok n0).
Proof. intros Hn Hm w Hw. eapply sess_ok_weaken; [by apply Hm|done]. Qed.

Lemma call_ok {A B} n (f : TunnelRegistry -> A) o (k : A -> SeM B) :
  n0 <= n -> no_insert o ->
  (forall w0, sess_ok (n + 1) w0 ->
     triple (fun w => sess_ok n w /\ sw_reg w = exec_op o (sw_reg w0))
     (k (f (rw_reg (sw_reg w0)))) (fun _ => sess_ok n0)) ->
  triple (sess_ok (n + 1)) (sm_bind (reg_call f o) k) (fun _ => sess_ok n0).
Proof.
  intros Hn Ho Hk w Hw. destruct (reg_call_ok n f o ltac:(lia) Ho w Hw) as [Hw1 (w0 & Hw0 & Hr & He)].
  unfold sm_bind. destruct (reg_call f o w) as [r w1]. simpl in *. subst r.
  by apply (Hk w0).
Qed.

(** Reserve what was handed out, and later publish it. *)
Lemma reserve_then {B} o w0 id k (m : unit -> SeM B) Q :
  rw_pending (exec_op o (sw_reg w0)) !! id = Some k ->
  triple (fun w => sess_ok n0 w /\ sw_mine w = Some (id, k)) (m tt) Q ->
  triple (fun w => sess_ok n0 w /\ sw_reg w = exec_op o (sw_reg w0)) (sm_bind (reserve id k) m) Q.
Proof.
  intros Hp Hm w [Hw He]. apply Hm. apply reserve_ok. split; [done|]. by rewrite He.
Qed.

Lemma insert_then {B} info id k (m : unit -> SeM B) :
  ti_id info = id -> ti_kind info = k -> has_listener info = is_tcp (ti_kind info) ->
  triple (sess_ok n0) (m tt) (fun _ => sess_ok n0) ->
  triple (fun w => sess_ok n0 w /\ sw_mine w = Some (id, k))
    (sm_bind (reg_insert info) m) (fun _ => sess_ok n0).
Proof. intros <- <- Hl Hm w Hw. apply Hm. exact (reg_insert_ok n0 info ltac:(lia) Hl w Hw). Qed.

#[local] Hint Resolve reply_ok metric_ok spawn_ok finish_stream_ok ret_ok reg_get_ok : sess.

(** Run a chain of effects that keep the registry well formed. *)
Ltac chain :=
  repeat first
    [ done | lia
    | apply bind_ok; [lia|by eauto with sess lia|intros ?]
    | apply ret_ok; lia
    | apply last_ok; [lia|by eauto with sess lia] ].

(** The operating system binds the port it is asked for. *)
Definition bind_law {L} (env : DispatchEnv L) : Prop :=
  forall p l q, 1 <= p -> de_bind env p = Ok (l, Ok q) -> q = p.

Section Keeps.
Context {L : Type} `{PeerLabelLookup L}.
Context (s : Session).

Lemma forget_ok {A} n (P : SessWorld -> Prop) (m : SeM A) Q :
  triple (sess_ok n) m Q -> triple (fun w => sess_ok n w /\ P w) m Q.
Proof. intros Hm w [Hw _]. by apply Hm. Qed.

Lemma register_http_ok (env : DispatchEnv L) label inspect :
  triple (sess_ok (n0 + 1)) (register_http s env label inspect) (fun _ => sess_ok n0).
Proof.
  unfold register_http. destruct (s_mode s) as [|apex]; [chain|].
  destruct (is_valid_label label); simpl; [|chain].
  destruct (label_permitted s label); simpl; [|chain].
  destruct (if bool_decide _ then _ else _) as [m|c]; [|chain].
  apply (call_ok n0); [lia|done|]. intros w0 Hw0.
  destruct (allocate_http label _).1 as [id|e] eqn:Ea; [|apply forget_ok; chain].
  apply reserve_then; [by apply exec_allocate_http|].
  apply insert_then; [done|done|done|]. chain.
Qed.

Lemma allocated_port_pos allow w0 id p :
  sess_ok (n0 + 1) w0 -> (allocate_tcp allow (rw_reg (sw_reg w0))).1 = Ok (id, p) -> 1 <= p.
Proof.
  intros Hw. unfold allocate_tcp. destruct (pick_free_port _ _ _ _) as [q|] eqn:E; [|done].
  apply pick_free_port_Some in E as [(Hr & _) _]. pose proof (ok_pool _ _ Hw).
  simpl. intros [= _ ->]. lia.
Qed.

Lemma register_tcp_ok (env : DispatchEnv L) label rp inspect : bind_law env ->
  triple (sess_ok (n0 + 1)) (register_tcp s env label rp inspect) (fun _ => sess_ok n0).
Proof.
  intros Hb. unfold register_tcp. destruct (match rp with Some _ => _ | None => None end); [chain|].
  apply (call_ok n0); [lia|done|]. intros w0 Hw0.
  destruct (allocate_tcp _ _).1 as [[id port]|e] eqn:Ea; [|apply forget_ok; chain].
  apply reserve_then; [by apply exec_allocate_tcp|].
  destruct (de_bind env port) as [[l [q|e]]|e] eqn:Eb; [|apply forget_ok; chain..].
  assert (q = port) as -> by (eapply Hb; [by eapply allocated_port_pos|done]).
  eapply (triple_bind _ _ _ (fun _ w => sess_ok n0 w /\ sw_mine w = Some (id, RK_Tcp port))).
  { intros w [Hw Hm]. simpl. split; [by apply (spawn_ok n0 _ w)|done]. }
  intros abort. apply insert_then; [done|done|done|]. chain.
Qed.

Lemma finish_resume_ok (env : DispatchEnv L) id info inspect :
  triple (sess_ok (n0 + 1)) (finish_resume s env id info inspect) (fun _ => sess_ok n0).
Proof.
  unfold finish_resume. destruct info as [l|p l].
  - destruct (s_mode s) as [|apex]; [|chain].
    apply bind_ok; [lia|auto with sess|]. intros _ w Hw.
    by apply (reg_call_ok n0 (fun _ => tt) (OpRemove id) ltac:(lia) I w Hw).
  - apply bind_ok; [lia|auto with sess|]. intros a.
    apply (call_ok n0); [lia|done|]. intros w0 _. apply forget_ok. chain.
Qed.

Lemma register_fresh_ok (env : DispatchEnv L) label kind inspect : bind_law env ->
  triple (sess_ok (n0 + 1)) (register_fresh s env label kind inspect) (fun _ => sess_ok n0).
Proof.
  intros Hb. unfold register_fresh. apply bind_ok; [lia| |].
  - destruct (ae_max_conns (s_entry s)) as [cap|]; [|by intros w Hw].
    apply (triple_bind _ _ _ (fun _ => sess_ok (n0 + 1))); [|by intros a w Hw].
    intros w Hw. exact (reg_get_ok (n0 + 1) _ ltac:(lia) w Hw).
  - intros [[live cap]|]; [chain|]. destruct kind.
    + apply register_http_ok.
    + by apply register_tcp_ok.
Qed.

Lemma dispatch_ok (env : DispatchEnv L) frame : bind_law env ->
  triple (sess_ok (n0 + 2)) (dispatch s env frame) (fun _ => sess_ok n0).
Proof.
  replace (n0 + 2) with (n0 + 1 + 1) by lia.
  intros Hb. destruct frame; simpl; try by chain.
  - apply (triple_bind _ _ _ (fun _ => sess_ok n0)); [|intros []; chain].
    assert (Hreg : triple (sess_ok (n0 + 1 + 1)) (register s env label kind resume_session_id inspect)
      (fun _ => sess_ok n0)).
    { unfold register. destruct resume_session_id as [prev|].
      - apply (call_ok (n0 + 1)); [lia|done|]. intros w0 _. apply forget_ok.
        destruct (try_resume _ _ _ _ _ _).1; [| |chain]; (apply bind_ok; [lia|auto with sess|intros _]).
        + apply finish_resume_ok.
        + by apply register_fresh_ok.
      - eapply triple_weaken; [|by apply register_fresh_ok].
        intros w Hw. eapply sess_ok_weaken; [done|lia]. }
    intros w Hw. specialize (Hreg w Hw). by destruct (register _ _ _ _ _ _ w) as [[]].
  - apply (call_ok (n0 + 1)); [lia|done|]. intros w0 _. apply forget_ok. chain.
Qed.

Lemma farewell_ok n code : 0 <= n -> triple (sess_ok n) (farewell code) (fun _ => sess_ok n).
Proof.
  intros Hn w [I Hr Hp Hm]. unfold farewell, sm_ignore, sm_bind, reply.
  destruct (send_side_write _ _) as [r s1]. by split.
Qed.

Lemma run_step_ok (p : Poll) : bind_law (pl_env p) ->
  triple (sess_ok (n0 + 2)) (run_step s p) (fun _ => sess_ok n0).
Proof.
  intros Hb. unfold run_step.
  destruct (wait_shutdown (pl_shutdown p)); [|destruct (wait_shutdown (pl_revoked p))];
    try (intros w Hw; eapply sess_ok_weaken; [by apply (farewell_ok (n0 + 2)); [lia|]|lia]).
  destruct (pl_frame p) as [[f|e]|]; [by apply dispatch_ok|apply ret_ok; lia|].
  destruct (pl_ctrl p); [|apply ret_ok; lia].
  apply bind_ok; [lia| |intros; apply ret_ok; lia].
  intros w Hw. pose proof (reply_ok _ s0 w Hw) as Hr. unfold sm_ignore.
  by destruct (reply s0 w).
Qed.

End Keeps.
End Room.

(** Every reachable registry is well formed, so a session starts from a world like this. *)
Lemma session_run_ok {L} `{PeerLabelLookup L} (s : Session) (polls : list Poll) n :
  0 <= n -> Forall (fun p => bind_law (pl_env p)) polls ->
  triple (sess_ok (n + 2 * len polls)) (session_run s polls) (fun _ => sess_ok n).
Proof.
  intros Hn Hb. induction Hb as [|p polls Hp _ IH].
  { intros w Hw. eapply sess_ok_weaken; [done|unfold len; simpl; lia]. }
  simpl. assert (Hlen : len (p :: polls) = len polls + 1) by (unfold len; simpl length; lia).
  assert (0 <= len polls) by apply len_nonneg. rewrite Hlen.
  intros w Hw. pose proof (run_step_ok (n + 2 * len polls) ltac:(lia) s p Hp w) as Hs.
  replace (n + 2 * len polls + 2) with (n + 2 * (len polls + 1)) in Hs by lia.
  specialize (Hs Hw). unfold sm_bind. destruct (run_step s p w) as [[[|reason]|e] w1]; simpl in *;
    [by apply IH|eapply sess_ok_weaken; [done|lia]..].
Qed.

(** ** What a reply means *)

(** Between [w] and [w'] only other sessions touched the registry; tasks and replies are
    as they were. *)
Definition others_acted (w w' : SessWorld) : Prop :=
  exists taken, sw_others w = taken ++ sw_others w' /\
    sw_reg w' = run (List.filter (foreign (sw_mine w)) (concat taken)) (sw_reg w) /\
    sw_mine w' = sw_mine w /\ sw_tasks w' = sw_tasks w.

#[global] Instance others_acted_refl : Reflexive others_acted.
Proof. intros w. exists []. done. Qed.

#[global] Instance others_acted_trans : Transitive others_acted.
Proof.
  intros w1 w2 w3 (t1 & H1 & R1 & M1 & T1) (t2 & H2 & R2 & M2 & T2). exists (t1 ++ t2).
  split_and!; [by rewrite H1, H2, app_assoc| |congruence|congruence].
  rewrite R2, R1, M1, concat_app, List.filter_app. unfold run. by rewrite foldl_app.
Qed.

Lemma others_acted_tasks w w' : others_acted w w' -> sw_tasks w' = sw_tasks w.
Proof. by intros (? & ? & ? & ? & ?). Qed.

Lemma interfere_acted w : others_acted w (interfere w).2 /\ sw_send (interfere w).2 = sw_send w.
Proof.
  unfold interfere. simpl. destruct (sw_others w) as [|b rest] eqn:E; [done|].
  split; [|done]. exists [b]. simpl. by rewrite app_nil_r.
Qed.

Lemma reg_call_Ok {A} (f : TunnelRegistry -> A) o w a w' :
  reg_call f o w = (Ok a, w') ->
  exists w1, others_acted w w1 /\ sw_send w1 = sw_send w /\ a = f (rw_reg (sw_reg w1)) /\
    w' = set_reg (exec_op o (sw_reg w1)) w1.
Proof.
  unfold reg_call. intros (u & w1 & Hi & [= <- <-])%sm_bind_Ok.
  pose proof (interfere_acted w) as Ha. rewrite Hi in Ha. naive_solver.
Qed.

Lemma reg_get_Ok {A} (f : TunnelRegistry -> A) w a w' :
  reg_get f w = (Ok a, w') ->
  others_acted w w' /\ sw_send w' = sw_send w /\ a = f (rw_reg (sw_reg w')).
Proof.
  unfold reg_get. intros (u & w1 & Hi & [= <- <-])%sm_bind_Ok.
  pose proof (interfere_acted w) as Ha. rewrite Hi in Ha. naive_solver.
Qed.

Lemma reg_insert_Ok info w u w' :
  reg_insert info w = (Ok u, w') ->
  exists w1, others_acted w w1 /\ sw_send w1 = sw_send w /\ sw_send w' = sw_send w /\
    sw_tasks w' = sw_tasks w /\
    rw_reg (sw_reg w') = TunnelRegistry_insert info (rw_reg (sw_reg w1)).
Proof.
  unfold reg_insert. intros (? & w1 & Hi & [= _ <-])%sm_bind_Ok.
  pose proof (interfere_acted w) as Ha. rewrite Hi in Ha. simpl in *.
  destruct Ha as [Ha Hs]. exists w1. destruct Ha as (? & ? & ? & ? & ?). split_and!; try done.
  by exists x0.
Qed.

Lemma reply_Ok f w u w' :
  reply f w = (Ok u, w') ->
  ss_sent (sw_send w') = ss_sent (sw_send w) ++ [f] /\ w' = set_send (sw_send w') w.
Proof.
  unfold reply, send_side_write.
  destruct (ss_outcomes (sw_send w)) as [|[e|] rest]; intros [= _ <-]; done.
Qed.

(** After a counter is bumped and a frame is sent the registry is as before. *)
Lemma bump_reply_Ok c f w u w' :
  sm_bind (metric c) (fun _ => reply f) w = (Ok u, w') ->
  ss_sent (sw_send w') = ss_sent (sw_send w) ++ [f] /\ sw_reg w' = sw_reg w /\ others_acted w w'.
Proof.
  intros (? & w1 & [= _ <-] & [Hs Hw]%reply_Ok)%sm_bind_Ok. rewrite Hw. simpl.
  split_and!; [done|done|]. by exists [].
Qed.

Section Replies.
Context {L : Type} `{PeerLabelLookup L}.
Context (s : Session).

(** The key may publish the label: it may publish any, or the label is on its list. *)
Definition may_publish (label : str) : Prop :=
  ae_allow_any_subdomain (s_entry s) = true \/ label ∈ ae_allowed_subdomains (s_entry s).

Lemma label_permitted_spec label : reflect (may_publish label) (label_permitted s label).
Proof.
  unfold label_permitted, may_publish.
  destruct (ae_allow_any_subdomain (s_entry s)); simpl; [constructor; by left|].
  case_bool_decide; constructor; naive_solver.
Qed.

(** The peers that are asked: the configured ones the key federates with. *)
Lemma elem_of_candidate_peers (env : DispatchEnv L) p :
  p ∈ candidate_peers s env <->
  p ∈ PeerRegistry_snapshot (de_peers env) /\ p ∈ ae_federation (s_entry s).
Proof.
  unfold candidate_peers. rewrite !list_elem_of_In, filter_In, bool_decide_eq_true.
  by rewrite list_elem_of_In.
Qed.

(** Why a request for an HTTP tunnel is refused; [w] is the world at the decision. *)
Inductive http_refusal (env : DispatchEnv L) (label : str) (w : SessWorld) : ErrorCode -> Prop :=
| HR_mode host pool : s_mode s = ModeIp host pool ->
    http_refusal env label w HTTP_NOT_AVAILABLE
| HR_invalid : is_valid_label label = false -> http_refusal env label w LABEL_INVALID
| HR_forbidden : ~ may_publish label -> http_refusal env label w LABEL_FORBIDDEN
| HR_peer p : p ∈ PeerRegistry_snapshot (de_peers env) -> p ∈ ae_federation (s_entry s) ->
    other_owner (de_lookup env) label (s_pubkey s) p = true ->
    http_refusal env label w LABEL_UNAVAILABLE
| HR_taken : label ∈ tr_used_labels (rw_reg (sw_reg w)) ->
    http_refusal env label w LABEL_UNAVAILABLE.

(** What a granted HTTP tunnel satisfies. *)
Definition http_granted (env : DispatchEnv L) (label : str) (inspect : bool) (id : TunnelId)
    (url : str) (port : option Z) (w' : SessWorld) : Prop :=
  exists apex tls hb sb pool, s_mode s = ModeDomain apex tls hb sb pool /\
    is_valid_label label = true /\ may_publish label /\
    (forall p, p ∈ PeerRegistry_snapshot (de_peers env) -> p ∈ ae_federation (s_entry s) ->
       other_owner (de_lookup env) label (s_pubkey s) p = false) /\
    url = https_url label apex /\ port = None /\
    tr_tunnels (rw_reg (sw_reg w')) !! id =
      Some {| ti_id := id; ti_owner := s_pubkey s; ti_session_id := s_session_id s;
              ti_kind := RK_Http label; ti_state := Live (s_connection s) None;
              ti_tcp_listener := None; ti_rate := s_rate s; ti_inspect := inspect |} /\
    resolve_label label (rw_reg (sw_reg w')) =
      Some {| rt_id := id; rt_connection := s_connection s; rt_rate := s_rate s;
              rt_inspect := inspect |}.

Lemma insert_resolves label info r :
  ti_kind info = RK_Http label ->
  forall c a, ti_state info = Live c a ->
  resolve_label label (TunnelRegistry_insert info r) =
    Some {| rt_id := ti_id info; rt_connection := c; rt_rate := ti_rate info;
            rt_inspect := ti_inspect info |}.
Proof.
  intros Hk c a Hs. unfold resolve_label, TunnelRegistry_insert. simpl.
  rewrite Hk, lookup_insert_eq. simpl. rewrite lookup_insert_eq. simpl. by rewrite Hs.
Qed.

Lemma collision_clear (env : DispatchEnv L) label m :
  (if bool_decide (candidate_peers s env = []) then CC_Clear []
   else check_collision (de_lookup env) (candidate_peers s env) label (s_pubkey s)) = CC_Clear m ->
  forall p, p ∈ PeerRegistry_snapshot (de_peers env) -> p ∈ ae_federation (s_entry s) ->
    other_owner (de_lookup env) label (s_pubkey s) p = false.
Proof.
  intros Hcc p Hs Hf. pose proof (proj2 (elem_of_candidate_peers env p) (conj Hs Hf)) as Hp.
  revert Hcc. case_bool_decide as Hc; [rewrite Hc in Hp; by apply not_elem_of_nil in Hp|].
  unfold check_collision. rewrite check_collision_loop_spec.
  destruct (find_first _ _) eqn:E; [done|]. rewrite find_first_None in E. by intros _; apply E.
Qed.

Lemma collision_conflict (env : DispatchEnv L) label c :
  (if bool_decide (candidate_peers s env = []) then CC_Clear []
   else check_collision (de_lookup env) (candidate_peers s env) label (s_pubkey s)) = CC_Conflict c ->
  c ∈ candidate_peers s env /\ other_owner (de_lookup env) label (s_pubkey s) c = true.
Proof.
  case_bool_decide as Hc; [done|].
  unfold check_collision. rewrite check_collision_loop_spec.
  destruct (find_first _ _) eqn:E; [|done]. intros [= ->].
  by pose proof (find_first_Some _ _ _ E) as [? ?].
Qed.

Lemma register_http_Ok (env : DispatchEnv L) label inspect w u w' :
  register_http s env label inspect w = (Ok u, w') ->
  exists f, ss_sent (sw_send w') = ss_sent (sw_send w) ++ [f] /\
  match f with
  | TunnelRegistered id url port => http_granted env label inspect id url port w'
  | TunnelRejected code _ => others_acted w w' /\ http_refusal env label w' code
  | _ => False
  end.
Proof.
  unfold register_http. destruct (s_mode s) as [host pool|apex tls hb sb pool] eqn:Em.
  { intros [Hs Hw]%reply_Ok. eexists. split; [done|]. rewrite Hw. split; [by exists []|].
    by eapply HR_mode. }
  destruct (is_valid_label label) eqn:Ev; simpl.
  2: { intros (Hs & Hr & Ha)%bump_reply_Ok. eexists. split; [done|]. split; [done|by constructor]. }
  destruct (label_permitted_spec label) as [Hp|Hp]; simpl.
  2: { intros (Hs & Hr & Ha)%bump_reply_Ok. eexists. split; [done|]. split; [done|by constructor]. }
  destruct (if bool_decide _ then _ else _) as [m|c] eqn:Ec.
  2: { apply collision_conflict in Ec as [[? ?]%elem_of_candidate_peers ?].
       intros (Hs & Hr & Ha)%bump_reply_Ok. eexists. split; [done|]. split; [done|by eapply HR_peer]. }
  intros (r & w1 & (w0 & Ha & Hsend & -> & ->)%reg_call_Ok & Hk)%sm_bind_Ok.
  destruct (allocate_http label (rw_reg (sw_reg w0))) as [[id|e] r1] eqn:Ea; cbn [fst] in Hk.
  - apply sm_bind_Ok in Hk as (? & w2 & [= _ <-] & Hk).
    apply sm_bind_Ok in Hk as (? & w3 & Hins & Hk).
    apply sm_bind_Ok in Hk as (? & w4 & [= _ <-] & [Hs Hw]%reply_Ok).
    apply reg_insert_Ok in Hins as (w5 & _ & _ & Hsend' & _ & Hreg). simpl in *.
    eexists. split; [by rewrite Hs, Hsend', Hsend|]. rewrite Hw. unfold http_granted. simpl.
    rewrite Hreg. exists apex, tls, hb, sb, pool. split_and!; try done.
    + by eapply collision_clear.
    + apply lookup_insert_eq.
    + erewrite insert_resolves; done.
  - apply bump_reply_Ok in Hk as (Hs & Hr & Hk). eexists.
    split; [by rewrite Hs; simpl; rewrite Hsend|]. unfold allocate_http in Ea.
    case_bool_decide as Hin; [|done]. injection Ea as <- <-.
    assert (Hsame : exec_op (OpAllocateHttp label) (sw_reg w0) = sw_reg w0).
    { simpl. unfold allocate_http. rewrite bool_decide_true by done. by destruct (sw_reg w0). }
    rewrite Hsame in Hk, Hr. simpl in Hr. split.
    + etrans; [exact Ha|]. etrans; [|exact Hk]. by exists [].
    + apply HR_taken. by rewrite Hr.
Qed.

(** Why a request for a TCP tunnel is refused; [w] is the world at the decision. *)
Inductive tcp_refusal (env : DispatchEnv L) (remote_port : option Z) (w : SessWorld) :
    ErrorCode -> Prop :=
| TR_forbidden p allow : remote_port = Some p -> ae_allowed_ports (s_entry s) = Some allow ->
    p ∉ allow -> tcp_refusal env remote_port w LABEL_FORBIDDEN
| TR_exhausted :
    (forall q, ~ port_eligible (tr_port_lo (rw_reg (sw_reg w))) (tr_port_hi (rw_reg (sw_reg w)))
                   (tr_used_ports (rw_reg (sw_reg w))) (ae_allowed_ports (s_entry s)) q) ->
    tcp_refusal env remote_port w PORT_POOL_EXHAUSTED
| TR_bind port e : de_bind env port = Err e -> port ∈ tr_used_ports (rw_reg (sw_reg w)) ->
    tcp_refusal env remote_port w INTERNAL_ERROR.

(** What a granted TCP tunnel satisfies: its port was free in the pool, is allowed to the
    identity, is bound, published and served by a new task. *)
Definition tcp_granted (env : DispatchEnv L) (inspect : bool) (w : SessWorld) (id : TunnelId)
    (url : str) (port : option Z) (w' : SessWorld) : Prop :=
  exists p l w0, others_acted w w0 /\
    port_eligible (tr_port_lo (rw_reg (sw_reg w0))) (tr_port_hi (rw_reg (sw_reg w0)))
      (tr_used_ports (rw_reg (sw_reg w0))) (ae_allowed_ports (s_entry s)) p /\
    de_bind env p = Ok (l, Ok p) /\ port = Some p /\ url = tcp_url (public_host s) p /\
    tr_tunnels (rw_reg (sw_reg w')) !! id =
      Some {| ti_id := id; ti_owner := s_pubkey s; ti_session_id := s_session_id s;
              ti_kind := RK_Tcp p; ti_state := Live (s_connection s) (Some (de_abort env));
              ti_tcp_listener := Some l; ti_rate := s_rate s; ti_inspect := inspect |} /\
    sw_tasks w' = sw_tasks w ++
      [{| tt_listener := l; tt_connection := s_connection s; tt_tunnel_id := id;
          tt_rate := s_rate s; tt_inspect := inspect; tt_handle := de_abort env |}].

Lemma run_pool ops w : tr_port_lo (rw_reg (run ops w)) = tr_port_lo (rw_reg w).
Proof.
  unfold run. revert w. induction ops as [|o ops IH]; intros w; simpl; [done|].
  by rewrite IH, exec_op_pool.
Qed.

Lemma register_tcp_Ok (env : DispatchEnv L) label rp inspect w u w' :
  bind_law env -> 1 <= tr_port_lo (rw_reg (sw_reg w)) ->
  register_tcp s env label rp inspect w = (Ok u, w') ->
  exists f, ss_sent (sw_send w') = ss_sent (sw_send w) ++ [f] /\
  match f with
  | TunnelRegistered id url port => tcp_granted env inspect w id url port w'
  | TunnelRejected code _ => tcp_refusal env rp w' code /\
      (code <> INTERNAL_ERROR -> others_acted w w')
  | _ => False
  end.
Proof.
  intros Hb Hlo. unfold register_tcp.
  destruct (match rp with Some _ => _ | None => None end) as [p|] eqn:Er.
  { intros (Hs & Hr & Ha)%bump_reply_Ok. eexists. split; [done|]. split; [|done].
    destruct rp as [q|]; [|done]. destruct (ae_allowed_ports (s_entry s)) as [l|] eqn:El; [|done].
    case_bool_decide; [done|]. injection Er as ->. by eapply TR_forbidden. }
  clear Er. set (allow := ae_allowed_ports (s_entry s)).
  intros (r & w1 & (w0 & Ha & Hsend & -> & ->)%reg_call_Ok & Hk)%sm_bind_Ok.
  unfold allocate_tcp in Hk. simpl exec_op in Hk. unfold allocate_tcp in Hk.
  destruct (pick_free_port _ _ _ _) as [port|] eqn:Ep; cbn [fst snd fresh_id] in Hk.
  2: { apply bump_reply_Ok in Hk as (Hs & Hr & Hk). eexists.
       split; [by rewrite Hs; simpl; rewrite Hsend|]. split.
       - apply TR_exhausted. rewrite Hr. simpl. by apply pick_free_port_None.
       - intros _. etrans; [exact Ha|]. etrans; [|exact Hk]. exists []. by destruct (sw_reg w0). }
  apply pick_free_port_Some in Ep as [Hel _].
  apply sm_bind_Ok in Hk as (? & w2 & [= _ <-] & Hk). simpl in Hk.
  assert (Hport : 1 <= port).
  { destruct Ha as (t & _ & Hreg & _). destruct Hel as [Hr _].
    rewrite Hreg, run_pool in Hr. lia. }
  destruct (de_bind env port) as [[l [q|e]]|e] eqn:Eb; [| |].
  - pose proof (Hb _ _ _ Hport Eb) as ->.
    apply sm_bind_Ok in Hk as (? & w3 & [= <- <-] & Hk). simpl in Hk.
    apply sm_bind_Ok in Hk as (? & w4 & (w5 & _ & _ & Hsend' & Ht & Hreg)%reg_insert_Ok & Hk).
    apply sm_bind_Ok in Hk as (? & w6 & [= _ <-] & [Hs Hw]%reply_Ok).
    eexists. split; [by rewrite Hs; simpl; rewrite Hsend'; simpl; rewrite Hsend|].
    exists port, l, w0. rewrite Hw. simpl. rewrite Hreg, Ht. simpl.
    rewrite (others_acted_tasks _ _ Ha). split_and!; try done. apply lookup_insert_eq.
  - done.
  - apply reply_Ok in Hk as [Hs Hw]. eexists.
    split; [rewrite Hs; simpl; by rewrite Hsend|]. rewrite Hw. simpl. split; [|done].
    eapply TR_bind; [done|]. simpl. set_solver.
Qed.

(** The cap on the identity's tunnels was not reached when it was checked. *)
Definition cap_checked (w : SessWorld) : Prop :=
  forall cap, ae_max_conns (s_entry s) = Some cap -> exists w1, others_acted w w1 /\
    Z.of_nat (count_owned_by (s_pubkey s) (rw_reg (sw_reg w1))) < cap.

Lemma register_fresh_Ok (env : DispatchEnv L) label kind inspect w u w' :
  register_fresh s env label kind inspect w = (Ok u, w') ->
  (exists detail cap, ss_sent (sw_send w') =
       ss_sent (sw_send w) ++ [TunnelRejected TUNNEL_LIMIT_EXCEEDED detail] /\
     others_acted w w' /\ ae_max_conns (s_entry s) = Some cap /\
     cap <= Z.of_nat (count_owned_by (s_pubkey s) (rw_reg (sw_reg w')))) \/
  (cap_checked w /\ exists w1, others_acted w w1 /\ sw_send w1 = sw_send w /\
     match kind with
     | TK_Http => register_http s env label inspect
     | TK_Tcp rp => register_tcp s env label rp inspect
     end w1 = (Ok u, w')).
Proof.
  unfold register_fresh. intros (over & w1 & Ho & Hk)%sm_bind_Ok.
  destruct (ae_max_conns (s_entry s)) as [cap|] eqn:Ec.
  - apply sm_bind_Ok in Ho as (live & w2 & (Ha & Hsend & ->)%reg_get_Ok & [= <- <-]).
    destruct (Z.leb_spec cap (Z.of_nat (count_owned_by (s_pubkey s) (rw_reg (sw_reg w2)))))
      as [Hc|Hc].
    + left. apply bump_reply_Ok in Hk as (Hs & Hr & Hk). eexists _, cap.
      split; [by rewrite Hs, Hsend|]. rewrite Hr. split_and!; [by etrans|done|done].
    + right. split; [|by exists w2]. intros c Hc'. rewrite Ec in Hc'. injection Hc' as <-.
      by exists w2.
  - injection Ho as <- <-. right. split; [intros c Hc; congruence|]. by exists w.
Qed.

End Replies.

(** A resumed tunnel was a lease of this key and session. *)
Lemma try_resume_owned order l sid pk c r :
  match (try_resume order l sid pk c r).1 with
  | Reattached id _ _ => exists i, tr_tunnels r !! id = Some i /\
      is_dangling (ti_state i) = true /\ ti_session_id i = sid /\ ti_owner i = pk
  | _ => True
  end.
Proof.
  unfold try_resume. destruct (match tr_labels r !! l with Some id => Some id | None => _ end)
    as [id|]; [|done].
  destruct (tr_tunnels r !! id) as [i|] eqn:E; [|done].
  destruct (is_dangling (ti_state i)) eqn:Ed; simpl; [|done].
  case_bool_decide as Hs; [done|]. case_bool_decide as Ho; [done|].
  destruct (ti_kind i), (ti_tcp_listener i); simpl; try done; exists i; naive_solver.
Qed.

(** A key in the broadcast fires the watch of its session. *)
Lemma watcher_fires target before keys after :
  BC_Closed ∉ before -> target ∈ keys ->
  wt_value (spawn_revocation_watcher target (before ++ map BC_Key keys ++ after)) = true.
Proof.
  intros Hb Hk. induction before as [|ev before IH]; simpl.
  - induction keys as [|k keys IHk]; [by apply not_elem_of_nil in Hk|]. simpl.
    case_bool_decide; [done|]. apply IHk. by apply elem_of_cons in Hk as [->|].
  - apply not_elem_of_cons in Hb as [Hne Hb]. destruct ev; [case_bool_decide; [done|]| |done];
      by apply IH.
Qed.

Lemma filter_length_perm {A} (f : A -> bool) l l' :
  l ≡ₚ l' -> length (List.filter f l) = length (List.filter f l').
Proof. induction 1; simpl; try case_match; simpl; try case_match; simpl; congruence. Qed.

(** Publishing one tunnel adds at most one to an identity's count. *)
Lemma count_insert_le owner info r :
  (count_owned_by owner (TunnelRegistry_insert info r) <= count_owned_by owner r + 1)%nat.
Proof.
  unfold count_owned_by. simpl. set (m := tr_tunnels r).
  assert (Hfresh : forall m', m' !! ti_id info = None ->
    (length (List.filter (fun kv : TunnelId * TunnelInfo => owned_by owner kv.2)
       (map_to_list (<[ti_id info := info]> m'))) <=
     length (List.filter (fun kv : TunnelId * TunnelInfo => owned_by owner kv.2)
       (map_to_list m')) + 1)%nat).
  { intros m' Hm. rewrite (filter_length_perm _ _ _ (map_to_list_insert m' _ info Hm)). simpl. case_match; simpl; lia. }
  destruct (m !! ti_id info) as [old|] eqn:E; [|by apply Hfresh].
  rewrite <-insert_delete_eq. etrans; [apply Hfresh, lookup_delete_eq|].
  rewrite <-(filter_length_perm _ _ _ (map_to_list_delete m _ old E)).
  simpl. case_match; simpl; lia.
Qed.

(** ** Theorems *)

Section Theorems.
Context {L : Type} `{PeerLabelLookup L}.
Context (s : Session).

(** A session keeps the shared registry well formed whatever it is sent and whatever the
    other sessions do in between.  From a registry reached by any operations, with a pool
    without port 0 and an operating system that binds the port it is asked for, every run
    of the session loop, errors included, ends in a registry that satisfies the invariant
    (as long as fewer than 2^64 operations are performed in all). *)
Theorem session_keeps_registry (lo hi : Z) (ops : list RegOp) (polls : list (Poll (L := L)))
    (w : SessWorld) (Hw : sw_reg w = run ops (initial lo hi)) (Hmine : sw_mine w = None)
    (Hlo : 1 <= lo) (Hb : Forall (fun p => bind_law (pl_env p)) polls)
    (Hlen : len ops + len (concat (sw_others w)) + 2 * len polls < 2 ^ 64 - 2) :
  reg_inv (sw_reg (session_run s polls w).2).
Proof.
  assert (0 <= len polls) by apply len_nonneg.
  assert (0 <= len (concat (sw_others w))) by apply len_nonneg.
  destruct (inv_run lo hi ops) as [I Hn]; [lia|].
  apply (ok_inv 0), (session_run_ok s polls 0); [lia|done|].
  split; rewrite Hw; [done|lia|by rewrite run_pool|by rewrite Hmine].
Qed.

(** Why a cap refuses. *)
Definition over_cap (w : SessWorld) (code : ErrorCode) : Prop :=
  code = TUNNEL_LIMIT_EXCEEDED /\ exists cap, ae_max_conns (s_entry s) = Some cap /\
    cap <= Z.of_nat (count_owned_by (s_pubkey s) (rw_reg (sw_reg w))).

(** A grant of a fresh HTTP registration, from the request to the world after it. *)
Lemma dispatch_http_granted (env : DispatchEnv L) label inspect w w' o id url port :
  dispatch s env (RegisterTunnel label TK_Http None inspect) w = (Ok o, w') ->
  ss_sent (sw_send w') = ss_sent (sw_send w) ++ [TunnelRegistered id url port] ->
  http_granted s env label inspect id url port w'.
Proof.
  intros Hd Hsent. unfold dispatch in Hd. apply sm_bind_Ok in Hd as ([] & w1 & Hr & [= <- <-]).
  apply register_fresh_Ok in Hr as [(d & cap & Hs & _)|(_ & w2 & _ & Hs & Hr)].
  - rewrite Hs in Hsent. by apply app_inv_head in Hsent.
  - apply register_http_Ok in Hr as (f & Hf & Hm). rewrite Hf, Hs in Hsent.
    apply app_inv_head in Hsent. by injection Hsent as ->.
Qed.

(** C8: A fresh HTTP registration is answered exactly once, and the answer is right.  A grant
    means: the server has a domain, the label is valid and permitted to the key, no
    federated peer reports it under another key, the cap had not been reached, and the
    label now routes to this very connection.  A refusal names its true reason and leaves
    the registry to the other sessions. *)
Theorem http_registration (env : DispatchEnv L) (label : str) (inspect : bool)
    (w w' : SessWorld) (o : DispatchOutcome)
    (Hd : dispatch s env (RegisterTunnel label TK_Http None inspect) w = (Ok o, w')) :
  o = Continue /\ exists f, ss_sent (sw_send w') = ss_sent (sw_send w) ++ [f] /\
  match f with
  | TunnelRegistered id url port =>
      http_granted s env label inspect id url port w' /\ cap_checked s w
  | TunnelRejected code _ => others_acted w w' /\
      (http_refusal s env label w' code \/ over_cap w' code)
  | _ => False
  end.
Proof.
  unfold dispatch in Hd. apply sm_bind_Ok in Hd as ([] & w1 & Hr & [= <- <-]). split; [done|].
  apply register_fresh_Ok in Hr as [(d & cap & Hs & Ha & Hc & Hle)|(Hcap & w2 & Ha & Hs & Hr)].
  - eexists. split; [done|]. split; [done|]. right. split; [done|by exists cap].
  - apply register_http_Ok in Hr as (f & Hf & Hm). rewrite Hs in Hf. exists f. split; [done|].
    destruct f; try done. destruct Hm as [Ha' Hm]. split; [by etrans|by left].
Qed.

(** C21: A fresh TCP registration is answered exactly once, and the answer is right.  A grant
    means: the port was free in the pool, is permitted to the key and bound, the cap had
    not been reached, the tunnel is published on this connection and a task serves it.  A
    refusal names its true reason and, unless the bind failed, leaves the registry to the
    other sessions; a failed bind leaves the port reserved. *)
Theorem tcp_registration (env : DispatchEnv L) (label : str) (rp : option Z) (inspect : bool)
    (w w' : SessWorld) (o : DispatchOutcome)
    (Hb : bind_law env) (Hlo : 1 <= tr_port_lo (rw_reg (sw_reg w)))
    (Hd : dispatch s env (RegisterTunnel label (TK_Tcp rp) None inspect) w = (Ok o, w')) :
  o = Continue /\ exists f, ss_sent (sw_send w') = ss_sent (sw_send w) ++ [f] /\
  match f with
  | TunnelRegistered id url port =>
      tcp_granted s env inspect w id url port w' /\ cap_checked s w
  | TunnelRejected code _ =>
      (tcp_refusal s env rp w' code \/ over_cap w' code) /\
      (code <> INTERNAL_ERROR -> others_acted w w')
  | _ => False
  end.
Proof.
  unfold dispatch in Hd. apply sm_bind_Ok in Hd as ([] & w1 & Hr & [= <- <-]). split; [done|].
  apply register_fresh_Ok in Hr as [(d & cap & Hs & Ha & Hc & Hle)|(Hcap & w2 & Ha & Hs & Hr)].
  - eexists. split; [done|]. split; [|done]. right. split; [done|by exists cap].
  - apply register_tcp_Ok in Hr as (f & Hf & Hm); [|done|].
    2: { destruct Ha as (t & _ & Hreg & _). by rewrite Hreg, run_pool. }
    rewrite Hs in Hf. exists f. split; [done|]. destruct f; try done.
    + split; [|done]. destruct Hm as (p & l & w0 & Ha0 & Hm). exists p, l, w0.
      split; [by etrans|]. by rewrite <-(others_acted_tasks _ _ Ha).
    + destruct Hm as [Hm Ha']. split; [by left|]. intros Hne. etrans; [done|by apply Ha'].
Qed.

(** Every other request is handled exactly.  A ping is echoed; the peer list is the
    configured peers the key may publish on, and nothing else; unregistering removes that
    tunnel and nothing else and is not answered; a [Bye] ends the session without touching
    anything; a handshake frame in a session is a protocol violation that ends it. *)
Theorem dispatch_other_frames (env : DispatchEnv L) (frame : ClientFrame) (w w' : SessWorld)
    (o : DispatchOutcome) (Hd : dispatch s env frame w = (Ok o, w')) :
  match frame with
  | RegisterTunnel _ _ _ _ => o = Continue
  | Ping nonce => o = Continue /\ sw_reg w' = sw_reg w /\
      ss_sent (sw_send w') = ss_sent (sw_send w) ++ [Pong nonce]
  | ListPeers => o = Continue /\ sw_reg w' = sw_reg w /\ exists l,
      ss_sent (sw_send w') = ss_sent (sw_send w) ++ [Peers l] /\
      forall p, p ∈ l <-> p ∈ pr_peers (de_peers env) /\ p ∈ ae_federation (s_entry s)
  | UnregisterTunnel id => o = Continue /\ sw_send w' = sw_send w /\
      exists w1, others_acted w w1 /\ sw_reg w' = exec_op (OpRemove id) (sw_reg w1)
  | Bye => o = Stop SO_Bye /\ w' = w
  | AuthRequest _ | AuthResponse _ | Enroll _ _ _ => o = Stop SO_Terminal /\
      sw_reg w' = sw_reg w /\
      ss_sent (sw_send w') = ss_sent (sw_send w) ++ [ServerBye PROTOCOL_VIOLATION]
  end.
Proof.
  destruct frame; unfold dispatch in Hd; try (by injection Hd as <- <-);
    apply sm_bind_Ok in Hd as (u & w1 & Hr & [= <- <-]); try done;
    try (apply reply_Ok in Hr as [Hs Hw]; rewrite Hw; simpl; done).
  - apply reg_call_Ok in Hr as (w2 & Ha & Hsend & _ & ->). split_and!; [done|done|by exists w2].
  - apply reply_Ok in Hr as [Hs Hw]. rewrite Hw. split_and!; [done|done|]. eexists. split; [done|].
    intros p. unfold candidate_peers. rewrite list_elem_of_In, filter_In, <-list_elem_of_In.
    by rewrite bool_decide_eq_true.
Qed.

(** The table after the lease [i] has been re-attached under [id], and nothing else. *)
Definition reattach (id : TunnelId) (c : Connection) (i : TunnelInfo) (w : RegWorld) : RegWorld :=
  {| rw_reg := with_tunnels (<[id := with_state (Live c None) i]> (tr_tunnels (rw_reg w))) (rw_reg w);
     rw_pending := rw_pending w; rw_aborted := rw_aborted w |}.

(** What follows a re-attachment in [before]: the reply [f] and the world [w']. *)
Definition resumed (env : DispatchEnv L) (id : TunnelId) (i : TunnelInfo) (before : SessWorld)
    (f : ServerFrame) (w' : SessWorld) : Prop :=
  match ti_kind i, s_mode s with
  | RK_Http l, ModeDomain apex _ _ _ _ =>
      f = TunnelRegistered id (https_url l apex) None /\
      sw_reg w' = reattach id (s_connection s) i (sw_reg before) /\ sw_tasks w' = sw_tasks before
  | RK_Http _, ModeIp _ _ => exists d w2 w3, f = TunnelRejected INTERNAL_ERROR d /\
      sw_reg w2 = reattach id (s_connection s) i (sw_reg before) /\ others_acted w2 w3 /\
      sw_reg w' = exec_op (OpRemove id) (sw_reg w3) /\ sw_tasks w' = sw_tasks before
  | RK_Tcp p, _ => exists li w2 w3, ti_tcp_listener i = Some li /\
      f = TunnelRegistered id (tcp_url (public_host s) p) (Some p) /\
      sw_reg w2 = reattach id (s_connection s) i (sw_reg before) /\ others_acted w2 w3 /\
      sw_reg w' = exec_op (OpSetTcpAbort id (de_abort env)) (sw_reg w3) /\
      sw_tasks w' = sw_tasks before ++
        [{| tt_listener := li; tt_connection := s_connection s; tt_tunnel_id := id; tt_rate := s_rate s;
            tt_inspect := ti_inspect i; tt_handle := de_abort env |}]
  end.

Lemma reg_call_ok_Ok {A} n (f : TunnelRegistry -> A) o w a w' :
  0 <= n -> sess_ok n w -> reg_call f o w = (Ok a, w') ->
  exists w1, others_acted w w1 /\ sess_ok n w1 /\ sw_send w1 = sw_send w /\ a = f (rw_reg (sw_reg w1)) /\
    w' = set_reg (exec_op o (sw_reg w1)) w1.
Proof.
  intros Hn Hw. unfold reg_call. intros (u & w1 & Hi & [= <- <-])%sm_bind_Ok.
  pose proof (interfere_acted w) as Ha. pose proof (interfere_ok n Hn w Hw) as Hok.
  rewrite Hi in Ha, Hok. exists w1. naive_solver.
Qed.

Lemma finish_resume_Ok (env : DispatchEnv L) id info i before w u w' :
  finish_resume s env id info (ti_inspect i) w = (Ok u, w') ->
  sw_reg w = reattach id (s_connection s) i (sw_reg before) -> sw_tasks w = sw_tasks before ->
  match ti_kind i, info with
  | RK_Http l, RI_Http l' => l = l'
  | RK_Tcp p, RI_Tcp p' li => p = p' /\ ti_tcp_listener i = Some li
  | _, _ => False
  end ->
  exists f, ss_sent (sw_send w') = ss_sent (sw_send w) ++ [f] /\ resumed env id i before f w'.
Proof.
  intros Hk Hr Ht Hinfo. unfold finish_resume in Hk. unfold resumed.
  destruct (ti_kind i) as [p|l], info as [l'|p' li]; try done.
  - destruct Hinfo as [<- Hli]. apply sm_bind_Ok in Hk as (? & w5 & [= <- <-] & Hk).
    apply sm_bind_Ok in Hk as (? & w6 & (w7 & Ha7 & Hs7 & _ & ->)%reg_call_Ok & [Hs8 Hw8]%reply_Ok).
    eexists. split; [rewrite Hs8; cbn; by rewrite Hs7|].
    pose proof (others_acted_tasks _ _ Ha7) as Ht7. eexists li, _, w7. rewrite Hw8. cbn in *.
    split_and!; [done|done| |exact Ha7|done|by rewrite Ht7, Ht]. exact Hr.
  - subst l'. destruct (s_mode s) as [|apex].
    + apply sm_bind_Ok in Hk as (? & w5 & [Hs5 Hw5]%reply_Ok & (w6 & Ha6 & Hs6 & _ & ->)%reg_call_Ok).
      eexists. split; [cbn; by rewrite Hs6, Hs5|].
      pose proof (others_acted_tasks _ _ Ha6) as Ht6. eexists _, w5, w6.
      assert (sw_reg w5 = sw_reg w /\ sw_tasks w5 = sw_tasks w) as [Hr5 Ht5] by (by rewrite Hw5).
      cbn. split_and!; [done|congruence|done|done|congruence].
    + apply reply_Ok in Hk as [Hs5 Hw5]. eexists. split; [exact Hs5|]. rewrite Hw5. done.
Qed.

(** C24: A request with a previous session id gives back that session's lease and nothing
    else.  If the registry holds such a lease of this key, exactly that tunnel is attached
    to this connection (and, for a port, served by one new task) and named in the one
    reply, or removed again after a change of mode; nothing else in the table changes but
    by other sessions.  If the lease is another key's, the request is refused with
    [RESUME_IDENTITY_MISMATCH] and the table is left alone.  If there is no such lease the
    request is handled as a fresh registration on the table as it is. *)
Theorem resume_registration (env : DispatchEnv L) (label : str) (kind : TunnelKind)
    (prev : SessionId) (inspect : bool) (w w' : SessWorld) (o : DispatchOutcome) (Hw : sess_ok 0 w)
    (Hd : dispatch s env (RegisterTunnel label kind (Some prev) inspect) w = (Ok o, w')) :
  exists w1, others_acted w w1 /\
  let named := lease (de_order env) label prev (rw_reg (sw_reg w1)) in
  (exists id i f, named id i /\ ti_owner i = s_pubkey s /\
     ss_sent (sw_send w') = ss_sent (sw_send w) ++ [f] /\ resumed env id i w1 f w') \/
  (exists id i d, named id i /\ ti_owner i <> s_pubkey s /\ sw_reg w' = sw_reg w1 /\
     ss_sent (sw_send w') = ss_sent (sw_send w) ++ [TunnelRejected RESUME_IDENTITY_MISMATCH d]) \/
  ((forall id i, ~ named id i) /\
   exists w2, sw_send w2 = sw_send w /\ sw_reg w2 = sw_reg w1 /\
     register_fresh s env label kind inspect w2 = (Ok tt, w')).
Proof.
  unfold dispatch in Hd. apply sm_bind_Ok in Hd as ([] & w3 & Hr & [= <- <-]).
  unfold register in Hr.
  apply sm_bind_Ok in Hr as (oc & w2 & (w1 & Ha & Hok & Hs & -> & ->)%(reg_call_ok_Ok 0) & Hk); [|done|done].
  exists w1. split; [done|]. cbv zeta.
  destruct (try_resume_lease (sw_reg w1) (de_order env) label prev (s_pubkey s) (s_connection s) (ok_inv 0 w1 Hok))
    as [(id & i & info & Hl & Ho & Et & Hi)|[(id & i & Hl & Ho & Et)|[Hn Et]]]; rewrite Et in Hk;
    cbn [fst] in Hk; set (op := OpTryResume _ _ _ _ _) in Hk.
  all: assert (Hop : rw_reg (exec_op op (sw_reg w1)) = (try_resume (de_order env) label prev (s_pubkey s)
    (s_connection s) (rw_reg (sw_reg w1))).2 /\ rw_pending (exec_op op (sw_reg w1)) = rw_pending (sw_reg w1) /\
    rw_aborted (exec_op op (sw_reg w1)) = rw_aborted (sw_reg w1)) by done;
    rewrite Et in Hop; cbn [snd] in Hop; clearbody op; destruct Hop as (Hop & Hp & Ha').
  - left. apply sm_bind_Ok in Hk as (? & w4 & [= _ <-] & Hk).
    eapply (finish_resume_Ok _ _ _ _ w1) in Hk as (f & Hf & Hres); [|cbn|done|exact Hi].
    + exists id, i, f. cbn in Hf. rewrite Hs in Hf. done.
    + destruct (exec_op op (sw_reg w1)). cbn in *. by subst.
  - right. left. apply bump_reply_Ok in Hk as (Hs5 & Hr5 & _). exists id, i. eexists. cbn in Hs5, Hr5.
    split_and!; [done|done| |rewrite Hs5, Hs; done]. rewrite Hr5.
    destruct (exec_op op (sw_reg w1)), (sw_reg w1). cbn in *. by subst.
  - right. right. split; [done|]. apply sm_bind_Ok in Hk as (? & w4 & [= _ <-] & Hk).
    eexists. split_and!; [..|exact Hk]; [done|]. cbn.
    destruct (exec_op op (sw_reg w1)), (sw_reg w1). cbn in *. by subst.
Qed.

(** The send half accepts every frame. *)
Definition writable (w : SessWorld) : Prop := ss_outcomes (sw_send w) = [].

(** [m] returns a value and keeps the send half usable. *)
Definition returns {A} (m : SeM A) : Prop :=
  forall w, writable w -> exists a w', m w = (Ok a, w') /\ writable w'.

Lemma returns_bind {A B} (m : SeM A) (k : A -> SeM B) :
  returns m -> (forall a, returns (k a)) -> returns (sm_bind m k).
Proof.
  intros Hm Hk w Hw. destruct (Hm w Hw) as (a & w1 & E & Hw1).
  destruct (Hk a w1 Hw1) as (b & w2 & E2 & Hw2). exists b, w2. unfold sm_bind. by rewrite E.
Qed.

Lemma returns_ret {A} (a : A) : returns (sm_ret a).
Proof. intros w Hw. by eexists _, _. Qed.

Lemma returns_reply f : returns (reply f).
Proof. intros w Hw. unfold reply, send_side_write. rewrite Hw. by eexists _, _. Qed.

Lemma returns_metric c : returns (metric c).
Proof. intros w Hw. by eexists _, _. Qed.

Lemma returns_reserve id k : returns (reserve id k).
Proof. intros w Hw. by eexists _, _. Qed.

Lemma returns_spawn t : returns (spawn_tunnel t).
Proof. intros w Hw. by eexists _, _. Qed.

Lemma returns_interfere : returns interfere.
Proof.
  intros w Hw. unfold interfere, sm_modify. eexists _, _. split; [done|].
  by destruct (sw_others w).
Qed.

Lemma returns_call {A} (f : TunnelRegistry -> A) o : returns (reg_call f o).
Proof. apply returns_bind; [apply returns_interfere|]. intros _ w Hw. by eexists _, _. Qed.

Lemma returns_get {A} (f : TunnelRegistry -> A) : returns (reg_get f).
Proof. apply returns_bind; [apply returns_interfere|]. intros _ w Hw. by eexists _, _. Qed.

Lemma returns_insert info : returns (reg_insert info).
Proof. apply returns_bind; [apply returns_interfere|]. intros _ w Hw. by eexists _, _. Qed.

#[local] Hint Resolve returns_ret returns_reply returns_metric returns_reserve returns_spawn
  returns_call returns_get returns_insert : sess.

Ltac returns_chain :=
  repeat first
    [ solve [auto with sess]
    | apply returns_bind; [|intros ?]
    | case_match ].

(** Every request is answered: while the client reads and the operating system tells the
    address of a bound listener, no client frame makes the dispatch fail. *)
Theorem dispatch_total (env : DispatchEnv L) (frame : ClientFrame) (w : SessWorld)
    (Hw : writable w) (Hb : forall p l e, de_bind env p <> Ok (l, Err e)) :
  exists o w', dispatch s env frame w = (Ok o, w') /\ writable w'.
Proof.
  revert w Hw. change (returns (dispatch s env frame)).
  unfold dispatch, register, register_fresh, finish_resume, register_http, register_tcp.
  returns_chain; exfalso; naive_solver.
Qed.

(** C22: Revocation reaches a live session.  When a reload of the key file drops a key or
    changes its authorisation, the session of that key, whose watcher has received the
    broadcast (and no close before it), ends at its next turn: it sends [ServerBye
    KEY_REVOKED], touches neither registry nor counters, and does not dispatch a frame
    that is already waiting. *)
Theorem revocation_ends_session (b64_decode : str -> option bytes) (io_read : Z)
    (k : KeyRegistry) (m : gmap PubKey AuthorizedEntry) (old : AuthorizedEntry)
    (before after : list BroadcastEvent) (p : Poll (L := L)) (w : SessWorld)
    (Hparse : parse_file b64_decode io_read (kr_file k) = Ok m)
    (Hold : kr_entries k !! s_pubkey s = Some old)
    (Hnew : forall e, m !! s_pubkey s = Some e -> authorization_equal old e = false)
    (Hbefore : BC_Closed ∉ before)
    (Hrev : pl_revoked p = [spawn_revocation_watcher (s_pubkey s)
              (before ++ map BC_Key (reload b64_decode io_read k).2 ++ after)])
    (Hup : wait_shutdown (pl_shutdown p) = false) (Hw : writable w) :
  exists w', run_step s p w = (Ok (Stop SO_Terminal), w') /\
    ss_sent (sw_send w') = ss_sent (sw_send w) ++ [ServerBye KEY_REVOKED] /\
    ss_finished (sw_send w') = true /\ sw_reg w' = sw_reg w /\ sw_metrics w' = sw_metrics w.
Proof.
  assert (Hin : s_pubkey s ∈ (reload b64_decode io_read k).2).
  { unfold reload. rewrite Hparse. simpl. rewrite elem_of_app, elem_of_removed, elem_of_modified.
    destruct (m !! s_pubkey s) as [e|] eqn:E; [right|left]; eauto 10. }
  assert (Hready : wait_shutdown (pl_revoked p) = true).
  { rewrite Hrev. simpl. by rewrite watcher_fires. }
  unfold run_step. rewrite Hup, Hready. unfold farewell, sm_ignore, sm_bind, reply, send_side_write.
  rewrite Hw. by eexists.
Qed.

(** Nobody else acts, and the identity has at most [n] tunnels. *)
Definition alone (n : Z) (w : SessWorld) : Prop :=
  sw_others w = [] /\ Z.of_nat (count_owned_by (s_pubkey s) (rw_reg (sw_reg w))) <= n.

Lemma alone_keeps {A} n (m : SeM A) :
  (forall w, sw_reg (m w).2 = sw_reg w /\ sw_others (m w).2 = sw_others w) ->
  triple (alone n) m (fun _ => alone n).
Proof. intros Hm w [Ho Hc]. destruct (Hm w) as [Hr Hs]. unfold alone. by rewrite Hr, Hs. Qed.

Lemma alone_reply n f : triple (alone n) (reply f) (fun _ => alone n).
Proof. apply alone_keeps. intros w. unfold reply. by destruct (send_side_write f (sw_send w)). Qed.

Lemma alone_metric n c : triple (alone n) (metric c) (fun _ => alone n).
Proof. by apply alone_keeps. Qed.

Lemma alone_reserve n id k : triple (alone n) (reserve id k) (fun _ => alone n).
Proof. by apply alone_keeps. Qed.

Lemma alone_spawn n t : triple (alone n) (spawn_tunnel t) (fun _ => alone n).
Proof. by apply alone_keeps. Qed.

Lemma alone_ret {A} n (r : Result A ServerError) : triple (alone n) (fun w => (r, w)) (fun _ => alone n).
Proof. by intros w Hw. Qed.

(** An allocation publishes nothing. *)
Lemma alone_allocate {A} n (f : TunnelRegistry -> A) o :
  match o with OpAllocateTcp _ | OpAllocateHttp _ => True | _ => False end ->
  triple (alone n) (reg_call f o) (fun _ => alone n).
Proof.
  intros Hop w [Ho Hc]. unfold reg_call, interfere, sm_bind, sm_modify. rewrite Ho.
  split; [done|]. simpl. destruct o; try done; simpl.
  - unfold allocate_tcp. by destruct (pick_free_port _ _ _ _).
  - unfold allocate_http. by destruct (bool_decide _).
Qed.

Lemma alone_insert n info : triple (alone n) (reg_insert info) (fun _ => alone (n + 1)).
Proof.
  intros w [Ho Hc]. unfold reg_insert, interfere, sm_bind, sm_modify. rewrite Ho.
  split; [done|]. simpl. pose proof (count_insert_le (s_pubkey s) info (rw_reg (sw_reg w))). lia.
Qed.

Lemma alone_bind {A B} n n' (m : SeM A) (k : A -> SeM B) :
  n <= n' -> triple (alone n) m (fun _ => alone n) ->
  (forall a, triple (alone n) (k a) (fun _ => alone n')) ->
  triple (alone n) (sm_bind m k) (fun _ => alone n').
Proof.
  intros Hn Hm Hk. apply (triple_bind _ _ _ (fun _ => alone n)); [|done].
  intros w Hw. specialize (Hm w Hw). destruct (m w) as [[|] w1]; simpl in *; [done|].
  destruct Hm. split; [done|lia].
Qed.

Lemma alone_last {A} n (m : SeM A) :
  triple (alone n) m (fun _ => alone n) -> triple (alone n) m (fun _ => alone (n + 1)).
Proof. intros Hm w Hw. destruct (Hm w Hw). split; [done|lia]. Qed.

Lemma alone_publish {B} n info (k : unit -> SeM B) :
  triple (alone (n + 1)) (k tt) (fun _ => alone (n + 1)) ->
  triple (alone n) (sm_bind (reg_insert info) k) (fun _ => alone (n + 1)).
Proof. intros Hk w Hw. apply Hk. exact (alone_insert n info w Hw). Qed.

#[local] Hint Resolve alone_reply alone_metric alone_reserve alone_spawn alone_ret : sess.

Ltac alone_chain :=
  repeat first
    [ solve [auto with sess]
    | apply alone_last; solve [auto with sess]
    | apply alone_bind; [lia|solve [auto with sess]|intros ?] ].

Lemma register_http_alone (env : DispatchEnv L) label inspect n :
  triple (alone n) (register_http s env label inspect) (fun _ => alone (n + 1)).
Proof.
  unfold register_http. destruct (s_mode s) as [|apex]; [alone_chain|].
  destruct (is_valid_label label); simpl; [|alone_chain].
  destruct (label_permitted s label); simpl; [|alone_chain].
  destruct (if bool_decide _ then _ else _) as [m|c]; [|alone_chain].
  apply alone_bind; [lia|by apply alone_allocate|].
  intros [id|e]; [|alone_chain].
  apply alone_bind; [lia|auto with sess|intros _].
  apply alone_publish. apply alone_bind; [lia|auto with sess..].
Qed.

Lemma register_tcp_alone (env : DispatchEnv L) label rp inspect n :
  triple (alone n) (register_tcp s env label rp inspect) (fun _ => alone (n + 1)).
Proof.
  unfold register_tcp. destruct (match rp with Some _ => _ | None => None end); [alone_chain|].
  apply alone_bind; [lia|by apply alone_allocate|].
  intros [[id port]|e]; [|alone_chain].
  apply alone_bind; [lia|auto with sess|intros _].
  destruct (de_bind env port) as [[l [q|e]]|e]; [|apply alone_last, alone_ret|alone_chain].
  apply alone_bind; [lia|auto with sess|intros a].
  apply alone_publish. apply alone_bind; [lia|auto with sess..].
Qed.

Lemma register_fresh_alone (env : DispatchEnv L) label kind inspect cap n :
  ae_max_conns (s_entry s) = Some cap ->
  triple (alone n) (register_fresh s env label kind inspect) (fun _ => alone (Z.max cap n)).
Proof.
  intros Hcap. unfold register_fresh. rewrite Hcap.
  apply (triple_bind _ _ _ (fun over w => alone n w /\ (over = None -> alone (cap - 1) w))).
  - intros w [Ho Hc]. unfold reg_get, interfere, sm_bind, sm_modify, sm_gets, sm_ret. simpl.
    rewrite Ho. split; [done|].
    destruct (Z.leb_spec cap (Z.of_nat (count_owned_by (s_pubkey s) (rw_reg (sw_reg w)))));
      [done|]. intros _. split; [done|lia].
  - intros [[live c]|].
    + intros w [Hw _]. assert (Hr : triple (alone n) (sm_bind (metric tunnel_rejected_conns)
        (fun _ => reply (TunnelRejected TUNNEL_LIMIT_EXCEEDED
           (fmt_dec live ++ lit "/" ++ fmt_dec c ++ lit " concurrent tunnels"))))
        (fun _ => alone n)) by alone_chain.
      destruct (Hr w Hw). split; [done|lia].
    + intros w [_ Hw]. specialize (Hw eq_refl). destruct kind.
      * destruct (register_http_alone env label inspect (cap - 1) w Hw). split; [done|lia].
      * destruct (register_tcp_alone env label remote_port inspect (cap - 1) w Hw). split; [done|lia].
Qed.

(** Left alone, a session respects the cap on its key's tunnels: a fresh registration,
    granted, refused or failed, never takes the number of tunnels of the identity beyond the
    [conns=] limit of its entry (nor, if it was already beyond, any further). *)
Theorem conns_cap_respected (env : DispatchEnv L) (label : str) (kind : TunnelKind)
    (inspect : bool) (cap : Z) (w : SessWorld)
    (Hcap : ae_max_conns (s_entry s) = Some cap) (Hothers : sw_others w = []) :
  let after := (dispatch s env (RegisterTunnel label kind None inspect) w).2 in
  Z.of_nat (count_owned_by (s_pubkey s) (rw_reg (sw_reg after))) <=
  Z.max cap (Z.of_nat (count_owned_by (s_pubkey s) (rw_reg (sw_reg w)))).
Proof.
  set (n := Z.of_nat (count_owned_by (s_pubkey s) (rw_reg (sw_reg w)))).
  assert (Hal : alone n w) by done. cbv zeta. unfold dispatch, register.
  pose proof (register_fresh_alone env label kind inspect cap n Hcap w Hal) as Hf.
  unfold sm_bind at 1. by destruct (register_fresh s env label kind inspect w) as [[] w1], Hf.
Qed.

End Theorems.

(** ** Witnesses *)

(** A session of [alice] on a domain server with the sample registry. *)
Definition wild_entry : AuthorizedEntry :=
  {| ae_allow_any_subdomain := true; ae_allowed_subdomains := []; ae_max_conns := Some 3;
     ae_allowed_ports := Some [40001]; ae_bw := None; ae_quota := None; ae_federation := [];
     ae_comment := None |}.

Definition any_addr : SocketAddr := {| sa_ip := UNSPECIFIED; sa_port := 443 |}.

Definition sample_session : Session :=
  {| s_pubkey := alice; s_session_id := alice_session; s_connection := {| conn_handle := 6 |};
     s_mode := ModeDomain (lit "example.com") (Acme (lit "a") None) any_addr any_addr (40000, 40001);
     s_entry := wild_entry; s_rate := {| rate_handle := 0 |} |}.

Definition sample_env : DispatchEnv NoOpPeerLookup :=
  {| de_order := []; de_peers := {| pr_file := PeerMissing; pr_peers := [] |}; de_lookup := NoOp;
     de_bind := fun p => Ok ({| listener_handle := p |}, Ok p); de_message := fun _ => [];
     de_abort := {| abort_handle := 1 |} |}.

Definition sess_world (reg : RegWorld) (others : list (list RegOp)) : SessWorld :=
  {| sw_reg := reg; sw_metrics := ServerMetrics_new 0;
     sw_send := {| ss_sent := []; ss_outcomes := []; ss_finished := false |};
     sw_tasks := []; sw_others := others; sw_mine := None |}.

Definition frame_poll (f : ClientFrame) : Poll :=
  {| pl_shutdown := []; pl_revoked := []; pl_frame := Some (Ok f); pl_ctrl := None;
     pl_env := sample_env |}.

Lemma sample_bind_law : bind_law sample_env.
Proof. by intros p l q _ [= _ <-]. Qed.

Lemma session_keeps_registry_witness :
  reg_inv (sw_reg (session_run sample_session
    [frame_poll (RegisterTunnel (lit "api") TK_Http None false);
     frame_poll (RegisterTunnel (lit "t") (TK_Tcp None) None false)]
    (sess_world sample_world [[OpRemove {| tid_raw := 1 |}]; [OpReap 5]])).2).
Proof.
  apply (session_keeps_registry sample_session 40000 40001 sample_ops).
  - reflexivity.
  - reflexivity.
  - lia.
  - repeat constructor; exact sample_bind_law.
  - vm_compute. reflexivity.
Defined.

Lemma http_registration_witness : exists o w',
  dispatch sample_session sample_env (RegisterTunnel (lit "api") TK_Http None false)
    (sess_world sample_world []) = (Ok o, w') /\ o = Continue.
Proof.
  destruct (dispatch sample_session sample_env (RegisterTunnel (lit "api") TK_Http None false)
    (sess_world sample_world [])) as [[o|e] w'] eqn:E.
  - exists o, w'. split; [reflexivity|].
    exact (proj1 (http_registration sample_session sample_env (lit "api") false _ w' o E)).
  - exfalso. vm_compute in E. discriminate.
Defined.

Lemma tcp_registration_witness : exists o w',
  dispatch sample_session sample_env (RegisterTunnel (lit "api") (TK_Tcp None) None false)
    (sess_world sample_world []) = (Ok o, w') /\ o = Continue.
Proof.
  destruct (dispatch sample_session sample_env (RegisterTunnel (lit "api") (TK_Tcp None) None false)
    (sess_world sample_world [])) as [[o|e] w'] eqn:E.
  - exists o, w'. split; [reflexivity|].
    refine (proj1 (tcp_registration sample_session sample_env (lit "api") None false _ w' o
      sample_bind_law _ E)). vm_compute. discriminate.
  - exfalso. vm_compute in E. discriminate.
Defined.

Lemma dispatch_other_frames_witness : exists w',
  dispatch sample_session sample_env (Ping 7) (sess_world sample_world []) = (Ok Continue, w') /\
  ss_sent (sw_send w') = [Pong 7].
Proof.
  destruct (dispatch sample_session sample_env (Ping 7) (sess_world sample_world []))
    as [[o|e] w'] eqn:E.
  - destruct (dispatch_other_frames sample_session sample_env (Ping 7) _ w' o E) as (-> & _ & Hs).
    exists w'. split; [reflexivity|exact Hs].
  - exfalso. vm_compute in E. discriminate.
Defined.

Lemma resume_world_ok : sess_ok 0 (sess_world (run [OpMarkDangling 100 alice 30] sample_world) []).
Proof.
  split; [exact (proj1 (inv_run 40000 40001 (sample_ops ++ [OpMarkDangling 100 alice 30]) eq_refl))|..];
    vm_compute; congruence.
Qed.

Lemma resume_registration_witness : exists o w',
  dispatch sample_session sample_env
    (RegisterTunnel (lit "web") TK_Http (Some alice_session) false)
    (sess_world (run [OpMarkDangling 100 alice 30] sample_world) []) = (Ok o, w') /\
  exists w1, others_acted (sess_world (run [OpMarkDangling 100 alice 30] sample_world) []) w1.
Proof.
  destruct (dispatch sample_session sample_env
    (RegisterTunnel (lit "web") TK_Http (Some alice_session) false)
    (sess_world (run [OpMarkDangling 100 alice 30] sample_world) [])) as [[o|e] w'] eqn:E.
  - exists o, w'. split; [reflexivity|].
    destruct (resume_registration sample_session sample_env _ _ _ _ _ w' o resume_world_ok E) as (w1 & Ha & _).
    exists w1. exact Ha.
  - exfalso. vm_compute in E. discriminate.
Defined.

Lemma dispatch_total_witness : exists o w',
  dispatch sample_session sample_env ListPeers (sess_world sample_world []) = (Ok o, w') /\
  writable w'.
Proof. apply (dispatch_total sample_session sample_env ListPeers); [reflexivity|discriminate]. Defined.

(** The key file loses its only key. *)
Definition revoking_keys : KeyRegistry :=
  {| kr_file := Some []; kr_entries := {[ alice := wild_entry ]} |}.

Lemma revocation_ends_session_witness : exists w',
  run_step sample_session
    {| pl_shutdown := []; pl_frame := Some (Ok Bye); pl_ctrl := None; pl_env := sample_env;
       pl_revoked := [spawn_revocation_watcher alice
         ([BC_Lagged 3] ++ map BC_Key (reload toy_b64 0 revoking_keys).2 ++ [])] |}
    (sess_world sample_world []) = (Ok (Stop SO_Terminal), w') /\
  ss_sent (sw_send w') = [ServerBye KEY_REVOKED].
Proof.
  destruct (revocation_ends_session sample_session toy_b64 0 revoking_keys ∅ wild_entry
    [BC_Lagged 3] []
    {| pl_shutdown := []; pl_frame := Some (Ok Bye); pl_ctrl := None; pl_env := sample_env;
       pl_revoked := [spawn_revocation_watcher alice
         ([BC_Lagged 3] ++ map BC_Key (reload toy_b64 0 revoking_keys).2 ++ [])] |}
    (sess_world sample_world [])) as (w' & Hr & Hs & _).
  - vm_compute. reflexivity.
  - reflexivity.
  - intros e He. discriminate.
  - intros Hin. apply list_elem_of_singleton in Hin. discriminate.
  - reflexivity.
  - reflexivity.
  - reflexivity.
  - exists w'. split; [exact Hr|exact Hs].
Defined.

Lemma conns_cap_respected_witness :
  Z.of_nat (count_owned_by alice (rw_reg (sw_reg
    (dispatch sample_session sample_env (RegisterTunnel (lit "api") TK_Http None false)
       (sess_world sample_world [])).2))) <= 3.
Proof.
  exact (conns_cap_respected sample_session sample_env (lit "api") TK_Http false 3
    (sess_world sample_world []) eq_refl eq_refl).
Defined.

(** The check of the cap and the insertion are two steps: another session of the same key
    that registers in between takes the identity beyond its limit of three. *)
Definition racing_tunnel : TunnelInfo :=
  {| ti_id := {| tid_raw := 3 |}; ti_owner := alice; ti_session_id := alice_session;
     ti_kind := RK_Http (lit "x"); ti_state := Live {| conn_handle := 8 |} None;
     ti_tcp_listener := None; ti_rate := {| rate_handle := 0 |}; ti_inspect := false |}.

Example conns_cap_race :
  let w := sess_world sample_world [[]; [OpAllocateHttp (lit "x"); OpInsert racing_tunnel]] in
  count_owned_by alice (rw_reg (sw_reg (dispatch sample_session sample_env
    (RegisterTunnel (lit "api") TK_Http None false) w).2)) = 4%nat.
Proof. vm_compute. reflexivity. Qed.
