(* ===== verification/Server.v ===== *)
(** * Server: the life of one connection

    [krot-server/src/server.rs], [handle_connection] with [ensure_rate_state] and the
    lease reaper: accept, handshake under a deadline, session, and the disposition of the
    identity's tunnels when the session ends.

    The transport's answers, random draws, clocks and the order of events are inputs
    ([ConnEnv]).  Other connections act on the registry between any two calls of this one,
    as in [Session].  A handshake that the deadline cancels stops at some point of its
    own: the keys and tokens it leaves are an input. *)

From S2P Require Import Prelude RustStr Wire Framing Types Registry Rate Keys Admin Handshake Peers Metrics Config Session.

Local Open Scope Z_scope.

Definition SHUTDOWN_DEADLINE : Z := Duration_from_secs 5.
Definition AUTH_DEADLINE : Z := Duration_from_secs 10.
Definition REAP_INTERVAL : Z := Duration_from_secs 5.

Inductive TransportKind := Quic | TcpFallback.

(** [SharedState], as far as a connection uses it; the registry is with the foreign
    operations to come in the session world.  A rate-limit state is kept under its handle. *)
Record SharedState := {
  sh_keys : KeyRegistry;
  sh_admin : AdminTokenStore;
  sh_config : ServerConfig;
  sh_rates : gmap PubKey (RateRef * RateLimitState);
  sh_metrics : ServerMetrics;
  sh_reg : RegWorld;
  sh_others : list (list RegOp);
  sh_closed : list (Z * str);
}.

(** What one connection meets. *)
Record ConnEnv (S L : Type) := {
  ce_kind : TransportKind;
  ce_accept : Result Connection TErr;
  ce_accept_bi : Result (SendSide * S) TErr;
  ce_timed_out : option (KeyRegistry * AdminTokenStore);
  ce_handshake : HsEnv;
  ce_rate_now : Z;
  ce_rate_ref : RateRef;
  ce_ctrl_tx : Z;
  ce_polls : list (Poll (L := L));
  ce_end_now : Z;
}.
Arguments ce_kind {S L} _.
Arguments ce_accept {S L} _.
Arguments ce_accept_bi {S L} _.
Arguments ce_timed_out {S L} _.
Arguments ce_handshake {S L} _.
Arguments ce_rate_now {S L} _.
Arguments ce_rate_ref {S L} _.
Arguments ce_ctrl_tx {S L} _.
Arguments ce_polls {S L} _.
Arguments ce_end_now {S L} _.

(** ** Field updates *)

Definition set_metrics (m : ServerMetrics) (sh : SharedState) : SharedState :=
  {| sh_keys := sh_keys sh; sh_admin := sh_admin sh; sh_config := sh_config sh;
     sh_rates := sh_rates sh; sh_metrics := m; sh_reg := sh_reg sh; sh_others := sh_others sh;
     sh_closed := sh_closed sh |}.

Definition count (c : Counter) (sh : SharedState) : SharedState :=
  set_metrics (bump c (sh_metrics sh)) sh.

Definition set_auth (k : KeyRegistry) (a : AdminTokenStore) (sh : SharedState) : SharedState :=
  {| sh_keys := k; sh_admin := a; sh_config := sh_config sh; sh_rates := sh_rates sh;
     sh_metrics := sh_metrics sh; sh_reg := sh_reg sh; sh_others := sh_others sh;
     sh_closed := sh_closed sh |}.

Definition set_rates (r : gmap PubKey (RateRef * RateLimitState)) (sh : SharedState) : SharedState :=
  {| sh_keys := sh_keys sh; sh_admin := sh_admin sh; sh_config := sh_config sh; sh_rates := r;
     sh_metrics := sh_metrics sh; sh_reg := sh_reg sh; sh_others := sh_others sh;
     sh_closed := sh_closed sh |}.

(** [connection.close(code, reason)]. *)
Definition close (code : Z) (reason : str) (sh : SharedState) : SharedState :=
  {| sh_keys := sh_keys sh; sh_admin := sh_admin sh; sh_config := sh_config sh;
     sh_rates := sh_rates sh; sh_metrics := sh_metrics sh; sh_reg := sh_reg sh;
     sh_others := sh_others sh; sh_closed := sh_closed sh ++ [(code, reason)] |}.

(** Take registry, counters and pending foreign operations over from a session's world. *)
Definition absorb (w : SessWorld) (sh : SharedState) : SharedState :=
  {| sh_keys := sh_keys sh; sh_admin := sh_admin sh; sh_config := sh_config sh;
     sh_rates := sh_rates sh; sh_metrics := sw_metrics w; sh_reg := sw_reg w;
     sh_others := sw_others w; sh_closed := sh_closed sh |}.

(** ** Rate-limit states *)

(** The state of the identity, created from its entry on first use; [now] and [ref] are the
    clock and the handle of a new state. *)
Definition ensure_rate_state (now : Z) (ref : RateRef) (pubkey : PubKey) (entry : AuthorizedEntry)
    (sh : SharedState) : RateRef * SharedState :=
  match sh_rates sh !! pubkey with
  | Some (r, _) => (r, sh)
  | None =>
    let st := from_entry_with_metrics now (ae_bw entry) (ae_quota entry)
                (sc_bw_partitions (sh_config sh)) (Some 0) in
    (ref, set_rates (<[pubkey := (ref, st)]> (sh_rates sh)) sh)
  end.

(** Act on the state of an identity. *)
Definition on_rate (f : RateLimitState -> RateLimitState) (pubkey : PubKey) (sh : SharedState) :
    SharedState :=
  set_rates (alter (fun rs => (rs.1, f rs.2)) pubkey (sh_rates sh)) sh.

(** One tick of the reaper. *)
Definition spawn_reaper (now : Z) (r : RegWorld) : RegWorld := exec_op (OpReap now) r.

(** ** The connection *)

(** The counter of a failed handshake. *)
Definition failure_counter (code : ErrorCode) : Counter :=
  if bool_decide (code = UNKNOWN_IDENTITY) then handshake_unknown_identity
  else if bool_decide (code = AUTHENTICATION_FAILED) then handshake_signature_invalid
  else if bool_decide (code = TOKEN_EXPIRED) || bool_decide (code = ENROLL_DISABLED)
  then enrollment_rejected
  else handshake_protocol_violation.

(** What the end of a session does to the identity's tunnels. *)
Definition dispose (config : ServerConfig) (now : Z) (pubkey : PubKey)
    (result : Result SessionOutcome ServerError) : SeM unit :=
  match result with
  | Ok SO_Dropped =>
    let! _ := metric session_dropped in
    let grace := default DEFAULT_GRACE_PERIOD (sc_resume_grace config) in
    reg_call (fun _ => tt) (OpMarkDangling now pubkey grace)
  | Ok SO_Bye =>
    let! _ := metric session_bye in
    reg_call (fun _ => tt) (OpRemoveAll pubkey)
  | Ok SO_Terminal | Err _ =>
    let! _ := metric session_terminal in
    reg_call (fun _ => tt) (OpRemoveAll pubkey)
  end.

Section Connection.
Context {S L : Type} `{RecvStream S Z Z} `{Postcard ClientFrame Z} `{PeerLabelLookup L}.
Context {SK VK : Type} `{Ed25519 SK VK} `{Base64}.
Context (blake3 : bytes -> bytes).

(** The session of an authenticated client, from its creation to the close; [None] while the
    session is still running. *)
Definition serve_session (env : ConnEnv S L) (connection : Connection) (send : SendSide)
    (ok : HandshakeOk) (sh : SharedState) : option (Result unit ServerError) * SharedState :=
  let sh := count handshake_auth_ok sh in
  let '(rate, sh) := ensure_rate_state (ce_rate_now env) (ce_rate_ref env) (ho_pubkey ok)
                       (ho_entry ok) sh in
  let sh := on_rate (attach_ctrl (ce_ctrl_tx env)) (ho_pubkey ok) sh in
  let session :=
    {| s_pubkey := ho_pubkey ok; s_session_id := ho_session_id ok; s_connection := connection;
       s_mode := sc_mode (sh_config sh); s_entry := ho_entry ok; s_rate := rate |} in
  let w := {| sw_reg := sh_reg sh; sw_metrics := sh_metrics sh; sw_send := send;
              sw_tasks := []; sw_others := sh_others sh; sw_mine := None |} in
  let finished result w :=
    let sh := on_rate detach_ctrl (ho_pubkey ok) sh in
    let w := (dispose (sh_config sh) (ce_end_now env) (ho_pubkey ok) result w).2 in
    (Some (Ok tt), close 0 (lit "bye") (absorb w sh)) in
  match session_run session (ce_polls env) w with
  | (Ok None, w) => (None, absorb w sh)
  | (Ok (Some outcome), w) => finished (Ok outcome) w
  | (Err e, w) => finished (Err e) w
  end.

Definition handle_connection (env : ConnEnv S L) (sh : SharedState) :
    option (Result unit ServerError) * SharedState :=
  let sh := count match ce_kind env with
                  | Quic => transport_quic_accepted
                  | TcpFallback => transport_tcp_fallback_accepted
                  end sh in
  match ce_accept env with
  | Err e => (Some (Err (SE_Transport e)), sh)
  | Ok connection =>
    match ce_accept_bi env with
    | Err e => (Some (Err (SE_Transport e)), sh)
    | Ok (send, recv) =>
      match ce_timed_out env with
      | Some (keys, admin) =>
        let sh := count handshake_timed_out (set_auth keys admin sh) in
        (Some (Ok tt), close (code_raw AUTHENTICATION_FAILED) (lit "handshake timeout") sh)
      | None =>
        let '(res, hw) := perform blake3 (ce_handshake env)
          {| hw_send := send; hw_recv := recv; hw_keys := sh_keys sh; hw_admin := sh_admin sh |} in
        let sh := set_auth (hw_keys hw) (hw_admin hw) sh in
        match res with
        | Err e => (Some (Err e), sh)
        | Ok (EnrollmentDone success) =>
          let sh := count (if success then enrollment_ok else enrollment_rejected) sh in
          (Some (Ok tt), close 0 (lit "enrolled") sh)
        | Ok (HFailed code) =>
          let sh := count (failure_counter code) sh in
          (Some (Ok tt), close (code_raw code) (lit "handshake failed") sh)
        | Ok (HAuth ok) => serve_session env connection (hw_send hw) ok sh
        end
      end
    end
  end.

End Connection.

(** ** The end of a session *)

(** How a poll ends a session, if it does: a shutdown or a revocation, a failed read, a
    [Bye], a frame of the handshake. *)
Definition ends_with_poll {L} (p : Poll (L := L)) : option SessionOutcome :=
  if wait_shutdown (pl_shutdown p) || wait_shutdown (pl_revoked p) then Some SO_Terminal
  else match pl_frame p with
       | Some (Err _) => Some SO_Dropped
       | Some (Ok Bye) => Some SO_Bye
       | Some (Ok (AuthRequest _)) | Some (Ok (AuthResponse _)) | Some (Ok (Enroll _ _ _)) => Some SO_Terminal
       | _ => None
       end.

Lemma run_step_ends {L} `{PeerLabelLookup L} s (p : Poll (L := L)) w o w' :
  run_step s p w = (Ok o, w') ->
  o = match ends_with_poll p with Some oc => Stop oc | None => Continue end.
Proof.
  unfold run_step, ends_with_poll, farewell. intros Hr.
  destruct (wait_shutdown (pl_shutdown p)); [by do 2 (apply sm_bind_Ok in Hr as (? & ? & _ & Hr)); injection Hr as <-|].
  destruct (wait_shutdown (pl_revoked p)); [by do 2 (apply sm_bind_Ok in Hr as (? & ? & _ & Hr)); injection Hr as <-|].
  cbn [orb]. destruct (pl_frame p) as [[f|e]|]; [|by injection Hr as <-|].
  - destruct f; cbn in Hr; try (by injection Hr as <-); by apply sm_bind_Ok in Hr as (? & ? & _ & [= <- _]).
  - destruct (pl_ctrl p); [|by injection Hr as <-]. by apply sm_bind_Ok in Hr as (? & ? & _ & [= <- _]).
Qed.

(** A session ends at the first poll that ends it, and as that poll says. *)
Lemma session_run_ends {L} `{PeerLabelLookup L} s (polls : list (Poll (L := L))) w oc w' :
  session_run s polls w = (Ok (Some oc), w') ->
  exists pre p post, polls = pre ++ p :: post /\ ends_with_poll p = Some oc /\
    Forall (fun q => ends_with_poll q = None) pre.
Proof.
  revert w. induction polls as [|p polls IH]; intros w Hr; [done|]. cbn in Hr.
  apply sm_bind_Ok in Hr as (o & w1 & Ho%run_step_ends & Hr).
  destruct (ends_with_poll p) as [oc'|] eqn:E; subst o.
  - injection Hr as <- _. by exists [], p, polls.
  - apply IH in Hr as (pre & q & post & -> & Hq & Hpre). exists (p :: pre), q, post. by auto.
Qed.

(** Nothing of an identity that has no tunnel can be resumed. *)
Lemma nothing_to_resume pk w order l sid c id info b :
  (try_resume order l sid pk c (rw_reg (exec_op (OpRemoveAll pk) w))).1 <> Reattached id info b.
Proof.
  intros E. pose proof (try_resume_owned order l sid pk c (rw_reg (exec_op (OpRemoveAll pk) w))) as Ho.
  rewrite E in Ho. destruct Ho as (i & Hi & _ & _ & Hk). cbn in Hi.
  rewrite remove_all_tunnels, map_lookup_filter_Some in Hi. by destruct Hi as [_ Hi].
Qed.

(** The table after a session of [pk] that ended with [result]; [before] is the registry at
    that moment.  After a drop the live tunnels of [pk] dangle until the grace period and
    everything else is as it was; otherwise the tunnels of [pk], and only those, are gone. *)
Definition disposed (config : ServerConfig) (now : Z) (pk : PubKey)
    (result : Result SessionOutcome ServerError) (before after : RegWorld) : Prop :=
  match result with
  | Ok SO_Dropped => forall id, tr_tunnels (rw_reg after) !! id =
      (fun i => if bool_decide (ti_owner i = pk) && negb (is_dangling (ti_state i))
                then with_state (Dangling (now + default DEFAULT_GRACE_PERIOD (sc_resume_grace config))) i
                else i) <$> tr_tunnels (rw_reg before) !! id
  | _ =>
      (forall id i, tr_tunnels (rw_reg after) !! id = Some i <->
         tr_tunnels (rw_reg before) !! id = Some i /\ ti_owner i <> pk) /\
      forall order l sid c id info b,
        (try_resume order l sid pk c (rw_reg after)).1 <> Reattached id info b
  end.

Lemma exec_remove_all pk w :
  (forall id i, tr_tunnels (rw_reg (exec_op (OpRemoveAll pk) w)) !! id = Some i <->
     tr_tunnels (rw_reg w) !! id = Some i /\ ti_owner i <> pk) /\
  forall order l sid c id info b,
    (try_resume order l sid pk c (rw_reg (exec_op (OpRemoveAll pk) w))).1 <> Reattached id info b.
Proof.
  split; [|apply nothing_to_resume]. intros id i. cbn. by rewrite remove_all_tunnels, map_lookup_filter_Some.
Qed.

(** The counter of a result. *)
Definition outcome_counter (result : Result SessionOutcome ServerError) : Counter :=
  match result with
  | Ok SO_Dropped => session_dropped
  | Ok SO_Bye => session_bye
  | Ok SO_Terminal | Err _ => session_terminal
  end.

Lemma dispose_spec config now pk result w :
  exists w1, others_acted w w1 /\
    disposed config now pk result (sw_reg w1) (sw_reg (dispose config now pk result w).2) /\
    sw_metrics (dispose config now pk result w).2 = bump (outcome_counter result) (sw_metrics w).
Proof.
  assert (Hcall : forall c o, exists w1, others_acted w w1 /\
    sw_reg (sm_bind (metric c) (fun _ => reg_call (fun _ => tt) o) w).2 = exec_op o (sw_reg w1) /\
    sw_metrics (sm_bind (metric c) (fun _ => reg_call (fun _ => tt) o) w).2 = bump c (sw_metrics w)).
  { intros c o. unfold sm_bind, metric, sm_modify, reg_call, sm_bind.
    set (w0 := {| sw_reg := sw_reg w; sw_metrics := bump c (sw_metrics w) |}).
    destruct (interfere_acted w0) as [Ha _]. exists (interfere w0).2.
    split; [|split; [done|]].
    - destruct Ha as (t & ? & ? & ? & ?). by exists t.
    - unfold interfere. simpl. by destruct (sw_others w). }
  destruct result as [[]|e]; simpl dispose; simpl outcome_counter.
  - destruct (Hcall session_bye (OpRemoveAll pk)) as (w1 & Ha & Hr & Hm).
    exists w1. split_and!; [done| |done]. unfold disposed. rewrite Hr. apply exec_remove_all.
  - destruct (Hcall session_dropped (OpMarkDangling now pk
      (default DEFAULT_GRACE_PERIOD (sc_resume_grace config)))) as (w1 & Ha & Hr & Hm).
    exists w1. split_and!; [done| |done]. unfold disposed. rewrite Hr. intros id. cbn.
    by rewrite mark_dangling_tunnels, lookup_fmap.
  - destruct (Hcall session_terminal (OpRemoveAll pk)) as (w1 & Ha & Hr & Hm).
    exists w1. split_and!; [done| |done]. unfold disposed. rewrite Hr. apply exec_remove_all.
  - destruct (Hcall session_terminal (OpRemoveAll pk)) as (w1 & Ha & Hr & Hm).
    exists w1. split_and!; [done| |done]. unfold disposed. rewrite Hr. apply exec_remove_all.
Qed.

Section ServerTheorems.
Context {S L : Type} `{RecvStream S Z Z} `{Postcard ClientFrame Z} `{PeerLabelLookup L}.
Context {SK VK : Type} `{Ed25519 SK VK} `{Base64}.
Context (blake3 : bytes -> bytes).

(** C11: When a session ends its tunnels are disposed of as its end demands.  The session
    that runs is the one the handshake authenticated, on the registry as it is.  It ends at
    the first poll that ends it: with a [Bye], a failed read, or otherwise (a shutdown, a
    revocation, a frame of the handshake, an error of its own).  After a failed read its live
    tunnels dangle until the grace period from that moment and all else is as it was;
    otherwise the tunnels of the identity, and only those, are removed and no lease of it can
    be resumed.  Between the last poll and the disposition only other sessions act; exactly
    the counter of that end moves, and the connection is closed. *)
Theorem session_end_disposition (env : ConnEnv S L) (connection : Connection) (send : SendSide)
    (ok : HandshakeOk) (sh sh' : SharedState) (res : Result unit ServerError)
    (Hs : serve_session env connection send ok sh = (Some res, sh')) :
  res = Ok tt /\ sh_closed sh' = sh_closed sh ++ [(0, lit "bye")] /\
  exists session w0 result w1 before,
    s_pubkey session = ho_pubkey ok /\ s_session_id session = ho_session_id ok /\
    s_entry session = ho_entry ok /\ s_connection session = connection /\
    s_mode session = sc_mode (sh_config sh) /\
    sw_reg w0 = sh_reg sh /\ sw_others w0 = sh_others sh /\ sw_send w0 = send /\
    session_run session (ce_polls env) w0 =
      (match result with Ok oc => Ok (Some oc) | Err e => Err e end, w1) /\
    match result with
    | Ok oc => exists pre p post, ce_polls env = pre ++ p :: post /\ ends_with_poll p = Some oc /\
        Forall (fun q => ends_with_poll q = None) pre
    | Err _ => True
    end /\
    others_acted w1 before /\
    disposed (sh_config sh) (ce_end_now env) (ho_pubkey ok) result (sw_reg before) (sh_reg sh') /\
    sh_metrics sh' = bump (outcome_counter result) (sw_metrics w1).
Proof.
  unfold serve_session in Hs.
  destruct (ensure_rate_state _ _ _ _ _) as [rate sh1] eqn:Er.
  assert (Hc : sh_config sh1 = sh_config sh /\ sh_closed sh1 = sh_closed sh /\ sh_reg sh1 = sh_reg sh /\
    sh_others sh1 = sh_others sh).
  { unfold ensure_rate_state in Er. destruct (sh_rates _ !! _) as [[]|]; injection Er as _ <-; done. }
  destruct Hc as (Hcfg & Hcl & Hreg & Hoth).
  match type of Hs with context [session_run ?s ?ps ?w] => set (s0 := s) in *; set (w0 := w) in * end.
  assert (Hend : forall result w1, session_run s0 (ce_polls env) w0 =
      (match result with Ok oc => Ok (Some oc) | Err e => Err e end, w1) ->
    exists before, others_acted w1 before /\
      disposed (sh_config sh) (ce_end_now env) (ho_pubkey ok) result (sw_reg before)
        (sw_reg (dispose (sh_config sh1) (ce_end_now env) (ho_pubkey ok) result w1).2) /\
      sw_metrics (dispose (sh_config sh1) (ce_end_now env) (ho_pubkey ok) result w1).2 =
        bump (outcome_counter result) (sw_metrics w1)).
  { intros result w1 _. rewrite Hcfg. apply dispose_spec. }
  destruct (session_run s0 (ce_polls env) w0) as [[[oc|]|e] w1] eqn:Erun in Hs; [|done|]; injection Hs as <- <-;
    simpl; rewrite Hcl; (split; [done|split; [done|]]).
  - destruct (Hend (Ok oc) w1 Erun) as (before & Ha & Hd & Hm).
    exists s0, w0, (Ok oc), w1, before. cbn -[disposed] in *.
    split_and!; [done|done|done|done|by rewrite Hcfg|done|done|done|done| |done|done|done].
    by eapply session_run_ends.
  - destruct (Hend (Err e) w1 Erun) as (before & Ha & Hd & Hm).
    exists s0, w0, (Err e), w1, before. cbn -[disposed] in *. split_and!; try done. by rewrite Hcfg.
Qed.

(** C3: Only an authenticated key can touch the server's state.  If handling a connection
    changed the tunnel table or the rate-limit table, then on its first stream the peer
    presented a key of the key file and answered this connection's nonce with a signature
    that verifies under that key. *)
Theorem only_authenticated_act (env : ConnEnv S L) (sh : SharedState)
    (Hch : sh_reg (handle_connection blake3 env sh).2 <> sh_reg sh \/
           sh_rates (handle_connection blake3 env sh).2 <> sh_rates sh) :
  exists pk entry sig send recv kb (s1 s2 s3 : S),
    KeyRegistry_get pk (sh_keys sh) = Some entry /\
    ce_accept_bi env = Ok (send, recv) /\ read_exact 1 recv = (Ok kb, s1) /\
    read_frame s1 = (Ok (AuthRequest pk), s2) /\ read_frame s2 = (Ok (AuthResponse sig), s3) /\
    verify_challenge pk (he_nonce (ce_handshake env)) sig = true.
Proof.
  unfold handle_connection in Hch.
  destruct (ce_accept env) as [c|e]; [|by destruct Hch].
  destruct (ce_accept_bi env) as [[send recv]|e]; [|by destruct Hch].
  destruct (ce_timed_out env) as [[k a]|]; [by destruct Hch|].
  destruct (perform _ _ _) as [[[ok|b|code]|e] hw] eqn:Ep; try (by destruct Hch).
  apply perform_authenticates in Ep as (Hg & _ & (kb & s1 & s2 & sig & Hkb & _ & Hreq & Hr & Hv) & _).
  by exists (ho_pubkey ok), (ho_entry ok), sig, send, recv, kb, s1, s2, (hw_recv hw).
Qed.

(** A rate-limit state outlives the session: an identity that already has one keeps it,
    with the bytes it has used, its cap and its period, through any number of further
    sessions; only the control sender changes, and no other identity's state does. *)
Theorem rate_state_survives (env : ConnEnv S L) (connection : Connection) (send : SendSide)
    (ok : HandshakeOk) (sh : SharedState) (r : RateRef) (st : RateLimitState)
    (Hst : sh_rates sh !! ho_pubkey ok = Some (r, st)) :
  exists st', sh_rates (serve_session env connection send ok sh).2 !! ho_pubkey ok = Some (r, st') /\
    rl_quota_used st' = rl_quota_used st /\ rl_quota_cap st' = rl_quota_cap st /\
    rl_quota_reset_at st' = rl_quota_reset_at st /\ rl_bw st' = rl_bw st /\
    forall pk, pk <> ho_pubkey ok ->
      sh_rates (serve_session env connection send ok sh).2 !! pk = sh_rates sh !! pk.
Proof.
  unfold serve_session, ensure_rate_state. simpl. rewrite Hst. simpl.
  destruct (session_run _ _ _) as [[[outcome|]|e] w1]; simpl; rewrite ?lookup_alter_eq, Hst; simpl;
    eexists; (split; [done|]); simpl; split_and!; try done;
    intros pk Hne; by rewrite ?lookup_alter_ne by done.
Qed.

(** A server world that a connection can start from: the registry is well formed and ids
    suffice for [n] operations. *)
Definition server_ok (n : Z) (sh : SharedState) : Prop :=
  reg_inv (sh_reg sh) /\ 1 <= tr_port_lo (rw_reg (sh_reg sh)) /\
  tr_next_id (rw_reg (sh_reg sh)) + len (concat (sh_others sh)) + n < 2 ^ 64.

Lemma dispose_ok n config now pk result :
  0 <= n -> triple (sess_ok (n + 1)) (dispose config now pk result) (fun _ => sess_ok n).
Proof.
  intros Hn. assert (Hcall : forall c o, no_insert o -> triple (sess_ok (n + 1))
    (sm_bind (metric c) (fun _ => reg_call (fun _ => tt) o)) (fun _ => sess_ok n)).
  { intros c o Ho w Hw. apply (reg_call_ok n (fun _ => tt) o Hn Ho _ (metric_ok _ c w Hw)). }
  unfold dispose. by destruct result as [[]|e]; apply Hcall.
Qed.

(** A connection keeps the registry well formed, whatever the peer does and whatever the
    other connections do meanwhile, from the accept to the disposition of its tunnels. *)
Theorem connection_keeps_registry (env : ConnEnv S L) (sh : SharedState)
    (Hsh : server_ok (2 * len (ce_polls env) + 1) sh)
    (Hb : Forall (fun p => bind_law (pl_env p)) (ce_polls env)) :
  reg_inv (sh_reg (handle_connection blake3 env sh).2).
Proof.
  unfold handle_connection.
  destruct Hsh as (I & Hlo & Hroom).
  destruct (ce_accept env) as [c|e]; [|done].
  destruct (ce_accept_bi env) as [[send recv]|e]; [|done].
  destruct (ce_timed_out env) as [[k a]|]; [done|].
  destruct (perform _ _ _) as [[[ok|b|code]|e] hw]; try done.
  unfold serve_session. set (sh0 := count handshake_auth_ok _).
  destruct (ensure_rate_state _ _ _ _ sh0) as [rate sh1] eqn:Er.
  assert (Hr : sh_reg sh1 = sh_reg sh /\ sh_others sh1 = sh_others sh).
  { unfold ensure_rate_state in Er. destruct (sh_rates sh0 !! _) as [[]|]; injection Er as _ <-; done. }
  destruct Hr as [Hreg Hoth]. cbv zeta.
  match goal with |- context [session_run ?s ?ps ?w0] =>
    pose proof (session_run_ok s ps 1 ltac:(lia) Hb w0) as Hrun; destruct (session_run s ps w0)
      as [[[outcome|]|e] w1] end.
  all: assert (Hw1 : sess_ok 1 w1) by (apply Hrun; split; simpl;
    [by rewrite Hreg|rewrite Hreg, Hoth; lia|by rewrite Hreg|done]).
  - exact (ok_inv 0 _ (dispose_ok 0 _ _ _ _ ltac:(lia) w1 Hw1)).
  - exact (ok_inv 1 _ Hw1).
  - exact (ok_inv 0 _ (dispose_ok 0 _ _ _ _ ltac:(lia) w1 Hw1)).
Qed.

End ServerTheorems.

(** A lease lives exactly as long as it should: after a reaper tick at time [now], a
    tunnel that dangled until [t] is still there if and only if [now < t], a live tunnel is
    untouched, and nothing else appears. *)
Theorem reaper_exact (now : Z) (w : RegWorld) (id : TunnelId) :
  tr_tunnels (rw_reg (spawn_reaper now w)) !! id =
  match tr_tunnels (rw_reg w) !! id with
  | Some i =>
    match ti_state i with
    | Live _ _ => Some i
    | Dangling t => if now <? t then Some i else None
    end
  | None => None
  end.
Proof.
  unfold spawn_reaper. cbn [exec_op rw_reg]. rewrite reap_tunnels, map_lookup_filter.
  destruct (tr_tunnels (rw_reg w) !! id) as [i|]; [|done]. cbn [mbind option_bind].
  unfold lease_expired. destruct (ti_state i) as [|t] eqn:E; case_guard as Hg; simpl;
    pose proof Hg as Hg'; cbn [snd] in Hg'; rewrite E in Hg'; clear Hg; [done|done| |].
  - apply Z.leb_gt in Hg'. by rewrite (proj2 (Z.ltb_lt _ _)).
  - destruct (Z.ltb_spec now t); [|done]. destruct Hg'. by apply Z.leb_gt.
Qed.

(** ** Witnesses *)

Definition sample_shared (reg : RegWorld) : SharedState :=
  {| sh_keys := revoking_keys;
     sh_admin := {| ats_state := None; ats_file := None |};
     sh_config := local_in (lit "/tmp");
     sh_rates := {[ alice := ({| rate_handle := 0 |},
       from_entry 0 None (Some {| rp_bytes := 100; rp_period := Day |}) 1) ]};
     sh_metrics := ServerMetrics_new 0; sh_reg := reg; sh_others := []; sh_closed := [] |}.

Definition alice_ok : HandshakeOk :=
  {| ho_pubkey := alice; ho_session_id := alice_session; ho_entry := wild_entry |}.

Definition fresh_send : SendSide := {| ss_sent := []; ss_outcomes := []; ss_finished := false |}.

Lemma inv_sample : reg_inv sample_world.
Proof. apply (inv_run 40000 40001 sample_ops). vm_compute. reflexivity. Qed.

(** A connection whose first stream carries [input] and whose session sees [polls]. *)
Definition sample_conn (input : bytes) (polls : list (Poll (L := NoOpPeerLookup))) :
    ConnEnv bytes NoOpPeerLookup :=
  {| ce_kind := Quic; ce_accept := Ok {| conn_handle := 6 |};
     ce_accept_bi := Ok (fresh_send, input); ce_timed_out := None; ce_handshake := toy_env;
     ce_rate_now := 0; ce_rate_ref := {| rate_handle := 1 |}; ce_ctrl_tx := 4;
     ce_polls := polls; ce_end_now := 50 |}.

Lemma session_end_disposition_witness : exists sh',
  serve_session (sample_conn [] [frame_poll Bye]) {| conn_handle := 6 |} fresh_send alice_ok
    (sample_shared sample_world) = (Some (Ok tt), sh') /\
  sh_closed sh' = [(0, lit "bye")].
Proof.
  destruct (serve_session (sample_conn [] [frame_poll Bye]) {| conn_handle := 6 |} fresh_send alice_ok
    (sample_shared sample_world)) as [[res|] sh'] eqn:E.
  - destruct (session_end_disposition _ _ _ _ _ sh' res E) as (Hr & Hc & _).
    exists sh'. split; [rewrite Hr; reflexivity|exact Hc].
  - exfalso. vm_compute in E. discriminate.
Defined.

Lemma rate_state_survives_witness : exists st',
  sh_rates (serve_session (sample_conn [] [frame_poll Bye]) {| conn_handle := 6 |} fresh_send
    alice_ok (sample_shared sample_world)).2 !! alice = Some ({| rate_handle := 0 |}, st') /\
  rl_quota_cap st' = Some 100.
Proof.
  destruct (rate_state_survives (sample_conn [] [frame_poll Bye]) {| conn_handle := 6 |} fresh_send
    alice_ok (sample_shared sample_world) {| rate_handle := 0 |}
    (from_entry 0 None (Some {| rp_bytes := 100; rp_period := Day |}) 1) eq_refl)
    as (st' & Hst & _ & Hcap & _).
  exists st'. split; [exact Hst|exact Hcap].
Defined.

#[local] Existing Instance toy_postcard.
#[local] Existing Instance toy_stream.
#[local] Existing Instance toy_ed.
#[local] Existing Instance toy_base64.

(** [alice] authenticates and says [Bye]: her sample tunnels go. *)
Lemma only_authenticated_act_witness : exists pk entry,
  KeyRegistry_get pk (sh_keys (sample_shared sample_world)) = Some entry.
Proof.
  destruct (only_authenticated_act (S := bytes) (L := NoOpPeerLookup) (SK := bytes) (VK := bytes)
    (fun b => b) (sample_conn auth_input [frame_poll Bye]) (sample_shared sample_world))
    as (pk & entry & _ & _ & _ & _ & _ & _ & _ & Hg & _).
  - left. intros E. apply (f_equal (fun r => TunnelRegistry_len (rw_reg r))) in E.
    vm_compute in E. discriminate.
  - exists pk, entry. exact Hg.
Defined.

Lemma connection_keeps_registry_witness :
  reg_inv (sh_reg (handle_connection (S := bytes) (L := NoOpPeerLookup) (SK := bytes) (VK := bytes)
    (fun b => b)
    (sample_conn auth_input [frame_poll (RegisterTunnel (lit "t") (TK_Tcp None) None false)])
    (sample_shared sample_world)).2).
Proof.
  apply (connection_keeps_registry (S := bytes) (L := NoOpPeerLookup) (SK := bytes) (VK := bytes)
    (fun b => b)).
  - split; [exact (inv_sample)|]. vm_compute. split; [discriminate|reflexivity].
  - repeat constructor; exact sample_bind_law.
Defined.

(** The sender of a newer session of the key is detached when an older one ends. *)
Example detach_hits_newer_session :
  rl_ctrl (detach_ctrl (attach_ctrl 2 (attach_ctrl 1 (from_entry 0 None None 1)))) = None.
Proof. reflexivity. Qed.
