(* ===== verification/Sni.v ===== *)
(** * Sni: reading the server name out of a TLS ClientHello, without consuming it

    [krot-server/src/domain/sni.rs] and [domain/replay.rs].  The router peeks at the
    first TLS record of a connection, walks the ClientHello for the SNI and ALPN
    extensions, and hands the bytes it has read on unchanged.

    A TCP stream is the sequence of chunks its reads will yield (or an error); a read of
    at most [n] bytes takes from the front chunk.  [str::to_lowercase] is Unicode's, a
    parameter of which only the ASCII case is used. *)

From S2P Require Import Prelude RustStr Wire Framing Types.

Local Open Scope Z_scope.

Definition MAX_HELLO : Z := 16 * 1024.

Record SniPeek := {
  sp_server_name : str;
  sp_alpn : list bytes;
  sp_buffered : bytes;
}.

(** ** The byte reader *)

Record Reader := { rd_buf : bytes; rd_pos : nat }.

Definition Reader_new (buf : bytes) : Reader := {| rd_buf := buf; rd_pos := 0 |}.

Definition Reader_is_empty (r : Reader) : bool := Nat.leb (length (rd_buf r)) (rd_pos r).

Definition Reader_remaining (r : Reader) : bytes := drop (rd_pos r) (rd_buf r).

Abbreviation RdM := (SM Reader ServerError).

Definition TRUNCATED : ServerError := SE_Protocol (lit "truncated ClientHello field").

Definition ensure (n : nat) : RdM unit := fun r =>
  if Nat.ltb (length (rd_buf r) - rd_pos r) n then (Err TRUNCATED, r) else (Ok tt, r).

Definition advance (n : nat) : RdM unit :=
  sm_modify (fun r => {| rd_buf := rd_buf r; rd_pos := (rd_pos r + n)%nat |}).

(** [self.buf[self.pos + i]]. *)
Definition at_pos (i : nat) (r : Reader) : Z := nth (rd_pos r + i) (rd_buf r) 0.

Definition take_u8 : RdM Z :=
  let! _ := ensure 1 in
  let! v := sm_gets (at_pos 0) in
  let! _ := advance 1 in
  sm_ret v.

Definition take_u16 : RdM Z :=
  let! _ := ensure 2 in
  let! v := sm_gets (fun r => from_be_bytes [at_pos 0 r; at_pos 1 r]) in
  let! _ := advance 2 in
  sm_ret v.

Definition take_u24 : RdM Z :=
  let! _ := ensure 3 in
  let! v := sm_gets (fun r =>
    Z.lor (Z.lor (Z.shiftl (at_pos 0 r) 16) (Z.shiftl (at_pos 1 r) 8)) (at_pos 2 r)) in
  let! _ := advance 3 in
  sm_ret v.

Definition skip (n : Z) : RdM unit :=
  let! _ := ensure (Z.to_nat n) in
  advance (Z.to_nat n).

Definition take_reader (n : Z) : RdM Reader :=
  let n := Z.to_nat n in
  let! _ := ensure n in
  let! s := sm_gets (fun r => slice (rd_pos r) (rd_pos r + n) (rd_buf r)) in
  let! _ := advance n in
  sm_ret (Reader_new s).

(** Run on a reader of its own, as [let mut list = ..]. *)
Definition on_reader {A W} (r : Reader) (m : RdM A) : SM W ServerError (A * Reader) := fun w =>
  match m r with (Ok a, r) => (Ok (a, r), w) | (Err e, _) => (Err e, w) end.

Section Sni.
Context (to_lowercase : str -> str).

(** ** The extensions

    Each turn of a loop consumes bytes, so the length of the input bounds the turns: the
    fuel the callers give is never used up ([peek_total]); running out would show as an
    error that no read and no parse returns. *)
Definition NO_FUEL : ServerError := SE_Rcgen 0.

Fixpoint alpn_loop (fuel : nat) (out : list bytes) : RdM (list bytes) :=
  match fuel with
  | O => sm_throw NO_FUEL
  | S fuel =>
    let! empty := sm_gets Reader_is_empty in
    if empty : bool then sm_ret out
    else
      let! name_len := take_u8 in
      let! name := take_reader name_len in
      alpn_loop fuel (out ++ [Reader_remaining name])
  end.

Definition parse_alpn_extension (data : bytes) : Result (list bytes) ServerError :=
  ((let! list_len := take_u16 in
    let! list := take_reader list_len in
    let! out := on_reader list (alpn_loop (S (length (rd_buf list))) []) in
    sm_ret out.1) (Reader_new data)).1.

Definition NON_UTF8 : ServerError := SE_Protocol (lit "non-utf8 SNI").
Definition NO_HOST_NAME : ServerError := SE_Protocol (lit "no host_name in SNI extension").

Fixpoint sni_loop (fuel : nat) : RdM str :=
  match fuel with
  | O => sm_throw NO_FUEL
  | S fuel =>
    let! empty := sm_gets Reader_is_empty in
    if empty : bool then sm_throw NO_HOST_NAME
    else
      let! name_type := take_u8 in
      let! name_len := take_u16 in
      let! name_bytes := take_reader name_len in
      if name_type =? 0 then
        match from_utf8 (Reader_remaining name_bytes) with
        | Some s => sm_ret (to_lowercase s)
        | None => sm_throw NON_UTF8
        end
      else sni_loop fuel
  end.

Definition parse_sni_extension (data : bytes) : Result str ServerError :=
  ((let! list_len := take_u16 in
    let! list := take_reader list_len in
    let! name := on_reader list (sni_loop (S (length (rd_buf list)))) in
    sm_ret name.1) (Reader_new data)).1.

(** Lift a result into the reader monad, as [?]. *)
Definition lift_result {W A} (r : Result A ServerError) : SM W ServerError A := fun w => (r, w).

Fixpoint extensions_loop (fuel : nat) (server_name : option str) (alpn : list bytes) :
    RdM (option str * list bytes) :=
  match fuel with
  | O => sm_throw NO_FUEL
  | S fuel =>
    let! empty := sm_gets Reader_is_empty in
    if empty : bool then sm_ret (server_name, alpn)
    else
      let! ext_type := take_u16 in
      let! ext_data_len := take_u16 in
      let! ext_data := take_reader ext_data_len in
      if ext_type =? 0 then
        let! name := lift_result (parse_sni_extension (Reader_remaining ext_data)) in
        extensions_loop fuel (Some name) alpn
      else if ext_type =? 16 then
        let! alpn := lift_result (parse_alpn_extension (Reader_remaining ext_data)) in
        extensions_loop fuel server_name alpn
      else extensions_loop fuel server_name alpn
  end.

Definition NOT_HELLO : ServerError := SE_Protocol (lit "not a ClientHello").
Definition NO_SNI : ServerError := SE_Protocol (lit "no SNI extension in ClientHello").

(** The body of the handshake message. *)
Definition client_hello_body : RdM (str * list bytes) :=
  let! _ := skip 2 in
  let! _ := skip 32 in
  let! sid_len := take_u8 in
  let! _ := skip sid_len in
  let! cs_len := take_u16 in
  let! _ := skip cs_len in
  let! cm_len := take_u8 in
  let! _ := skip cm_len in
  let! ext_len := take_u16 in
  let! exts := take_reader ext_len in
  let! found := on_reader exts (extensions_loop (S (length (rd_buf exts))) None []) in
  match found.1 with
  | (None, _) => sm_throw NO_SNI
  | (Some server_name, alpn) => sm_ret (server_name, alpn)
  end.

Definition parse_client_hello (fragment : bytes) : Result (str * list bytes) ServerError :=
  ((let! msg_type := take_u8 in
    if negb (msg_type =? 1) then sm_throw NOT_HELLO
    else
      let! hs_len := take_u24 in
      let! body := take_reader hs_len in
      let! r := on_reader body client_hello_body in
      sm_ret r.1) (Reader_new fragment)).1.

(** ** Peeking *)

(** What the reads of a TCP stream will yield. *)
Definition TcpStream : Type := list (Result bytes Z).

(** [stream.read(&mut buf)] into [n] bytes; reading nothing is the end of the stream. *)
Definition tcp_read (n : nat) (s : TcpStream) : Result bytes Z * TcpStream :=
  match s with
  | [] => (Ok [], [])
  | Err e :: s => (Err e, s)
  | Ok chunk :: s =>
    if Nat.leb (length chunk) n then (Ok chunk, s)
    else (Ok (take n chunk), Ok (drop n chunk) :: s)
  end.

Definition EOF_HELLO : ServerError := SE_Protocol (lit "eof while reading ClientHello").

(** The loop of [read_at_least]; [fuel] exceeds the bytes still needed. *)
Fixpoint read_at_least_loop (fuel needed : nat) (buf : bytes) (s : TcpStream) :
    Result bytes ServerError * TcpStream :=
  match fuel with
  | O => (Err NO_FUEL, s)
  | S fuel =>
    if Nat.ltb (length buf) needed then
      match tcp_read (needed - length buf) s with
      | (Err e, s) => (Err (SE_Io e), s)
      | (Ok [], s) => (Err EOF_HELLO, s)
      | (Ok got, s) => read_at_least_loop fuel needed (buf ++ got) s
      end
    else (Ok buf, s)
  end.

Definition read_at_least (needed : nat) (buf : bytes) (s : TcpStream) :
    Result bytes ServerError * TcpStream :=
  read_at_least_loop (S (needed - length buf)) needed buf s.

Definition NOT_TLS : ServerError := SE_Protocol (lit "not a TLS handshake record").
Definition BAD_LENGTH : ServerError := SE_Protocol (lit "implausible TLS record length").

Definition peek_sni (stream : TcpStream) : Result SniPeek ServerError * TcpStream :=
  match read_at_least 5 [] stream with
  | (Err e, stream) => (Err e, stream)
  | (Ok buf, stream) =>
    if negb (nth 0 buf 0 =? 22) then (Err NOT_TLS, stream)
    else
      let record_len := from_be_bytes [nth 3 buf 0; nth 4 buf 0] in
      if (record_len =? 0) || (MAX_HELLO <? record_len) then (Err BAD_LENGTH, stream)
      else
        let needed := (5 + Z.to_nat record_len)%nat in
        match read_at_least needed buf stream with
        | (Err e, stream) => (Err e, stream)
        | (Ok buf, stream) =>
          (let? p := parse_client_hello (slice 5 needed buf) in
           Ok {| sp_server_name := p.1; sp_alpn := p.2; sp_buffered := buf |}, stream)
        end
  end.

End Sni.

(** ** Replaying *)

Record ReplayStream := {
  rp_replay : bytes;
  rp_read_pos : nat;
  rp_inner : TcpStream;
}.

Definition ReplayStream_new (replay : bytes) (inner : TcpStream) : ReplayStream :=
  {| rp_replay := replay; rp_read_pos := 0; rp_inner := inner |}.

(** [poll_read] into a buffer with [n] bytes free. *)
Definition replay_read (n : nat) (s : ReplayStream) : Result bytes Z * ReplayStream :=
  if Nat.ltb (rp_read_pos s) (length (rp_replay s)) then
    let remaining := drop (rp_read_pos s) (rp_replay s) in
    let take_ := Nat.min (length remaining) n in
    (Ok (take take_ remaining),
     {| rp_replay := rp_replay s; rp_read_pos := (rp_read_pos s + take_)%nat;
        rp_inner := rp_inner s |})
  else
    let '(r, inner) := tcp_read n (rp_inner s) in
    (r, {| rp_replay := rp_replay s; rp_read_pos := rp_read_pos s; rp_inner := inner |}).

(** ** Losslessness *)

(** The bytes a stream has still to deliver. *)
Definition tcp_bytes (s : TcpStream) : bytes :=
  concat (map (fun c => match c with Ok b => b | Err _ => [] end) s).

Definition replay_bytes (s : ReplayStream) : bytes :=
  drop (rp_read_pos s) (rp_replay s) ++ tcp_bytes (rp_inner s).

Lemma tcp_read_bytes n s r s' :
  tcp_read n s = (r, s') ->
  tcp_bytes s = match r with Ok b => b | Err _ => [] end ++ tcp_bytes s' /\
  match r with Ok b => (length b <= n)%nat | Err _ => True end.
Proof.
  unfold tcp_read. destruct s as [|[c|e] s]; [intros [= <- <-]; simpl; split; [done|lia]| |].
  - destruct (Nat.leb_spec (length c) n); intros [= <- <-]; [done|]. unfold tcp_bytes. simpl.
    rewrite app_assoc, take_drop. split; [done|]. rewrite length_take. lia.
  - by intros [= <- <-].
Qed.

Lemma read_at_least_loop_Ok fuel needed buf s buf' s' :
  read_at_least_loop fuel needed buf s = (Ok buf', s') ->
  exists got, buf' = buf ++ got /\ tcp_bytes s = got ++ tcp_bytes s' /\
    (length buf' = Nat.max needed (length buf))%nat.
Proof.
  revert buf s. induction fuel as [|fuel IH]; intros buf s; simpl; [done|].
  destruct (Nat.ltb_spec (length buf) needed) as [Hl|Hl].
  - destruct (tcp_read (needed - length buf) s) as [[[|b got]|e] s1] eqn:Er; [done| |done].
    intros (got' & -> & Hb & Hn)%IH. apply tcp_read_bytes in Er as [Hb1 Hlen].
    exists ((b :: got) ++ got'). rewrite app_assoc. split; [done|].
    rewrite Hb1, Hb, app_assoc. split; [done|]. rewrite Hn. rewrite length_app. simpl in *. lia.
  - intros [= <- <-]. exists []. rewrite app_nil_r. split_and!; [done|done|lia].
Qed.

(** Errors of the stream and of the parser, as opposed to a loop cut short. *)
Definition genuine {A} (r : Result A ServerError) : Prop :=
  match r with Ok _ | Err (SE_Io _) | Err (SE_Protocol _) => True | Err _ => False end.

Lemma read_at_least_genuine fuel needed buf s :
  (needed - length buf < fuel)%nat -> genuine (read_at_least_loop fuel needed buf s).1.
Proof.
  revert buf s. induction fuel as [|fuel IH]; intros buf s Hf; [lia|]. simpl.
  destruct (Nat.ltb_spec (length buf) needed); [|done].
  destruct (tcp_read _ s) as [[[|b got]|e] s1]; [done| |done].
  apply IH. rewrite length_app. simpl. lia.
Qed.

(** ** Reading what was written *)

(** [m] consumes exactly [xs] and returns [a]. *)
Definition reads {A} (m : RdM A) (xs : bytes) (a : A) : Prop :=
  forall r rest, Reader_remaining r = xs ++ rest ->
    exists r', m r = (Ok a, r') /\ Reader_remaining r' = rest.

Lemma reads_bind {A B} (m : RdM A) (k : A -> RdM B) xs ys a b :
  reads m xs a -> reads (k a) ys b -> reads (sm_bind m k) (xs ++ ys) b.
Proof.
  intros Hm Hk r rest Hr. rewrite <-app_assoc in Hr. destruct (Hm r _ Hr) as (r1 & E1 & H1).
  destruct (Hk r1 _ H1) as (r2 & E2 & H2). exists r2. unfold sm_bind. by rewrite E1.
Qed.

Lemma reads_ret {A} (a : A) : reads (sm_ret a) [] a.
Proof. intros r rest Hr. by exists r. Qed.

Lemma remaining_room r xs rest :
  Reader_remaining r = xs ++ rest -> (length xs <= length (rd_buf r) - rd_pos r)%nat.
Proof.
  unfold Reader_remaining. intros Hr. apply (f_equal length) in Hr.
  rewrite length_drop, length_app in Hr. lia.
Qed.

Lemma ensure_ok r xs rest :
  Reader_remaining r = xs ++ rest -> ensure (length xs) r = (Ok tt, r).
Proof.
  intros Hr%remaining_room. unfold ensure. by rewrite (proj2 (Nat.ltb_ge _ _)).
Qed.

Lemma advance_ok r xs rest :
  Reader_remaining r = xs ++ rest ->
  Reader_remaining {| rd_buf := rd_buf r; rd_pos := (rd_pos r + length xs)%nat |} = rest.
Proof.
  unfold Reader_remaining. intros Hr. simpl. rewrite <-drop_drop, Hr. apply drop_app_length.
Qed.

Lemma at_pos_ok r xs rest i :
  Reader_remaining r = xs ++ rest -> (i < length xs)%nat -> at_pos i r = nth i xs 0.
Proof.
  intros Hr Hi. unfold at_pos, Reader_remaining in *.
  rewrite <-(app_nth1 xs rest 0 Hi), <-Hr, !nth_lookup, lookup_drop. done.
Qed.

Lemma reads_u8 b : reads take_u8 [b] b.
Proof.
  intros r rest Hr. unfold take_u8, sm_bind.
  pose proof (ensure_ok r [b] rest Hr) as He. simpl length in He. rewrite He.
  eexists. split; [unfold sm_gets, advance, sm_modify, sm_ret|exact (advance_ok r [b] rest Hr)].
  by rewrite (at_pos_ok r [b] rest 0 Hr) by (simpl; lia).
Qed.

Lemma reads_u16 z : in_u 16 z -> reads take_u16 (to_be_bytes 2 z) z.
Proof.
  intros Hz r rest Hr. unfold take_u16, sm_bind.
  pose proof (ensure_ok r _ rest Hr) as He. rewrite length_to_be_bytes in He. rewrite He.
  eexists. split; [unfold sm_gets, advance, sm_modify, sm_ret|].
  2: { pose proof (advance_ok r _ rest Hr) as Ha. rewrite length_to_be_bytes in Ha. exact Ha. }
  rewrite !(at_pos_ok r _ rest _ Hr) by (rewrite length_to_be_bytes; lia).
  change [nth 0 (to_be_bytes 2 z) 0; nth 1 (to_be_bytes 2 z) 0] with (to_be_bytes 2 z).
  by rewrite from_to_be_bytes_id.
Qed.

Lemma reads_u24 z : in_u 24 z -> reads take_u24 (to_be_bytes 3 z) z.
Proof.
  intros Hz r rest Hr. unfold take_u24, sm_bind.
  pose proof (ensure_ok r _ rest Hr) as He. rewrite length_to_be_bytes in He. rewrite He.
  eexists. split; [unfold sm_gets, advance, sm_modify, sm_ret|].
  2: { pose proof (advance_ok r _ rest Hr) as Ha. rewrite length_to_be_bytes in Ha. exact Ha. }
  rewrite !(at_pos_ok r _ rest _ Hr) by (rewrite length_to_be_bytes; lia).
  change (nth 0 (to_be_bytes 3 z) 0) with (z / 256 / 256 mod 256).
  change (nth 1 (to_be_bytes 3 z) 0) with (z / 256 mod 256).
  change (nth 2 (to_be_bytes 3 z) 0) with (z mod 256).
  do 2 f_equal. unfold in_u in Hz. change (2 ^ 24) with 16777216 in Hz.
  pose proof (Z.mod_pos_bound z 256 ltac:(lia)). pose proof (Z.mod_pos_bound (z / 256) 256 ltac:(lia)).
  rewrite (Z.lor_comm (Z.shiftl _ 16)), Z.lor_comm.
  rewrite (lor_shiftl_add 16) by (rewrite ?Z.shiftl_mul_pow2 by lia; lia).
  rewrite Z.shiftl_mul_pow2 by lia.
  replace (z / 256 mod 256 * 2 ^ 8 + z / 256 / 256 mod 256 * 2 ^ 16)
    with ((z / 256 mod 256 + z / 256 / 256 mod 256 * 256) * 2 ^ 8) by lia.
  rewrite <-Z.shiftl_mul_pow2, lor_shiftl_add by lia.
  rewrite (Z.mod_small (z / 256 / 256)) by (split; [apply Z.div_pos; [apply Z.div_pos; lia|lia]|];
    apply Z.div_lt_upper_bound; [lia|]; apply Z.div_lt_upper_bound; lia).
  pose proof (Z.div_mod z 256 ltac:(lia)). pose proof (Z.div_mod (z / 256) 256 ltac:(lia)). lia.
Qed.

Lemma reads_skip xs n : n = len xs -> reads (skip n) xs tt.
Proof.
  intros -> r rest Hr. unfold skip, sm_bind, len. rewrite Nat2Z.id, (ensure_ok r xs rest Hr).
  eexists. split; [done|]. exact (advance_ok r xs rest Hr).
Qed.

Lemma reads_take xs n : n = len xs -> reads (take_reader n) xs (Reader_new xs).
Proof.
  intros -> r rest Hr. unfold take_reader, sm_bind, len. rewrite Nat2Z.id, (ensure_ok r xs rest Hr).
  eexists. split; [|exact (advance_ok r xs rest Hr)].
  unfold sm_gets, advance, sm_modify, sm_ret. do 3 f_equal. unfold slice.
  unfold Reader_remaining in Hr. rewrite Hr.
  replace (rd_pos r + length xs - rd_pos r)%nat with (length xs) by lia. apply take_app_length.
Qed.

(** A reader of exactly [xs]. *)
Lemma reads_run {A} (m : RdM A) xs a r :
  reads m xs a -> Reader_remaining r = xs -> exists r', m r = (Ok a, r') /\ Reader_remaining r' = [].
Proof. intros Hm Hr. apply Hm. by rewrite app_nil_r. Qed.

Lemma reads_on_reader {A W} (m : RdM A) xs a (w : W) :
  reads m xs a -> exists r', on_reader (Reader_new xs) m w = (Ok (a, r'), w).
Proof.
  intros Hm. destruct (reads_run m xs a (Reader_new xs) Hm eq_refl) as (r' & E & _).
  exists r'. unfold on_reader. by rewrite E.
Qed.

Lemma is_empty_remaining r : Reader_is_empty r = bool_decide (Reader_remaining r = []).
Proof.
  unfold Reader_is_empty, Reader_remaining. apply eq_true_iff_eq.
  rewrite Nat.leb_le, bool_decide_eq_true. split.
  - apply drop_ge.
  - intros H%(f_equal length). rewrite length_drop in H. simpl in H. lia.
Qed.

(** [m] started on exactly [xs] returns [a]. *)
Definition drains {A} (m : RdM A) (xs : bytes) (a : Result A ServerError) : Prop :=
  forall r, Reader_remaining r = xs -> (m r).1 = a.

Lemma drains_bind {A B} (m : RdM A) (k : A -> RdM B) xs ys a b :
  reads m xs a -> drains (k a) ys b -> drains (sm_bind m k) (xs ++ ys) b.
Proof.
  intros Hm Hk r Hr. destruct (Hm r ys Hr) as (r1 & E1 & H1). unfold sm_bind. rewrite E1.
  by apply Hk.
Qed.

Lemma run_drains {A} (m : RdM A) xs a : drains m xs a -> (m (Reader_new xs)).1 = a.
Proof. intros Hm. by apply Hm. Qed.

(** The test at the head of each loop. *)
Lemma drains_step {A} (m1 m2 : RdM A) xs a :
  drains (if bool_decide (xs = []) then m1 else m2) xs a ->
  drains (let! empty := sm_gets Reader_is_empty in if empty : bool then m1 else m2) xs a.
Proof.
  intros Hm r Hr. unfold sm_bind, sm_gets. rewrite is_empty_remaining, Hr. by apply Hm.
Qed.

Lemma drains_ret {A} (a : A) xs : drains (sm_ret a) xs (Ok a).
Proof. by intros r _. Qed.

Lemma drains_on_reader {A B} (m : RdM A) (k : A -> RdM B) xs ys a b :
  drains m xs (Ok a) -> drains (k a) ys b ->
  drains (let! p := on_reader (Reader_new xs) m in k p.1) ys b.
Proof.
  intros Hm Hk r Hr. unfold sm_bind, on_reader. specialize (Hm (Reader_new xs) eq_refl).
  destruct (m (Reader_new xs)) as [[a'|e] r']; simpl in Hm; [|done]. injection Hm as ->.
  by apply Hk.
Qed.

Lemma drains_lift {A B} (r : Result A ServerError) (k : A -> RdM B) b xs :
  (forall a, drains (k a) xs (b a)) ->
  drains (let! x := lift_result r in k x) xs (let? x := r in b x).
Proof.
  intros Hk rd Hrd. unfold sm_bind, lift_result, result_bind. destruct r as [a|e]; [by apply Hk|done].
Qed.

(** ** Encoders *)

Definition encode_name (n : bytes) : bytes := len n :: n.

Definition encode_alpn (names : list bytes) : bytes :=
  let body := concat (map encode_name names) in to_be_bytes 2 (len body) ++ body.

(** One name of the SNI list, by type and content; [0] is [host_name]. *)
Definition encode_server_name (n : Z * bytes) : bytes := n.1 :: to_be_bytes 2 (len n.2) ++ n.2.

Definition encode_names (names : list (Z * bytes)) : bytes :=
  let body := concat (map encode_server_name names) in to_be_bytes 2 (len body) ++ body.

Definition encode_sni (host : bytes) : bytes := encode_names [(0, host)].

Definition encode_ext (e : Z * bytes) : bytes :=
  to_be_bytes 2 e.1 ++ to_be_bytes 2 (len e.2) ++ e.2.

(** A ClientHello, its extensions by type and content. *)
Record Hello := {
  h_version : bytes;
  h_random : bytes;
  h_session_id : bytes;
  h_ciphers : bytes;
  h_compression : bytes;
  h_exts : list (Z * bytes);
}.

Definition hello_exts (h : Hello) : bytes := concat (map encode_ext (h_exts h)).

Definition hello_body (h : Hello) : bytes :=
  h_version h ++ h_random h ++ encode_name (h_session_id h)
  ++ to_be_bytes 2 (len (h_ciphers h)) ++ h_ciphers h ++ encode_name (h_compression h)
  ++ to_be_bytes 2 (len (hello_exts h)) ++ hello_exts h.

Definition encode_hello (h : Hello) : bytes :=
  1 :: to_be_bytes 3 (len (hello_body h)) ++ hello_body h.

(** A handshake record of any version. *)
Definition handshake_record (version : Z * Z) (fragment : bytes) : bytes :=
  [22; version.1; version.2] ++ to_be_bytes 2 (len fragment) ++ fragment.

(** The first TLS record of a connection that opens with [h]. *)
Definition tls_record (h : Hello) : bytes := handshake_record (3, 1) (encode_hello h).

Definition hello_ok (h : Hello) : Prop :=
  length (h_version h) = 2%nat /\ length (h_random h) = 32%nat /\
  len (encode_hello h) <= MAX_HELLO /\ len (h_session_id h) < 256 /\ len (h_compression h) < 256 /\
  Forall (fun e => in_u 16 e.1) (h_exts h).

Lemma alpn_loop_drains names fuel out :
  (length names < fuel)%nat ->
  drains (alpn_loop fuel out) (concat (map encode_name names)) (Ok (out ++ names)).
Proof.
  revert fuel out. induction names as [|n names IH]; intros fuel out Hf;
    (destruct fuel as [|fuel]; [simpl in Hf; lia|]); simpl; apply drains_step; simpl.
  - rewrite app_nil_r. apply drains_ret.
  - apply (drains_bind take_u8 _ [len n] (n ++ _) (len n)); [apply reads_u8|].
    apply (drains_bind _ _ n _ (Reader_new n)); [by apply reads_take|].
    replace (out ++ n :: names) with ((out ++ [n]) ++ names) by (by rewrite <-app_assoc).
    apply IH. simpl in Hf. lia.
Qed.

Lemma length_concat_ge {A} (f : A -> bytes) l :
  (forall x, (1 <= length (f x))%nat) -> (length l <= length (concat (map f l)))%nat.
Proof.
  intros Hf. induction l as [|x l IH]; simpl; [lia|]. rewrite length_app. specialize (Hf x). lia.
Qed.

Lemma parse_alpn_encoded names :
  len (encode_alpn names) < 65536 + 2 -> parse_alpn_extension (encode_alpn names) = Ok names.
Proof.
  intros Hl. unfold parse_alpn_extension, encode_alpn in *. set (body := concat _) in *.
  rewrite len_app in Hl. unfold len at 1 in Hl. rewrite length_to_be_bytes in Hl.
  assert (0 <= len body) by apply len_nonneg.
  apply run_drains.
  apply (drains_bind take_u16 _ _ _ (len body)); [apply reads_u16; uint; lia|].
  rewrite <-(app_nil_r body) at 2.
  apply (drains_bind _ _ body [] (Reader_new body)); [by apply reads_take|].
  apply (drains_on_reader _ (fun out => sm_ret out) body [] names); [|apply drains_ret].
  apply (alpn_loop_drains names). simpl.
  pose proof (length_concat_ge encode_name names ltac:(intros; simpl; lia)). fold body in H0. lia.
Qed.

Section Extraction.
Context (to_lowercase : str -> str).

(** The host name of a list of server names: the first of type [0], as text. *)
Definition host_name (names : list (Z * bytes)) : option str :=
  n ← head (filter (fun n => n.1 = 0) names); from_utf8 n.2.

Lemma sni_loop_drains names host fuel :
  (length names < fuel)%nat -> host_name names = Some host -> Forall (fun n => len n.2 < 65536) names ->
  drains (sni_loop to_lowercase fuel) (concat (map encode_server_name names)) (Ok (to_lowercase host)).
Proof.
  revert fuel. induction names as [|[t n] names IH]; intros fuel Hf Hh Hl; [done|].
  destruct fuel as [|fuel]; [simpl in Hf; lia|]. apply Forall_cons_1 in Hl as [Hn Hl]. cbn [snd] in Hn.
  assert (0 <= len n) by apply len_nonneg. cbn [sni_loop map concat]. apply drains_step.
  unfold encode_server_name at 1. cbn [fst snd]. rewrite bool_decide_false by done.
  unfold encode_server_name at 1. cbn [fst snd app].
  apply (drains_bind take_u8 _ [t] _ t); [apply reads_u8|]. rewrite <-app_assoc.
  apply (drains_bind take_u16 _ _ _ (len n)); [apply reads_u16; uint; lia|].
  apply (drains_bind _ _ n _ (Reader_new n)); [by apply reads_take|].
  change (Reader_remaining (Reader_new n)) with n. unfold host_name in Hh. rewrite filter_cons in Hh.
  destruct (Z.eqb_spec t 0) as [->|Ht].
  - rewrite decide_True in Hh by done. cbn in Hh. rewrite Hh. apply drains_ret.
  - rewrite decide_False in Hh by done. apply IH; [simpl in Hf; lia|done|done].
Qed.

Lemma encoded_names_bound (names : list (Z * bytes)) :
  Forall (fun n => len n.2 <= len (concat (map encode_server_name names))) names.
Proof.
  induction names as [|n names IH]; [done|]. cbn [map concat].
  assert (0 <= len (concat (map encode_server_name names))) by apply len_nonneg.
  assert (0 <= len (to_be_bytes 2 (len n.2))) by apply len_nonneg.
  assert (0 <= len n.2) by apply len_nonneg. constructor.
  - assert (len (encode_server_name n) = len (to_be_bytes 2 (len n.2)) + len n.2 + 1) as He.
    { unfold encode_server_name. rewrite len_cons, len_app. lia. }
    rewrite len_app. lia.
  - eapply Forall_impl; [|exact IH]. intros m Hm. cbv beta in *. rewrite len_app.
    pose proof (len_nonneg (encode_server_name n)). lia.
Qed.

Lemma parse_sni_encoded names host :
  len (encode_names names) < 65536 -> host_name names = Some host ->
  parse_sni_extension to_lowercase (encode_names names) = Ok (to_lowercase host).
Proof.
  intros Hl Hh. unfold parse_sni_extension, encode_names in *. set (body := concat _) in *.
  rewrite len_app in Hl. pose proof (len_nonneg (to_be_bytes 2 (len body))).
  assert (0 <= len body) by apply len_nonneg. apply run_drains.
  apply (drains_bind take_u16 _ _ _ (len body)); [apply reads_u16; uint; lia|].
  rewrite <-(app_nil_r body) at 2.
  apply (drains_bind _ _ body [] (Reader_new body)); [by apply reads_take|].
  apply (drains_on_reader _ (fun out => sm_ret out) body [] (to_lowercase host)); [|apply drains_ret].
  apply (sni_loop_drains names); [|done|].
  - pose proof (length_concat_ge encode_server_name names ltac:(intros; simpl; lia)). fold body in H1. simpl. lia.
  - eapply Forall_impl; [|exact (encoded_names_bound names)]. intros n Hn. cbn in *. fold body in Hn. lia.
Qed.

(** The walk over a list of extensions. *)
Fixpoint exts_spec (exts : list (Z * bytes)) (name : option str) (alpn : list bytes) :
    Result (option str * list bytes) ServerError :=
  match exts with
  | [] => Ok (name, alpn)
  | (t, d) :: exts =>
    if t =? 0 then let? n := parse_sni_extension to_lowercase d in exts_spec exts (Some n) alpn
    else if t =? 16 then let? a := parse_alpn_extension d in exts_spec exts name a
    else exts_spec exts name alpn
  end.

Lemma extensions_loop_drains exts fuel name alpn :
  (length exts < fuel)%nat -> Forall (fun e => in_u 16 e.1 /\ len e.2 < 65536) exts ->
  drains (extensions_loop to_lowercase fuel name alpn) (concat (map encode_ext exts))
    (exts_spec exts name alpn).
Proof.
  revert fuel name alpn. induction exts as [|[t d] exts IH]; intros fuel name alpn Hf He;
    (destruct fuel as [|fuel]; [simpl in Hf; lia|]); cbn [extensions_loop map concat exts_spec];
    apply drains_step.
  - apply drains_ret.
  - apply Forall_cons_1 in He as [[Ht Hd] He]. cbn [fst snd] in Ht, Hd. simpl length in Hf.
    assert (0 <= len d) by apply len_nonneg. unfold encode_ext at 1. cbn [fst snd].
    rewrite bool_decide_false by (unfold to_be_bytes; simpl; by destruct (t mod 256)).
    unfold encode_ext at 1. cbn [fst snd]. rewrite <-!app_assoc.
    apply (drains_bind take_u16 _ (to_be_bytes 2 t) _ t); [by apply reads_u16|].
    apply (drains_bind take_u16 _ _ _ (len d)); [apply reads_u16; uint; lia|].
    apply (drains_bind _ _ d _ (Reader_new d)); [by apply reads_take|].
    change (Reader_remaining (Reader_new d)) with d.
    destruct (t =? 0); [|destruct (t =? 16)].
    + apply drains_lift. intros n. apply IH; [lia|done].
    + apply drains_lift. intros n. apply IH; [lia|done].
    + apply IH; [lia|done].
Qed.

Lemma ext_sizes h : hello_ok h -> Forall (fun e => in_u 16 e.1 /\ len e.2 < 65536) (h_exts h) /\
  len (hello_exts h) < 65536 /\ len (h_ciphers h) < 65536 /\ len (hello_body h) < 2 ^ 24.
Proof.
  intros (_ & _ & Hl & _ & _ & Ht). unfold encode_hello, MAX_HELLO in Hl.
  rewrite len_cons, len_app in Hl.
  assert (0 <= len (to_be_bytes 3 (len (hello_body h)))) by apply len_nonneg.
  assert (Hb : len (hello_body h) <= 16384) by lia.
  assert (Hx : len (hello_exts h) <= len (hello_body h) /\ len (h_ciphers h) <= len (hello_body h)).
  { unfold hello_body. rewrite !len_app. repeat match goal with |- context [len ?l] =>
      lazymatch goal with H : 0 <= len l |- _ => fail | _ => pose proof (len_nonneg l) end end. lia. }
  split_and!; [|lia|lia|lia].
  assert (Hd : forall e, e ∈ h_exts h -> len e.2 <= len (hello_exts h)).
  { unfold hello_exts. intros e He. apply list_elem_of_split in He as (l1 & l2 & ->).
    rewrite map_app, concat_app. cbn [map concat]. rewrite !len_app.
    assert (len (encode_ext e) = len (to_be_bytes 2 e.1) + (len (to_be_bytes 2 (len e.2)) + len e.2))
      by (unfold encode_ext; by rewrite !len_app).
    pose proof (len_nonneg (to_be_bytes 2 e.1)). pose proof (len_nonneg (to_be_bytes 2 (len e.2))).
    repeat match goal with |- context [len ?l] =>
      lazymatch goal with H : 0 <= len l |- _ => fail | _ => pose proof (len_nonneg l) end end. lia. }
  apply List.Forall_forall. intros e He. rewrite List.Forall_forall in Ht. split; [by apply Ht|].
  apply list_elem_of_In, Hd in He. lia.
Qed.

Lemma body_drains h : hello_ok h ->
  drains (client_hello_body to_lowercase) (hello_body h)
    (match exts_spec (h_exts h) None [] with
     | Ok (Some n, a) => Ok (n, a) | Ok (None, _) => Err NO_SNI | Err e => Err e end).
Proof.
  intros Hok. destruct (ext_sizes h Hok) as (He & Hx & Hc & _).
  destruct Hok as (Hv & Hr & _ & Hs & Hm & _). unfold client_hello_body, hello_body, encode_name.
  assert (0 <= len (hello_exts h)) by apply len_nonneg.
  assert (0 <= len (h_ciphers h)) by apply len_nonneg.
  apply (drains_bind _ _ _ _ tt); [apply reads_skip; unfold len; lia|].
  apply (drains_bind _ _ _ _ tt); [apply reads_skip; unfold len; lia|].
  apply (drains_bind take_u8 _ [len (h_session_id h)] (h_session_id h ++ _) (len (h_session_id h))); [apply reads_u8|].
  apply (drains_bind _ _ _ _ tt); [by apply reads_skip|].
  apply (drains_bind take_u16 _ _ _ (len (h_ciphers h))); [apply reads_u16; uint; lia|].
  apply (drains_bind _ _ _ _ tt); [by apply reads_skip|].
  apply (drains_bind take_u8 _ [len (h_compression h)] (h_compression h ++ _) (len (h_compression h))); [apply reads_u8|].
  apply (drains_bind _ _ _ _ tt); [by apply reads_skip|].
  apply (drains_bind take_u16 _ _ _ (len (hello_exts h))); [apply reads_u16; uint; lia|].
  rewrite <-(app_nil_r (hello_exts h)) at 2.
  apply (drains_bind _ _ (hello_exts h) [] (Reader_new (hello_exts h))); [by apply reads_take|].
  intros r _. unfold sm_bind, on_reader.
  pose proof (extensions_loop_drains (h_exts h) (S (length (hello_exts h))) None []) as Hloop.
  specialize (Hloop ltac:(pose proof (length_concat_ge encode_ext (h_exts h)
    ltac:(intros; unfold encode_ext; rewrite length_app, length_to_be_bytes; lia)); unfold hello_exts; lia)
    He (Reader_new (hello_exts h)) eq_refl). simpl rd_buf.
  destruct (extensions_loop _ _ _ _ _) as [[[n a]|e] r']; simpl in *; rewrite <-Hloop; [|done].
  by destruct n.
Qed.

Lemma parse_encoded_hello h after : hello_ok h ->
  parse_client_hello to_lowercase (encode_hello h ++ after) =
  match exts_spec (h_exts h) None [] with
  | Ok (Some n, a) => Ok (n, a) | Ok (None, _) => Err NO_SNI | Err e => Err e end.
Proof.
  intros Hok. destruct (ext_sizes h Hok) as (_ & _ & _ & Hb).
  assert (0 <= len (hello_body h)) by apply len_nonneg.
  unfold parse_client_hello, encode_hello. apply run_drains. cbn [app]. rewrite <-app_assoc.
  apply (drains_bind take_u8 _ [1] _ 1); [apply reads_u8|]. cbn [Z.eqb Pos.eqb negb].
  apply (drains_bind take_u24 _ _ _ (len (hello_body h))); [by apply reads_u24|].
  apply (drains_bind _ _ (hello_body h) after (Reader_new (hello_body h))); [by apply reads_take|].
  intros r _. unfold sm_bind, on_reader. pose proof (body_drains h Hok (Reader_new (hello_body h)) eq_refl) as Hd.
  destruct (client_hello_body _ _) as [[p|e] r']; simpl in *; by rewrite <-Hd.
Qed.

End Extraction.

(** ** The loops never run out of fuel *)

Definition left_ (r : Reader) : nat := length (Reader_remaining r).

(** [m] fails only genuinely, and otherwise consumes at least [n] bytes. *)
Definition consumes {A} (n : nat) (m : RdM A) : Prop :=
  forall r, match m r with
            | (Ok _, r') => (left_ r' + n <= left_ r)%nat
            | (Err e, _) => genuine (Err e : Result A ServerError)
            end.

Lemma consumes_bind {A B} n1 n2 (m : RdM A) (k : A -> RdM B) :
  consumes n1 m -> (forall a, consumes n2 (k a)) -> consumes (n1 + n2) (sm_bind m k).
Proof.
  intros Hm Hk r. specialize (Hm r). unfold sm_bind. destruct (m r) as [[a|e] r1]; [|done].
  specialize (Hk a r1). destruct (k a r1) as [[b|e] r2]; [lia|done].
Qed.

Lemma consumes_fixed {A} n (f : Reader -> A) :
  consumes n (let! _ := ensure n in let! v := sm_gets f in let! _ := advance n in sm_ret v).
Proof.
  intros r. unfold sm_bind, ensure. destruct (Nat.ltb_spec (length (rd_buf r) - rd_pos r) n); [done|].
  unfold sm_gets, advance, sm_modify, sm_ret, left_, Reader_remaining. simpl.
  rewrite !length_drop. lia.
Qed.

Lemma consumes_u8 : consumes 1 take_u8.
Proof. apply (consumes_fixed 1). Qed.

Lemma consumes_u16 : consumes 2 take_u16.
Proof. apply (consumes_fixed 2). Qed.

Lemma consumes_u24 : consumes 3 take_u24.
Proof. apply (consumes_fixed 3). Qed.

Lemma consumes_take n : consumes 0 (take_reader n).
Proof.
  intros r. pose proof (consumes_fixed (Z.to_nat n) (fun r => Reader_new (slice (rd_pos r)
    (rd_pos r + Z.to_nat n) (rd_buf r))) r) as H. unfold take_reader.
  unfold sm_bind, ensure, sm_gets, advance, sm_modify, sm_ret in *.
  destruct (Nat.ltb (length (rd_buf r) - rd_pos r) (Z.to_nat n)); [done|lia].
Qed.

Lemma consumes_skip n : consumes 0 (skip n).
Proof.
  intros r. unfold skip, sm_bind, ensure, advance, sm_modify.
  destruct (Nat.ltb_spec (length (rd_buf r) - rd_pos r) (Z.to_nat n)); [done|].
  unfold left_, Reader_remaining. simpl. rewrite !length_drop. lia.
Qed.

Lemma consumes_fail {A} n msg : consumes n (sm_throw (SE_Protocol msg) : RdM A).
Proof. by intros r. Qed.

Lemma consumes_lift {A} (r : Result A ServerError) : genuine r -> consumes 0 (lift_result r).
Proof. intros Hr rd. unfold lift_result. destruct r; [lia|done]. Qed.

(** A loop bounded by the bytes left. *)
Definition settles {A} (m : RdM A) (r : Reader) : Prop := genuine (m r).1.

Lemma settles_bind {A B} n (m : RdM A) (k : A -> RdM B) r :
  consumes n m -> (forall a r', (left_ r' + n <= left_ r)%nat -> settles (k a) r') ->
  settles (sm_bind m k) r.
Proof.
  intros Hm Hk. specialize (Hm r). unfold settles, sm_bind in *.
  destruct (m r) as [[a|e] r1]; [by apply Hk|done].
Qed.

Lemma settles_test {A} (m1 m2 : RdM A) r :
  settles m1 r -> settles m2 r ->
  settles (let! empty := sm_gets Reader_is_empty in if empty : bool then m1 else m2) r.
Proof. intros H1 H2. unfold settles, sm_bind, sm_gets in *. by destruct (Reader_is_empty r). Qed.

Lemma settles_on_reader {A B} (m : RdM A) (k : A * Reader -> RdM B) rd r :
  settles m rd -> (forall p, settles (k p) r) -> settles (let! p := on_reader rd m in k p) r.
Proof.
  intros Hm Hk. unfold settles, sm_bind, on_reader in *.
  destruct (m rd) as [[a|e] rd']; [apply Hk|done].
Qed.

Lemma alpn_loop_settles fuel out r : (left_ r < fuel)%nat -> settles (alpn_loop fuel out) r.
Proof.
  revert out r. induction fuel as [|fuel IH]; intros out r Hf; [lia|]. apply settles_test; [done|].
  apply (settles_bind 1); [apply consumes_u8|]. intros n r1 H1.
  apply (settles_bind 0); [apply consumes_take|]. intros nm r2 H2. apply IH. lia.
Qed.

Lemma left_new buf : left_ (Reader_new buf) = length buf.
Proof. done. Qed.

(** A list read into a reader of its own and walked. *)
Lemma listed_settles {A} (loop : nat -> RdM A) data :
  (forall rd, settles (loop (S (length (rd_buf rd)))) rd) ->
  genuine (((let! list_len := take_u16 in
             let! list := take_reader list_len in
             let! out := on_reader list (loop (S (length (rd_buf list)))) in
             sm_ret out.1) (Reader_new data)).1).
Proof.
  intros Hl. apply (settles_bind 2 take_u16); [apply consumes_u16|]. intros n r1 _.
  apply (settles_bind 0); [apply consumes_take|]. intros l r2 _.
  apply settles_on_reader; [apply Hl|done].
Qed.

Lemma left_le rd : (left_ rd <= length (rd_buf rd))%nat.
Proof. unfold left_, Reader_remaining. rewrite length_drop. lia. Qed.

Section Total.
Context (to_lowercase : str -> str).

Lemma sni_loop_settles fuel r : (left_ r < fuel)%nat -> settles (sni_loop to_lowercase fuel) r.
Proof.
  revert r. induction fuel as [|fuel IH]; intros r Hf; [lia|]. apply settles_test; [done|].
  apply (settles_bind 1); [apply consumes_u8|]. intros ty r1 H1.
  apply (settles_bind 2); [apply consumes_u16|]. intros n r2 H2.
  apply (settles_bind 0); [apply consumes_take|]. intros nm r3 H3.
  destruct (ty =? 0); [by destruct (from_utf8 _)|]. apply IH. lia.
Qed.

Lemma extensions_loop_settles fuel name alpn r :
  (left_ r < fuel)%nat -> settles (extensions_loop to_lowercase fuel name alpn) r.
Proof.
  revert name alpn r. induction fuel as [|fuel IH]; intros name alpn r Hf; [lia|].
  apply settles_test; [done|].
  apply (settles_bind 2); [apply consumes_u16|]. intros ty r1 H1.
  apply (settles_bind 2); [apply consumes_u16|]. intros n r2 H2.
  apply (settles_bind 0); [apply consumes_take|]. intros d r3 H3.
  destruct (ty =? 0); [|destruct (ty =? 16)].
  - apply (settles_bind 0); [apply consumes_lift|intros nm r4 H4; apply IH; lia].
    apply listed_settles. intros rd. apply sni_loop_settles. pose proof (left_le rd). lia.
  - apply (settles_bind 0); [apply consumes_lift|intros a r4 H4; apply IH; lia].
    apply (listed_settles (fun f => alpn_loop f [])). intros rd. apply alpn_loop_settles.
    pose proof (left_le rd). lia.
  - apply IH. lia.
Qed.

Lemma parse_client_hello_genuine fragment : genuine (parse_client_hello to_lowercase fragment).
Proof.
  unfold parse_client_hello. apply (settles_bind 1 take_u8); [apply consumes_u8|]. intros ty r1 _.
  destruct (negb (ty =? 1)); [done|].
  apply (settles_bind 3); [apply consumes_u24|]. intros n r2 _.
  apply (settles_bind 0); [apply consumes_take|]. intros body r3 _.
  apply settles_on_reader; [|done]. unfold client_hello_body.
  do 2 (apply (settles_bind 0); [apply consumes_skip|intros ? ? _]).
  apply (settles_bind 1); [apply consumes_u8|intros ? ? _].
  apply (settles_bind 0); [apply consumes_skip|intros ? ? _].
  apply (settles_bind 2); [apply consumes_u16|intros ? ? _].
  apply (settles_bind 0); [apply consumes_skip|intros ? ? _].
  apply (settles_bind 1); [apply consumes_u8|intros ? ? _].
  apply (settles_bind 0); [apply consumes_skip|intros ? ? _].
  apply (settles_bind 2); [apply consumes_u16|intros ? ? _].
  apply (settles_bind 0); [apply consumes_take|intros exts ? _].
  apply settles_on_reader; [|by intros [[[] ?] ?]].
  apply extensions_loop_settles. pose proof (left_le exts). lia.
Qed.

End Total.

(** ** Theorems *)

Section SniTheorems.
Context (to_lowercase : str -> str).

(** A sequence of reads of the given sizes, up to the first error: the bytes delivered. *)
Fixpoint replay_reads (sizes : list nat) (s : ReplayStream) : bytes * ReplayStream :=
  match sizes with
  | [] => ([], s)
  | n :: sizes =>
    match replay_read n s with
    | (Ok got, s) => let '(more, s) := replay_reads sizes s in (got ++ more, s)
    | (Err _, s) => ([], s)
    end
  end.

Lemma replay_read_bytes n s r s' :
  replay_read n s = (r, s') ->
  replay_bytes s = match r with Ok b => b | Err _ => [] end ++ replay_bytes s'.
Proof.
  unfold replay_read, replay_bytes. destruct (Nat.ltb_spec (rp_read_pos s) (length (rp_replay s))).
  - intros [= <- <-]. simpl. rewrite <-drop_drop, app_assoc. f_equal.
    by rewrite take_drop.
  - destruct (tcp_read n (rp_inner s)) as [r1 inner] eqn:E. intros [= <- <-]. simpl.
    apply tcp_read_bytes in E as [-> _]. by rewrite !drop_ge by done.
Qed.

Lemma replay_reads_bytes sizes s :
  replay_bytes s = (replay_reads sizes s).1 ++ replay_bytes (replay_reads sizes s).2.
Proof.
  revert s. induction sizes as [|n sizes IH]; intros s; simpl; [done|].
  destruct (replay_read n s) as [[got|e] s1] eqn:E; apply replay_read_bytes in E; [|done].
  specialize (IH s1). destruct (replay_reads sizes s1) as [more s2]. simpl in *.
  by rewrite E, IH, app_assoc.
Qed.

Lemma peek_sni_Ok s p s' :
  peek_sni to_lowercase s = (Ok p, s') ->
  tcp_bytes s = sp_buffered p ++ tcp_bytes s' /\ 5 <= len (sp_buffered p) <= 5 + MAX_HELLO.
Proof.
  unfold peek_sni, read_at_least. destruct (read_at_least_loop _ 5 [] s) as [[buf|e] s1] eqn:E1; [|done].
  apply read_at_least_loop_Ok in E1 as (got & -> & Hb1 & Hl1). simpl app in *.
  destruct (negb _); [done|]. set (record_len := from_be_bytes _).
  destruct ((record_len =? 0) || (MAX_HELLO <? record_len)) eqn:Ec; [done|].
  apply orb_false_iff in Ec as [Hz%Z.eqb_neq Hm%Z.ltb_ge].
  destruct (read_at_least_loop _ _ got s1) as [[buf|e] s2] eqn:E2; [|done].
  apply read_at_least_loop_Ok in E2 as (got2 & -> & Hb2 & Hl2).
  unfold result_bind. destruct (parse_client_hello _ _) as [q|e]; [|done]. intros [= <- <-]. simpl sp_buffered.
  rewrite Hb1, Hb2, app_assoc. split; [done|]. unfold len. rewrite Hl2, Hl1. simpl length.
  unfold MAX_HELLO in *. lia.
Qed.

(** Peeking loses nothing.  When the server name is extracted, the buffered bytes are
    exactly what was taken from the connection, at most one TLS record of 16 KiB and its
    header; replayed in front of the connection they restore the original byte stream, and
    however a reader sizes its reads it receives that stream in order. *)
Theorem peek_lossless (s s' : TcpStream) (p : SniPeek) (sizes : list nat)
    (Hp : peek_sni to_lowercase s = (Ok p, s')) :
  tcp_bytes s = sp_buffered p ++ tcp_bytes s' /\
  5 <= len (sp_buffered p) <= 5 + MAX_HELLO /\
  let rs := ReplayStream_new (sp_buffered p) s' in
  replay_bytes rs = tcp_bytes s /\
  tcp_bytes s = (replay_reads sizes rs).1 ++ replay_bytes (replay_reads sizes rs).2.
Proof.
  apply peek_sni_Ok in Hp as [Hb Hl]. cbv zeta. rewrite <-replay_reads_bytes.
  split_and!; [done|lia|lia|by rewrite Hb|by rewrite Hb].
Qed.

(** The ClientHello parser is total: on any connection, however malformed the bytes, the
    peek returns a name, a protocol error or the connection's own error; none of its loops
    can run out of the bound the input's length gives it. *)
Theorem peek_total (s : TcpStream) : genuine (peek_sni to_lowercase s).1.
Proof.
  unfold peek_sni, read_at_least.
  pose proof (read_at_least_genuine (S (5 - length (@nil Z))) 5 [] s ltac:(simpl; lia)) as H1.
  destruct (read_at_least_loop _ 5 [] s) as [[buf|e] s1]; [|done].
  destruct (negb _); [done|]. set (record_len := from_be_bytes _).
  destruct ((record_len =? 0) || _); [done|].
  set (needed := (5 + Z.to_nat record_len)%nat).
  pose proof (read_at_least_genuine (S (needed - length buf)) needed buf s1 ltac:(lia)) as H2.
  destruct (read_at_least_loop _ needed buf s1) as [[buf2|e] s2]; [|done].
  pose proof (parse_client_hello_genuine to_lowercase (slice 5 needed buf2)) as H3.
  unfold result_bind. simpl. by destruct (parse_client_hello _ _).
Qed.

(** A connection without errors before its end. *)
Definition clean (s : TcpStream) : Prop := Forall (fun c => exists b, c = Ok b /\ b <> []) s.

Lemma tcp_read_clean n s :
  clean s -> (0 < n)%nat -> tcp_bytes s <> [] ->
  exists b s', tcp_read n s = (Ok b, s') /\ b <> [] /\ clean s'.
Proof.
  intros Hc Hn Hne. destruct s as [|c s]; [done|].
  apply Forall_cons_1 in Hc as [(b & -> & Hb) Hc]. simpl.
  destruct (Nat.leb_spec (length b) n) as [Hl|Hl]; [by exists b, s|].
  eexists _, _. split; [done|]. split.
  - destruct b; [done|]. by destruct n; [lia|].
  - constructor; [|done]. eexists. split; [done|]. intros Hd%(f_equal length).
    rewrite length_drop in Hd. simpl in Hd. lia.
Qed.

Lemma read_at_least_clean fuel needed buf s :
  clean s -> (needed - length buf < fuel)%nat ->
  (needed <= length buf + length (tcp_bytes s))%nat ->
  exists got s', read_at_least_loop fuel needed buf s = (Ok (buf ++ got), s') /\ clean s'.
Proof.
  revert buf s. induction fuel as [|fuel IH]; intros buf s Hc Hf Hn; [lia|]. simpl.
  destruct (Nat.ltb_spec (length buf) needed) as [Hl|Hl].
  - destruct (tcp_read_clean (needed - length buf) s) as (b & s1 & Er & Hb & Hc1); [done|lia| |].
    { intros E. rewrite E in Hn. simpl in Hn. lia. }
    rewrite Er. destruct b as [|x b]; [done|]. apply tcp_read_bytes in Er as [Hbs Hle].
    destruct (IH (buf ++ x :: b) s1 Hc1) as (got & s2 & E2 & Hc2).
    + rewrite length_app. simpl. lia.
    + rewrite Hbs, length_app in Hn. rewrite length_app. lia.
    + exists ((x :: b) ++ got), s2. rewrite E2. by rewrite <-app_assoc.
  - exists [], s. by rewrite app_nil_r.
Qed.

(** An extension of a ClientHello: a list of server names (RFC 6066), a list of protocols
    (RFC 7301), or any other. *)
Inductive Extension :=
| ExtServerNames (names : list (Z * bytes))
| ExtProtocols (names : list bytes)
| ExtOther (ty : Z) (data : bytes).

Definition wire_extension (e : Extension) : Z * bytes :=
  match e with
  | ExtServerNames names => (0, encode_names names)
  | ExtProtocols names => (16, encode_alpn names)
  | ExtOther ty data => (ty, data)
  end.

Definition host_of (e : Extension) : option str :=
  match e with ExtServerNames names => host_name names | _ => None end.

Definition protocols_of (e : Extension) : option (list bytes) :=
  match e with ExtProtocols names => Some names | _ => None end.

(** Fields within their widths, a readable host in every list of server names. *)
Definition extension_ok (e : Extension) : Prop :=
  match e with
  | ExtServerNames names => Forall (fun n => in_u 8 n.1) names /\ is_Some (host_name names)
  | ExtProtocols names => Forall (fun n => in_u 8 (len n)) names
  | ExtOther ty _ => ty <> 0 /\ ty <> 16
  end.

(** What the walk makes of the extensions: the server name and the protocols they carry. *)
Lemma exts_spec_wire exts name alpn :
  Forall extension_ok exts -> Forall (fun e => len (wire_extension e).2 < 65536) exts ->
  exts_spec to_lowercase (map wire_extension exts) name alpn =
  Ok (match list.last (omap host_of exts) with Some h => Some (to_lowercase h) | None => name end,
      default alpn (list.last (omap protocols_of exts))).
Proof.
  revert name alpn. induction exts as [|e exts IH]; intros name alpn Hok Hl; [done|].
  apply Forall_cons_1 in Hok as [He Hok]. apply Forall_cons_1 in Hl as [Hle Hl].
  destruct e as [names|names|ty data]; cbn [map wire_extension exts_spec omap list_omap host_of protocols_of].
  - destruct He as [_ [host Hh]]. cbn [wire_extension snd] in Hle. cbn [Z.eqb].
    rewrite (parse_sni_encoded to_lowercase names host Hle Hh). cbn [result_bind]. rewrite IH by done.
    rewrite Hh, list.last_cons. by destruct (list.last _).
  - cbn [wire_extension snd] in Hle. cbn [Z.eqb Pos.eqb].
    rewrite parse_alpn_encoded by lia. cbn [result_bind]. rewrite IH, list.last_cons by done.
    by destruct (list.last (omap protocols_of exts)).
  - destruct He as [H0 H16].
    rewrite (proj2 (Z.eqb_neq _ _) H0), (proj2 (Z.eqb_neq _ _) H16). by apply IH.
Qed.

(** The peek of a whole record: the reads deliver exactly it, and the parser decides. *)
Lemma peek_record version fragment (s : TcpStream) (rest : bytes) :
  1 <= len fragment <= MAX_HELLO -> clean s -> tcp_bytes s = handshake_record version fragment ++ rest ->
  exists s', tcp_bytes s' = rest /\
    peek_sni to_lowercase s =
      (let? p := parse_client_hello to_lowercase fragment in
       Ok {| sp_server_name := p.1; sp_alpn := p.2; sp_buffered := handshake_record version fragment |}, s').
Proof.
  intros Hn Hs Hb.
  set (n := len fragment) in *. set (hdr := [22; version.1; version.2] ++ to_be_bytes 2 n).
  assert (Hhdr : length hdr = 5%nat) by (unfold hdr; rewrite length_app, length_to_be_bytes; done).
  assert (Hlen : length (tcp_bytes s) = (5 + Z.to_nat n + length rest)%nat).
  { rewrite Hb. unfold handshake_record. fold n. rewrite app_assoc. fold hdr.
    rewrite !length_app, Hhdr. unfold n, len. lia. }
  unfold peek_sni, read_at_least.
  destruct (read_at_least_clean (S (5 - length (@nil Z))) 5 [] s Hs) as (g1 & s1 & E1 & Hc1);
    [simpl; lia|simpl; lia|].
  rewrite E1. apply read_at_least_loop_Ok in E1 as (g & Hg & Hb1 & Hl1). simpl in Hg, Hl1. subst g.
  rewrite Hb in Hb1. unfold handshake_record in Hb1. fold n in Hb1. rewrite app_assoc in Hb1. fold hdr in Hb1.
  rewrite <-app_assoc in Hb1. apply app_inj_1 in Hb1 as [<- Hb1]; [|lia]. simpl app.
  change (nth 0 hdr 0 =? 22) with true. cbn [negb].
  change [nth 3 hdr 0; nth 4 hdr 0] with (to_be_bytes 2 n).
  assert (Hrec : from_be_bytes (to_be_bytes 2 n) = n).
  { apply from_to_be_bytes_id. unfold MAX_HELLO in Hn. lia. }
  rewrite Hrec. rewrite (proj2 (Z.eqb_neq n 0)), (proj2 (Z.ltb_ge MAX_HELLO n)) by lia. cbn [orb].
  set (needed := (5 + Z.to_nat n)%nat).
  destruct (read_at_least_clean (S (needed - length hdr)) needed hdr s1 Hc1) as (g2 & s2 & E2 & Hc2);
    [lia|rewrite <-Hb1, length_app; unfold needed, n, len; lia|].
  rewrite E2. apply read_at_least_loop_Ok in E2 as (g & Hg & Hb2 & Hl2).
  apply app_inv_head in Hg. subst g. rewrite <-Hb1 in Hb2.
  apply app_inj_1 in Hb2 as [<- Hrest].
  2: { rewrite length_app in Hl2. unfold needed, n, len in *. lia. }
  assert (Hsl : slice 5 needed (hdr ++ fragment) = fragment).
  { unfold slice. rewrite drop_app_length' by done. apply take_ge. unfold needed, n, len. lia. }
  exists s2. split; [done|]. rewrite Hsl. unfold handshake_record. fold n. by rewrite app_assoc.
Qed.

(** C35: The server name and protocols of a TLS client are extracted as it sent them.  Take
    any ClientHello that is whole in the first record, with its extensions in any order, of
    any kind and any number, an SNI list with names of any types, and a record of any
    version that may hold more behind the hello.  In any chunking of the connection and
    whatever follows, the peek returns the first host name of the SNI extension in lower
    case, the protocols of the ALPN extension in order (none without it), and exactly the
    bytes of the record; without an SNI extension it reports that.  (Where a client breaks
    the rule that no extension is sent twice, the last one counts.) *)
Theorem sni_extracted (h : Hello) (exts : list Extension) (version : Z * Z) (after : bytes)
    (s : TcpStream) (rest : bytes)
    (Hok : hello_ok h) (Hx : h_exts h = map wire_extension exts) (Hexts : Forall extension_ok exts)
    (Hfit : len (encode_hello h ++ after) <= MAX_HELLO)
    (Hs : clean s) (Hb : tcp_bytes s = handshake_record version (encode_hello h ++ after) ++ rest) :
  exists s', tcp_bytes s' = rest /\
  peek_sni to_lowercase s =
    (match list.last (omap host_of exts) with
     | Some host =>
       Ok {| sp_server_name := to_lowercase host; sp_alpn := default [] (list.last (omap protocols_of exts));
             sp_buffered := handshake_record version (encode_hello h ++ after) |}
     | None => Err NO_SNI
     end, s').
Proof.
  destruct (peek_record version (encode_hello h ++ after) s rest) as (s' & Hr & Hp); [|done|done|].
  { split; [|done]. unfold encode_hello. cbn [app]. rewrite len_cons.
    match goal with |- context [len ?l] => pose proof (len_nonneg l) end. lia. }
  exists s'. split; [done|]. rewrite Hp, parse_encoded_hello by done.
  destruct (ext_sizes h Hok) as (Hsz & _). rewrite Hx in Hsz |- *.
  rewrite exts_spec_wire; [|done|].
  - by destruct (list.last (omap host_of exts)).
  - apply Forall_map in Hsz. eapply Forall_impl; [|exact Hsz]. by intros e [_ ?].
Qed.

(** A ClientHello that goes on in a second record is refused. *)
Lemma fragmented_hello_refused (h : Hello) (n : nat) :
  hello_ok h -> (4 <= n < length (encode_hello h))%nat ->
  parse_client_hello to_lowercase (take n (encode_hello h)) = Err TRUNCATED.
Proof.
  intros Hok Hn. destruct (ext_sizes h Hok) as (_ & _ & _ & Hb). pose proof (len_nonneg (hello_body h)) as H0.
  set (hd4 := [1] ++ to_be_bytes 3 (len (hello_body h))).
  assert (H4 : length hd4 = 4%nat) by (unfold hd4; by rewrite length_app, length_to_be_bytes).
  assert (He : encode_hello h = hd4 ++ hello_body h) by done.
  assert (length (encode_hello h) = 4 + length (hello_body h))%nat by (by rewrite He, length_app, H4).
  rewrite He, take_app_ge by lia. rewrite H4. unfold hd4, parse_client_hello. apply run_drains. cbn [app].
  apply (drains_bind take_u8 _ [1] _ 1); [apply reads_u8|]. cbn [Z.eqb Pos.eqb negb].
  apply (drains_bind take_u24 _ _ _ (len (hello_body h))); [by apply reads_u24|].
  intros r Hr. unfold sm_bind at 1, take_reader, sm_bind at 1, ensure.
  assert (length (rd_buf r) - rd_pos r = n - 4)%nat as ->.
  { unfold Reader_remaining in Hr. apply (f_equal length) in Hr. rewrite length_drop, length_take in Hr. lia. }
  rewrite (proj2 (Nat.ltb_lt _ _)); [done|]. unfold len. lia.
Qed.

End SniTheorems.

(** ** Witnesses *)

Definition sample_host : str := lit "Alice.krot.test".

(** Protocols before the names, a name of another type before the host. *)
Definition sample_exts : list Extension :=
  [ExtOther 43 [2; 3; 4]; ExtProtocols [ALPN_TCP; lit "h2"];
   ExtServerNames [(7, [1]); (0, str_bytes sample_host)]].

Definition sample_hello : Hello :=
  {| h_version := [3; 3]; h_random := repeat 9 32; h_session_id := []; h_ciphers := [19; 1];
     h_compression := [0]; h_exts := map wire_extension sample_exts |}.

(** The record arrives in two pieces, the second with the first application byte. *)
Definition sample_tcp : TcpStream :=
  [Ok (take 30 (tls_record sample_hello)); Ok (drop 30 (tls_record sample_hello) ++ [77])].

Lemma sample_hello_ok : hello_ok sample_hello.
Proof.
  split_and!; [reflexivity|reflexivity|vm_compute; discriminate|reflexivity|reflexivity|].
  repeat constructor; simpl; lia.
Qed.

Lemma sample_clean : clean sample_tcp.
Proof. repeat constructor; eexists; (split; [reflexivity|vm_compute; discriminate]). Qed.

Lemma sni_extracted_witness : exists s', tcp_bytes s' = [77] /\
  peek_sni to_ascii_lowercase sample_tcp =
    (Ok {| sp_server_name := lit "alice.krot.test"; sp_alpn := [ALPN_TCP; lit "h2"];
           sp_buffered := tls_record sample_hello |}, s').
Proof.
  apply (sni_extracted to_ascii_lowercase sample_hello sample_exts (3, 1) [] sample_tcp [77]).
  - exact sample_hello_ok.
  - reflexivity.
  - apply Forall_cons_2; [split; lia|].
    apply Forall_cons_2; [apply (bool_decide_unpack _); vm_compute; exact I|].
    apply Forall_cons_2; [|constructor].
    split; [apply (bool_decide_unpack _); vm_compute; exact I|vm_compute; by eexists].
  - vm_compute. discriminate.
  - exact sample_clean.
  - vm_compute. reflexivity.
Defined.

Lemma peek_lossless_witness :
  match peek_sni to_ascii_lowercase sample_tcp with
  | (Ok p, s') => tcp_bytes sample_tcp = sp_buffered p ++ tcp_bytes s'
  | (Err _, _) => False
  end.
Proof.
  destruct (peek_sni to_ascii_lowercase sample_tcp) as [[p|e] s'] eqn:E.
  - exact (proj1 (peek_lossless to_ascii_lowercase sample_tcp s' p [] E)).
  - vm_compute in E. discriminate.
Defined.
