(* ===== verification/Router.v ===== *)
(** * Router: from a public connection to the tunnel's owner

    [krot-server/src/domain/http.rs], [domain/https.rs], the challenge store of
    [domain/acme.rs] and [tunnel.rs]: a public HTTP, TLS or TCP connection is matched to a
    tunnel, a stream to the owning client is opened and prefixed with the data header (and
    the inspection prelude), and the bytes already read are replayed before the shovel
    ([Rate.run_metered]) takes over.

    [httparse] is a parameter; the outcomes of the fallible transport calls are a list
    consumed in order ([None] is success). *)

From S2P Require Import Prelude RustStr Wire Framing Types Registry Keys Peers Config Handshake Session Sni.

Local Open Scope Z_scope.

(** ** What a handler does *)

(** How the handling of a connection ends: a response was written to the public socket; it
    was dropped without a word; it was handed to the mux with its bytes replayed; or a
    stream to the owner was opened, [sent] was written to it and the shovel runs. *)
Inductive RouteEnd :=
| Answered (response : bytes)
| Dropped
| ControlPlane (stream : ReplayStream)
| Relayed (connection : Connection) (rate : RateRef) (id : TunnelId) (sent : bytes)
          (stream : TcpStream).

Inductive RouteError :=
| RE_Io (e : Z)
| RE_Server (e : ServerError)
| RE_Headers
| RE_Eof
| RE_Frame (e : FramingError Z).

(** Outcomes of transport calls still to come. *)
Definition Calls : Type := list (option Z).
Abbreviation RtM := (SM Calls RouteError).

(** One fallible call. *)
Definition call : RtM unit := fun c =>
  match c with
  | Some e :: c => (Err (RE_Io e), c)
  | None :: c => (Ok tt, c)
  | [] => (Ok tt, [])
  end.

Definition fail_with {A B} (f : A -> RouteError) (r : Result B A) : RtM B := fun c => (map_err f r, c).

Section Router.
Context `{Postcard InspectionPrelude Z}.

(** The start of a data stream: open it, write the header, and the prelude if the tunnel is
    inspected.  The result is what was written. *)
Definition open_stream (kind : StreamKind) (resolved : ResolvedTunnel)
    (prelude : InspectionPrelude) : RtM bytes :=
  let! _ := call in
  let header := {| dh_kind := kind; dh_tunnel_id := rt_id resolved |} in
  let! _ := call in
  let! framed :=
    if rt_inspect resolved then
      let! _ := fail_with RE_Frame (encode_frame prelude []).1 in
      let! _ := call in
      sm_ret (encode_frame prelude []).2
    else sm_ret [] in
  sm_ret (DataHeader_to_bytes header ++ framed).

(** [send.write_all(&buffered)] after the start of the stream: replay what was read. *)
Definition replay_into (started buffered : bytes) : RtM bytes :=
  let! _ := call in
  sm_ret (started ++ buffered).

(** ** Plain HTTP *)

Definition MAX_HEADER_BYTES : Z := 8 * 1024.
Definition ACME_PATH_PREFIX : str := lit "/.well-known/acme-challenge/".

(** [ChallengeStore]. *)
Definition ChallengeStore : Type := gmap str str.
Definition lookup_challenge (store : ChallengeStore) (token : str) : option str := store !! token.

(** What [httparse] makes of the bytes read so far: a complete head with its headers and
    path, more bytes needed, or an error. *)
Inductive HttpParse :=
| HComplete (headers : list (str * bytes)) (path : option str)
| HPartial
| HInvalid.

Section Http.
Context (http_parse : bytes -> HttpParse).

Definition request_host (headers : list (str * bytes)) : str :=
  default [] (h ← find_first (fun h => eq_ignore_ascii_case h.1 (lit "host")) headers;
              from_utf8 h.2).

(** The read loop; a turn reads at least a byte, so [MAX_HEADER_BYTES] bounds the turns. *)
Fixpoint read_request_loop (fuel : nat) (buf : bytes) (tcp : TcpStream) :
    option (Result (bytes * str * str) RouteError * TcpStream) :=
  match fuel with
  | O => None
  | S fuel =>
    match tcp_read 1024 tcp with
    | (Err e, tcp) => Some (Err (RE_Io e), tcp)
    | (Ok [], tcp) => Some (Err RE_Eof, tcp)
    | (Ok got, tcp) =>
      let buf := buf ++ got in
      match http_parse buf with
      | HComplete headers path =>
        Some (Ok (buf, request_host headers, default (lit "/") path), tcp)
      | HPartial =>
        if MAX_HEADER_BYTES <? len buf then Some (Err RE_Headers, tcp)
        else read_request_loop fuel buf tcp
      | HInvalid => Some (Err RE_Headers, tcp)
      end
    end
  end.

Definition read_request (tcp : TcpStream) : option (Result (bytes * str * str) RouteError * TcpStream) :=
  read_request_loop (Z.to_nat (MAX_HEADER_BYTES + 2)) [] tcp.

Definition extract_host_label (host_header apex : str) : option str :=
  let host := to_ascii_lowercase (trim (hd [] (split_char 58 host_header))) in
  let apex := to_ascii_lowercase apex in
  if bool_decide (host = apex) then None
  else strip_suffix (lit "." ++ apex) host.

Definition crlf : str := [13; 10].

Definition write_body (status content_type : str) (body : bytes) : bytes :=
  str_bytes (lit "HTTP/1.1 " ++ status ++ crlf ++ lit "Content-Type: " ++ content_type ++ crlf
    ++ lit "Content-Length: " ++ fmt_dec (len body) ++ crlf ++ lit "Connection: close" ++ crlf
    ++ crlf) ++ body.

Definition plain_text : str := lit "text/plain".
Definition NOT_FOUND : str := lit "404 Not Found".

Definition answer (status : str) (body : bytes) : RtM RouteEnd :=
  let! _ := call in
  let! _ := call in
  sm_ret (Answered (write_body status plain_text body)).

(** [now] is the wall clock, [peer] the text of the peer's address. *)
Definition http_handle (now : Z) (peer apex : str) (reg : TunnelRegistry)
    (challenges : ChallengeStore) (tcp : TcpStream) : option (Calls -> Result RouteEnd RouteError * Calls) :=
  '(res, tcp) ← read_request tcp;
  Some (
    let! req := fail_with id res in
    let '(buffered, host, path) := req in
    match strip_prefix ACME_PATH_PREFIX path with
    | Some token =>
      match lookup_challenge challenges token with
      | Some response => answer (lit "200 OK") (str_bytes response)
      | None => answer NOT_FOUND (lit "no such challenge")
      end
    | None =>
      match extract_host_label host apex with
      | None => answer NOT_FOUND (lit "unknown host")
      | Some label =>
        match resolve_label label reg with
        | None => answer NOT_FOUND (lit "unknown tunnel")
        | Some resolved =>
          let prelude :=
            {| ip_accept_unix_secs := now; ip_peer := peer;
               ip_http := Some {| hm_host := host; hm_sni := None |} |} in
          let! started := open_stream DataHttp resolved prelude in
          let! sent := replay_into started buffered in
          sm_ret (Relayed (rt_connection resolved) (rt_rate resolved) (rt_id resolved) sent tcp)
        end
      end
    end).

End Http.

(** ** TLS *)

Section Https.
Context (to_lowercase : str -> str).

Definition extract_sni_label (server_name apex : str) : option str :=
  let name := to_ascii_lowercase server_name in
  let apex := to_ascii_lowercase apex in
  if bool_decide (name = apex) then None
  else strip_suffix (lit "." ++ apex) name.

Definition https_handle (now : Z) (peer apex : str) (reg : TunnelRegistry) (tcp : TcpStream) :
    RtM RouteEnd :=
  let '(res, tcp) := peek_sni to_lowercase tcp in
  let! peeked := fail_with RE_Server res in
  if existsb (fun a => bool_decide (a = ALPN_TCP)) (sp_alpn peeked)
  then sm_ret (ControlPlane (ReplayStream_new (sp_buffered peeked) tcp))
  else match extract_sni_label (sp_server_name peeked) apex with
  | None => sm_ret Dropped
  | Some label =>
    match resolve_label label reg with
    | None => sm_ret Dropped
    | Some resolved =>
      let prelude :=
        {| ip_accept_unix_secs := now; ip_peer := peer;
           ip_http := Some {| hm_host := sp_server_name peeked;
                              hm_sni := Some (sp_server_name peeked) |} |} in
      let! started := open_stream DataHttp resolved prelude in
      let! sent := replay_into started (sp_buffered peeked) in
      sm_ret (Relayed (rt_connection resolved) (rt_rate resolved) (rt_id resolved) sent tcp)
    end
  end.

End Https.

(** ** TCP tunnels *)

(** [handle_incoming] of [tunnel.rs]: the tunnel is known, nothing has been read. *)
Definition handle_incoming (now : Z) (peer : str) (connection : Connection) (tunnel_id : TunnelId)
    (rate : RateRef) (inspect : bool) (tcp : TcpStream) : RtM RouteEnd :=
  let resolved := {| rt_id := tunnel_id; rt_connection := connection; rt_rate := rate;
                     rt_inspect := inspect |} in
  let prelude := {| ip_accept_unix_secs := now; ip_peer := peer; ip_http := None |} in
  let! sent := open_stream DataTcp resolved prelude in
  sm_ret (Relayed connection rate tunnel_id sent tcp).

End Router.

(** ** Theorems *)

(** [sent] is the start of a data stream of the tunnel, as the client will read it: the
    header of its kind and id, the prelude exactly when the tunnel is inspected, then [rest]. *)
Definition stream_start `{Postcard InspectionPrelude Z} (kind : StreamKind) (id : TunnelId)
    (inspect : bool) (prelude : InspectionPrelude) (rest sent : bytes) : Prop :=
  exists framed, sent = DataHeader_to_bytes {| dh_kind := kind; dh_tunnel_id := id |} ++ framed ++ rest /\
    if inspect then exists n, encode_frame prelude [] = (Ok n, framed) else framed = [].

Section RouterTheorems.
Context `{Postcard InspectionPrelude Z}.

Lemma open_stream_Ok kind resolved prelude c started c' :
  open_stream kind resolved prelude c = (Ok started, c') ->
  forall rest, stream_start kind (rt_id resolved) (rt_inspect resolved) prelude rest (started ++ rest).
Proof.
  unfold open_stream. intros (? & c1 & _ & Hk)%sm_bind_Ok rest.
  apply sm_bind_Ok in Hk as (? & c2 & _ & Hk). apply sm_bind_Ok in Hk as (framed & c3 & Hf & Hs).
  exists framed. rewrite app_assoc. split; [f_equal; unfold sm_ret in Hs; congruence|].
  destruct (rt_inspect resolved); [|by injection Hf as <- _].
  apply sm_bind_Ok in Hf as (? & c4 & He & Hf). apply sm_bind_Ok in Hf as (? & c5 & _ & [= <- _]).
  unfold fail_with in He. destruct (encode_frame prelude []) as [[n|e] out]; [by exists n|done].
Qed.

(** What the TLS router did, by how it ended. *)
Definition https_outcome (apex : str) (reg : TunnelRegistry) (tcp : TcpStream) (p : SniPeek) (e : RouteEnd) : Prop :=
  match e with
  | Answered _ => False
  | Dropped => forall label, extract_sni_label (sp_server_name p) apex = Some label ->
      resolve_label label reg = None
  | ControlPlane rs => ALPN_TCP ∈ sp_alpn p /\ replay_bytes rs = tcp_bytes tcp
  | Relayed conn rate id sent rest => exists label inspect prelude,
      extract_sni_label (sp_server_name p) apex = Some label /\
      resolve_label label reg = Some {| rt_id := id; rt_connection := conn; rt_rate := rate;
                                        rt_inspect := inspect |} /\
      stream_start DataHttp id inspect prelude (sp_buffered p) sent /\
      sp_buffered p ++ tcp_bytes rest = tcp_bytes tcp
  end.

Lemma https_handle_Ok to_lowercase now peer apex reg tcp c e c' :
  https_handle to_lowercase now peer apex reg tcp c = (Ok e, c') ->
  exists p tcp', peek_sni to_lowercase tcp = (Ok p, tcp') /\ https_outcome apex reg tcp p e.
Proof.
  intros Hh. unfold https_handle in Hh. destruct (peek_sni to_lowercase tcp) as [res tcp1] eqn:Ep.
  apply sm_bind_Ok in Hh as (p & c1 & Hr & Hk). unfold fail_with in Hr.
  destruct res as [p'|e']; [|done]. injection Hr as -> _. exists p, tcp1. split; [done|].
  unfold https_outcome. apply peek_sni_Ok in Ep as [Hb _].
  destruct (existsb _ (sp_alpn p)) eqn:Ea.
  { injection Hk as <- _. apply existsb_exists in Ea as (a & Hin & ->%bool_decide_eq_true).
    split; [by apply list_elem_of_In|]. rewrite Hb. done. }
  destruct (extract_sni_label (sp_server_name p) apex) as [label|]; [|by injection Hk as <- _].
  destruct (resolve_label label reg) as [resolved|] eqn:Er.
  2: { injection Hk as <- _. by intros ? [= <-]. }
  apply sm_bind_Ok in Hk as (started & c2 & Ho & Hk).
  apply sm_bind_Ok in Hk as (sent & c3 & Hw & [= <- _]).
  unfold replay_into in Hw. apply sm_bind_Ok in Hw as (? & c4 & _ & [= <- _]).
  exists label, (rt_inspect resolved). eexists. split_and!; [done|by destruct resolved| |done].
  by eapply open_stream_Ok.
Qed.

(** C12: A TLS connection reaches the tunnel it names and no other.  If the router relays a
    connection, the name in its ClientHello is a label under the apex and the registry
    resolves that label to exactly this tunnel and connection; the owner receives the data
    header of that tunnel, the prelude exactly when the tunnel is inspected, and then the
    visitor's bytes from the first one on.  A connection that is handed to the control
    plane offered the control protocol and is replayed whole. *)
Theorem https_routes (to_lowercase : str -> str) (now : Z) (peer apex : str) (reg : TunnelRegistry)
    (tcp : TcpStream) (c c' : Calls) (e : RouteEnd)
    (Hh : https_handle to_lowercase now peer apex reg tcp c = (Ok e, c')) :
  exists p tcp', peek_sni to_lowercase tcp = (Ok p, tcp') /\
  match e with
  | Answered _ => False
  | Dropped => forall label, extract_sni_label (sp_server_name p) apex = Some label ->
      resolve_label label reg = None
  | ControlPlane rs => ALPN_TCP ∈ sp_alpn p /\ replay_bytes rs = tcp_bytes tcp
  | Relayed conn rate id sent rest => exists label inspect prelude,
      extract_sni_label (sp_server_name p) apex = Some label /\
      resolve_label label reg = Some {| rt_id := id; rt_connection := conn; rt_rate := rate;
                                        rt_inspect := inspect |} /\
      stream_start DataHttp id inspect prelude (sp_buffered p) sent /\
      sp_buffered p ++ tcp_bytes rest = tcp_bytes tcp
  end.
Proof. exact (https_handle_Ok to_lowercase now peer apex reg tcp c e c' Hh). Qed.

Lemma read_request_loop_Ok http_parse fuel buf tcp buffered host path tcp' :
  read_request_loop http_parse fuel buf tcp = Some (Ok (buffered, host, path), tcp') ->
  buf ++ tcp_bytes tcp = buffered ++ tcp_bytes tcp'.
Proof.
  revert buf tcp. induction fuel as [|fuel IH]; intros buf tcp; [done|]. simpl.
  destruct (tcp_read 1024 tcp) as [[[|b got]|e] tcp1] eqn:Et; [done| |done].
  apply tcp_read_bytes in Et as [-> _]. rewrite app_assoc.
  destruct (http_parse _); [by intros [= <- _ _ <-]| |done].
  destruct (MAX_HEADER_BYTES <? _); [done|]. apply IH.
Qed.

Lemma read_request_loop_total http_parse fuel buf tcp :
  (MAX_HEADER_BYTES + 2 - len buf <= Z.of_nat fuel) -> 0 <= MAX_HEADER_BYTES + 1 - len buf ->
  is_Some (read_request_loop http_parse fuel buf tcp).
Proof.
  revert buf tcp. induction fuel as [|fuel IH]; intros buf tcp Hf Hb; [lia|]. simpl.
  destruct (tcp_read 1024 tcp) as [[[|b got]|e] tcp1]; [done| |done].
  destruct (http_parse _); [done| |done].
  destruct (Z.ltb_spec MAX_HEADER_BYTES (len (buf ++ b :: got))) as [|Hl]; [done|].
  rewrite len_app, len_cons in Hl. pose proof (len_nonneg got).
  apply IH; rewrite len_app, len_cons; lia.
Qed.

(** Reading a request head always ends: whatever the peer sends, in whatever pieces, the
    HTTP router answers, relays or reports an error after at most [MAX_HEADER_BYTES] reads. *)
Theorem http_handle_total (http_parse : bytes -> HttpParse) (now : Z) (peer apex : str)
    (reg : TunnelRegistry) (challenges : ChallengeStore) (tcp : TcpStream) :
  is_Some (http_handle http_parse now peer apex reg challenges tcp).
Proof.
  unfold http_handle, read_request.
  destruct (read_request_loop_total http_parse (Z.to_nat (MAX_HEADER_BYTES + 2)) [] tcp)
    as [[r t] ->]; [done|done|]. by eexists.
Qed.

(** What the HTTP router did with a request, by how it ended. *)
Definition http_outcome (apex : str) (reg : TunnelRegistry) (challenges : ChallengeStore)
    (buffered : bytes) (host path : str) (tcp' : TcpStream) (e : RouteEnd) : Prop :=
  match e with
  | ControlPlane _ | Dropped => False
  | Answered r =>
      (exists token, strip_prefix ACME_PATH_PREFIX path = Some token /\
         r = match challenges !! token with
             | Some v => write_body (lit "200 OK") plain_text (str_bytes v)
             | None => write_body NOT_FOUND plain_text (lit "no such challenge")
             end) \/
      (strip_prefix ACME_PATH_PREFIX path = None /\
       forall label, extract_host_label host apex = Some label -> resolve_label label reg = None)
  | Relayed conn rate id sent rest => strip_prefix ACME_PATH_PREFIX path = None /\
      exists label inspect prelude, extract_host_label host apex = Some label /\
      resolve_label label reg = Some {| rt_id := id; rt_connection := conn; rt_rate := rate;
                                        rt_inspect := inspect |} /\
      stream_start DataHttp id inspect prelude buffered sent /\ rest = tcp'
  end.

Lemma http_handle_Ok http_parse now peer apex reg challenges tcp k c e c' :
  http_handle http_parse now peer apex reg challenges tcp = Some k -> k c = (Ok e, c') ->
  exists buffered host path tcp',
    read_request http_parse tcp = Some (Ok (buffered, host, path), tcp') /\
    buffered ++ tcp_bytes tcp' = tcp_bytes tcp /\ http_outcome apex reg challenges buffered host path tcp' e.
Proof.
  intros Hk Hh. unfold http_handle in Hk. destruct (read_request http_parse tcp) as [[res tcp1]|] eqn:Er; [|done].
  cbn [mbind option_bind] in Hk. apply (inj Some) in Hk. rewrite <-Hk in Hh. clear Hk.
  apply sm_bind_Ok in Hh as (req & c1 & Hr & Hh). unfold fail_with in Hr.
  destruct res as [[[buffered host] path]|]; [|done]. injection Hr as <- _.
  exists buffered, host, path, tcp1. unfold http_outcome. split; [done|].
  split; [symmetry; exact (read_request_loop_Ok _ _ [] _ _ _ _ _ Er)|].
  assert (Hans : forall status body c2, answer status body c1 = (Ok e, c2) ->
    e = Answered (write_body status plain_text body)).
  { intros st b c2 Ha. unfold answer in Ha. apply sm_bind_Ok in Ha as (? & ? & _ & Ha).
    by apply sm_bind_Ok in Ha as (? & ? & _ & [= <- _]). }
  destruct (strip_prefix ACME_PATH_PREFIX path) as [token|].
  { unfold lookup_challenge in Hh.
    destruct (challenges !! token) as [v|] eqn:El; apply Hans in Hh as ->;
      left; exists token; by rewrite El. }
  destruct (extract_host_label host apex) as [label|]; [|apply Hans in Hh as ->; by right].
  destruct (resolve_label label reg) as [resolved|] eqn:Es.
  2: { apply Hans in Hh as ->. right. split; [done|]. by intros ? [= <-]. }
  apply sm_bind_Ok in Hh as (started & c2 & Ho & Hh).
  apply sm_bind_Ok in Hh as (sent & c3 & Hw & [= <- _]).
  unfold replay_into in Hw. apply sm_bind_Ok in Hw as (? & c4 & _ & [= <- _]).
  split; [done|]. exists label, (rt_inspect resolved). eexists.
  split_and!; [done|by destruct resolved| |done]. by eapply open_stream_Ok.
Qed.

(** An HTTP request reaches the tunnel its Host names and no other.  A request for an
    ACME challenge is answered from the store and never relayed; otherwise, if the router
    relays it, the host is a label under the apex that the registry resolves to exactly
    this tunnel, and the owner receives the header, the prelude if inspected and the
    request from its first byte; if there is no such tunnel the answer is 404. *)
Theorem http_routes (http_parse : bytes -> HttpParse) (now : Z) (peer apex : str)
    (reg : TunnelRegistry) (challenges : ChallengeStore) (tcp : TcpStream)
    (k : Calls -> Result RouteEnd RouteError * Calls) (c c' : Calls) (e : RouteEnd)
    (Hk : http_handle http_parse now peer apex reg challenges tcp = Some k)
    (Hh : k c = (Ok e, c')) :
  exists buffered host path tcp',
    read_request http_parse tcp = Some (Ok (buffered, host, path), tcp') /\
    buffered ++ tcp_bytes tcp' = tcp_bytes tcp /\
  match e with
  | ControlPlane _ | Dropped => False
  | Answered r =>
      (exists token, strip_prefix ACME_PATH_PREFIX path = Some token /\
         r = match challenges !! token with
             | Some v => write_body (lit "200 OK") plain_text (str_bytes v)
             | None => write_body NOT_FOUND plain_text (lit "no such challenge")
             end) \/
      (strip_prefix ACME_PATH_PREFIX path = None /\
       forall label, extract_host_label host apex = Some label -> resolve_label label reg = None)
  | Relayed conn rate id sent rest => strip_prefix ACME_PATH_PREFIX path = None /\
      exists label inspect prelude, extract_host_label host apex = Some label /\
      resolve_label label reg = Some {| rt_id := id; rt_connection := conn; rt_rate := rate;
                                        rt_inspect := inspect |} /\
      stream_start DataHttp id inspect prelude buffered sent /\ rest = tcp'
  end.
Proof. exact (http_handle_Ok http_parse now peer apex reg challenges tcp k c e c' Hk Hh). Qed.

End RouterTheorems.

(** ** The public name of a tunnel *)

Lemma label_char_lower c : is_label_alnum c || (c =? 45) = true ->
  ascii_lower c = c /\ is_whitespace c = false /\ c <> 58.
Proof.
  unfold is_label_alnum, is_ascii_lower, is_ascii_digit, ascii_lower, is_ascii_upper.
  rewrite !orb_true_iff, !andb_true_iff, !Z.leb_le, Z.eqb_eq. intros Hc. split.
  - destruct (Z.leb_spec 65 c), (Z.leb_spec c 90); simpl; lia.
  - split; [|lia]. apply not_true_is_false. unfold is_whitespace.
    rewrite !orb_true_iff, !andb_true_iff, !Z.leb_le, !Z.eqb_eq. lia.
Qed.

Lemma valid_label_chars label :
  Forall (fun c => is_scalar c = true) label -> is_valid_label label = true ->
  Forall (fun c => is_label_alnum c || (c =? 45) = true) label.
Proof.
  intros Hs Hv. unfold is_valid_label in Hv. destruct (bool_decide (label = _)); [done|].
  pose proof (proj1 (label_bytes_grammar (str_bytes label)) Hv) as Hg.
  assert (Ha : Forall (fun c => 0 <= c < 128) label).
  { apply ascii_str_bytes.
    - eapply Forall_impl; [|exact Hs]. intros c Hc. unfold is_scalar in Hc.
      apply orb_true_iff in Hc as [Hc|Hc]; apply andb_true_iff in Hc as [?%Z.leb_le ?%Z.leb_le]; lia.
    - eapply Forall_impl; [|exact (label_grammar_ascii _ Hg)]. simpl. lia. }
  rewrite str_bytes_ascii in Hg by done.
  destruct Hg as (c & rest & -> & Hc & Hr). constructor; [by rewrite Hc|].
  destruct Hr as [->|(mid & d & -> & _ & Hm & Hd)]; [done|].
  apply Forall_app. split; [|constructor; [by rewrite Hd|done]].
  apply List.Forall_forall. by apply forallb_forall.
Qed.

(** An apex as an operator configures it: a visible word without a port. *)
Definition apex_ok (apex : str) : Prop := Forall (fun c => is_whitespace c = false /\ c <> 58) apex.

Lemma strip_own_suffix label apex :
  Forall (fun c => ascii_lower c = c) label ->
  (if bool_decide (to_ascii_lowercase (label ++ lit "." ++ apex) = to_ascii_lowercase apex) then None
   else strip_suffix (lit "." ++ to_ascii_lowercase apex)
          (to_ascii_lowercase (label ++ lit "." ++ apex))) = Some label.
Proof.
  intros Hl. unfold to_ascii_lowercase. rewrite !map_app.
  assert (Hm : map ascii_lower label = label).
  { clear -Hl. induction Hl as [|c l Hc _ IH]; [done|]. simpl. by rewrite Hc, IH. }
  rewrite Hm, bool_decide_false.
  - by apply strip_suffix_Some.
  - intros E%(f_equal length). rewrite !length_app in E. simpl in E. lia.
Qed.

(** C13: The URL a registration promises works.  When the server answers a fresh HTTP
    registration with a URL, that URL is [https://] followed by a name that both routers
    take apart to exactly the requested label, with or without a port in the Host header,
    and the table then resolves that label to the tunnel of the answer on this session's
    connection. *)
Theorem public_url_routes {L} `{PeerLabelLookup L} (s : Session) (env : DispatchEnv L)
    (label : str) (inspect : bool) (id : TunnelId) (url : str) (port : option Z) (w w' : SessWorld)
    (o : DispatchOutcome) (apex : str) (tls : DomainTls) (hb sb : SocketAddr) (pool : Z * Z)
    (Hmode : s_mode s = ModeDomain apex tls hb sb pool) (Hapex : apex_ok apex)
    (Hlabel : Forall (fun c => is_scalar c = true) label)
    (Hd : dispatch s env (RegisterTunnel label TK_Http None inspect) w = (Ok o, w'))
    (Hsent : ss_sent (sw_send w') = ss_sent (sw_send w) ++ [TunnelRegistered id url port]) :
  exists host, url = lit "https://" ++ host /\
    extract_sni_label host apex = Some label /\
    (forall digits, extract_host_label host apex = Some label /\
       extract_host_label (host ++ [58] ++ digits) apex = Some label) /\
    resolve_label label (rw_reg (sw_reg w')) =
      Some {| rt_id := id; rt_connection := s_connection s; rt_rate := s_rate s;
              rt_inspect := inspect |}.
Proof.
  pose proof (dispatch_http_granted s env label inspect w w' o id url port Hd Hsent) as Hg.
  destruct Hg as (apex' & ? & ? & ? & ? & Hm & Hv & _ & _ & -> & _ & _ & Hres).
  rewrite Hmode in Hm. injection Hm as <- _ _ _ _.
  pose proof (valid_label_chars label Hlabel Hv) as Hc.
  assert (Hlow : Forall (fun c => ascii_lower c = c) label).
  { eapply Forall_impl; [|exact Hc]. intros c Hcc. by apply label_char_lower. }
  assert (Hvis : Forall (fun c => is_whitespace c = false /\ c <> 58) (label ++ lit "." ++ apex)).
  { apply Forall_app. split; [|apply Forall_app; split; [by repeat constructor|done]].
    eapply Forall_impl; [|exact Hc]. intros c Hcc. by apply label_char_lower. }
  assert (Htrim : trim (label ++ lit "." ++ apex) = label ++ lit "." ++ apex).
  { apply trim_visible. eapply Forall_impl; [|exact Hvis]. by intros c []. }
  assert (Hcolon : 58 ∉ label ++ lit "." ++ apex).
  { apply Forall_not_in. eapply Forall_impl; [|exact Hvis]. by intros c []. }
  exists (label ++ lit "." ++ apex). split_and!; [done| |intros digits; split|done].
  - by apply strip_own_suffix.
  - unfold extract_host_label. rewrite hd_split_char, (proj2 (split_once_None _ _) Hcolon), Htrim.
    by apply strip_own_suffix.
  - unfold extract_host_label. change ([58] ++ digits) with (58 :: digits).
    rewrite hd_split_char, split_once_hit, Htrim by done.
    by apply strip_own_suffix.
Qed.

(** ** Witnesses *)

#[local] Instance toy_prelude : Postcard InspectionPrelude Z :=
  {| to_stdvec p := Ok [ip_accept_unix_secs p mod 256]; from_bytes _ := Err 0 |}.

(** The sample registry serves [web]; its visitor greets [web.krot.test]. *)
Definition web_hello : Hello :=
  {| h_version := [3; 3]; h_random := repeat 9 32; h_session_id := []; h_ciphers := [19; 1];
     h_compression := [0]; h_exts := [(0, encode_sni (lit "web.krot.test"))] |}.

Lemma https_routes_witness :
  match https_handle to_ascii_lowercase 7 (lit "1.2.3.4:5") (lit "krot.test") (rw_reg sample_world)
          [Ok (tls_record web_hello)] [] with
  | (Ok (Relayed conn _ id sent _), _) => id = {| tid_raw := 1 |} /\
      (exists p tcp', peek_sni to_ascii_lowercase [Ok (tls_record web_hello)] = (Ok p, tcp'))
  | _ => False
  end.
Proof.
  destruct (https_handle to_ascii_lowercase 7 (lit "1.2.3.4:5") (lit "krot.test")
    (rw_reg sample_world) [Ok (tls_record web_hello)] []) as [[e|er] c'] eqn:E.
  - destruct (https_routes to_ascii_lowercase 7 (lit "1.2.3.4:5") (lit "krot.test")
      (rw_reg sample_world) [Ok (tls_record web_hello)] [] c' e E) as (p & tcp' & Hp & _).
    vm_compute in E. injection E as <- <-. split; [reflexivity|]. exists p, tcp'. exact Hp.
  - vm_compute in E. discriminate.
Defined.

(** A head is complete once it ends in an empty line; the host is fixed. *)
Definition toy_http (bs : bytes) : HttpParse :=
  if ends_with [13; 10; 13; 10] bs
  then HComplete [(lit "Host", lit "web.krot.test:80")] (Some (lit "/x"))
  else HPartial.

Lemma http_routes_witness : exists k,
  http_handle toy_http 7 [] (lit "krot.test") (rw_reg sample_world) ∅ [Ok (lit "GET"); Ok [13; 10; 13; 10]]
    = Some k /\
  match k [] with
  | (Ok e, c') => exists buffered host path tcp',
      read_request toy_http [Ok (lit "GET"); Ok [13; 10; 13; 10]] =
        Some (Ok (buffered, host, path), tcp')
  | (Err _, _) => False
  end.
Proof.
  destruct (http_handle toy_http 7 [] (lit "krot.test") (rw_reg sample_world) ∅
    [Ok (lit "GET"); Ok [13; 10; 13; 10]]) as [k|] eqn:Ek; [|vm_compute in Ek; discriminate].
  exists k. split; [reflexivity|]. destruct (k []) as [[e|er] c'] eqn:E.
  - destruct (http_routes toy_http 7 [] (lit "krot.test") (rw_reg sample_world) ∅
      [Ok (lit "GET"); Ok [13; 10; 13; 10]] k [] c' e Ek E) as (b & h & p & t & Hr & _).
    exists b, h, p, t. exact Hr.
  - vm_compute in Ek. injection Ek as <-. vm_compute in E. discriminate.
Defined.

Lemma public_url_routes_witness : exists host,
  lit "https://api.example.com" = lit "https://" ++ host /\
  extract_sni_label host (lit "example.com") = Some (lit "api").
Proof.
  destruct (public_url_routes sample_session sample_env (lit "api") false {| tid_raw := 3 |}
    (lit "https://api.example.com") None (sess_world sample_world [])
    (dispatch sample_session sample_env (RegisterTunnel (lit "api") TK_Http None false)
       (sess_world sample_world [])).2 Continue
    (lit "example.com") (Acme (lit "a") None) any_addr any_addr (40000, 40001))
    as (host & Hu & Hs & _).
  - reflexivity.
  - apply (bool_decide_unpack _). vm_compute. exact I.
  - apply (bool_decide_unpack _). vm_compute. exact I.
  - vm_compute. reflexivity.
  - vm_compute. reflexivity.
  - exists host. split; [exact Hu|exact Hs].
Defined.
