(* ===== verification/Acme.v ===== *)
(** * Acme: the apex certificate of a domain

    [krot-server/src/domain/acme.rs]: reuse of the cached certificate, the order with the
    certificate authority, the HTTP-01 challenges the router of [Router] answers meanwhile,
    and the files that are written at the end.

    The client [instant-acme] with the authority behind it is a record of answers
    ([Authority]); [rcgen], [x509-parser], [serde_json] and [base64] are parameters.  The log
    records each question to the authority, with the challenge store at that moment when it
    is told that a challenge is ready. *)

From S2P Require Import Prelude RustStr Wire Framing Types Registry Rate Keys Admin Handshake Peers Metrics Config Http LoginPage LocalAuth ClientConfig Certs Session Server Sni Router.

Local Open Scope Z_scope.

Definition POLL_ATTEMPTS : nat := 60.
Definition POLL_INTERVAL : Z := Duration_from_secs 2.
Definition RENEWAL_THRESHOLD_DAYS : Z := 30.

(** ** The authority *)

Inductive ChallengeType := Http01 | Dns01 | TlsAlpn01.

#[global] Instance ChallengeType_eq_dec : EqDecision ChallengeType.
Proof. solve_decision. Defined.

Record Challenge := { ch_type : ChallengeType; ch_url : str; ch_token : str }.
Record Authorization := { au_challenges : list Challenge }.
Inductive OrderStatus := OPending | OReady | OProcessing | OValid | OInvalid.

(** A key pair of [rcgen]. *)
Record KeyPair := { kp_pem : str; kp_der : bytes }.

(** The answers of the authority and of the libraries; errors are texts, those of [rcgen]
    codes; accounts and credentials are handles.  [ca_refresh] and [ca_certificate] answer the n-th poll. *)
Record Authority := {
  ca_creds_parse : str -> Result Z str;
  ca_creds_print : Z -> Result str str;
  ca_account_restore : Z -> Result Z str;
  ca_account_create : str -> str -> Result (Z * Z) str;
  ca_new_order : Z -> str -> Result unit str;
  ca_authorizations : Result (list Authorization) str;
  ca_key_authorization : Challenge -> str;
  ca_set_ready : str -> Result unit str;
  ca_refresh : nat -> Result OrderStatus str;
  ca_key_generate : Result KeyPair Z;
  ca_csr : KeyPair -> str -> Result bytes Z;
  ca_finalize : bytes -> Result unit str;
  ca_certificate : nat -> Result (option str) str;
}.

Inductive Asked :=
| AskAccount
| AskOrder
| AskAuthorizations
| TellReady (url : str) (store : ChallengeStore)
| AskRefresh
| AskFinalize
| AskCertificate.

Record AcmeWorld := {
  aw_disk : Disk;
  aw_challenges : ChallengeStore;
  aw_log : list Asked;
  aw_slept : Z;
}.

Abbreviation AcM := (SM AcmeWorld ServerError).

Definition on_disk {A} (m : FsM A) : AcM A := fun w =>
  let '(r, d) := m (aw_disk w) in
  (r, {| aw_disk := d; aw_challenges := aw_challenges w; aw_log := aw_log w; aw_slept := aw_slept w |}).

Definition set_challenges (f : ChallengeStore -> ChallengeStore) : AcM unit :=
  sm_modify (fun w => {| aw_disk := aw_disk w; aw_challenges := f (aw_challenges w);
                         aw_log := aw_log w; aw_slept := aw_slept w |}).

Definition sleep (t : Z) : AcM unit :=
  sm_modify (fun w => {| aw_disk := aw_disk w; aw_challenges := aw_challenges w;
                         aw_log := aw_log w; aw_slept := aw_slept w + t |}).

(** A question to the authority; [name] prefixes the error. *)
Definition ask {A} (ev : ChallengeStore -> Asked) (name : str) (r : Result A str) : AcM A := fun w =>
  (map_err (fun e => SE_Keys (name ++ e)) r,
   {| aw_disk := aw_disk w; aw_challenges := aw_challenges w;
      aw_log := aw_log w ++ [ev (aw_challenges w)]; aw_slept := aw_slept w |}).

Definition acme_ret {A} (r : Result A ServerError) : AcM A := fun w => (r, w).

(** ** PEM, as this file reads it *)

(** [str::contains] of a text. *)
Fixpoint contains_str (p s : str) : bool :=
  starts_with p s || match s with [] => false | _ :: s => contains_str p s end.

Section Acme.
Context `{Base64}.
Context (b64_error : str -> str) (x509_error : bytes -> str).
(** [notAfter] of a certificate in seconds, if it parses. *)
Context (not_after : bytes -> option Z).

Fixpoint chain_loop (inside : bool) (b64 : str) (out : list bytes) (ls : list str) :
    Result (list bytes) ServerError :=
  match ls with
  | [] => Ok out
  | line :: ls =>
    if starts_with (lit "-----BEGIN CERTIFICATE-----") line then chain_loop true [] out ls
    else if starts_with (lit "-----END CERTIFICATE-----") line then
      let? bytes := ok_or (b64_decode b64) (SE_Keys (lit "bad cert base64: " ++ b64_error b64)) in
      chain_loop false b64 (out ++ [bytes]) ls
    else chain_loop inside (if inside then b64 ++ trim line else b64) out ls
  end.

Definition parse_cert_chain (pem : str) : Result (list bytes) ServerError :=
  let? out := chain_loop false [] [] (lines pem) in
  if bool_decide (out = []) then Err (SE_Keys (lit "no CERTIFICATE blocks in chain")) else Ok out.

Definition key_marker (m line : str) : bool := contains_str m line && contains_str (lit "PRIVATE KEY") line.

Fixpoint key_loop (inside : bool) (b64 : str) (ls : list str) : Result bytes ServerError :=
  match ls with
  | [] => Err (SE_Keys (lit "no PRIVATE KEY block in cached key"))
  | line :: ls =>
    if key_marker (lit "BEGIN") line then key_loop true [] ls
    else if key_marker (lit "END") line then
      ok_or (b64_decode b64) (SE_Keys (lit "bad key base64: " ++ b64_error b64))
    else key_loop inside (if inside then b64 ++ trim line else b64) ls
  end.

Definition key_from_pem (pem : str) : Result bytes ServerError := key_loop false [] (lines pem).

(** ** The cache *)

Definition NANOS_PER_SEC : Z := 1000000000.
Definition DAY : Z := 86400 * NANOS_PER_SEC.

(** The range of [time::OffsetDateTime] (years -9999 to 9999), in seconds. *)
Definition valid_timestamp (t : Z) : bool := (-377705116800 <=? t) && (t <=? 253402300799).

(** [now] is the clock in nanoseconds. *)
Definition cert_still_fresh (now : Z) (cert_der : bytes) (threshold_days : Z) : Result bool ServerError :=
  let? ts := ok_or (not_after cert_der) (SE_Keys (lit "cert parse: " ++ x509_error cert_der)) in
  if negb (valid_timestamp ts) then Err (SE_Keys (lit "bad notAfter timestamp"))
  else Ok (now + threshold_days * DAY <=? ts * NANOS_PER_SEC).

Definition CERT_PEM : str := lit "cert.pem".
Definition KEY_PEM : str := lit "key.pem".
Definition ACCOUNT_JSON : str := lit "account.json".

Definition try_load_cached (now : Z) (acme_dir : str) : FsM (option (list bytes * bytes)) :=
  let cert_path := path_join acme_dir CERT_PEM in
  let key_path := path_join acme_dir KEY_PEM in
  let! present := both_exist cert_path key_path in
  if negb present then sm_ret None
  else
    let! cert_pem := read_to_string cert_path in
    let! key_pem := read_to_string key_path in
    match parse_cert_chain cert_pem with
    | Err _ => sm_ret None
    | Ok chain =>
      let! leaf := lift (ok_or (head chain) (SE_Keys (lit "cert chain is empty"))) in
      let! fresh := lift (cert_still_fresh now leaf RENEWAL_THRESHOLD_DAYS) in
      if negb fresh then sm_ret None
      else
        let! key_der := lift (key_from_pem key_pem) in
        sm_ret (Some (chain, key_der))
    end.

(** [fs::write]. *)
Definition fs_write (p text : str) : FsM unit :=
  let! _ := open_truncate p in
  fs_write_all p text.

(** ** The order *)

Context (ca : Authority).

Definition load_or_create_account (acme_dir contact directory : str) : AcM Z :=
  let creds_path := path_join acme_dir ACCOUNT_JSON in
  let! there := on_disk (fs_exists creds_path) in
  if there then
    let! text := on_disk (read_to_string creds_path) in
    let! creds := acme_ret (map_err (fun e => SE_Keys (lit "bad account.json: " ++ e)) (ca_creds_parse ca text)) in
    ask (fun _ => AskAccount) (lit "account restore: ") (ca_account_restore ca creds)
  else
    let! created := ask (fun _ => AskAccount) (lit "account create: ") (ca_account_create ca contact directory) in
    let '(account, creds) := created in
    let! text := acme_ret (map_err (fun e => SE_Keys (lit "serialize creds: " ++ e)) (ca_creds_print ca creds)) in
    let! _ := on_disk (fs_write creds_path text) in
    let! _ := sm_ignore (on_disk (set_permissions creds_path 384)) in
    sm_ret account.

(** Publish the HTTP-01 challenge of every authorization; the URLs to announce. *)
Fixpoint publish_challenges (authorizations : list Authorization) : AcM (list str) :=
  match authorizations with
  | [] => sm_ret []
  | authz :: rest =>
    match find_first (fun c => bool_decide (ch_type c = Http01)) (au_challenges authz) with
    | None => sm_throw (SE_Keys (lit "no http-01 challenge offered"))
    | Some challenge =>
      let! _ := set_challenges (<[ch_token challenge := ca_key_authorization ca challenge]>) in
      let! urls := publish_challenges rest in
      sm_ret (ch_url challenge :: urls)
    end
  end.

Fixpoint announce (urls : list str) : AcM unit :=
  match urls with
  | [] => sm_ret tt
  | url :: urls =>
    let! _ := ask (TellReady url) (lit "set_challenge_ready: ") (ca_set_ready ca url) in
    announce urls
  end.

Fixpoint poll_ready (poll attempts : nat) : AcM unit :=
  match attempts with
  | O => sm_ret tt
  | S attempts =>
    let! status := ask (fun _ => AskRefresh) (lit "refresh: ") (ca_refresh ca poll) in
    match status with
    | OReady => sm_ret tt
    | OInvalid => sm_throw (SE_Keys (lit "acme order invalid"))
    | _ => let! _ := sleep POLL_INTERVAL in poll_ready (S poll) attempts
    end
  end.

Fixpoint poll_certificate (poll attempts : nat) : AcM (option str) :=
  match attempts with
  | O => sm_ret None
  | S attempts =>
    let! pem := ask (fun _ => AskCertificate) (lit "certificate poll: ") (ca_certificate ca poll) in
    match pem with
    | Some pem => sm_ret (Some pem)
    | None => let! _ := sleep (Duration_from_secs 1) in poll_certificate (S poll) attempts
    end
  end.

(** From the order to the certificate and its key. *)
Definition order_cert (contact apex : str) (directory : option str) (acme_dir : str) : AcM (str * KeyPair) :=
  let dir_url := default LETSENCRYPT_STAGING directory in
  let! account := load_or_create_account acme_dir contact dir_url in
  let! _ := ask (fun _ => AskOrder) (lit "new_order: ") (ca_new_order ca account apex) in
  let! authorizations := ask (fun _ => AskAuthorizations) (lit "authorizations: ") (ca_authorizations ca) in
  let! challenge_urls := publish_challenges authorizations in
  let! _ := announce challenge_urls in
  let! _ := poll_ready 0 POLL_ATTEMPTS in
  let! cert_key := acme_ret (map_err SE_Rcgen (ca_key_generate ca)) in
  let! csr := acme_ret (map_err SE_Rcgen (ca_csr ca cert_key apex)) in
  let! _ := ask (fun _ => AskFinalize) (lit "finalize: ") (ca_finalize ca csr) in
  let! cert_pem := poll_certificate 0 POLL_ATTEMPTS in
  let! cert_pem := acme_ret (ok_or cert_pem (SE_Keys (lit "acme did not return a certificate"))) in
  sm_ret (cert_pem, cert_key).

Definition acquire_cert (now : Z) (contact apex : str) (directory : option str) (data_dir : str) :
    AcM (list bytes * bytes) :=
  let acme_dir := path_join data_dir (lit "acme") in
  let! _ := on_disk fs_call in
  let! _ := on_disk fs_call in
  let! cached := on_disk (try_load_cached now acme_dir) in
  match cached with
  | Some reused => sm_ret reused
  | None =>
    let! got := order_cert contact apex directory acme_dir in
    let '(cert_pem, cert_key) := got in
    let! _ := set_challenges (fun _ => ∅) in
    let! _ := on_disk (fs_write (path_join acme_dir CERT_PEM) cert_pem) in
    let! _ := on_disk (fs_write (path_join acme_dir KEY_PEM) (kp_pem cert_key)) in
    let! chain := acme_ret (parse_cert_chain cert_pem) in
    sm_ret (chain, kp_der cert_key)
  end.

End Acme.

#[local] Arguments lit : simpl never.

(** ** The readers *)

Section Readers.
Context `{Base64} (b64_error : str -> str).

Lemma chain_loop_bundle inside b64 out ls :
  match chain_loop b64_error inside b64 out ls,
        bundle_loop b64_error (begin_line CERTIFICATE) (end_line CERTIFICATE) inside b64 out ls with
  | Ok a, Ok b => a = b
  | Err _, Err _ => True
  | _, _ => False
  end.
Proof.
  revert inside b64 out. induction ls as [|l ls IH]; intros inside b64 out; [done|].
  cbn [chain_loop bundle_loop].
  change (lit "-----BEGIN CERTIFICATE-----") with (begin_line CERTIFICATE).
  change (lit "-----END CERTIFICATE-----") with (end_line CERTIFICATE).
  destruct (starts_with (begin_line CERTIFICATE) l); [apply IH|].
  destruct (starts_with (end_line CERTIFICATE) l); [|apply IH].
  destruct (b64_decode b64); cbn; [apply IH|done].
Qed.

(** The two certificate readers of the server agree: what [parse_cert_chain] makes of the
    file an authority issued is what [pem_bundle] makes of the same file given with
    [--tls-cert], and both refuse the same files. *)
Theorem cert_readers_agree (pem : str) :
  match parse_cert_chain b64_error pem, pem_bundle b64_error pem CERTIFICATE with
  | Ok a, Ok b => a = b /\ b <> []
  | Err _, Ok b => b = []
  | Err _, Err _ => True
  | Ok _, Err _ => False
  end.
Proof.
  unfold parse_cert_chain, pem_bundle. pose proof (chain_loop_bundle false [] [] (lines pem)) as E.
  destruct (chain_loop _ _ _ _ _), (bundle_loop _ _ _ _ _ _ _); try done. subst. cbn.
  by case_bool_decide.
Qed.

Lemma contains_str_char p s c : contains_str p s = true -> c ∈ p -> c ∈ s.
Proof.
  intros Hs Hc. induction s as [|x s IH]; cbn in Hs.
  - destruct p; [by apply not_elem_of_nil in Hc|done].
  - apply orb_true_iff in Hs as [[r Hr]%starts_with_true|Hs].
    + rewrite Hr. apply elem_of_app. by left.
    + apply elem_of_cons. auto.
Qed.

Lemma key_marker_body m l : Forall body_char l -> key_marker m l = false.
Proof.
  intros Hl. apply not_true_iff_false. unfold key_marker. intros [_ Hk]%andb_true_iff.
  assert (Hsp : 32 ∈ l).
  { eapply contains_str_char; [exact Hk|]. vm_compute. set_solver. }
  apply list_elem_of_In in Hsp. rewrite List.Forall_forall in Hl. by destruct (Hl _ Hsp).
Qed.

Lemma key_loop_body inside b64 body ls :
  Forall (Forall body_char) body ->
  key_loop b64_error inside b64 (body ++ ls) =
  key_loop b64_error inside (if inside then b64 ++ concat body else b64) ls.
Proof.
  intros Hb. revert b64. induction Hb as [|l body Hl _ IH]; intros b64.
  { destruct inside; cbn; by rewrite ?app_nil_r. }
  cbn [app key_loop concat]. rewrite !key_marker_body, body_trim, IH by done.
  destruct inside; by rewrite <-?app_assoc.
Qed.

(** A PKCS#8 key file reads as its key. *)
Lemma key_from_pem_file `{!Base64Laws} nl b :
  eol nl -> wf_block b -> pb_tag b = PRIVATE_KEY ->
  key_from_pem b64_error (pem_file nl [b]) = Ok (pb_der b).
Proof.
  intros Hnl Hb Ht. unfold key_from_pem, pem_file. cbn [map concat]. rewrite app_nil_r.
  rewrite lines_pem_text by (done || by apply block_one_line). destruct Hb as (Hc & Hd & Hb & _).
  unfold block_lines. rewrite Ht. cbn [key_loop].
  replace (key_marker (lit "BEGIN") (begin_line PRIVATE_KEY)) with true by reflexivity.
  rewrite key_loop_body by done. cbn [key_loop app].
  replace (key_marker (lit "BEGIN") (end_line PRIVATE_KEY)) with false by reflexivity.
  replace (key_marker (lit "END") (end_line PRIVATE_KEY)) with true by reflexivity.
  by rewrite Hc, b64_roundtrip.
Qed.
End Readers.

(** ** Which files, which questions *)

(** The disk is the same but for the files of [ps]. *)
Definition disk_same_but (ps : list str) (w w' : AcmeWorld) : Prop := same_but ps (aw_disk w) (aw_disk w').

#[global] Instance disk_same_but_preorder ps : PreOrder (disk_same_but ps).
Proof. split; [by intros w|]. intros w1 w2 w3 H1 H2. unfold disk_same_but in *. by etrans. Qed.

Lemma on_disk_touches {A} ps (m : FsM A) : touches_only ps m -> sm_within (disk_same_but ps) (on_disk m).
Proof. intros Hm w. unfold on_disk. specialize (Hm (aw_disk w)). by destruct (m (aw_disk w)). Qed.

Lemma fs_write_touches ps p text : p ∈ ps -> touches_only ps (fs_write p text).
Proof. intros Hp. unfold fs_write. within. Qed.

#[local] Hint Resolve on_disk_touches fs_write_touches : within.

Section Order.
Context `{Base64} `{!Base64Laws} (b64_error : str -> str) (x509_error : bytes -> str).
Context (not_after : bytes -> option Z).

(** Steps that leave the disk alone. *)
Lemma ask_touches {A} ps ev name (r : Result A str) : sm_within (disk_same_but ps) (ask ev name r).
Proof. by intros w q. Qed.
Lemma acme_ret_touches {A} ps (r : Result A ServerError) : sm_within (disk_same_but ps) (acme_ret r).
Proof. by intros w q. Qed.
Lemma challenges_touches ps f : sm_within (disk_same_but ps) (set_challenges f).
Proof. by intros w q. Qed.
Lemma sleep_touches ps t : sm_within (disk_same_but ps) (sleep t).
Proof. by intros w q. Qed.
#[local] Hint Resolve ask_touches acme_ret_touches challenges_touches sleep_touches : within.

(** The order writes no file but the account's. *)
Lemma order_touches ca contact apex directory dir :
  sm_within (disk_same_but [path_join dir ACCOUNT_JSON]) (order_cert ca contact apex directory dir).
Proof.
  set (ps := [path_join dir ACCOUNT_JSON]).
  assert (Hpub : forall l, sm_within (disk_same_but ps) (publish_challenges ca l)).
  { induction l as [|a l IH]; cbn; [within|]. destruct (find_first _ _); within. }
  assert (Han : forall l, sm_within (disk_same_but ps) (announce ca l)).
  { induction l as [|a l IH]; cbn; within. }
  assert (Hr : forall n i, sm_within (disk_same_but ps) (poll_ready ca i n)).
  { induction n as [|n IH]; intros i; cbn; within. }
  assert (Hc : forall n i, sm_within (disk_same_but ps) (poll_certificate ca i n)).
  { induction n as [|n IH]; intros i; cbn; within. }
  assert (Ha : forall c u, sm_within (disk_same_but ps) (load_or_create_account ca dir c u)).
  { intros c u. unfold load_or_create_account, ps. within. }
  unfold order_cert. clearbody ps. within.
Qed.

(** The challenges of an order are published before any of them is announced. *)

(** What was asked since [w], with [S] true of the store whenever a challenge was announced. *)
Definition told (S : ChallengeStore -> Prop) (w w' : AcmeWorld) : Prop :=
  exists l, aw_log w' = aw_log w ++ l /\
    Forall (fun ev => match ev with TellReady _ store => S store | _ => True end) l.

#[local] Instance told_preorder S : PreOrder (told S).
Proof.
  split; [intros w; exists []; by rewrite app_nil_r|].
  intros w1 w2 w3 (l1 & E1 & H1) (l2 & E2 & H2). exists (l1 ++ l2).
  rewrite E2, E1, app_assoc. split; [done|by apply Forall_app].
Qed.

Lemma told_same S w w' : aw_log w' = aw_log w -> told S w w'.
Proof. exists []. by rewrite app_nil_r. Qed.

Lemma on_disk_told {A} S (m : FsM A) : sm_within (told S) (on_disk m).
Proof. intros w. apply told_same. unfold on_disk. by destruct (m (aw_disk w)). Qed.
Lemma acme_ret_told {A} S (r : Result A ServerError) : sm_within (told S) (acme_ret r).
Proof. intros w. by apply told_same. Qed.
Lemma challenges_told S f : sm_within (told S) (set_challenges f).
Proof. intros w. by apply told_same. Qed.
Lemma sleep_told S t : sm_within (told S) (sleep t).
Proof. intros w. by apply told_same. Qed.
Lemma ask_told {A} S ev name (r : Result A str) :
  (forall s, match ev s with TellReady _ _ => False | _ => True end) -> sm_within (told S) (ask ev name r).
Proof.
  intros Hev w. exists [ev (aw_challenges w)]. split; [done|]. repeat constructor.
  specialize (Hev (aw_challenges w)). by destruct (ev (aw_challenges w)).
Qed.
#[local] Hint Resolve on_disk_told acme_ret_told challenges_told sleep_told : within.
#[local] Hint Extern 2 (sm_within (told _) (ask _ _ _)) => apply ask_told; by intros : within.

Lemma publish_told ca S l : sm_within (told S) (publish_challenges ca l).
Proof. induction l as [|a l IH]; cbn; [within|]. destruct (find_first _ _); within. Qed.
Lemma poll_ready_told ca S n i : sm_within (told S) (poll_ready ca i n).
Proof. revert i. induction n as [|n IH]; intros i; cbn; within. Qed.
Lemma poll_certificate_told ca S n i : sm_within (told S) (poll_certificate ca i n).
Proof. revert i. induction n as [|n IH]; intros i; cbn; within. Qed.
Lemma account_told ca S dir c u : sm_within (told S) (load_or_create_account ca dir c u).
Proof. unfold load_or_create_account. within. Qed.
#[local] Hint Resolve publish_told poll_ready_told poll_certificate_told account_told : within.

Lemma announce_told ca (S : ChallengeStore -> Prop) urls w : S (aw_challenges w) -> told S w (announce ca urls w).2.
Proof.
  revert w. induction urls as [|u urls IH]; intros w Hw; cbn [announce]; [by apply told_same|].
  apply within_bind_at; [apply _| |].
  - eexists. split; [done|]. by repeat constructor.
  - intros [] w' [= _ <-]. by apply IH.
Qed.

(** The HTTP-01 challenge the code picks. *)
Definition http01 (a : Authorization) : option Challenge :=
  find_first (fun c => bool_decide (ch_type c = Http01)) (au_challenges a).

(** Every authorization has its key authorization in the store, under its token. *)
Definition published ca (l : list Authorization) (store : ChallengeStore) : Prop :=
  forall a, a ∈ l -> exists c, http01 a = Some c /\
    store !! ch_token c = Some (ca_key_authorization ca c).

Lemma publish_spec ca l w urls w' :
  NoDup (omap (fun a => ch_token <$> http01 a) l) ->
  publish_challenges ca l w = (Ok urls, w') ->
  published ca l (aw_challenges w') /\
  forall t, t ∉ omap (fun a => ch_token <$> http01 a) l -> aw_challenges w' !! t = aw_challenges w !! t.
Proof.
  revert w urls. induction l as [|a l IH]; intros w urls Hnd; cbn [publish_challenges].
  { intros [= _ <-]. split; [|done]. intros a Ha. by apply not_elem_of_nil in Ha. }
  fold (http01 a). cbn in Hnd. destruct (http01 a) as [c|] eqn:Ec; [|done].
  cbn in Hnd. apply list.NoDup_cons in Hnd as [Hnew Hnd].
  intros ([] & w1 & [= <-] & (us & w2 & Hp & [= _ <-])%sm_bind_Ok)%sm_bind_Ok.
  destruct (IH _ _ Hnd Hp) as [Hl Ht]. cbn [aw_challenges] in Ht. split.
  - intros b [-> |Hb]%elem_of_cons; [|by apply Hl]. exists c. split; [done|].
    rewrite Ht by done. apply lookup_insert_eq.
  - intros t Hn. cbn in Hn. rewrite Ec in Hn. cbn in Hn. apply not_elem_of_cons in Hn as [Hne Hn].
    rewrite Ht by done. by apply lookup_insert_ne.
Qed.

Lemma order_told ca contact apex directory dir w auths :
  ca_authorizations ca = Ok auths -> NoDup (omap (fun a => ch_token <$> http01 a) auths) ->
  told (published ca auths) w (order_cert ca contact apex directory dir w).2.
Proof.
  intros Hauths Hnd. unfold order_cert.
  apply within_bind_at; [apply _|by apply account_told|]. intros acc w1 _.
  apply within_bind_at; [apply _|by apply ask_told|]. intros [] w2 _.
  apply within_bind_at; [apply _|by apply ask_told|]. intros l w3 Hl.
  assert (l = auths) as ->. { unfold ask in Hl. rewrite Hauths in Hl. by injection Hl. }
  apply within_bind_at; [apply _|by apply publish_told|]. intros urls w4 [Hp _]%publish_spec; [|done].
  apply within_bind_at; [apply _|by apply announce_told|]. intros [] w5 _.
  revert w5. change (sm_within (told (published ca auths))
    (let! _ := poll_ready ca 0 POLL_ATTEMPTS in
     let! cert_key := acme_ret (map_err SE_Rcgen (ca_key_generate ca)) in
     let! csr := acme_ret (map_err SE_Rcgen (ca_csr ca cert_key apex)) in
     let! _ := ask (fun _ => AskFinalize) (lit "finalize: ") (ca_finalize ca csr) in
     let! cert_pem := poll_certificate ca 0 POLL_ATTEMPTS in
     let! cert_pem := acme_ret (ok_or cert_pem (SE_Keys (lit "acme did not return a certificate"))) in
     sm_ret (cert_pem, cert_key))).
  generalize POLL_ATTEMPTS. intros n. within.
Qed.

Lemma acquire_told ca now contact apex directory dir w auths :
  ca_authorizations ca = Ok auths -> NoDup (omap (fun a => ch_token <$> http01 a) auths) ->
  told (published ca auths) w
    (acquire_cert b64_error x509_error not_after ca now contact apex directory dir w).2.
Proof.
  intros Hauths Hnd. unfold acquire_cert.
  apply within_bind_at; [apply _|by apply on_disk_told|]. intros [] w1 _.
  apply within_bind_at; [apply _|by apply on_disk_told|]. intros [] w2 _.
  apply within_bind_at; [apply _|by apply on_disk_told|]. intros [cached|] w3 _; [done|].
  apply within_bind_at; [apply _|by apply order_told|]. intros [pem kp] w4 _. revert w4.
  match goal with |- forall w4, told ?S w4 (?m w4).2 => change (sm_within (told S) m) end. within.
Qed.

(** C30: The authority finds what it asks for.  Whenever it is told that a challenge is ready,
    the challenges of every authorization of the order are published, and the HTTP router
    that shares the store answers a request for any of their tokens with the key
    authorization of that challenge. *)
Theorem challenge_answered `{Postcard InspectionPrelude Z} (ca : Authority) (now : Z) (contact apex dir : str) (directory : option str)
    (w : AcmeWorld) (auths : list Authorization)
    (http_parse : bytes -> HttpParse) (reg : TunnelRegistry) (peer : str) (tcp tcp' : TcpStream)
    (buf : bytes) (host url : str) (store : ChallengeStore) (a : Authorization) (c : Challenge)
    (Hauths : ca_authorizations ca = Ok auths)
    (Hnd : NoDup (omap (fun a => ch_token <$> http01 a) auths))
    (Hlog : aw_log w = [])
    (Htold : TellReady url store ∈
       aw_log (acquire_cert b64_error x509_error not_after ca now contact apex directory dir w).2)
    (Ha : a ∈ auths) (Hc : http01 a = Some c)
    (Hreq : read_request http_parse tcp = Some (Ok (buf, host, ACME_PATH_PREFIX ++ ch_token c), tcp')) :
  exists k,
    http_handle http_parse now peer apex reg store tcp = Some k /\
    (k []).1 = Ok (Answered (write_body (lit "200 OK") plain_text
                               (str_bytes (ca_key_authorization ca c)))).
Proof.
  destruct (acquire_told ca now contact apex directory dir w auths Hauths Hnd) as (l & El & Hl).
  rewrite El, Hlog in Htold. cbn in Htold. apply list_elem_of_In in Htold.
  rewrite List.Forall_forall in Hl. destruct (Hl _ Htold a Ha) as (c' & Hc' & Hs).
  assert (c' = c) as -> by congruence.
  unfold http_handle. rewrite Hreq. cbn [mbind option_bind]. eexists. split; [done|].
  unfold fail_with, map_err, sm_bind. rewrite (proj2 (strip_prefix_Some _ _ _) eq_refl).
  unfold lookup_challenge. by rewrite Hs.
Qed.

(** ** The cache *)

Definition cert_at (dir : str) : str := path_join (path_join dir (lit "acme")) CERT_PEM.
Definition key_at (dir : str) : str := path_join (path_join dir (lit "acme")) KEY_PEM.

(** The cache holds the chain and the key. *)
Definition cached_pair (dir : str) (chain : list bytes) (key : bytes) (d : Disk) : Prop :=
  exists c k, dk_files d !! cert_at dir = Some c /\ dk_files d !! key_at dir = Some k /\
    parse_cert_chain b64_error (f_text c) = Ok chain /\ key_from_pem b64_error (f_text k) = Ok key.

Lemma fs_write_Ok p text d u d' :
  fs_write p text d = (Ok u, d') -> exists f, dk_files d' !! p = Some f /\ f_text f = text.
Proof.
  intros (? & d1 & (? & d0 & _ & [= _ <-])%sm_bind_Ok & Hw%write_all_Ok)%sm_bind_Ok.
  rewrite Hw, lookup_alter_eq. cbn. rewrite lookup_insert_eq. cbn. eauto.
Qed.

Lemma load_cached_Ok now dir d chain key d' :
  try_load_cached b64_error x509_error not_after now (path_join dir (lit "acme")) d = (Ok (Some (chain, key)), d') ->
  cached_pair dir chain key d'.
Proof.
  unfold try_load_cached. fold (cert_at dir) (key_at dir). intros (present & d0 & _ & Hr)%sm_bind_Ok.
  destruct present; [|done]. cbn [negb] in Hr.
  apply sm_bind_Ok in Hr as (ct & d1 & (c & Hc & -> & E1)%read_Ok & Hr).
  apply sm_bind_Ok in Hr as (kt & d2 & (k & Hk & -> & E2)%read_Ok & Hr).
  destruct (parse_cert_chain b64_error (f_text c)) as [ch|] eqn:Ep; [|done].
  apply sm_bind_Ok in Hr as (leaf & ? & [= _ <-] & Hr).
  apply sm_bind_Ok in Hr as (fresh & ? & [= _ <-] & Hr). destruct fresh; [|done].
  apply sm_bind_Ok in Hr as (kd & ? & [= Hkd <-] & [= <- <- <-]).
  exists c, k. rewrite E2, E1. rewrite E1 in Hk. done.
Qed.

(** The key pair of the generator: its PEM text is the PKCS#8 block of its DER. *)
Definition key_pair_ok (kp : KeyPair) : Prop :=
  exists nl b, eol nl /\ wf_block b /\ pb_tag b = PRIVATE_KEY /\
    kp_pem kp = pem_file nl [b] /\ pb_der b = kp_der kp.

Lemma order_key ca contact apex directory dir w pem kp w' :
  order_cert ca contact apex directory dir w = (Ok (pem, kp), w') -> ca_key_generate ca = Ok kp.
Proof.
  unfold order_cert. intros (? & ? & _ & Hr)%sm_bind_Ok.
  do 5 (apply sm_bind_Ok in Hr as (? & ? & _ & Hr)).
  apply sm_bind_Ok in Hr as (kp' & ? & [= Hk <-] & Hr).
  do 4 (apply sm_bind_Ok in Hr as (? & ? & _ & Hr)). injection Hr as _ -> _.
  unfold map_err in Hk. destruct (ca_key_generate ca); [by injection Hk as ->|done].
Qed.

Lemma on_disk_Ok {A} (m : FsM A) w a w' :
  on_disk m w = (Ok a, w') -> exists d', m (aw_disk w) = (Ok a, d') /\ aw_disk w' = d' /\
    aw_challenges w' = aw_challenges w /\ aw_log w' = aw_log w.
Proof. unfold on_disk. destruct (m (aw_disk w)) as [r d'] eqn:E. intros [= -> <-]. eauto. Qed.

Lemma acquire_caches ca now contact apex directory dir w chain key w' :
  (forall kp, ca_key_generate ca = Ok kp -> key_pair_ok kp) ->
  acquire_cert b64_error x509_error not_after ca now contact apex directory dir w = (Ok (chain, key), w') ->
  cached_pair dir chain key (aw_disk w') /\ (aw_log w' = aw_log w \/ aw_challenges w' = ∅).
Proof.
  intros Hkp (? & w1 & (d1 & _ & _ & _ & L1)%on_disk_Ok & Hr)%sm_bind_Ok.
  apply sm_bind_Ok in Hr as (? & w2 & (d2 & _ & _ & _ & L2)%on_disk_Ok & Hr).
  apply sm_bind_Ok in Hr as (cached & w3 & (d3 & Hl & E3 & _ & L3)%on_disk_Ok & Hr).
  destruct cached as [[ch kd]|].
  { injection Hr as -> -> <-. split; [|left; congruence]. rewrite E3. by eapply load_cached_Ok. }
  apply sm_bind_Ok in Hr as ([pem kp] & w4 & Ho%order_key & Hr).
  apply sm_bind_Ok in Hr as (? & w5 & [= _ <-] & Hr).
  apply sm_bind_Ok in Hr as (? & w6 & (d6 & Hc & E6 & C6 & _)%on_disk_Ok & Hr).
  apply sm_bind_Ok in Hr as (? & w7 & (d7 & Hk & E7 & C7 & _)%on_disk_Ok & Hr).
  apply sm_bind_Ok in Hr as (ch & ? & [= Hch <-] & [= <- <- <-]).
  split; [|right; by rewrite C7, C6]. fold (cert_at dir) in Hc. fold (key_at dir) in Hk.
  apply fs_write_Ok in Hc as (c & Hc & <-).
  pose proof (fs_write_touches [key_at dir] (key_at dir) (kp_pem kp) ltac:(set_solver) (aw_disk w6) (cert_at dir)) as Ht.
  rewrite Hk in Ht. apply fs_write_Ok in Hk as (k & Hk & Hkt). cbn [snd] in Ht.
  destruct (Hkp kp Ho) as (nl & b & Hnl & Hb & Htag & Hpem & Hder).
  exists c, k. rewrite E7. split_and!; [|done|done|by rewrite Hkt, Hpem, (key_from_pem_file b64_error nl b), Hder].
  rewrite Ht, E6; [done|]. intros [E|[]%elem_of_nil]%elem_of_cons. by apply path_join_inj in E.
Qed.

(** With no failing call, reading is looking up. *)
Lemma calm_call d : dk_calls d = [] -> fs_call d = (Ok tt, d).
Proof. intros E. unfold fs_call, next_call. by rewrite E. Qed.

Lemma calm_read p f d :
  dk_calls d = [] -> dk_files d !! p = Some f -> read_to_string p d = (Ok (f_text f), d).
Proof. intros E Hf. unfold read_to_string, sm_bind. rewrite calm_call by done. cbn. by rewrite Hf. Qed.

Lemma calm_cached now dir d leaf rest key :
  dk_calls d = [] -> cached_pair dir (leaf :: rest) key d ->
  cert_still_fresh x509_error not_after now leaf RENEWAL_THRESHOLD_DAYS = Ok true ->
  try_load_cached b64_error x509_error not_after now (path_join dir (lit "acme")) d =
    (Ok (Some (leaf :: rest, key)), d).
Proof.
  intros Hd (c & k & Hc & Hk & Hp & Hkey) Hf. unfold try_load_cached, sm_bind.
  fold (cert_at dir) (key_at dir). rewrite (both_exist_found _ _ d c k) by (rewrite ?Hd; done).
  assert (set_calls (drop 2 (dk_calls d)) d = d) as -> by (rewrite Hd; by destruct d; cbn in Hd; subst).
  cbn [negb]. cbv iota beta. rewrite (calm_read _ c), (calm_read _ k), Hp by done. cbn [lift head ok_or].
  rewrite Hf, Hkey. done.
Qed.

(** A certificate is ordered once.  After a start that obtained a certificate, from the
    cache or from the authority, the challenge store is empty again if it was used, and a
    later start that is not within thirty days of the leaf's [notAfter] reuses chain and key
    as they were, without a question to any authority. *)
Theorem certificate_reused (ca ca' : Authority) (now now' : Z) (contact apex dir : str)
    (directory : option str) (w w' w2 : AcmeWorld) (leaf : bytes) (rest : list bytes) (key : bytes) (ts : Z)
    (Hkp : forall kp, ca_key_generate ca = Ok kp -> key_pair_ok kp)
    (Hok : acquire_cert b64_error x509_error not_after ca now contact apex directory dir w =
             (Ok (leaf :: rest, key), w'))
    (Hdisk : dk_files (aw_disk w2) = dk_files (aw_disk w')) (Hcalm : dk_calls (aw_disk w2) = [])
    (Hts : not_after leaf = Some ts) (Hvalid : valid_timestamp ts = true)
    (Hfresh : now' + 30 * DAY <= ts * NANOS_PER_SEC) :
  (aw_log w' = aw_log w \/ aw_challenges w' = ∅) /\
  acquire_cert b64_error x509_error not_after ca' now' contact apex directory dir w2 =
    (Ok (leaf :: rest, key), w2).
Proof.
  destruct (acquire_caches ca now contact apex directory dir w (leaf :: rest) key w' Hkp Hok)
    as [(c & k & Hc & Hk & Hp) Hch]. split; [done|].
  assert (Hw : forall d, d = aw_disk w2 -> {| aw_disk := d; aw_challenges := aw_challenges w2;
    aw_log := aw_log w2; aw_slept := aw_slept w2 |} = w2) by (intros d ->; by destruct w2).
  assert (Hcall : on_disk fs_call w2 = (Ok tt, w2)).
  { unfold on_disk. rewrite calm_call by done. f_equal. by apply Hw. }
  unfold acquire_cert, sm_bind. rewrite !Hcall. unfold on_disk at 1.
  rewrite (calm_cached now' dir _ leaf rest key); [unfold sm_ret; by rewrite Hw|done| |].
  - exists c, k. by rewrite Hdisk.
  - unfold cert_still_fresh. rewrite Hts. cbn. rewrite Hvalid. cbn. f_equal. by apply Z.leb_le.
Qed.

End Order.

(** ** Waiting *)

Definition slept_at_most (n : Z) (w w' : AcmeWorld) : Prop := aw_slept w' <= aw_slept w + n.

Lemma sm_slept_bind {A B} n m (f : AcM A) (k : A -> AcM B) :
  0 <= m -> sm_within (slept_at_most n) f -> (forall a, sm_within (slept_at_most m) (k a)) ->
  sm_within (slept_at_most (n + m)) (sm_bind f k).
Proof.
  unfold sm_within, slept_at_most. intros Hm Hf Hk w. specialize (Hf w). unfold sm_bind.
  destruct (f w) as [[a|e] w1]; cbn in *; [specialize (Hk a w1)|]; lia.
Qed.

#[local] Instance slept_preorder : PreOrder (slept_at_most 0).
Proof. split; [intros w; unfold slept_at_most; lia|]. intros w1 w2 w3. unfold slept_at_most. lia. Qed.

Lemma slept_same w w' : aw_slept w' = aw_slept w -> slept_at_most 0 w w'.
Proof. unfold slept_at_most. lia. Qed.

Lemma on_disk_slept {A} (m : FsM A) : sm_within (slept_at_most 0) (on_disk m).
Proof. intros w. apply slept_same. unfold on_disk. by destruct (m (aw_disk w)). Qed.
Lemma ask_slept {A} ev name (r : Result A str) : sm_within (slept_at_most 0) (ask ev name r).
Proof. intros w. by apply slept_same. Qed.
Lemma acme_ret_slept {A} (r : Result A ServerError) : sm_within (slept_at_most 0) (acme_ret r).
Proof. intros w. by apply slept_same. Qed.
Lemma challenges_slept f : sm_within (slept_at_most 0) (set_challenges f).
Proof. intros w. by apply slept_same. Qed.
#[local] Hint Resolve on_disk_slept ask_slept acme_ret_slept challenges_slept : within.

Lemma slept_weaken {A} n m (f : AcM A) : n <= m -> sm_within (slept_at_most n) f -> sm_within (slept_at_most m) f.
Proof. intros Hnm Hf w. specialize (Hf w). unfold slept_at_most in *. lia. Qed.

Lemma sleep_slept t : sm_within (slept_at_most t) (sleep t).
Proof. intros w. cbn. unfold slept_at_most. cbn. lia. Qed.

Lemma poll_ready_slept ca n i : sm_within (slept_at_most (Z.of_nat n * POLL_INTERVAL)) (poll_ready ca i n).
Proof.
  revert i. induction n as [|n IH]; intros i; cbn [poll_ready]; [apply within_ret; apply _|].
  assert (0 <= POLL_INTERVAL) by (vm_compute; discriminate).
  assert (Hs : sm_within (slept_at_most (Z.of_nat (S n) * POLL_INTERVAL))
    (let! _ := sleep POLL_INTERVAL in poll_ready ca (S i) n)).
  { replace (Z.of_nat (S n) * POLL_INTERVAL) with (POLL_INTERVAL + Z.of_nat n * POLL_INTERVAL) by lia.
    apply sm_slept_bind; [lia|apply sleep_slept|intros; apply IH]. }
  change (Z.of_nat (S n) * POLL_INTERVAL) with (0 + Z.of_nat (S n) * POLL_INTERVAL).
  apply sm_slept_bind; [lia|apply ask_slept|]. intros []; try exact Hs.
  all: apply (slept_weaken 0); [lia|within].
Qed.

Lemma poll_certificate_slept ca n i :
  sm_within (slept_at_most (Z.of_nat n * Duration_from_secs 1)) (poll_certificate ca i n).
Proof.
  revert i. induction n as [|n IH]; intros i; cbn [poll_certificate]; [apply within_ret; apply _|].
  assert (0 <= Duration_from_secs 1) by (vm_compute; discriminate).
  change (Z.of_nat (S n) * Duration_from_secs 1) with (0 + Z.of_nat (S n) * Duration_from_secs 1).
  apply sm_slept_bind; [lia|apply ask_slept|]. intros [pem|].
  - apply (slept_weaken 0); [lia|within].
  - replace (Z.of_nat (S n) * Duration_from_secs 1)
      with (Duration_from_secs 1 + Z.of_nat n * Duration_from_secs 1) by lia.
    apply sm_slept_bind; [lia|apply sleep_slept|intros; apply IH].
Qed.

Lemma account_slept ca dir c u : sm_within (slept_at_most 0) (load_or_create_account ca dir c u).
Proof. unfold load_or_create_account. within. Qed.
Lemma publish_slept ca l : sm_within (slept_at_most 0) (publish_challenges ca l).
Proof. induction l as [|a l IH]; cbn; [within|]. destruct (find_first _ _); within. Qed.
Lemma announce_slept ca l : sm_within (slept_at_most 0) (announce ca l).
Proof. induction l as [|a l IH]; cbn; within. Qed.
#[local] Hint Resolve account_slept publish_slept announce_slept : within.

(** A part that does not sleep in front of one that does. *)
Lemma slept_skip {A B} n (f : AcM A) (k : A -> AcM B) :
  0 <= n -> sm_within (slept_at_most 0) f -> (forall a, sm_within (slept_at_most n) (k a)) ->
  sm_within (slept_at_most n) (sm_bind f k).
Proof. intros. change n with (0 + n). by apply sm_slept_bind. Qed.

(** A start never waits for the authority longer than its polls: three minutes of sleep in
    all, whatever the authority answers. *)
Theorem acme_wait_bounded `{Base64} (b64_error : str -> str) (x509_error : bytes -> str)
    (not_after : bytes -> option Z) (ca : Authority) (now : Z) (contact apex dir : str)
    (directory : option str) (w : AcmeWorld) :
  aw_slept (acquire_cert b64_error x509_error not_after ca now contact apex directory dir w).2 <=
    aw_slept w + Duration_from_secs 180.
Proof.
  revert w. change (sm_within (slept_at_most (Duration_from_secs 180))
    (acquire_cert b64_error x509_error not_after ca now contact apex directory dir)).
  assert (H180 : Duration_from_secs 180 = Z.of_nat POLL_ATTEMPTS * POLL_INTERVAL +
    Z.of_nat POLL_ATTEMPTS * Duration_from_secs 1) by reflexivity.
  assert (Hp : 0 <= Z.of_nat POLL_ATTEMPTS * POLL_INTERVAL) by (vm_compute; discriminate).
  assert (Hc : 0 <= Z.of_nat POLL_ATTEMPTS * Duration_from_secs 1) by (vm_compute; discriminate).
  assert (Hr : forall i, sm_within _ (poll_ready ca i POLL_ATTEMPTS)) by (intros; apply poll_ready_slept).
  assert (Hg : forall i, sm_within _ (poll_certificate ca i POLL_ATTEMPTS)) by (intros; apply poll_certificate_slept).
  rewrite H180. clear H180. unfold acquire_cert, order_cert.
  set (tp := Z.of_nat POLL_ATTEMPTS * POLL_INTERVAL) in *.
  set (tc := Z.of_nat POLL_ATTEMPTS * Duration_from_secs 1) in *.
  clearbody tp tc. generalize dependent POLL_ATTEMPTS. intros n Hr Hg.
  do 3 (apply slept_skip; [lia|within|intros ?]). case_match; [apply (slept_weaken 0); [lia|within]|].
  replace (tp + tc) with ((tp + tc) + 0) by lia. apply sm_slept_bind; [lia| |intros; within].
  do 5 (apply slept_skip; [lia|within|intros ?]). apply sm_slept_bind; [lia|apply Hr|intros _].
  do 3 (apply slept_skip; [lia|within|intros ?]). replace tc with (tc + 0) by lia.
  apply sm_slept_bind; [lia|apply Hg|]. intros. within.
Qed.

(** ** Witnesses *)

#[local] Existing Instance toy_base64.
#[local] Existing Instance toy_base64_laws.
#[local] Existing Instance toy_prelude.

(** Certificates whose first byte is the day of their [notAfter]. *)
Definition toy_not_after (der : bytes) : option Z := Some (hd 0 der * 86400).

Definition toy_challenge : Challenge := {| ch_type := Http01; ch_url := lit "u"; ch_token := lit "tok" |}.

Definition toy_authorization : Authorization :=
  {| au_challenges := [{| ch_type := Dns01; ch_url := lit "d"; ch_token := lit "dns" |}; toy_challenge] |}.

Definition toy_key_pair (key : bytes) : KeyPair :=
  {| kp_pem := pem_file [10] [toy_block PRIVATE_KEY key]; kp_der := key |}.

(** An authority that issues [cert] at once. *)
Definition toy_ca (cert key : bytes) : Authority :=
  {| ca_creds_parse := fun _ => Ok 0; ca_creds_print := fun _ => Ok (lit "{}");
     ca_account_restore := fun _ => Ok 0; ca_account_create := fun _ _ => Ok (0, 0);
     ca_new_order := fun _ _ => Ok tt; ca_authorizations := Ok [toy_authorization];
     ca_key_authorization := fun c => ch_token c ++ lit ".thumb"; ca_set_ready := fun _ => Ok tt;
     ca_refresh := fun _ => Ok OReady; ca_key_generate := Ok (toy_key_pair key);
     ca_csr := fun _ _ => Ok []; ca_finalize := fun _ => Ok tt;
     ca_certificate := fun _ => Ok (Some (pem_file [10] [toy_block CERTIFICATE cert])) |}.

Definition toy_acme_world (d : Disk) : AcmeWorld :=
  {| aw_disk := d; aw_challenges := ∅; aw_log := []; aw_slept := 0 |}.

Abbreviation toy_acquire ca day w :=
  (acquire_cert (fun e => e) (fun e => e) toy_not_after ca (day * DAY) (lit "mailto:a") (lit "example.com")
     None (lit "/var/lib/krot") w).

Lemma challenge_answered_witness : exists k,
  http_handle (fun _ => HComplete [] (Some (ACME_PATH_PREFIX ++ lit "tok"))) 0 [] (lit "example.com")
    (rw_reg sample_world) {[ lit "tok" := lit "tok.thumb" ]} [Ok (lit "GET")] = Some k /\
  (k []).1 = Ok (Answered (write_body (lit "200 OK") plain_text (lit "tok.thumb"))).
Proof.
  apply (challenge_answered (fun e => e) (fun e => e) toy_not_after (toy_ca [100] [3]) 0 (lit "mailto:a")
    (lit "example.com") (lit "/var/lib/krot") None (toy_acme_world toy_disk) [toy_authorization]
    _ (rw_reg sample_world) [] [Ok (lit "GET")] [] (lit "GET") [] (lit "u") _ toy_authorization toy_challenge).
  - reflexivity.
  - apply (bool_decide_unpack _). vm_compute. exact I.
  - reflexivity.
  - vm_compute. do 3 right. left.
  - left.
  - reflexivity.
  - vm_compute. reflexivity.
Defined.

Lemma certificate_reused_witness :
  toy_acquire (toy_ca [7] [8]) 60
    {| aw_disk := set_calls [] (aw_disk (toy_acquire (toy_ca [100] [3]) 50 (toy_acme_world toy_disk)).2);
       aw_challenges := ∅; aw_log := []; aw_slept := 0 |} =
  (Ok ([[100]], [3]),
    {| aw_disk := set_calls [] (aw_disk (toy_acquire (toy_ca [100] [3]) 50 (toy_acme_world toy_disk)).2);
       aw_challenges := ∅; aw_log := []; aw_slept := 0 |}).
Proof.
  apply (certificate_reused (fun e => e) (fun e => e) toy_not_after (toy_ca [100] [3]) (toy_ca [7] [8])
    (50 * DAY) (60 * DAY) (lit "mailto:a") (lit "example.com") (lit "/var/lib/krot") None
    (toy_acme_world toy_disk) (toy_acquire (toy_ca [100] [3]) 50 (toy_acme_world toy_disk)).2
    _ [100] [] [3] 8640000).
  - intros kp [= <-]. exists [10], (toy_block PRIVATE_KEY [3]).
    split; [left; reflexivity|]. split; [|repeat split; reflexivity].
    split; [reflexivity|]. split; [solve_bytes|split; repeat constructor; done].
  - vm_compute. reflexivity.
  - reflexivity.
  - reflexivity.
  - reflexivity.
  - reflexivity.
  - vm_compute. discriminate.
Defined.

(** A renewal that fails between its two writes pairs the new certificate with the old key,
    and the next start takes the pair from the cache as it is. *)
Definition toy_old_pair : AcmeWorld :=
  let w := (toy_acquire (toy_ca [60] [3]) 10 (toy_acme_world toy_disk)).2 in
  toy_acme_world (set_calls (repeat None 10 ++ [Some (28, O)]) (aw_disk w)).

Example renewal_mixes_pairs :
  let w := (toy_acquire (toy_ca [150] [4]) 50 toy_old_pair).2 in
  (toy_acquire (toy_ca [7] [8]) 51 (toy_acme_world (set_calls [] (aw_disk w)))).1 = Ok ([[150]], [3]).
Proof. vm_compute. reflexivity. Qed.
