(* ===== verification/Accept.v ===== *)
(** * Accept: the accept loops and the start of the server

    The loops that turn connections into tasks: [run_until] and [worker] of
    [krot-server/src/server.rs] with [drain], [run_tcp_tunnel] of [tunnel.rs], the loops of
    [domain/http.rs] and [domain/https.rs], the listener of
    [krot-transport/src/tcp_listener.rs] and the fallback loop of [Server::start]; then
    [Server::start] and [run_multicore] themselves.

    What a loop waits for is a list of turns: each turn is what the [select!] finds ready.
    A spawned task is a number with what it was given; what the task does is
    [handle_connection] of [Server] and the handlers of [Router].  Sockets are a table;
    whether the operating system lets a socket bind is a parameter. *)

From Stdlib Require Import Sorted.
From S2P Require Import Prelude RustStr Wire Framing Types Registry Rate Keys Admin Handshake Peers Metrics Config Http LoginPage LocalAuth ClientConfig Certs Session Server Sni Router Acme.

Local Open Scope Z_scope.

(** ** The loop of a QUIC endpoint *)

(** The shutdown receiver a connection is given: a clone of the loop's own, or one whose
    value never changes. *)
Inductive ShutdownRx := Graceful | Never.

(** What one turn of the [select!] finds: the states of the shutdown watch observed, a
    connection ([Some None]: the endpoint is closed), a task of the set that has ended. *)
Record QuicTurn (I : Type) := {
  qt_shutdown : list Watch;
  qt_incoming : option (option I);
  qt_joined : option nat;
}.
Arguments qt_shutdown {I} _.
Arguments qt_incoming {I} _.
Arguments qt_joined {I} _.

(** The [JoinSet], every task spawned so far with its connection and receiver, and the tasks
    that were joined. *)
Record Tasks (I : Type) := {
  ts_live : list nat;
  ts_spawned : list (nat * I * ShutdownRx);
  ts_joined : list nat;
}.
Arguments ts_live {I} _.
Arguments ts_spawned {I} _.
Arguments ts_joined {I} _.

Definition no_tasks {I} : Tasks I := {| ts_live := []; ts_spawned := []; ts_joined := [] |}.

(** [tasks.spawn(handle_connection(inc, shared, rx))]. *)
Definition spawn {I} (inc : I) (rx : ShutdownRx) (t : Tasks I) : Tasks I :=
  let id := length (ts_spawned t) in
  {| ts_live := ts_live t ++ [id]; ts_spawned := ts_spawned t ++ [(id, inc, rx)];
     ts_joined := ts_joined t |}.

(** [tasks.join_next()] yields [id]. *)
Definition join {I} (id : nat) (t : Tasks I) : Tasks I :=
  if bool_decide (id ∈ ts_live t) then
    {| ts_live := filter (fun x => x <> id) (ts_live t); ts_spawned := ts_spawned t;
       ts_joined := ts_joined t ++ [id] |}
  else t.

(** The loop, and whether it has ended; the [select!] is [biased]. *)
Fixpoint accept_loop {I} (turns : list (QuicTurn I)) (t : Tasks I) : bool * Tasks I :=
  match turns with
  | [] => (false, t)
  | turn :: turns =>
    if wait_shutdown (qt_shutdown turn) then (true, t)
    else match qt_incoming turn with
    | Some (Some inc) => accept_loop turns (spawn inc Graceful t)
    | Some None => (true, t)
    | None =>
      match qt_joined turn with
      | Some id => accept_loop turns (join id t)
      | None => accept_loop turns t
      end
    end
  end.

(** [drain]: the tasks that end, each with the time since the drain began; at the deadline,
    or with no task left, the rest of the set is dropped, which aborts its tasks. *)
Fixpoint drain {I} (ends : list (Z * nat)) (t : Tasks I) : Tasks I :=
  match ts_live t, ends with
  | [], _ | _, [] => t
  | _, (at_, id) :: ends => if SHUTDOWN_DEADLINE <? at_ then t else drain ends (join id t)
  end.

(** How a loop ended: the tasks it spawned, those that ran to their end, those aborted with
    the set, and the close of the endpoint. *)
Record LoopEnd (I : Type) := {
  le_spawned : list (nat * I * ShutdownRx);
  le_joined : list nat;
  le_aborted : list nat;
  le_close : Z * str;
}.
Arguments le_spawned {I} _.
Arguments le_joined {I} _.
Arguments le_aborted {I} _.
Arguments le_close {I} _.

(** [Server::run_until]; [None] while the loop runs. *)
Definition run_until {I} (turns : list (QuicTurn I)) (ends : list (Z * nat)) : option (LoopEnd I) :=
  match accept_loop turns no_tasks with
  | (false, _) => None
  | (true, t) =>
    let t := drain ends t in
    Some {| le_spawned := ts_spawned t; le_joined := ts_joined t; le_aborted := ts_live t;
            le_close := (0, lit "server shutdown") |}
  end.

(** ** The loops of the listeners *)

(** The loops of the two routers and of the fallback listener: a failed accept is waited out
    ([slept], in milliseconds), nothing ends the loop; [task] is what is spawned. *)
Fixpoint router_loop {C D E} (task : C -> D) (accepts : list (Result C E)) (spawned : list D) (slept : Z) :
    list D * Z :=
  match accepts with
  | [] => (spawned, slept)
  | Ok c :: accepts => router_loop task accepts (spawned ++ [task c]) slept
  | Err _ :: accepts => router_loop task accepts spawned (slept + 100)
  end.

Definition run_http_router {C} (accepts : list (Result C Z)) : list C * Z :=
  router_loop (fun c => c) accepts [] 0.

Definition run_https_router {C} (rx : ShutdownRx) (accepts : list (Result C Z)) : list (C * ShutdownRx) * Z :=
  router_loop (fun c => (c, rx)) accepts [] 0.

(** What the loop of a TCP tunnel meets: a public connection or a failed accept, or the close
    of the client's connection. *)
Inductive TunnelEvent (C : Type) :=
| TunAccept (r : Result C Z)
| TunClosed.
Arguments TunAccept {C} r.
Arguments TunClosed {C}.

(** [run_tcp_tunnel]: the visitors it spawned a handler for, and whether it has returned. *)
Fixpoint run_tcp_tunnel {C} (events : list (TunnelEvent C)) (spawned : list C) : list C * bool :=
  match events with
  | [] => (spawned, false)
  | TunAccept (Ok c) :: events => run_tcp_tunnel events (spawned ++ [c])
  | TunAccept (Err _) :: _ | TunClosed :: _ => (spawned, true)
  end.

(** The loops of the admin API and of the client's inspector: the connections one spawned a
    handler for, and whether it has returned; a failed accept ends it. *)
Fixpoint accept_until_error {C} (accepts : list (Result C Z)) (spawned : list C) : list C * bool :=
  match accepts with
  | [] => (spawned, false)
  | Ok c :: accepts => accept_until_error accepts (spawned ++ [c])
  | Err _ :: _ => (spawned, true)
  end.

Definition run_admin_api {C} (accepts : list (Result C Z)) : list C * bool := accept_until_error accepts [].

(** [spawn_admin_api]: an error of [bind] or [local_addr] is the caller's; otherwise the loop
    runs as a task and the address is returned. *)
Definition spawn_admin_api {A C} (bind : Result unit Z) (local_addr : Result A Z) (accepts : list (Result C Z)) :
    Result A Z * option (list C * bool) :=
  match bind with
  | Err e => (Err e, None)
  | Ok _ =>
    match local_addr with
    | Err e => (Err e, None)
    | Ok addr => (Ok addr, Some (run_admin_api accepts))
    end
  end.

(** [spawn_ui] of the inspector: the task ends silently when it cannot bind. *)
Definition spawn_ui {C} (bind : Result unit Z) (accepts : list (Result C Z)) : list C * bool :=
  match bind with
  | Err _ => ([], true)
  | Ok _ => accept_until_error accepts []
  end.

(** [TcpFallbackListener::accept]: a TCP connection and the outcome of its TLS handshake
    ([None]: the peer leaves it pending), with the protocol that was negotiated. *)
Record Inbound (C : Type) := { ib_conn : C; ib_tls : option (Result (option bytes) Z) }.
Arguments ib_conn {C} _.
Arguments ib_tls {C} _.

(** The next connection and the inbound ones left; [None] while it waits. *)
Fixpoint fallback_accept {C} (ins : list (Result (Inbound C) Z)) :
    option (Result C TErr * list (Result (Inbound C) Z)) :=
  match ins with
  | [] => None
  | Err e :: ins => Some (Err (TE_Io e), ins)
  | Ok ib :: ins =>
    match ib_tls ib with
    | None => None
    | Some (Err _) => fallback_accept ins
    | Some (Ok alpn) =>
      if bool_decide (alpn = Some ALPN_TCP) then Some (Ok (ib_conn ib), ins) else fallback_accept ins
    end
  end.

(** The [krot-tcp/1] loop of [Server::start] over everything that arrives, with the receiver
    whose sender the loop keeps; [fuel] bounds the accepts. *)
Fixpoint fallback_loop {C} (fuel : nat) (ins : list (Result (Inbound C) Z)) : list (Result C TErr) :=
  match fuel with
  | O => []
  | S fuel =>
    match fallback_accept ins with
    | None => []
    | Some (r, ins) => r :: fallback_loop fuel ins
    end
  end.

Definition run_fallback {C} (ins : list (Result (Inbound C) Z)) : list (C * ShutdownRx) * Z :=
  router_loop (fun c => (c, Never)) (fallback_loop (length ins) ins) [] 0.

(** ** Every connection is accounted for *)

Section LoopTheorems.
Context {I : Type}.

(** The set and the joined tasks are what was spawned, each exactly once, and each was given
    the graceful receiver. *)
Definition tasks_ok (t : Tasks I) : Prop :=
  Permutation (map (fun x => x.1.1) (ts_spawned t)) (ts_live t ++ ts_joined t) /\
  map (fun x => x.1.1) (ts_spawned t) = seq 0 (length (ts_spawned t)) /\
  Forall (fun x => x.2 = Graceful) (ts_spawned t).

Lemma spawn_tasks_ok inc t : tasks_ok t -> tasks_ok (spawn inc Graceful t).
Proof.
  intros (Hp & Hs & Hg). unfold tasks_ok, spawn. cbn. rewrite map_app, length_app. cbn.
  split_and!.
  - rewrite Hp, <-!app_assoc. apply Permutation_app_head, Permutation_app_comm.
  - rewrite Hs, seq_app. done.
  - apply Forall_app. auto.
Qed.

Lemma tasks_ok_NoDup t : tasks_ok t -> List.NoDup (ts_live t ++ ts_joined t).
Proof. intros (Hp & Hs & _). eapply Permutation_NoDup; [exact Hp|]. rewrite Hs. apply seq_NoDup. Qed.

Lemma filter_ne_absent (id : nat) (l : list nat) : id ∉ l -> filter (fun x => x <> id) l = l.
Proof.
  induction l as [|x l IH]; [done|]. intros [Hx Hl]%not_elem_of_cons.
  rewrite filter_cons, decide_True by auto. by rewrite IH.
Qed.

Lemma filter_ne_perm (id : nat) l :
  List.NoDup l -> id ∈ l -> Permutation l (id :: filter (fun x => x <> id) l).
Proof.
  induction 1 as [|x l Hx Hnd IH]; intros Hid; [by apply not_elem_of_nil in Hid|].
  apply elem_of_cons in Hid as [-> |Hid]; rewrite filter_cons.
  - rewrite decide_False by auto. rewrite filter_ne_absent; [done|]. by rewrite list_elem_of_In.
  - rewrite decide_True; [|intros ->; by apply list_elem_of_In in Hid].
    rewrite (IH Hid) at 1. apply perm_swap.
Qed.

Lemma join_tasks_ok id t : tasks_ok t -> tasks_ok (join id t).
Proof.
  intros Ht. pose proof (tasks_ok_NoDup t Ht) as Hnd. destruct Ht as (Hp & Hs & Hg). unfold join.
  case_bool_decide as Hid; [|done]. split_and!; cbn; [|done|done].
  rewrite Hp. apply NoDup_app_remove_r in Hnd. rewrite (filter_ne_perm id _ Hnd Hid) at 1.
  cbn. rewrite app_assoc, <-Permutation_cons_append. done.
Qed.

Lemma accept_loop_ok turns t : tasks_ok t -> tasks_ok (accept_loop turns t).2.
Proof.
  revert t. induction turns as [|turn turns IH]; intros t Ht; cbn; [done|].
  destruct (wait_shutdown (qt_shutdown turn)); [done|].
  destruct (qt_incoming turn) as [[inc|]|]; [by apply IH, spawn_tasks_ok|done|].
  destruct (qt_joined turn) as [id|]; [by apply IH, join_tasks_ok|by apply IH].
Qed.

Lemma drain_ok ends t : tasks_ok t -> tasks_ok (drain ends t).
Proof.
  revert t. induction ends as [|[at_ id] ends IH]; intros t Ht; cbn; [by destruct (ts_live t)|].
  destruct (ts_live t); [done|]. destruct (SHUTDOWN_DEADLINE <? at_); [done|]. by apply IH, join_tasks_ok.
Qed.

(** The turn at which a loop stops. *)
Definition stops (turn : QuicTurn I) : Prop :=
  wait_shutdown (qt_shutdown turn) = true \/ qt_incoming turn = Some None.

Lemma accept_loop_spec turns t t' :
  accept_loop turns t = (true, t') ->
  exists pre turn post, turns = pre ++ turn :: post /\ Forall (fun x => ~ stops x) pre /\ stops turn /\
    map (fun x => x.1.2) (ts_spawned t') =
      map (fun x => x.1.2) (ts_spawned t) ++ omap (fun x => mjoin (qt_incoming x)) pre.
Proof.
  revert t. induction turns as [|turn turns IH]; intros t E; [done|]. cbn in E.
  destruct (wait_shutdown (qt_shutdown turn)) eqn:Ew.
  { injection E as <-. exists [], turn, turns. rewrite app_nil_r. unfold stops. auto. }
  assert (Hgo : forall t1, accept_loop turns t1 = (true, t') -> qt_incoming turn <> Some None ->
    map (fun x => x.1.2) (ts_spawned t1) =
      map (fun x => x.1.2) (ts_spawned t) ++ omap (fun x => mjoin (qt_incoming x)) [turn] ->
    exists pre turn' post, turn :: turns = pre ++ turn' :: post /\ Forall (fun x => ~ stops x) pre /\
      stops turn' /\ map (fun x => x.1.2) (ts_spawned t') =
        map (fun x => x.1.2) (ts_spawned t) ++ omap (fun x => mjoin (qt_incoming x)) pre).
  { intros t1 E1 Hne H1. destruct (IH t1 E1) as (pre & turn' & post & -> & Hpre & Hst & Hm).
    exists (turn :: pre), turn', post. split_and!; [done| |done|].
    - constructor; [|done]. intros [?|?]; congruence.
    - rewrite Hm, H1, <-app_assoc. f_equal. cbn. by destruct (mjoin (qt_incoming turn)). }
  destruct (qt_incoming turn) as [[inc|]|] eqn:Ei.
  - apply (Hgo _ E); [done|]. unfold spawn. cbn. by rewrite map_app, Ei.
  - injection E as <-. exists [], turn, turns. rewrite app_nil_r. unfold stops. auto.
  - assert (Hj : forall id, ts_spawned (join id t) = ts_spawned t) by (intros; unfold join; by case_bool_decide).
    destruct (qt_joined turn); apply (Hgo _ E); try done; cbn; rewrite Ei; cbn; by rewrite ?Hj, app_nil_r.
Qed.

Lemma drain_spawned ends (t : Tasks I) : ts_spawned (drain ends t) = ts_spawned t.
Proof.
  revert t. induction ends as [|[at_ id] ends IH]; intros t; cbn; [by destruct (ts_live t)|].
  destruct (ts_live t); [done|]. destruct (SHUTDOWN_DEADLINE <? at_); [done|]. rewrite IH.
  unfold join. by case_bool_decide.
Qed.

Lemma join_live id (t : Tasks I) x : x ∈ ts_live (join id t) -> x ∈ ts_live t /\ x <> id.
Proof.
  unfold join. case_bool_decide as Hid; cbn; [|intros Hx; split; [done|by intros ->]].
  rewrite list_elem_of_filter. tauto.
Qed.

Lemma drain_live_sub ends (t : Tasks I) id : id ∈ ts_live (drain ends t) -> id ∈ ts_live t.
Proof.
  revert t. induction ends as [|[a x] ends IH]; intros t; cbn; destruct (ts_live t) eqn:E; rewrite ?E; try done.
  destruct (SHUTDOWN_DEADLINE <? a); [by rewrite E|]. intros Hy%IH%join_live. rewrite E in Hy. tauto.
Qed.

(** A task the drain leaves did not end by the deadline. *)
Lemma drain_late ends (t : Tasks I) at_ id :
  StronglySorted Z.le (map fst ends) -> (at_, id) ∈ ends -> id ∈ ts_live (drain ends t) ->
  SHUTDOWN_DEADLINE < at_.
Proof.
  revert t. induction ends as [|[a x] ends IH]; intros t Hs Hin Hl; [by apply not_elem_of_nil in Hin|].
  cbn in Hs, Hl. apply StronglySorted_inv in Hs as [Hs Hf].
  destruct (ts_live t) eqn:El; [rewrite El in Hl; by apply not_elem_of_nil in Hl|].
  destruct (Z.ltb_spec SHUTDOWN_DEADLINE a).
  - apply elem_of_cons in Hin as [[= -> ->]|Hin]; [done|].
    rewrite List.Forall_forall in Hf. assert (a <= at_); [|lia]. apply Hf, in_map_iff.
    exists (at_, id). split; [done|by apply list_elem_of_In].
  - apply elem_of_cons in Hin as [[= -> ->]|Hin]; [|by eapply IH].
    exfalso. apply drain_live_sub, join_live in Hl. tauto.
Qed.

(** C16: Shutdown is orderly.  A loop whose shutdown signal comes, or whose endpoint closes,
    returns; it accepted exactly the connections offered before that turn, gave each of
    them its own shutdown receiver and one task; when it returns every task has run to its
    end or is aborted, and an aborted one had not ended within the five seconds. *)
Theorem shutdown_orderly (turns : list (QuicTurn I)) (ends : list (Z * nat))
    (Hstop : Exists stops turns) (Hsorted : StronglySorted Z.le (map fst ends)) :
  exists e pre turn post, run_until turns ends = Some e /\
    turns = pre ++ turn :: post /\ Forall (fun x => ~ stops x) pre /\ stops turn /\
    map (fun x => x.1.2) (le_spawned e) = omap (fun x => mjoin (qt_incoming x)) pre /\
    Forall (fun x => x.2 = Graceful) (le_spawned e) /\
    NoDup (map (fun x => x.1.1) (le_spawned e)) /\
    Permutation (map (fun x => x.1.1) (le_spawned e)) (le_aborted e ++ le_joined e) /\
    forall id at_, id ∈ le_aborted e -> (at_, id) ∈ ends -> SHUTDOWN_DEADLINE < at_.
Proof.
  unfold run_until.
  assert (Hend : forall t, (accept_loop turns t).1 = true).
  { clear Hsorted. induction Hstop as [turn turns Hs|turn turns _ IH]; intros t; cbn.
    - destruct (wait_shutdown (qt_shutdown turn)) eqn:Ew; [done|]. destruct Hs as [Hs|Hs]; [congruence|].
      by rewrite Hs.
    - destruct (wait_shutdown _); [done|]. destruct (qt_incoming turn) as [[|]|]; [apply IH|done|].
      destruct (qt_joined turn); apply IH. }
  specialize (Hend no_tasks). destruct (accept_loop turns no_tasks) as [b t] eqn:E. cbn in Hend. subst b.
  destruct (accept_loop_spec turns no_tasks t E) as (pre & turn & post & Ht & Hpre & Hst & Hm).
  assert (Hok : tasks_ok (drain ends t)).
  { apply drain_ok. replace t with (accept_loop turns no_tasks).2 by by rewrite E.
    apply accept_loop_ok. repeat split; constructor. }
  destruct Hok as (Hp & Hs & Hg). eexists _, pre, turn, post. split_and!; try done; cbn.
  - by rewrite drain_spawned, Hm.
  - rewrite Hs. apply NoDup_seq.
  - intros id at_ Hid Hin. by eapply drain_late.
Qed.

End LoopTheorems.

(** ** Listeners *)

(** Every visitor a router accepts is served, whatever accepts failed before. *)
Lemma router_loop_serves {C D E} (task : C -> D) (accepts : list (Result C E)) spawned slept :
  (router_loop task accepts spawned slept).1 = spawned ++ map task (omap result_ok accepts).
Proof.
  revert spawned slept. induction accepts as [|[c|e] accepts IH]; intros spawned slept; cbn.
  - by rewrite app_nil_r.
  - by rewrite IH, <-app_assoc.
  - apply IH.
Qed.

(** A handshake that ended without [krot-tcp/1]. *)
Definition refused_inbound {C} (r : Result (Inbound C) Z) : Prop :=
  exists ib, r = Ok ib /\ match ib_tls ib with
                         | Some (Ok alpn) => alpn <> Some ALPN_TCP
                         | Some (Err _) => True
                         | None => False
                         end.

(** The fallback listener yields the first connection that negotiated [krot-tcp/1]; those
    before it failed their handshake or negotiated something else. *)
Lemma fallback_accept_spec {C} (ins rest : list (Result (Inbound C) Z)) c :
  fallback_accept ins = Some (Ok c, rest) ->
  exists skipped ib, ins = skipped ++ Ok ib :: rest /\ Forall refused_inbound skipped /\
    ib_conn ib = c /\ ib_tls ib = Some (Ok (Some ALPN_TCP)).
Proof.
  induction ins as [|[ib|e] ins IH]; cbn; [done| |done].
  destruct (ib_tls ib) as [[alpn|e]|] eqn:E; [|intros H|done].
  - case_bool_decide as Ha.
    + intros [= <- <-]. exists [], ib. subst. auto.
    + intros H. destruct (IH H) as (sk & ib' & -> & Hs & Hc & Ht). exists (Ok ib :: sk), ib'.
      split_and!; try done. constructor; [|done]. exists ib. by rewrite E.
  - destruct (IH H) as (sk & ib' & -> & Hs & Hc & Ht). exists (Ok ib :: sk), ib'.
    split_and!; try done. constructor; [|done]. exists ib. by rewrite E.
Qed.

Lemma fallback_accept_shrinks {C} (ins rest : list (Result (Inbound C) Z)) r :
  fallback_accept ins = Some (r, rest) -> (length rest < length ins)%nat.
Proof.
  induction ins as [|[ib|e] ins IH]; cbn; [done| |by intros [= _ <-]; lia].
  destruct (ib_tls ib) as [[alpn|e]|]; [case_bool_decide| |done].
  - intros [= _ <-]. lia.
  - intros Hr%IH. lia.
  - intros Hr%IH. lia.
Qed.

(** The fuel of the fallback loop is enough: more changes nothing. *)
Lemma fallback_loop_fuel {C} fuel (ins : list (Result (Inbound C) Z)) :
  (length ins <= fuel)%nat -> fallback_loop fuel ins = fallback_loop (length ins) ins.
Proof.
  revert ins. induction fuel as [fuel IH] using lt_wf_ind. intros ins Hl.
  destruct ins as [|x ins]; [by destruct fuel|]. destruct fuel as [|fuel]; [cbn in Hl; lia|].
  cbn [fallback_loop length]. destruct (fallback_accept (x :: ins)) as [[r rest]|] eqn:E; [|done].
  apply fallback_accept_shrinks in E. cbn in E, Hl. f_equal.
  rewrite (IH fuel) by lia. symmetry. apply IH; lia.
Qed.

(** Connections of the fallback transport are never told of a shutdown: each is spawned with
    a receiver that never changes. *)
Lemma fallback_never_told {C} (ins : list (Result (Inbound C) Z)) :
  Forall (fun x => x.2 = Never) (run_fallback ins).1.
Proof. unfold run_fallback. rewrite router_loop_serves. cbn. apply Forall_map. by apply Forall_true. Qed.

(** One failed accept ends the loop of a TCP tunnel: the visitors after it are not served,
    while the tunnel stays registered. *)
Example tunnel_ends_on_failed_accept :
  run_tcp_tunnel [TunAccept (Ok 1); TunAccept (Err 24); TunAccept (Ok 2)] [] = ([1], true).
Proof. reflexivity. Qed.

(** The same holds for the admin API and the inspector: they serve the connections before the
    first failed accept and none after it. *)
Lemma accept_until_error_stops {C} (after : list (Result C Z)) (cs : list C) e spawned :
  accept_until_error (map Ok cs ++ Err e :: after) spawned = (spawned ++ cs, true).
Proof.
  revert spawned. induction cs as [|c cs IH]; intros spawned; cbn; [by rewrite app_nil_r|].
  by rewrite IH, <-app_assoc.
Qed.

Lemma admin_api_stops {C} (after : list (Result C Z)) (cs : list C) e :
  run_admin_api (map Ok cs ++ Err e :: after) = (cs, true) /\
  spawn_ui (Ok tt) (map Ok cs ++ Err e :: after) = (cs, true).
Proof. split; apply accept_until_error_stops. Qed.

(** One peer that opens a TCP connection and sends nothing holds up every later one. *)
Example fallback_stalls :
  run_fallback [Ok {| ib_conn := 1; ib_tls := None |};
                Ok {| ib_conn := 2; ib_tls := Some (Ok (Some ALPN_TCP)) |}] = ([], 0).
Proof. reflexivity. Qed.
