(* ===== verification/Inspector.v ===== *)
(** * Inspector: the client's record of requests

    [krot-client/src/inspector.rs]: a ring of the last [HISTORY_CAP] requests with their
    responses, the acceptance records the server sends ahead of a stream, and the small HTTP
    interface that shows them.  Every operation runs under the write lock, so the state is
    passed along; clock readings are arguments. *)

From S2P Require Import Prelude RustStr Wire Http Sni.

Local Open Scope Z_scope.

(** ** Data *)

Definition HISTORY_CAP : nat := 200.

Record Entry := {
  en_id : Z;
  en_time_ms : Z;
  en_method : option str;
  en_path : option str;
  en_status : option Z;
  en_duration_ms : option Z;
  en_peer : option str;
  en_host : option str;
}.

Record PendingAccept := { pa_peer : str; pa_host : option str }.

(** [State]; [is_entries] is oldest first. *)
Record InspectorState := {
  is_next_id : Z;
  is_entries : list Entry;
  is_pending_start : gmap Z Z;
  is_pending_accept : option PendingAccept;
}.

Definition Inspector_new : InspectorState :=
  {| is_next_id := 1; is_entries := []; is_pending_start := ∅; is_pending_accept := None |}.

(** ** Operations *)

(** [now_ms] is the wall clock in milliseconds. *)
Definition flush_pending_accept_locked (now_ms : Z) (s : InspectorState) : InspectorState :=
  match is_pending_accept s with
  | None => s
  | Some pending =>
    let entry := {| en_id := is_next_id s; en_time_ms := now_ms; en_method := None; en_path := None;
                    en_status := None; en_duration_ms := None; en_peer := Some (pa_peer pending);
                    en_host := pa_host pending |} in
    let entries := if Nat.eqb (length (is_entries s)) HISTORY_CAP then tl (is_entries s)
                   else is_entries s in
    {| is_next_id := wrap 64 (is_next_id s + 1); is_entries := entries ++ [entry];
       is_pending_start := is_pending_start s; is_pending_accept := None |}
  end.

Definition record_accept (now_ms : Z) (prelude : InspectionPrelude) (s : InspectorState) :
    InspectorState :=
  let host := (fun h => if bool_decide (hm_host h = []) then default [] (hm_sni h) else hm_host h)
                <$> ip_http prelude in
  let is_passthrough := match ip_http prelude with
                        | Some h => bool_decide (is_Some (hm_sni h))
                        | None => false
                        end in
  let s := {| is_next_id := is_next_id s; is_entries := is_entries s;
              is_pending_start := is_pending_start s;
              is_pending_accept := Some {| pa_peer := ip_peer prelude; pa_host := host |} |} in
  if is_passthrough then flush_pending_accept_locked now_ms s else s.

Definition record_request (now now_ms : Z) (method path : option str) (s : InspectorState) :
    Z * InspectorState :=
  let id := is_next_id s in
  let starts := <[id := now]> (is_pending_start s) in
  let '(peer, host) := match is_pending_accept s with
                       | Some p => (Some (pa_peer p), pa_host p)
                       | None => (None, None)
                       end in
  let entry := {| en_id := id; en_time_ms := now_ms; en_method := method; en_path := path;
                  en_status := None; en_duration_ms := None; en_peer := peer; en_host := host |} in
  let '(entries, starts) :=
    if Nat.eqb (length (is_entries s)) HISTORY_CAP then
      match is_entries s with
      | e :: rest => (rest, delete (en_id e) starts)
      | [] => ([], starts)
      end
    else (is_entries s, starts) in
  (id, {| is_next_id := wrap 64 (id + 1); is_entries := entries ++ [entry];
          is_pending_start := starts; is_pending_accept := None |}).

(** Elapsed nanoseconds as whole milliseconds, at least one. *)
Definition elapsed_ms (now start : Z) : Z := wrap 64 (Z.max 1 (Z.max 0 (now - start) / 1000000)).

Definition answer_entry (status : Z) (duration : option Z) (e : Entry) : Entry :=
  {| en_id := en_id e; en_time_ms := en_time_ms e; en_method := en_method e; en_path := en_path e;
     en_status := Some status; en_duration_ms := duration; en_peer := en_peer e; en_host := en_host e |}.

(** [iter_mut().find(|e| e.id == id)]: the first such entry is changed. *)
Fixpoint update_first (id : Z) (f : Entry -> Entry) (l : list Entry) : list Entry :=
  match l with
  | [] => []
  | e :: l => if en_id e =? id then f e :: l else e :: update_first id f l
  end.

Definition record_response (now id status : Z) (s : InspectorState) : InspectorState :=
  let start := is_pending_start s !! id in
  {| is_next_id := is_next_id s;
     is_entries := update_first id (answer_entry status (elapsed_ms now <$> start)) (is_entries s);
     is_pending_start := delete id (is_pending_start s);
     is_pending_accept := is_pending_accept s |}.

(** [snapshot]: newest first. *)
Definition inspector_snapshot (s : InspectorState) : list Entry := rev (is_entries s).

(** ** The user interface *)

Section Ui.
Context `{Httparse}.

(** [serde_json::to_string] of the entries, and the static page. *)
Context (to_json : list Entry -> bytes) (html_page : bytes).

(** The read loop; a read that fails or misses the deadline is an [Err] of the stream. *)
Fixpoint ui_read (fuel : nat) (buf : bytes) (sock : TcpStream) : option (Result bytes Z) :=
  match fuel with
  | O => None
  | S fuel =>
    match tcp_read 1024 sock with
    | (Err e, _) => Some (Err e)
    | (Ok [], _) => Some (Ok buf)
    | (Ok got, sock) =>
      let buf := buf ++ got in
      if bool_decide (is_Some (find_head_end buf)) then Some (Ok buf)
      else if 8 * 1024 <? len buf then Some (Ok buf)
      else ui_read fuel buf sock
    end
  end.

Definition ui_write_response (status content_type : str) (body : bytes) : bytes :=
  str_bytes (response_head status content_type (len body)) ++ body.

Definition ENTRIES_PATH : str := lit "/api/entries".

(** What a connection to the interface is answered. *)
Definition ui_handle (sock : TcpStream) (s : InspectorState) : option (Result bytes Z) :=
  match ui_read (8 * 1024 + 2) [] sock with
  | None => None
  | Some (Err e) => Some (Err e)
  | Some (Ok buf) =>
    let path := default [47] (hh_path (parse_request buf).2) in
    Some (Ok (if bool_decide (path = ENTRIES_PATH)
              then ui_write_response (lit "200 OK") (lit "application/json") (to_json (inspector_snapshot s))
              else ui_write_response (lit "200 OK") (lit "text/html; charset=utf-8") html_page))
  end.
End Ui.

Lemma ui_read_total fuel buf sock :
  8 * 1024 + 2 - len buf <= Z.of_nat fuel -> len buf <= 8 * 1024 + 1 -> is_Some (ui_read fuel buf sock).
Proof.
  revert buf sock. induction fuel as [|fuel IH]; intros buf sock Hf Hb; [lia|]. cbn [ui_read].
  destruct (tcp_read 1024 sock) as [[[|b got]|e] sock1]; [done| |done].
  case_bool_decide; [done|].
  destruct (Z.ltb_spec (8 * 1024) (len (buf ++ b :: got))) as [|Hl]; [done|].
  rewrite len_app, len_cons in Hl. pose proof (len_nonneg got).
  apply IH; rewrite len_app, len_cons; lia.
Qed.

(** ** The ring is the tail of the full history *)

Inductive InspOp :=
| OpAccept (now_ms : Z) (prelude : InspectionPrelude)
| OpRequest (now now_ms : Z) (method path : option str)
| OpResponse (now id status : Z).

Definition insp_step (s : InspectorState) (o : InspOp) : InspectorState :=
  match o with
  | OpAccept now_ms prelude => record_accept now_ms prelude s
  | OpRequest now now_ms method path => (record_request now now_ms method path s).2
  | OpResponse now id status => record_response now id status s
  end.

Definition insp_run : list InspOp -> InspectorState := foldl insp_step Inspector_new.

(** The specification: the same record without a bound, ids counted without overflow. *)
Record History := {
  hi_log : list Entry;
  hi_starts : gmap Z Z;
  hi_accept : option PendingAccept;
}.

Definition hi_next (h : History) : Z := 1 + len (hi_log h).

Definition hi_add (now_ms : Z) (method path : option str) (p : option PendingAccept) (h : History) :
    list Entry :=
  hi_log h ++ [{| en_id := hi_next h; en_time_ms := now_ms; en_method := method; en_path := path;
                  en_status := None; en_duration_ms := None; en_peer := pa_peer <$> p;
                  en_host := p ≫= pa_host |}].

Definition hi_step (h : History) (o : InspOp) : History :=
  match o with
  | OpAccept now_ms prelude =>
    let host := (fun m => if bool_decide (hm_host m = []) then default [] (hm_sni m) else hm_host m)
                  <$> ip_http prelude in
    let p := Some {| pa_peer := ip_peer prelude; pa_host := host |} in
    if bool_decide (is_Some (ip_http prelude ≫= hm_sni))
    then {| hi_log := hi_add now_ms None None p h; hi_starts := hi_starts h; hi_accept := None |}
    else {| hi_log := hi_log h; hi_starts := hi_starts h; hi_accept := p |}
  | OpRequest now now_ms method path =>
    {| hi_log := hi_add now_ms method path (hi_accept h) h;
       hi_starts := <[hi_next h := now]> (hi_starts h); hi_accept := None |}
  | OpResponse now id status =>
    {| hi_log := map (fun e => if en_id e =? id
                               then answer_entry status (elapsed_ms now <$> (hi_starts h !! id)) e
                               else e) (hi_log h);
       hi_starts := delete id (hi_starts h); hi_accept := hi_accept h |}
  end.

Definition hi_run : list InspOp -> History :=
  foldl hi_step {| hi_log := []; hi_starts := ∅; hi_accept := None |}.

(** The last [n] elements. *)
Definition last_n {A} (n : nat) (l : list A) : list A := drop (length l - n) l.

(** The ids of the log are [1, 2, ...]. *)
Definition numbered (l : list Entry) : Prop := map en_id l = seqZ 1 (len l).

(** The ring and the history agree on all that is still shown. *)
Record Shows (s : InspectorState) (h : History) : Prop := {
  sh_next : is_next_id s = hi_next h;
  sh_entries : is_entries s = last_n HISTORY_CAP (hi_log h);
  sh_numbered : numbered (hi_log h);
  sh_starts : forall e, e ∈ is_entries s -> is_pending_start s !! en_id e = hi_starts h !! en_id e;
  sh_accept : is_pending_accept s = hi_accept h;
  sh_fresh : forall id, hi_next h <= id -> is_pending_start s !! id = None /\ hi_starts h !! id = None;
}.

Lemma last_n_snoc {A} n (l : list A) x :
  (0 < n)%nat ->
  last_n n (l ++ [x]) = (if Nat.eqb (length (last_n n l)) n then tl (last_n n l) else last_n n l) ++ [x].
Proof.
  intros Hn. unfold last_n. rewrite length_app, length_drop. simpl length.
  destruct (Nat.eqb_spec (length l - (length l - n)) n).
  - replace (length l + 1 - n)%nat with (S (length l - n)) by lia.
    assert (S (length l - n) <= length l)%nat by lia.
    rewrite drop_app_le by done. f_equal.
    assert (Htl : forall m : list A, tl m = drop 1 m) by by intros [].
    rewrite Htl, drop_drop. f_equal. lia.
  - rewrite drop_app_le by lia. do 2 f_equal. lia.
Qed.

Lemma length_last_n {A} n (l : list A) : length (last_n n l) = Nat.min n (length l).
Proof. unfold last_n. rewrite length_drop. lia. Qed.

Lemma elem_of_last_n {A} n (l : list A) x : x ∈ last_n n l -> x ∈ l.
Proof. intros Hx. rewrite <-(take_drop (length l - n) l). apply elem_of_app. by right. Qed.

Lemma numbered_snoc l e : numbered l -> en_id e = 1 + len l -> numbered (l ++ [e]).
Proof.
  unfold numbered. intros Hl He. rewrite map_app, Hl, len_app. simpl. rewrite He.
  unfold len at 4. simpl. rewrite seqZ_app by (unfold len; lia). f_equal.
Qed.

Lemma numbered_id l e : numbered l -> e ∈ l -> 1 <= en_id e <= len l.
Proof.
  intros Hl He. assert (Hin : en_id e ∈ map en_id l) by (apply list_elem_of_fmap; eauto).
  rewrite Hl in Hin. apply elem_of_seqZ in Hin. lia.
Qed.

Lemma numbered_map l f : (forall e, en_id (f e) = en_id e) -> numbered l -> numbered (map f l).
Proof.
  intros Hf Hl. unfold numbered, len. rewrite length_map, map_map. rewrite (map_ext _ en_id) by done. exact Hl.
Qed.

Lemma numbered_NoDup l n : numbered l -> base.NoDup (map en_id (last_n n l)).
Proof.
  intros Hl. unfold last_n. rewrite <-skipn_map, Hl. generalize (length l - n)%nat as k. intros k.
  pose proof (NoDup_seqZ 1 (len l)) as Hd. rewrite <-(take_drop k (seqZ 1 (len l))) in Hd.
  by apply list.NoDup_app in Hd as (_ & _ & Hd).
Qed.

Lemma update_first_map id f l :
  base.NoDup (map en_id l) ->
  update_first id f l = map (fun e => if en_id e =? id then f e else e) l.
Proof.
  induction l as [|e l IH]; [done|]. simpl. intros [Hn Hd]%list.NoDup_cons.
  destruct (Z.eqb_spec (en_id e) id) as [<-|]; f_equal; [|by apply IH].
  symmetry. rewrite <-(map_id l) at 2. apply map_ext_in. intros x Hx.
  destruct (Z.eqb_spec (en_id x) (en_id e)) as [Heq|]; [|done]. exfalso. apply Hn. rewrite <-Heq.
  apply list_elem_of_fmap. exists x. split; [done|]. by apply list_elem_of_In.
Qed.

Definition make_room (l : list Entry) : list Entry :=
  if Nat.eqb (length l) HISTORY_CAP then tl l else l.

Lemma elem_of_make_room l e : e ∈ make_room l -> e ∈ l.
Proof. unfold make_room. destruct (Nat.eqb _ _); [|done]. destruct l; [done|]. by apply list_elem_of_further. Qed.

(** Adding an entry on both sides. *)
Lemma shows_push s h e starts starts' :
  Shows s h -> hi_next h + 1 < 2 ^ 64 -> en_id e = hi_next h ->
  (forall x, x ∈ make_room (is_entries s) ++ [e] -> starts !! en_id x = starts' !! en_id x) ->
  (forall id, hi_next h < id -> starts !! id = None /\ starts' !! id = None) ->
  Shows {| is_next_id := wrap 64 (is_next_id s + 1); is_entries := make_room (is_entries s) ++ [e];
           is_pending_start := starts; is_pending_accept := None |}
        {| hi_log := hi_log h ++ [e]; hi_starts := starts'; hi_accept := None |}.
Proof.
  intros [Hn He Hnum Hst Ha Hf] Hb Hid Hstarts Hfresh. split; simpl; try done.
  - rewrite Hn. unfold wrap, hi_next in *. simpl. rewrite len_app. change (len [e]) with 1.
    pose proof (len_nonneg (hi_log h)). rewrite Z.mod_small by lia. lia.
  - rewrite last_n_snoc by (unfold HISTORY_CAP; lia). unfold make_room. by rewrite He.
  - apply numbered_snoc; [done|]. rewrite Hid. done.
  - intros id Hle. apply Hfresh. unfold hi_next in *. simpl in Hle. rewrite len_app in Hle.
    change (len [e]) with 1 in Hle. lia.
Qed.

(** The start times after the oldest entry made room. *)
Definition evict_start (l : list Entry) (m : gmap Z Z) : gmap Z Z :=
  if Nat.eqb (length l) HISTORY_CAP then match l with e :: _ => delete (en_id e) m | [] => m end else m.

Lemma record_request_eq now now_ms method path s :
  record_request now now_ms method path s =
  (is_next_id s,
   {| is_next_id := wrap 64 (is_next_id s + 1);
      is_entries := make_room (is_entries s) ++
        [{| en_id := is_next_id s; en_time_ms := now_ms; en_method := method; en_path := path;
            en_status := None; en_duration_ms := None; en_peer := pa_peer <$> is_pending_accept s;
            en_host := is_pending_accept s ≫= pa_host |}];
      is_pending_start := evict_start (is_entries s) (<[is_next_id s := now]> (is_pending_start s));
      is_pending_accept := None |}).
Proof.
  unfold record_request, make_room, evict_start.
  destruct (is_pending_accept s), (Nat.eqb _ _), (is_entries s); done.
Qed.

Lemma evict_start_kept l m x :
  base.NoDup (map en_id l) -> x ∈ make_room l -> evict_start l m !! en_id x = m !! en_id x.
Proof.
  unfold make_room, evict_start. intros Hd Hx. destruct (Nat.eqb _ _); [|done].
  destruct l as [|e l]; [done|]. apply list.NoDup_cons in Hd as [Hd _]. apply lookup_delete_ne.
  intros Heq. apply Hd. rewrite Heq. apply list_elem_of_fmap. by eauto.
Qed.

Lemma shown_ids s h e : Shows s h -> e ∈ is_entries s -> 1 <= en_id e < hi_next h.
Proof.
  intros Hs He. rewrite (sh_entries _ _ Hs) in He. apply elem_of_last_n in He.
  pose proof (numbered_id _ _ (sh_numbered _ _ Hs) He). unfold hi_next. lia.
Qed.

Lemma shows_request s h now now_ms method path :
  Shows s h -> hi_next h + 1 < 2 ^ 64 ->
  Shows (record_request now now_ms method path s).2 (hi_step h (OpRequest now now_ms method path)).
Proof.
  intros Hs Hb. rewrite record_request_eq. cbn [snd hi_step]. unfold hi_add.
  rewrite <-(sh_accept _ _ Hs), <-(sh_next _ _ Hs).
  apply shows_push; [done|done|apply Hs|..].
  { intros x [Hx| ->%list_elem_of_singleton]%elem_of_app; simpl.
  - rewrite evict_start_kept; [|rewrite (sh_entries _ _ Hs); apply numbered_NoDup, Hs|done].
    apply elem_of_make_room in Hx. pose proof (shown_ids _ _ _ Hs Hx).
    rewrite !lookup_insert_ne by (rewrite (sh_next _ _ Hs); lia). by apply (sh_starts _ _ Hs).
  - rewrite lookup_insert_eq. unfold evict_start. destruct (Nat.eqb _ _); [|by rewrite lookup_insert_eq].
    destruct (is_entries s) as [|e0 rest] eqn:E; [by rewrite lookup_insert_eq|].
    assert (e0 ∈ is_entries s) as Hin by (rewrite E; apply list_elem_of_here).
    pose proof (shown_ids _ _ _ Hs Hin). rewrite lookup_delete_ne by (rewrite (sh_next _ _ Hs); lia).
    by rewrite lookup_insert_eq. }
  intros id Hid. rewrite (sh_next _ _ Hs), lookup_insert_ne by lia.
  destruct (sh_fresh _ _ Hs id ltac:(lia)) as [H1 H2]. split; [|done].
  unfold evict_start. repeat case_match; rewrite ?lookup_delete_None, ?lookup_insert_ne by lia; auto.
Qed.

Lemma shows_accept s h now_ms prelude :
  Shows s h -> hi_next h + 1 < 2 ^ 64 ->
  Shows (record_accept now_ms prelude s) (hi_step h (OpAccept now_ms prelude)).
Proof.
  intros Hs Hb. unfold record_accept. cbn [hi_step]. set (p := {| pa_peer := _; pa_host := _ |}).
  assert (Hp : match ip_http prelude with
      | Some m => bool_decide (is_Some (hm_sni m)) | None => false end =
    bool_decide (is_Some (ip_http prelude ≫= hm_sni))).
  { by destruct (ip_http prelude). }
  rewrite Hp. case_bool_decide.
  - unfold hi_add. rewrite <-(sh_next _ _ Hs). apply (shows_push s h); [done|done|apply Hs|..].
    + intros x [Hx| ->%list_elem_of_singleton]%elem_of_app; simpl.
      * apply elem_of_make_room in Hx. by apply (sh_starts _ _ Hs).
      * rewrite (sh_next _ _ Hs). by destruct (sh_fresh _ _ Hs (hi_next h) ltac:(lia)) as [-> ->].
    + intros id Hid. apply (sh_fresh _ _ Hs). lia.
  - destruct Hs. by split.
Qed.

Lemma shows_response s h now id status :
  Shows s h -> Shows (record_response now id status s) (hi_step h (OpResponse now id status)).
Proof.
  intros Hs. cbn [hi_step]. unfold record_response.
  set (f := fun e => if en_id e =? id then answer_entry status (elapsed_ms now <$> (hi_starts h !! id)) e else e).
  assert (Hf : forall e, en_id (f e) = en_id e) by (intros e; unfold f; by destruct (_ =? _)).
  assert (He : update_first id (answer_entry status (elapsed_ms now <$> (is_pending_start s !! id))) (is_entries s)
    = map f (is_entries s)).
  { rewrite update_first_map by (rewrite (sh_entries _ _ Hs); apply numbered_NoDup, Hs).
    apply map_ext_in. intros e Hin%list_elem_of_In. unfold f.
    destruct (Z.eqb_spec (en_id e) id) as [<-|]; [|done]. by rewrite (sh_starts _ _ Hs). }
  rewrite He. split; simpl; try apply Hs.
  - rewrite (sh_next _ _ Hs). unfold hi_next, len. simpl. by rewrite length_map.
  - rewrite (sh_entries _ _ Hs). unfold last_n. by rewrite length_map, skipn_map.
  - apply numbered_map; [done|apply Hs].
  - intros e (e' & -> & Hin)%list_elem_of_fmap. rewrite Hf. destruct (decide (en_id e' = id)) as [->|].
    + by rewrite !lookup_delete_eq.
    + rewrite !lookup_delete_ne by done. by apply (sh_starts _ _ Hs).
  - intros i Hi. unfold hi_next, len in Hi. simpl in Hi. rewrite length_map in Hi.
    destruct (sh_fresh _ _ Hs i Hi) as [H1 H2]. by rewrite !lookup_delete_None; auto.
Qed.

Lemma hi_next_step h o : hi_next (hi_step h o) <= hi_next h + 1.
Proof.
  unfold hi_next. destruct o; cbn [hi_step].
  - case_bool_decide; cbn [hi_log]; [|lia]. unfold hi_add. rewrite len_app. unfold len at 2. simpl. lia.
  - cbn [hi_log]. unfold hi_add. rewrite len_app. unfold len at 2. simpl. lia.
  - cbn [hi_log]. unfold len. rewrite length_map. lia.
Qed.

Lemma hi_run_snoc ops o : hi_run (ops ++ [o]) = hi_step (hi_run ops) o.
Proof. unfold hi_run. by rewrite foldl_app. Qed.

Lemma insp_run_snoc ops o : insp_run (ops ++ [o]) = insp_step (insp_run ops) o.
Proof. unfold insp_run. by rewrite foldl_app. Qed.

Lemma shows_run ops :
  len ops + 1 < 2 ^ 64 -> Shows (insp_run ops) (hi_run ops) /\ hi_next (hi_run ops) <= 1 + len ops.
Proof.
  induction ops as [|o ops IH] using rev_ind.
  { intros _. split; [|done]. by split. }
  rewrite len_app. change (len [o]) with 1. intros Hb. destruct IH as [Hs Hn]; [lia|].
  rewrite hi_run_snoc, insp_run_snoc. pose proof (hi_next_step (hi_run ops) o). split; [|lia].
  destruct o; simpl insp_step.
  - apply shows_accept; [done|lia].
  - apply shows_request; [done|lia].
  - by apply shows_response.
Qed.

(** C34: The inspector shows the last two hundred requests.  After any sequence of
    operations (from any number of streams), what the interface lists is, newest first, the
    end of the complete history, with at most [HISTORY_CAP] entries: ids count up without
    gap, and an answer changes the status and the time of exactly the request it answers,
    whether or not other entries have been evicted. *)
Theorem inspector_refines_history (ops : list InspOp) (Hops : len ops + 1 < 2 ^ 64) :
  inspector_snapshot (insp_run ops) = rev (last_n HISTORY_CAP (hi_log (hi_run ops))) /\
  (length (inspector_snapshot (insp_run ops)) <= HISTORY_CAP)%nat /\
  numbered (hi_log (hi_run ops)).
Proof.
  destruct (shows_run ops Hops) as [Hs _]. unfold inspector_snapshot.
  rewrite (sh_entries _ _ Hs), length_rev, length_last_n. split_and!; [done|lia|apply Hs].
Qed.

(** ** What it keeps too long, and attaches to the wrong request *)

Definition toy_prelude (peer : str) (sni : option str) : InspectionPrelude :=
  {| ip_accept_unix_secs := 0; ip_peer := peer;
     ip_http := Some {| hm_host := lit "web.example"; hm_sni := sni |} |}.

(** An unanswered request that is pushed out by passthrough connections leaves its start
    time behind. *)
Example pending_start_leak :
  let s := insp_run (OpRequest 0 0 None None :: repeat (OpAccept 1 (toy_prelude (lit "v") (Some (lit "a")))) 200) in
  is_Some (is_pending_start s !! 1) /\ Forall (fun e => en_id e <> 1) (is_entries s).
Proof.
  vm_compute. split; [by eexists|]. repeat constructor; discriminate.
Qed.

(** Two streams: the second visitor's acceptance is recorded before the first visitor's
    request, which is then shown with the second visitor's address. *)
Example accept_on_wrong_request :
  map (fun e => (en_path e, en_peer e))
    (inspector_snapshot (insp_run [OpAccept 0 (toy_prelude (lit "first") None);
                                   OpAccept 0 (toy_prelude (lit "second") None);
                                   OpRequest 0 0 None (Some (lit "/of-first"));
                                   OpRequest 0 0 None (Some (lit "/of-second"))]))
  = [(Some (lit "/of-second"), None); (Some (lit "/of-first"), Some (lit "second"))].
Proof. reflexivity. Qed.

(** ** The theorem at a concrete input *)

Lemma inspector_refines_history_witness :
  inspector_snapshot (insp_run [OpRequest 0 0 None None; OpResponse 5 1 200]) =
    rev (last_n HISTORY_CAP (hi_log (hi_run [OpRequest 0 0 None None; OpResponse 5 1 200]))).
Proof. apply inspector_refines_history. vm_compute. reflexivity. Defined.
