(* ===== verification/Proxy.v ===== *)
(** * Proxy: from a stream of the tunnel to the local service

    [krot-client/src/proxy.rs]: the client reads the header
    of a stream the server opened, checks a login or an API key where one is demanded, and
    relays the rest to the local target.

    The receive half is an interface: [RecvStream] for [read_exact] and [ByteSource] for
    [read].  The world holds what has been written to either side; outcomes of calls that
    can fail are inputs, and a write that fails may have written a part.  The relay at the
    end is [tokio::io::copy_bidirectional]; the world it starts from is the result. *)

From S2P Require Import Prelude RustStr Wire Framing Keys Http LoginPage LocalAuth ClientConfig Sni Router Inspector.

Local Open Scope Z_scope.

(** ** Interfaces and data *)

(** [RecvStream::read]: at most [n] bytes, none at the end of the stream. *)
Class ByteSource (S : Type) := {
  bs_read : nat -> S -> Result bytes (TransportError Z Z) * S;
}.

(** What is read is what comes next. *)
Class ByteSourceLaws (S : Type) `{RecvStream S Z Z} `{ByteSource S} := {
  bs_read_next : forall n s got s', bs_read n s = (Ok got, s') -> (0 < n)%nat ->
    rs_pending s = got ++ rs_pending s' /\ (length got <= n)%nat;
}.

(** A stream's task ends early with an error, or with a panic.  [OutOfFuel] marks a loop that
    would still be running; [proxy_total] shows that it never occurs. *)
Inductive Stop := Failed (e : ClientError) | Panicked | OutOfFuel.

Definition INSPECT_HEADER_CAP : Z := 8 * 1024.

(** [pw_to_local] is [None] until the local target is dialled, then what was written to it;
    [pw_local] is what it will send. *)
Record ProxyWorld (S : Type) := {
  pw_recv : S;
  pw_to_remote : bytes;
  pw_finished : bool;
  pw_to_local : option bytes;
  pw_local : TcpStream;
  pw_store : SessionStore;
  pw_insp : InspectorState;
  pw_outcomes : list (option (nat * Z));
}.
Arguments pw_recv {S}.
Arguments pw_to_remote {S}.
Arguments pw_finished {S}.
Arguments pw_to_local {S}.
Arguments pw_local {S}.
Arguments pw_store {S}.
Arguments pw_insp {S}.
Arguments pw_outcomes {S}.

(** The clock readings and random bytes of one stream. *)
Record ProxyEnv := {
  pe_auth : AuthEnv;
  pe_request : Z;
  pe_response : Z;
  pe_wall_ms : Z;
}.

(** How a stream's handling ends, short of an error: answered by the client itself, or
    relayed from here on. *)
Inductive ProxyEnd := Intercepted | Relaying.

Section Proxy.
Context {S : Type} `{RecvStream S Z Z} `{ByteSource S} `{Postcard InspectionPrelude Z} `{Httparse}.

Abbreviation World := (ProxyWorld S).
Abbreviation M := (SM World Stop).

(** ** Elementary steps *)

Definition set_recv (s : S) (w : World) : World :=
  {| pw_recv := s; pw_to_remote := pw_to_remote w; pw_finished := pw_finished w;
     pw_to_local := pw_to_local w; pw_local := pw_local w; pw_store := pw_store w;
     pw_insp := pw_insp w; pw_outcomes := pw_outcomes w |}.

Definition set_local (l : TcpStream) (w : World) : World :=
  {| pw_recv := pw_recv w; pw_to_remote := pw_to_remote w; pw_finished := pw_finished w;
     pw_to_local := pw_to_local w; pw_local := l; pw_store := pw_store w;
     pw_insp := pw_insp w; pw_outcomes := pw_outcomes w |}.

Definition set_store (st : SessionStore) (w : World) : World :=
  {| pw_recv := pw_recv w; pw_to_remote := pw_to_remote w; pw_finished := pw_finished w;
     pw_to_local := pw_to_local w; pw_local := pw_local w; pw_store := st;
     pw_insp := pw_insp w; pw_outcomes := pw_outcomes w |}.

Definition set_insp (i : InspectorState) (w : World) : World :=
  {| pw_recv := pw_recv w; pw_to_remote := pw_to_remote w; pw_finished := pw_finished w;
     pw_to_local := pw_to_local w; pw_local := pw_local w; pw_store := pw_store w;
     pw_insp := i; pw_outcomes := pw_outcomes w |}.

Definition add_remote (bs : bytes) (rest : list (option (nat * Z))) (w : World) : World :=
  {| pw_recv := pw_recv w; pw_to_remote := pw_to_remote w ++ bs; pw_finished := pw_finished w;
     pw_to_local := pw_to_local w; pw_local := pw_local w; pw_store := pw_store w;
     pw_insp := pw_insp w; pw_outcomes := rest |}.

Definition set_to_local (bs : bytes) (rest : list (option (nat * Z))) (w : World) : World :=
  {| pw_recv := pw_recv w; pw_to_remote := pw_to_remote w; pw_finished := pw_finished w;
     pw_to_local := Some bs; pw_local := pw_local w; pw_store := pw_store w;
     pw_insp := pw_insp w; pw_outcomes := rest |}.

(** [send.finish()]; its error is dropped. *)
Definition finish_send : M unit := fun w =>
  (Ok tt, {| pw_recv := pw_recv w; pw_to_remote := pw_to_remote w; pw_finished := true;
             pw_to_local := pw_to_local w; pw_local := pw_local w; pw_store := pw_store w;
             pw_insp := pw_insp w; pw_outcomes := pw_outcomes w |}).

(** [recv.read(&mut buf)] into [n] bytes. *)
Definition recv_read (n : nat) : M bytes := fun w =>
  match bs_read n (pw_recv w) with
  | (Ok got, s) => (Ok got, set_recv s w)
  | (Err e, s) => (Err (Failed (CE_Transport e)), set_recv s w)
  end.

Definition recv_read_exact (n : nat) : M bytes := fun w =>
  match read_exact n (pw_recv w) with
  | (Ok got, s) => (Ok got, set_recv s w)
  | (Err e, s) => (Err (Failed (CE_Transport e)), set_recv s w)
  end.

Definition recv_read_frame : M InspectionPrelude := fun w =>
  match read_frame (pw_recv w) with
  | (Ok p, s) => (Ok p, set_recv s w)
  | (Err e, s) => (Err (Failed (CE_Transport e)), set_recv s w)
  end.

(** [send.write_all(&bs)]. *)
Definition remote_write_all (bs : bytes) : M unit := fun w =>
  match pw_outcomes w with
  | Some (k, e) :: rest => (Err (Failed (CE_Transport (TE_Write e))), add_remote (take k bs) rest w)
  | None :: rest => (Ok tt, add_remote bs rest w)
  | [] => (Ok tt, add_remote bs [] w)
  end.

(** [TcpStream::connect]. *)
Definition local_connect : M unit := fun w =>
  match pw_outcomes w with
  | Some (_, e) :: rest => (Err (Failed (CE_Io e)), add_remote [] rest w)
  | None :: rest => (Ok tt, set_to_local [] rest w)
  | [] => (Ok tt, set_to_local [] [] w)
  end.

(** [local.write_all(&bs)]. *)
Definition local_write_all (bs : bytes) : M unit := fun w =>
  let before := default [] (pw_to_local w) in
  match pw_outcomes w with
  | Some (k, e) :: rest => (Err (Failed (CE_Io e)), set_to_local (before ++ take k bs) rest w)
  | None :: rest => (Ok tt, set_to_local (before ++ bs) rest w)
  | [] => (Ok tt, set_to_local (before ++ bs) [] w)
  end.

Definition local_read (n : nat) : M bytes := fun w =>
  match tcp_read n (pw_local w) with
  | (Ok got, l) => (Ok got, set_local l w)
  | (Err e, l) => (Err (Failed (CE_Io e)), set_local l w)
  end.

Definition protocol {A} (msg : str) : M A := sm_throw (Failed (CE_Protocol msg)).

(** ** Reading ahead *)

Definition peek_first_byte : M (bytes * option Z) :=
  let! got := recv_read 1024 in
  sm_ret (got, hd_error got).

(** [fuel] is at least the number of bytes missing to [cap]. *)
Fixpoint peek_until_headers_loop (fuel : nat) (cap : Z) (buf : bytes) : M (bytes * option nat) :=
  match find_head_end buf with
  | Some end_ => sm_ret (buf, Some end_)
  | None =>
    if cap <=? len buf then sm_ret (buf, None)
    else
      match fuel with
      | O => sm_throw OutOfFuel
      | Datatypes.S fuel =>
        let! got := recv_read 1024 in
        match got with
        | [] => sm_ret (buf, None)
        | _ => peek_until_headers_loop fuel cap (buf ++ got)
        end
      end
  end.

Definition peek_until_headers (buf : bytes) (cap : Z) : M (bytes * option nat) :=
  peek_until_headers_loop (Z.to_nat cap) cap buf.

Fixpoint read_exact_into_loop (fuel : nat) (buf : bytes) (target : Z) : M bytes :=
  if target <=? len buf then sm_ret buf
  else
    match fuel with
    | O => sm_throw OutOfFuel
    | Datatypes.S fuel =>
      let! got := recv_read 1024 in
      match got with
      | [] => sm_ret buf
      | _ => read_exact_into_loop fuel (buf ++ take (Z.to_nat (target - len buf)) got) target
      end
    end.

Definition read_exact_into (buf : bytes) (target : Z) : M bytes :=
  read_exact_into_loop (Z.to_nat target) buf target.

(** The loop that [peek_request] and [peek_response] share. *)
Fixpoint peek_head_loop (read : nat -> M bytes) (fuel : nat) (buf : bytes) : M bytes :=
  match fuel with
  | O => sm_throw OutOfFuel
  | Datatypes.S fuel =>
    let! got := read 1024%nat in
    match got with
    | [] => sm_ret buf
    | _ =>
      let buf := buf ++ got in
      if bool_decide (is_Some (find_head_end buf)) then sm_ret buf
      else if INSPECT_HEADER_CAP <? len buf then sm_ret buf
      else peek_head_loop read fuel buf
    end
  end.

Definition PEEK_FUEL : nat := Z.to_nat (INSPECT_HEADER_CAP + 2).

Definition peek_request : M (bytes * (option str * option str)) :=
  let! buf := peek_head_loop recv_read PEEK_FUEL [] in
  sm_ret (buf, match parse_request buf with
               | (HsError, _) => (None, None)
               | (_, head) => (hh_method head, hh_path head)
               end).

Definition peek_response : M (bytes * option Z) :=
  let! buf := peek_head_loop local_read PEEK_FUEL [] in
  sm_ret (buf, match parse_response buf with
               | (HsError, _) => None
               | (_, code) => code
               end).

(** ** The gate *)

Definition parse_status_line (bs : bytes) : option Z :=
  s ← from_utf8 (take 64 bs);
  '(_, rest) ← split_once 32 s;
  parse_uint 16 (take 3 rest).

Definition bad_request_response : bytes :=
  str_bytes (response_head (lit "400 Bad Request") (lit "text/plain") 11) ++ lit "Bad Request".

(** The form's length as the head announces it, at most [LOGIN_BODY_CAP]. *)
Definition login_content_length (headers : list (str * bytes)) : Z :=
  Z.min LOGIN_BODY_CAP
    (default 0 (v ← header (lit "content-length") headers; s ← from_utf8 v; parse_uint 64 (trim s))).

(** [None] forwards the request. *)
Definition decide_auth_response (env : AuthEnv) (cfg : AuthConfig) (buffered : bytes)
    (headers_end : option nat) : M (bytes * option bytes) :=
  match headers_end with
  | None => sm_ret (buffered, Some bad_request_response)
  | Some complete_at =>
    match parse_request (take complete_at buffered) with
    | (HsError, _) => sm_ret (buffered, Some bad_request_response)
    | (_, head) =>
      let method := default [] (hh_method head) in
      let path := default [47] (hh_path head) in
      let content_length := login_content_length (hh_headers head) in
      match ac_policy cfg with
      | ApiKey _ =>
        match check_api_key (ac_policy cfg) (hh_headers head) with
        | None => sm_throw Panicked
        | Some OutOk => sm_ret (buffered, None)
        | Some _ => sm_ret (buffered, Some api_key_reject_response)
        end
      | Session _ _ =>
        let is_login_post := eq_ignore_ascii_case method (lit "POST")
          && bool_decide (default [] (hd_error (split_char 63 path)) = LOGIN_PATH) in
        let target := Z.of_nat complete_at + content_length in
        let! buffered := if is_login_post then read_exact_into buffered target else sm_ret buffered in
        let body := if is_login_post
                    then slice complete_at (Nat.min (Z.to_nat target) (length buffered)) buffered
                    else [] in
        let! store := sm_gets pw_store in
        let (action, store) :=
          decide_session env (ac_policy cfg) method path
            (hh_headers (parse_request (take complete_at buffered)).2) body store in
        let! _ := sm_modify (set_store store) in
        match action with
        | Forward => sm_ret (buffered, None)
        | ServeLoginPage next error =>
          sm_ret (buffered, Some (http_html_response (render_login_page next error)))
        | Redirect location set_cookie =>
          sm_ret (buffered, Some (http_redirect location set_cookie))
        end
      end
    end
  end.

(** ** One stream *)

Definition BAD_HEADER : str := lit "bad DataHeader from server".
Definition BAD_KIND : str := lit "unexpected data-stream kind".
Definition WRONG_TUNNEL : str := lit "wrong tunnel id on data stream".

(** [insp.record_request] and friends, when an inspector is attached. *)
Definition insp_request (env : ProxyEnv) (method path : option str) : M Z := fun w =>
  let (id, i) := record_request (pe_request env) (pe_wall_ms env) method path (pw_insp w) in
  (Ok id, set_insp i w).

Definition insp_response (env : ProxyEnv) (id status : Z) : M unit :=
  sm_modify (fun w => set_insp (record_response (pe_response env) id status (pw_insp w)) w).

Definition when_some {A} (o : option A) (f : A -> M unit) : M unit :=
  match o with Some a => f a | None => sm_ret tt end.

(** Parse and record a request whose head was read for the gate. *)
Definition record_gated (env : ProxyEnv) (inspector : bool) (buffered : bytes)
    (headers_end : option nat) : M (option Z) :=
  match inspector, headers_end with
  | true, Some end_ =>
    match parse_request (take end_ buffered) with
    | (HsError, _) => sm_ret None
    | (_, head) => let! id := insp_request env (hh_method head) (hh_path head) in sm_ret (Some id)
    end
  | _, _ => sm_ret None
  end.

(** The gate in front of the local target: [inl] ends the stream, [inr] carries the bytes
    read so far and the id of the recorded request. *)
Definition auth_gate (env : ProxyEnv) (cfg : AuthConfig) (inspector : bool) :
    M (unit + bytes * option Z) :=
  let! first := peek_first_byte in
  let is_tls := match first.2 with Some b => looks_like_tls b | None => false end in
  if is_tls then sm_ret (inr (first.1, None))
  else
    let! peeked := peek_until_headers first.1 INSPECT_HEADER_CAP in
    let! id := record_gated env inspector peeked.1 peeked.2 in
    let! decided := decide_auth_response (pe_auth env) cfg peeked.1 peeked.2 in
    match decided.2 with
    | None => sm_ret (inr (decided.1, id))
    | Some response =>
      let! _ := when_some id (fun id => when_some (parse_status_line response) (insp_response env id)) in
      let! _ := remote_write_all response in
      let! _ := finish_send in
      sm_ret (inl tt)
    end.

(** Record the answer of the local target and pass on what was read of it. *)
Definition relay_answer (env : ProxyEnv) (id : Z) : M unit :=
  let! answer := peek_response in
  let! _ := when_some answer.2 (insp_response env id) in
  remote_write_all answer.1.

(** The stream behind its header and prelude. *)
Definition serve_stream (env : ProxyEnv) (kind : StreamKind) (prelude : option InspectionPrelude)
    (inspector : bool) (auth : option AuthConfig) : M ProxyEnd :=
  let! gate :=
    match auth, kind with
    | Some cfg, DataHttp => auth_gate env cfg inspector
    | _, _ => sm_ret (inr ([], None))
    end in
  match gate with
  | inl _ => sm_ret Intercepted
  | inr (buffered, id) =>
    let! _ := local_connect in
    let! _ := if bool_decide (buffered = []) then sm_ret tt else local_write_all buffered in
    let! _ := if inspector
              then when_some prelude (fun p =>
                     sm_modify (fun w => set_insp (record_accept (pe_wall_ms env) p (pw_insp w)) w))
              else sm_ret tt in
    let! _ :=
      match kind, inspector with
      | DataHttp, true =>
        match id with
        | Some id => relay_answer env id
        | None =>
          if bool_decide (buffered = []) then
            let! request := peek_request in
            let! id := insp_request env request.2.1 request.2.2 in
            let! _ := local_write_all request.1 in
            relay_answer env id
          else sm_ret tt
        end
      | _, _ => sm_ret tt
      end in
    sm_ret Relaying
  end.

Definition handle_bi_inspected (env : ProxyEnv) (expected_tunnel : TunnelId) (inspector inspect : bool)
    (auth : option AuthConfig) : M ProxyEnd :=
  let! header_buf := recv_read_exact DATA_HEADER_SIZE in
  match DataHeader_decode header_buf with
  | Err _ => protocol BAD_HEADER
  | Ok header =>
    if negb (bool_decide (dh_kind header = DataTcp \/ dh_kind header = DataHttp)) then protocol BAD_KIND
    else if negb (bool_decide (dh_tunnel_id header = expected_tunnel)) then protocol WRONG_TUNNEL
    else
      let! prelude := if inspect then let! p := recv_read_frame in sm_ret (Some p) else sm_ret None in
      serve_stream env (dh_kind header) prelude inspector auth
  end.

Definition handle_bi (env : ProxyEnv) (expected_tunnel : TunnelId) : M ProxyEnd :=
  handle_bi_inspected env expected_tunnel false false None.
End Proxy.

#[local] Arguments lit : simpl never.

(** ** What each step leaves alone *)

Section Steps.
Context {S : Type} `{RecvStream S Z Z} `{!RecvStreamLaws S Z Z} `{ByteSource S} `{!ByteSourceLaws S}.
Context `{Postcard InspectionPrelude Z} `{Httparse}.

Abbreviation World := (ProxyWorld S).
Abbreviation M := (SM World Stop).

(** Both directions as written and as still to be read from the target. *)
Definition view (w : World) : option bytes * bytes * TcpStream :=
  (pw_to_local w, pw_to_remote w, pw_local w).

Definition pending (w : World) : bytes := rs_pending (pw_recv w).

(** However [m] ends, nothing was written to the local target. *)
Definition quiet {A} (m : M A) : Prop := forall w r w', m w = (r, w') -> pw_to_local w' = pw_to_local w.

Lemma quiet_ret {A} (a : A) : quiet (sm_ret a).
Proof. by intros w r w' [= _ <-]. Qed.

Lemma quiet_throw {A} (e : Stop) : quiet (A := A) (sm_throw e).
Proof. by intros w r w' [= _ <-]. Qed.

Lemma quiet_bind {A B} (m : M A) (k : A -> M B) : quiet m -> (forall a, quiet (k a)) -> quiet (sm_bind m k).
Proof.
  intros Hm Hk w r w'. unfold sm_bind. destruct (m w) as [[a|e] w1] eqn:E.
  - intros Hr. rewrite (Hk a _ _ _ Hr). by eapply Hm.
  - intros [= _ <-]. by eapply Hm.
Qed.

Lemma quiet_recv_read n : quiet (recv_read n).
Proof. intros w r w'. unfold recv_read. by destruct (bs_read _ _) as [[|] ?]; intros [= _ <-]. Qed.

Lemma quiet_remote_write bs : quiet (remote_write_all bs).
Proof. intros w r w'. unfold remote_write_all. by repeat case_match; intros [= _ <-]. Qed.

Lemma quiet_modify (f : World -> World) :
  (forall w, pw_to_local (f w) = pw_to_local w) -> quiet (sm_modify f).
Proof. intros Hf w r w' [= _ <-]. apply Hf. Qed.

Lemma quiet_gets {A} (f : World -> A) : quiet (sm_gets f).
Proof. by intros w r w' [= _ <-]. Qed.

Lemma quiet_finish : quiet finish_send.
Proof. by intros w r w' [= _ <-]. Qed.

Lemma quiet_insp_request env m p : quiet (insp_request env m p).
Proof. intros w r w'. unfold insp_request. destruct (record_request _ _ _ _ _). by intros [= _ <-]. Qed.

#[local] Hint Resolve quiet_ret quiet_throw quiet_recv_read quiet_remote_write quiet_gets quiet_finish
  quiet_insp_request : quiet.

(** Walk through a computation: binds, then the cases of the code. *)
Ltac quiet :=
  repeat first
    [ progress eauto with quiet
    | apply quiet_bind; [|intros ?]
    | apply quiet_modify; by intros
    | case_match ].

Lemma quiet_peek_until fuel cap buf : quiet (peek_until_headers_loop fuel cap buf).
Proof. revert buf. induction fuel as [|fuel IH]; intros buf; simpl; quiet. Qed.

Lemma quiet_read_exact_into fuel buf target : quiet (read_exact_into_loop fuel buf target).
Proof. revert buf. induction fuel as [|fuel IH]; intros buf; simpl; quiet. Qed.

Lemma quiet_decide env cfg buffered he : quiet (decide_auth_response env cfg buffered he).
Proof.
  unfold decide_auth_response, read_exact_into. pose proof quiet_read_exact_into as Hr. quiet.
Qed.

Lemma quiet_gate env cfg inspector : quiet (auth_gate env cfg inspector).
Proof.
  unfold auth_gate, peek_first_byte, peek_until_headers, record_gated, insp_response, when_some.
  pose proof quiet_peek_until as Hp. pose proof quiet_decide as Hd. quiet.
Qed.

(** ** What each step does when it succeeds *)

(** [w'] is [w] after [got] was read. *)
Definition read_on (got : bytes) (w w' : World) : Prop :=
  pending w = got ++ pending w' /\ view w' = view w /\ pw_store w' = pw_store w.

Lemma read_on_refl w : read_on [] w w.
Proof. done. Qed.

Lemma read_on_trans a b w w1 w2 : read_on a w w1 -> read_on b w1 w2 -> read_on (a ++ b) w w2.
Proof.
  intros (E1 & E2 & E3) (G1 & G2 & G3). unfold read_on. rewrite E1, G1, app_assoc. split_and!; congruence.
Qed.

Lemma recv_read_Ok n w got w' :
  (0 < n)%nat -> recv_read n w = (Ok got, w') -> read_on got w w' /\ (length got <= n)%nat.
Proof.
  intros Hn. unfold recv_read. destruct (bs_read n (pw_recv w)) as [[g|e] s] eqn:E; [|done].
  intros [= <- <-]. destruct (bs_read_next _ _ _ _ E Hn) as [Hp Hl]. by split.
Qed.

Lemma peek_until_Ok fuel cap buf w buf' he w' :
  peek_until_headers_loop fuel cap buf w = (Ok (buf', he), w') ->
  exists got, buf' = buf ++ got /\ read_on got w w' /\ (is_Some he -> he = find_head_end buf').
Proof.
  revert buf w. induction fuel as [|fuel IH]; intros buf w; simpl;
    destruct (find_head_end buf) as [n|] eqn:Ef;
    try (intros [= <- <- <-]; exists []; rewrite app_nil_r; split_and!; try done; by intros _);
    destruct (cap <=? len buf);
    try (intros [= <- <- <-]; exists []; rewrite app_nil_r; split_and!; try done; by intros []); try done.
  intros (got & w1 & Hr & Hk)%sm_bind_Ok. apply recv_read_Ok in Hr as [Hr _]; [|lia].
  destruct got as [|b got].
  - injection Hk as <- <- <-. exists []. by rewrite app_nil_r.
  - apply IH in Hk as (more & -> & Hm & He). exists ((b :: got) ++ more). rewrite app_assoc.
    split_and!; [done|by eapply read_on_trans|done].
Qed.

Lemma peek_until_headers_Ok buf cap w buf' he w' :
  peek_until_headers buf cap w = (Ok (buf', he), w') ->
  exists got, buf' = buf ++ got /\ read_on got w w' /\ (is_Some he -> he = find_head_end buf').
Proof. apply peek_until_Ok. Qed.

Lemma record_gated_Ok env inspector buf he w id w' :
  record_gated env inspector buf he w = (Ok id, w') -> read_on [] w w' /\ pw_recv w' = pw_recv w.
Proof.
  unfold record_gated. destruct inspector, he as [n|]; try (by intros [= _ <-]).
  destruct (parse_request _) as [[] head]; try (by intros [= _ <-]);
    intros (i & w1 & Hi & [= _ <-])%sm_bind_Ok; unfold insp_request in Hi;
    destruct (record_request _ _ _ _ _); by injection Hi as <- <-.
Qed.

(** The request passes the gate: its head parses and the policy lets it through. *)
Definition gate_passes (env : AuthEnv) (cfg : AuthConfig) (store : SessionStore) (head_bytes : bytes) : Prop :=
  exists status head, parse_request head_bytes = (status, head) /\ status <> HsError /\
    match ac_policy cfg with
    | ApiKey _ => check_api_key (ac_policy cfg) (hh_headers head) = Some OutOk
    | Session _ _ =>
      (decide_session env (ac_policy cfg) (default [] (hh_method head)) (default [47] (hh_path head))
         (hh_headers head) [] store).1 = Forward
    end.

Lemma login_never_forwards env policy user pass method path headers body store :
  policy = Session user pass -> path_only path = LOGIN_PATH ->
  (decide_session env policy method path headers body store).1 <> Forward.
Proof.
  intros -> Hp Hf.
  set (r := {| aq_method := method; aq_path := path; aq_headers := headers; aq_body := body; aq_env := env |}).
  change (decide_session env (Session user pass) method path headers body store)
    with (decide_req user pass r store) in Hf.
  destruct (decide (is_login user pass r)) as [Hl|Hl].
  - destruct (decide_login user pass r store Hl) as [next E]. by rewrite E in Hf.
  - destruct (decide_form user pass r store Hp Hl) as (next & error & E). by rewrite E in Hf.
Qed.

Lemma decide_forward_Ok env cfg buffered he w buffered' w' :
  decide_auth_response env cfg buffered he w = (Ok (buffered', None), w') ->
  exists n, he = Some n /\ buffered' = buffered /\ pending w' = pending w /\ view w' = view w /\
    gate_passes env cfg (pw_store w) (take n buffered).
Proof.
  unfold decide_auth_response. destruct he as [n|]; [|by intros [=]].
  destruct (parse_request (take n buffered)) as [status head] eqn:Ep.
  assert (Hst : status = HsError \/ status <> HsError) by (destruct status; auto).
  destruct Hst as [->|Hst]; [by intros [=]|].
  assert (Hgate : forall k : M (bytes * option bytes),
    match status with HsError => sm_ret (buffered, Some bad_request_response) | _ => k end = k)
    by (intros k; by destruct status). rewrite Hgate. clear Hgate.
  destruct (ac_policy cfg) as [user pass|key] eqn:Epol.
  - destruct (eq_ignore_ascii_case _ _ && _) eqn:El.
    + intros (b & w1 & _ & Hk)%sm_bind_Ok. exfalso.
      apply sm_bind_Ok in Hk as (st & w2 & [= <- <-] & Hk).
      destruct (decide_session _ _ _ _ _ _ _) as [action store] eqn:Ed.
      apply sm_bind_Ok in Hk as (u & w3 & _ & Hk). apply andb_true_iff in El as [_ El%bool_decide_eq_true].
      destruct action; try (by injection Hk).
      eapply (login_never_forwards env (Session user pass) user pass); [done| |by rewrite Ed].
      rewrite <-El. pose proof (hd_split_char 63 (default [47] (hh_path head))) as Hh. unfold path_only.
      rewrite <-Hh. by destruct (split_char 63 _).
    + intros (b & w1 & [= <- <-] & Hk)%sm_bind_Ok.
      apply sm_bind_Ok in Hk as (st & w2 & [= <- <-] & Hk). rewrite Ep in Hk. simpl in Hk.
      destruct (decide_session_inner _ _ _ _ _ _ _ _) as [action store] eqn:Ed.
      apply sm_bind_Ok in Hk as (u & w3 & [= _ <-] & Hk). destruct action; try (by injection Hk).
      injection Hk as <- <-. exists n. split_and!; try done. exists status, head. split_and!; try done.
      rewrite Epol. simpl. by rewrite Ed.
  - destruct (check_api_key _ _) as [[]|] eqn:Ec; try (by intros [=]). intros [= <- <-].
    exists n. split_and!; try done. exists status, head. by rewrite Epol.
Qed.

Lemma auth_gate_Ok env cfg inspector w buffered id w' :
  auth_gate env cfg inspector w = (Ok (inr (buffered, id)), w') ->
  pending w = buffered ++ pending w' /\ view w' = view w /\
  (hd_error buffered = Some 22 \/
   exists n, find_head_end buffered = Some n /\
     gate_passes (pe_auth env) cfg (pw_store w) (take n buffered)).
Proof.
  unfold auth_gate. intros (first & w1 & Hf & Hk)%sm_bind_Ok. unfold peek_first_byte in Hf.
  apply sm_bind_Ok in Hf as (got & w0 & Hr & [= <- <-]). apply recv_read_Ok in Hr as [Hr _]; [|lia].
  cbn [fst snd] in Hk. destruct (match hd_error got with Some b => looks_like_tls b | None => false end) eqn:Et.
  { injection Hk as <- _ <-. destruct Hr as (Hp & Hv & _). split_and!; try done. left.
    destruct got as [|b got]; [done|]. simpl in *. unfold looks_like_tls in Et. apply Z.eqb_eq in Et. by subst. }
  apply sm_bind_Ok in Hk as ([buf he] & w2 & Hp & Hk). apply peek_until_headers_Ok in Hp as (more & -> & Hm & Hhe).
  apply sm_bind_Ok in Hk as (rid & w3 & Hg & Hk). apply record_gated_Ok in Hg as [Hg Hrecv].
  apply sm_bind_Ok in Hk as ([buf' resp] & w4 & Hd & Hk). cbn [fst snd] in *.
  destruct resp as [resp|].
  { apply sm_bind_Ok in Hk as (? & ? & _ & Hk). apply sm_bind_Ok in Hk as (? & ? & _ & Hk).
    by apply sm_bind_Ok in Hk as (? & ? & _ & [=]). }
  injection Hk as <- _ <-. apply decide_forward_Ok in Hd as (n & -> & -> & Hpend & Hview & Hpass).
  pose proof (read_on_trans _ _ _ _ _ (read_on_trans _ _ _ _ _ Hr Hm) Hg) as (Hp & Hv & Hst).
  rewrite app_nil_r in Hp. rewrite Hpend, Hview. split_and!; try done. right. exists n.
  split; [symmetry; by apply Hhe|]. by rewrite <-Hst.
Qed.









(** ** Loops end *)

Definition ends {A} (m : M A) : Prop := forall w w', m w <> (Err OutOfFuel, w').

Lemma ends_ret {A} (a : A) : ends (sm_ret a).
Proof. done. Qed.

Lemma ends_bind {A B} (m : M A) (k : A -> M B) : ends m -> (forall a, ends (k a)) -> ends (sm_bind m k).
Proof.
  intros Hm Hk w w'. unfold sm_bind. destruct (m w) as [[a|e] w1] eqn:E; [apply Hk|].
  intros [= -> ->]. by apply Hm in E.
Qed.

Lemma ends_recv_read n : ends (recv_read n).
Proof. intros w w'. unfold recv_read. by destruct (bs_read _ _) as [[|] ?]. Qed.

Lemma ends_local_read n : ends (local_read n).
Proof. intros w w'. unfold local_read. by destruct (tcp_read _ _) as [[|] ?]. Qed.

Lemma ends_read_exact n : ends (recv_read_exact n).
Proof. intros w w'. unfold recv_read_exact. by destruct (read_exact _ _) as [[|] ?]. Qed.

Lemma ends_read_frame : ends recv_read_frame.
Proof. intros w w'. unfold recv_read_frame. by destruct (read_frame _) as [[|] ?]. Qed.

Lemma ends_remote_write bs : ends (remote_write_all bs).
Proof. intros w w'. unfold remote_write_all. by repeat case_match. Qed.

Lemma ends_local_write bs : ends (local_write_all bs).
Proof. intros w w'. unfold local_write_all. by repeat case_match. Qed.

Lemma ends_connect : ends local_connect.
Proof. intros w w'. unfold local_connect. by repeat case_match. Qed.

Lemma ends_modify (f : World -> World) : ends (sm_modify f).
Proof. done. Qed.

Lemma ends_gets {A} (f : World -> A) : ends (sm_gets f).
Proof. done. Qed.

Lemma ends_finish : ends finish_send.
Proof. done. Qed.

Lemma ends_insp_request env m p : ends (insp_request env m p).
Proof. intros w w'. unfold insp_request. by destruct (record_request _ _ _ _ _). Qed.

Lemma ends_failed {A} e : ends (A := A) (sm_throw (Failed e)).
Proof. done. Qed.

Lemma ends_panicked {A} : ends (A := A) (sm_throw Panicked).
Proof. done. Qed.

#[local] Hint Resolve ends_ret ends_recv_read ends_local_read ends_read_exact ends_read_frame
  ends_remote_write ends_local_write ends_connect ends_modify ends_gets ends_finish
  ends_insp_request ends_failed ends_panicked : ends.

Ltac ends :=
  repeat first [ progress eauto with ends | apply ends_bind; [|intros ?] | case_match ].

Lemma peek_until_ends fuel cap buf :
  cap - len buf <= Z.of_nat fuel -> ends (peek_until_headers_loop fuel cap buf).
Proof.
  revert buf. induction fuel as [|fuel IH]; intros buf Hf; simpl;
    (destruct (find_head_end buf); [apply ends_ret|]);
    (destruct (Z.leb_spec cap (len buf)); [apply ends_ret|]); [lia|].
  apply ends_bind; [apply ends_recv_read|]. intros [|b got]; [apply ends_ret|]. apply IH.
  rewrite len_app, len_cons. pose proof (len_nonneg got). lia.
Qed.

Lemma read_exact_into_ends fuel buf target :
  target - len buf <= Z.of_nat fuel -> ends (read_exact_into_loop fuel buf target).
Proof.
  revert buf. induction fuel as [|fuel IH]; intros buf Hf; simpl;
    (destruct (Z.leb_spec target (len buf)); [apply ends_ret|]); [lia|].
  apply ends_bind; [apply ends_recv_read|]. intros [|b got]; [apply ends_ret|]. apply IH.
  rewrite len_app. unfold len at 2. rewrite length_take. simpl. lia.
Qed.

Lemma peek_head_ends (read : nat -> M bytes) fuel buf :
  (forall n, ends (read n)) ->
  INSPECT_HEADER_CAP + 2 - len buf <= Z.of_nat fuel -> len buf <= INSPECT_HEADER_CAP + 1 ->
  ends (peek_head_loop read fuel buf).
Proof.
  intros Hr. revert buf. induction fuel as [|fuel IH]; intros buf Hf Hb; cbn [peek_head_loop]; [lia|].
  apply ends_bind; [apply Hr|]. intros [|b got]; [apply ends_ret|].
  case_bool_decide; [apply ends_ret|].
  destruct (Z.ltb_spec INSPECT_HEADER_CAP (len (buf ++ b :: got))) as [|Hl]; [apply ends_ret|].
  rewrite len_app, len_cons in Hl. pose proof (len_nonneg got).
  apply IH; rewrite len_app, len_cons; lia.
Qed.

Lemma peek_headers_ends buf cap : ends (peek_until_headers buf cap).
Proof. apply peek_until_ends. pose proof (len_nonneg buf). lia. Qed.

Lemma read_into_ends buf target : ends (read_exact_into buf target).
Proof. apply read_exact_into_ends. pose proof (len_nonneg buf). lia. Qed.

Lemma peek_ends (read : nat -> M bytes) : (forall n, ends (read n)) -> ends (peek_head_loop read PEEK_FUEL []).
Proof.
  intros Hr. apply peek_head_ends; [done| |]; change (len []) with 0; unfold PEEK_FUEL, INSPECT_HEADER_CAP; lia.
Qed.

#[local] Hint Resolve peek_headers_ends read_into_ends peek_ends : ends.

(** C37: Handling a stream always comes to an end: whatever the server and the local target
    send, in whatever pieces, the client answers, starts the relay, or stops with an error
    or a panic after a bounded number of reads. *)
Theorem proxy_total (env : ProxyEnv) (id : TunnelId) (inspector inspect : bool)
    (auth : option AuthConfig) (w : World) :
  (handle_bi_inspected env id inspector inspect auth w).1 <> Err OutOfFuel.
Proof.
  intros Hf. assert (He : ends (handle_bi_inspected env id inspector inspect auth)).
  { unfold handle_bi_inspected, serve_stream, auth_gate, decide_auth_response, record_gated, relay_answer,
      peek_request, peek_response, peek_first_byte, protocol, insp_response, when_some. ends. }
  apply (He w (handle_bi_inspected env id inspector inspect auth w).2).
  rewrite <-Hf. apply surjective_pairing.
Qed.
End Steps.

(** ** From the server's router to the local service *)

Section Composition.
Context {S : Type} `{RecvStream S Z Z} `{!RecvStreamLaws S Z Z} `{ByteSource S} `{!ByteSourceLaws S}.
Context `{Postcard InspectionPrelude Z} `{!PostcardLaws InspectionPrelude Z} `{Httparse}.

(** The server has opened a stream for tunnel [id]: what it wrote, as [Router] writes it,
    is what this side is about to read. *)
Record Opened (kind : StreamKind) (id : TunnelId) (inspect : bool) (prelude : InspectionPrelude)
    (payload : bytes) (w : ProxyWorld S) : Prop := {
  op_start : stream_start kind id inspect prelude payload (pending w);
  op_kind : kind = DataTcp \/ kind = DataHttp;
  op_id : in_u 64 (tid_raw id);
  op_bytes : Forall is_byte payload;
  op_idle : pw_to_local w = None;
}.

Lemma length_DataHeader h : length (DataHeader_to_bytes h) = DATA_HEADER_SIZE.
Proof. unfold DataHeader_to_bytes. done. Qed.

(** The client finds its way to the payload. *)
Lemma opened_serves env kind id inspector inspect prelude payload auth w :
  Opened kind id inspect prelude payload w ->
  exists s, rs_pending s = payload /\
    handle_bi_inspected env id inspector inspect auth w =
      serve_stream env kind (if inspect then Some prelude else None) inspector auth (set_recv s w).
Proof.
  intros [(framed & Hp & Hf) Hk Hid Hb _]. unfold handle_bi_inspected. unfold pending in Hp.
  set (h := {| dh_kind := kind; dh_tunnel_id := id |}) in *.
  destruct (read_exact_enough DATA_HEADER_SIZE (pw_recv w)) as (s1 & Hr & Hs1).
  { rewrite Hp, length_app, length_DataHeader. lia. }
  rewrite Hp, <-(length_DataHeader h) in Hr, Hs1. rewrite take_app_length in Hr. rewrite drop_app_length in Hs1.
  unfold sm_bind at 1. unfold recv_read_exact. rewrite <-(length_DataHeader h), Hr.
  assert (Hv : DataHeader_valid h) by (split; [by destruct Hk as [-> | ->]|done]).
  rewrite <-(app_nil_r (DataHeader_to_bytes h)), DataHeader_decode_encode by done.
  rewrite !bool_decide_eq_true_2 by (done || exact Hk). cbn [negb]. destruct inspect.
  - destruct Hf as [n He]. destruct (encode_frame_Ok _ _ _ _ He) as (pl & Hpl & Hl).
    destruct (read_frame_encoded prelude pl Hpl Hl) as (frame & Hfb & Henc & Hread).
    specialize (Henc []). rewrite He in Henc. injection Henc as _ ->.
    destruct (Hread s1 payload Hb Hs1) as (s2 & Hr2 & Hs2). exists s2. split; [done|].
    unfold sm_bind, recv_read_frame. cbn [pw_recv set_recv]. rewrite Hr2. done.
  - subst framed. exists s1. split; [done|]. done.
Qed.


(** What a dialled target says about the stream. *)
Lemma gated_dial (env : ProxyEnv) (id : TunnelId) (inspector inspect : bool)
    (prelude : InspectionPrelude) (payload : bytes) (cfg : AuthConfig) (w w' : ProxyWorld S)
    (r : Result ProxyEnd Stop) :
  Opened DataHttp id inspect prelude payload w ->
  handle_bi_inspected env id inspector inspect (Some cfg) w = (r, w') -> pw_to_local w' <> None ->
  hd_error payload = Some 22 \/
  exists n, find_head_end payload = Some n /\
    gate_passes (pe_auth env) cfg (pw_store w) (take n payload).
Proof.
  intros Hopen Hr Hdial.
  pose proof (op_idle _ _ _ _ _ _ Hopen) as Hidle.
  destruct (opened_serves env DataHttp id inspector inspect prelude payload (Some cfg) w Hopen) as (s & Hs & E).
  rewrite E in Hr. clear E. unfold serve_stream in Hr. unfold sm_bind at 1 in Hr.
  destruct (auth_gate env cfg inspector (set_recv s w)) as [[[u|[buffered rid]]|e] w1] eqn:Eg.
  - injection Hr as _ <-. by rewrite (quiet_gate _ _ _ _ _ _ Eg) in Hdial.
  - apply auth_gate_Ok in Eg as (Hp & _ & Hg). unfold pending in Hp. simpl in Hp. rewrite Hs in Hp.
    destruct Hg as [Hg|(n & Hn & Hg)]; [left|right].
    + rewrite Hp. by destruct buffered.
    + exists n. rewrite Hp. destruct (find_head_end_app _ _ (rs_pending (pw_recv w1)) Hn) as [-> ->]. done.
  - injection Hr as _ <-. by rewrite (quiet_gate _ _ _ _ _ _ Eg) in Hdial.
Qed.

(** C9: The gate stands in front of the local service.  On an HTTP stream of a tunnel with a
    login or an API key, the local target is dialled, and anything written to it, only if
    the stream starts with a TLS record, or if its first request has a complete head that
    parses and the policy lets pass: the right key in a header, or the cookie of a live
    session. *)
Theorem gate_blocks (env : ProxyEnv) (id : TunnelId) (inspector inspect : bool)
    (prelude : InspectionPrelude) (payload : bytes) (cfg : AuthConfig) (w w' : ProxyWorld S)
    (r : Result ProxyEnd Stop) (Hopen : Opened DataHttp id inspect prelude payload w)
    (Hr : handle_bi_inspected env id inspector inspect (Some cfg) w = (r, w'))
    (Hdial : pw_to_local w' <> None) :
  hd_error payload = Some 22 \/
  exists n, find_head_end payload = Some n /\
    gate_passes (pe_auth env) cfg (pw_store w) (take n payload).
Proof. by eapply gated_dial. Qed.
End Composition.

(** ** The theorems at concrete inputs *)

#[local] Instance toy_recv : RecvStream bytes Z Z := {|
  read_exact n (s : bytes) := if decide (n <= length s)%nat then (Ok (take n s), drop n s)
                    else (Err TE_UnexpectedEof, []);
  rs_pending (s : bytes) := s;
|}.

#[local] Instance toy_recv_laws : RecvStreamLaws bytes Z Z.
Proof.
  split; intros n s Hn; simpl in *.
  - rewrite decide_True by done. by eexists.
  - rewrite decide_False by lia. by eexists _, _.
Qed.

#[local] Instance toy_source : ByteSource bytes := {| bs_read n s := (Ok (take n s), drop n s) |}.

#[local] Instance toy_source_laws : ByteSourceLaws bytes.
Proof.
  split. intros n s got s' [= <- <-] _. simpl. rewrite take_drop. split; [done|]. rewrite length_take. lia.
Qed.

(** A prelude with nothing but a time that fits a byte. *)
Definition toy_time (b : Z) : InspectionPrelude :=
  {| ip_accept_unix_secs := b; ip_peer := []; ip_http := None |}.

#[local] Instance toy_prelude_postcard : Postcard InspectionPrelude Z := {|
  to_stdvec p := if (0 <=? ip_accept_unix_secs p) && (ip_accept_unix_secs p <? 256)
    then match ip_peer p, ip_http p with [], None => Ok [ip_accept_unix_secs p] | _, _ => Err 1 end
    else Err 2;
  from_bytes bs := match bs with [b] => Ok (toy_time b) | _ => Err 3 end;
|}.

#[local] Instance toy_prelude_laws : PostcardLaws InspectionPrelude Z.
Proof.
  split; intros [t peer http] bs; simpl; destruct (Z.leb_spec 0 t), (Z.ltb_spec t 256); simpl; try done;
    destruct peer, http; try done; intros [= <-].
  - constructor; [|done]. uint. lia.
  - done.
Qed.

#[local] Existing Instance toy_httparse.

Definition toy_payload : bytes :=
  lit "GET /" ++ CRLF ++ lit "x-api-key: k" ++ CRLF ++ CRLF ++ lit "rest".

Definition toy_proxy_env : ProxyEnv :=
  {| pe_auth := {| ae_now := 0; ae_now' := 0; ae_raw := [] |}; pe_request := 0; pe_response := 0;
     pe_wall_ms := 0 |}.

Definition toy_tid : TunnelId := {| tid_raw := 7 |}.

(** An inspected stream with this payload, the target answering two words. *)
Definition toy_opened (payload : bytes) : ProxyWorld bytes :=
  {| pw_recv := DataHeader_to_bytes {| dh_kind := DataHttp; dh_tunnel_id := toy_tid |}
                  ++ (encode_frame (toy_time 9) []).2 ++ payload;
     pw_to_remote := []; pw_finished := false; pw_to_local := None;
     pw_local := [Ok (lit "hello "); Ok (lit "there")]; pw_store := ∅; pw_insp := Inspector_new;
     pw_outcomes := [] |}.

Lemma toy_opened_ok payload :
  Forall is_byte payload -> Opened DataHttp toy_tid true (toy_time 9) payload (toy_opened payload).
Proof.
  intros Hb. split; try done; [|by right].
  exists (encode_frame (toy_time 9) []).2. split; [done|]. exists 2. vm_compute. reflexivity.
Defined.

Definition toy_key : AuthConfig := {| ac_policy := ApiKey (lit "k"); ac_realm := DEFAULT_REALM |}.

Lemma toy_payload_bytes : Forall is_byte toy_payload.
Proof. repeat (apply Forall_cons_2; [solve_in_u|]). apply Forall_nil_2. Defined.

Lemma gate_blocks_witness :
  hd_error toy_payload = Some 22 \/
  exists n, find_head_end toy_payload = Some n /\
    gate_passes (pe_auth toy_proxy_env) toy_key ∅ (take n toy_payload).
Proof.
  destruct (handle_bi_inspected toy_proxy_env toy_tid true true (Some toy_key) (toy_opened toy_payload))
    as [r w'] eqn:E.
  apply (gate_blocks toy_proxy_env toy_tid true true (toy_time 9) toy_payload toy_key
    (toy_opened toy_payload) w' r).
  - apply toy_opened_ok. exact toy_payload_bytes.
  - exact E.
  - revert E. vm_compute. intros [= <- <-]. discriminate.
Defined.


(** The gate looks at the first request of a connection only: what follows on the same
    connection is relayed, with or without a key. *)
Example second_request_unchecked :
  let second := lit "GET /admin" ++ CRLF ++ CRLF in
  let '(r, w') := handle_bi_inspected toy_proxy_env toy_tid false true (Some toy_key)
                    (toy_opened (toy_payload ++ second)) in
  r = Ok Relaying /\ exists before, pw_to_local w' = Some (before ++ second).
Proof. vm_compute. split; [done|]. by exists toy_payload. Qed.

(** With a gate the request is recorded before the acceptance, which then waits for the next
    request of any stream. *)
Example gated_accept_is_late :
  let '(_, w') := handle_bi_inspected toy_proxy_env toy_tid true true (Some toy_key) (toy_opened toy_payload) in
  map en_peer (inspector_snapshot (pw_insp w')) = [None] /\ is_Some (is_pending_accept (pw_insp w')).
Proof. vm_compute. split; [done|]. by eexists. Qed.

(** A client that expects a prelude the server does not send (a resumed tunnel keeps the
    setting of its first registration) takes the visitor's request for one, and fails. *)
Example inspect_mismatch :
  let w := {| pw_recv := DataHeader_to_bytes {| dh_kind := DataHttp; dh_tunnel_id := toy_tid |} ++ toy_payload;
              pw_to_remote := []; pw_finished := false; pw_to_local := None; pw_local := [];
              pw_store := ∅; pw_insp := Inspector_new; pw_outcomes := [] |} in
  let '(r, w') := handle_bi_inspected toy_proxy_env toy_tid true true None w in
  (exists e, r = Err (Failed (CE_Transport e))) /\ pw_to_local w' = None.
Proof. vm_compute. split; [by eexists|done]. Qed.
