(* ===== verification/ClientMain.v ===== *)
(** * ClientMain: the client's command line, put together

    [krot-client/src/main.rs]: what each subcommand loads, connects, publishes, prints and
    serves.  Arguments arrive parsed ([clap] is a library); the data directory, the
    environment, the network ([Attempt]s), the random label and what happens while a tunnel
    is up are inputs. *)

From S2P Require Import Prelude RustStr Wire Framing Types Keys Admin Http LoginPage LocalAuth Config ClientConfig ClientSession Sni Router Inspector Proxy.

Local Open Scope Z_scope.

(** ** Data *)

Inductive Command :=
| Init (server admin_token : str) (fingerprint sni label : option str)
| Tcp (port : Z)
| Http (port : Z) (name : option str) (inspect : bool) (inspect_bind : SocketAddr) (auth : AuthFlags).

Record Cli := { cli_data_dir : option str; cli_cmd : Command }.

Definition DEFAULT_INSPECTOR_BIND : SocketAddr := {| sa_ip := LOCALHOST; sa_port := 4040 |}.

(** What the serving task hands to [handle_bi_inspected] with every stream. *)
Record Handler := {
  hd_tunnel : TunnelId;
  hd_target : SocketAddr;
  hd_inspector : bool;
  hd_inspect : bool;
  hd_auth : option AuthConfig;
}.

(** While a tunnel is up: the user's interrupt, a stream, the end of the connection. *)
Inductive MainEvent := EvCtrlC | EvStream (stream : nat) | EvLost.

Section Main.
Context {S : Type} `{RecvStream S Z Z} `{Postcard ClientFrame Z} `{Postcard ServerFrame Z}.
Context {SK VK : Type} `{Ed25519 SK VK} `{SeedBytes SK} `{Hex}.
Context (hex_error : str -> str).
Context (toml_to : ClientConfig -> Result str str) (toml_from : str -> Result ClientConfig str).

Abbreviation World := (ControlWorld S).

(** [me_task_runs] says whether the serving task still gets to run once [main] returns. *)
Record MainEnv := {
  me_default_dir : option str;
  me_dirs : str -> ConfigDir;
  me_read_error : str;
  me_getenv : str -> option str;
  me_read : str -> Result str str;
  me_quic : Attempt (S := S);
  me_tcp : Attempt (S := S);
  me_timely : bool;
  me_random : Z;
  me_events : list MainEvent;
  me_task_runs : bool;
  me_fresh : SK;
  me_learned : option str;
  me_io : SaveIo;
}.

(** What is left of a run: the lines printed, the inspector's address, the streams served
    and with what, the control stream if one was opened, and the directory written. *)
Record MainOut := {
  mo_stdout : list str;
  mo_stderr : list str;
  mo_ui : option SocketAddr;
  mo_streams : list (nat * Handler);
  mo_control : option World;
  mo_dir : option ConfigDir;
}.

Definition nothing : MainOut :=
  {| mo_stdout := []; mo_stderr := []; mo_ui := None; mo_streams := []; mo_control := None; mo_dir := None |}.

Definition with_control (w : World) (o : MainOut) : MainOut :=
  {| mo_stdout := mo_stdout o; mo_stderr := mo_stderr o; mo_ui := mo_ui o; mo_streams := mo_streams o;
     mo_control := Some w; mo_dir := mo_dir o |}.

Definition CONFIG_PATH (dir : str) : str := dir ++ lit "/config.toml".
Definition NO_DATA_DIR : str := lit "cannot determine data dir".
Definition AUTH_NOTE : str :=
  lit "note: auth check applies to plain-HTTP requests only; HTTPS traffic on this tunnel bypasses the client-side check.".

Definition socket_fmt (a : SocketAddr) : str := sa_ip a ++ lit ":" ++ fmt_dec (sa_port a).

(** ** Serving *)

(** What the serving task sees of the events: [await_shutdown] sends on its channel at the
    first interrupt and [main] returns; the task is told only if it still runs. *)
Fixpoint task_events (task_runs : bool) (evs : list MainEvent) : list PublishEvent :=
  match evs with
  | [] => []
  | EvCtrlC :: _ => if task_runs then [PeShutdown] else []
  | EvLost :: _ => [PeConnectionLost]
  | EvStream s :: evs => PeStream s :: task_events task_runs evs
  end.

(** [await_shutdown] returns at the interrupt or when the task has ended. *)
Definition await_shutdown (env : MainEnv) (handler : Handler) (w : World) : list (nat * Handler) * World :=
  match publish_loop (task_events (me_task_runs env) (me_events env)) w with
  | (Ok (streams, _), w) => (map (fun s => (s, handler)) streams, w)
  | (Err _, w) => ([], w)
  end.

(** [ClientConfig::load_from] and [AuthenticatedSession::connect]. *)
Definition open_session (env : MainEnv) (dir : str) : Result World (ClientError * option World) :=
  match load_from toml_from (CONFIG_PATH dir) (me_read_error env) (me_dirs env dir) with
  | Err e => Err (e, None)
  | Ok cfg =>
    match connect hex_error (cc_server cfg) (cc_identity cfg) (me_quic env) (me_tcp env) with
    | (Err e, w) => Err (e, Some w)
    | (Ok _, w) => Ok w
    end
  end.

Definition local_target (port : Z) : SocketAddr := {| sa_ip := LOCALHOST; sa_port := port |}.

(** A published tunnel is announced and served. *)
Definition serve (env : MainEnv) (t : PublishedTunnel) (target : SocketAddr) (inspector : bool)
    (auth : option AuthConfig) (w : World) (o : MainOut) : MainOut :=
  let handler := {| hd_tunnel := pt_tunnel_id t; hd_target := target; hd_inspector := inspector;
                    hd_inspect := inspector; hd_auth := auth |} in
  let '(streams, w) := await_shutdown env handler w in
  {| mo_stdout := mo_stdout o ++ [pt_public_url t]; mo_stderr := mo_stderr o; mo_ui := mo_ui o;
     mo_streams := streams; mo_control := Some w; mo_dir := mo_dir o |}.

Definition run_tcp (env : MainEnv) (dir : str) (local_port : Z) : Result unit ClientError * MainOut :=
  match open_session env dir with
  | Err (e, w) => (Err e, from_option (fun w => with_control w nothing) nothing w)
  | Ok w =>
    match publish_tcp (me_timely env) (lit "tcp") w with
    | (Err e, w) => (Err e, with_control w nothing)
    | (Ok t, w) => (Ok tt, serve env t (local_target local_port) false None w nothing)
    end
  end.

Definition run_http (env : MainEnv) (dir : str) (local_port : Z) (label : option str) (inspect : bool)
    (inspect_bind : SocketAddr) (auth : option AuthConfig) : Result unit ClientError * MainOut :=
  match open_session env dir with
  | Err (e, w) => (Err e, from_option (fun w => with_control w nothing) nothing w)
  | Ok w =>
    let label := default (default_label (me_random env)) label in
    let o := {| mo_stdout := if inspect then [lit "inspector: http://" ++ socket_fmt inspect_bind] else [];
                mo_stderr := match auth with Some _ => [AUTH_NOTE] | None => [] end;
                mo_ui := if inspect then Some inspect_bind else None;
                mo_streams := []; mo_control := Some w; mo_dir := None |} in
    match auth with
    | Some auth =>
      match publish_http_authed (me_timely env) label inspect auth w with
      | (Err e, w) => (Err e, with_control w o)
      | (Ok (t, auth), w) => (Ok tt, serve env t (local_target local_port) inspect (Some auth) w o)
      end
    | None =>
      match publish_http (me_timely env) label inspect w with
      | (Err e, w) => (Err e, with_control w o)
      | (Ok t, w) => (Ok tt, serve env t (local_target local_port) inspect None w o)
      end
    end
  end.

Definition run_init (env : MainEnv) (dir server admin_token : str) (fingerprint sni label : option str) :
    Result unit ClientError * MainOut :=
  let '(host, port) := split_host_port server in
  let '(r, w, d) := enroll hex_error toml_to toml_from (CONFIG_PATH dir) (me_io env)
    {| eo_server_host := host; eo_server_quic_port := port; eo_sni := sni; eo_admin_token := admin_token;
       eo_label_hint := label; eo_pinned_fingerprint := fingerprint |}
    (me_fresh env) (me_learned env) (me_quic env) (me_dirs env dir) in
  let out lines := {| mo_stdout := lines; mo_stderr := []; mo_ui := None; mo_streams := [];
                      mo_control := Some w; mo_dir := Some d |} in
  match r with
  | Err e => (Err e, out [])
  | Ok cfg =>
    (Ok tt, out ((lit "enrolled at " ++ sp_host (cc_server cfg) ++ lit ":" ++ fmt_dec (sp_quic_port (cc_server cfg)))
                 :: from_option (fun fp => [lit "pinned " ++ fp]) [] (sp_fingerprint (cc_server cfg))))
  end.

Definition main (env : MainEnv) (cli : Cli) : Result unit ClientError * MainOut :=
  match (match cli_data_dir cli with Some d => Some d | None => me_default_dir env end) with
  | None => (Err (CE_Config NO_DATA_DIR), nothing)
  | Some dir =>
    match cli_cmd cli with
    | Init server admin_token fingerprint sni label => run_init env dir server admin_token fingerprint sni label
    | Tcp port => run_tcp env dir port
    | Http port name inspect inspect_bind flags =>
      match build_auth_config (me_getenv env) (me_read env) flags with
      | Err e => (Err e, nothing)
      | Ok auth_cfg => run_http env dir port name inspect inspect_bind auth_cfg
      end
    end
  end.
End Main.
Arguments MainEnv : clear implicits.
Arguments MainOut : clear implicits.

(** ** What each subcommand leaves behind *)

Section MainTheorems.
Context {S : Type} `{RecvStream S Z Z} `{Postcard ClientFrame Z} `{Postcard ServerFrame Z}.
Context {SK VK : Type} `{Ed25519 SK VK} `{SeedBytes SK} `{Hex}.
Context (hex_error : str -> str).
Context (toml_to : ClientConfig -> Result str str) (toml_from : str -> Result ClientConfig str).

Abbreviation main := (main hex_error toml_to toml_from).

Lemma await_handlers (env : MainEnv S SK) handler w n h :
  (n, h) ∈ (await_shutdown env handler w).1 -> h = handler.
Proof.
  unfold await_shutdown. destruct (publish_loop _ w) as [[[streams b]|e] w'].
  - simpl. intros (s & [= -> ->] & _)%list_elem_of_fmap. done.
  - by intros ?%elem_of_nil.
Qed.

Lemma serve_handlers (env : MainEnv S SK) t target inspector auth w o n h :
  (n, h) ∈ mo_streams (serve env t target inspector auth w o) ->
  h = {| hd_tunnel := pt_tunnel_id t; hd_target := target; hd_inspector := inspector;
         hd_inspect := inspector; hd_auth := auth |}.
Proof.
  unfold serve. destruct (await_shutdown _ _ _) as [streams w'] eqn:E. simpl. intros Hin.
  eapply await_handlers. by rewrite E.
Qed.

(** Every stream of [krot http] is served as the command line asked for. *)
Lemma http_handlers (env : MainEnv S SK) dir port label inspect bind auth n h :
  (n, h) ∈ mo_streams (run_http hex_error toml_from env dir port label inspect bind auth).2 ->
  hd_target h = local_target port /\ hd_inspector h = inspect /\ hd_inspect h = inspect /\ hd_auth h = auth.
Proof.
  unfold run_http. destruct (open_session _ _ _ _) as [w|[e w]].
  2:{ destruct w; simpl; by intros ?%elem_of_nil. }
  destruct auth as [cfg|]; simpl.
  - destruct (publish_http_authed _ _ _ _ _) as [[[t a]|e] w'] eqn:E; simpl; [|by intros ?%elem_of_nil].
    unfold publish_http_authed in E. apply sm_bind_Ok in E as (t' & w1 & _ & [= -> -> ->]).
    by intros ->%serve_handlers.
  - destruct (publish_http _ _ _ _) as [[t|e] w'] eqn:E; simpl; [|by intros ?%elem_of_nil].
    by intros ->%serve_handlers.
Qed.

(** ** The gate, from the command line to the local service *)

Section Gate.
Context `{!RecvStreamLaws S Z Z} `{ByteSource S} `{!ByteSourceLaws S}.
Context `{Postcard InspectionPrelude Z} `{!PostcardLaws InspectionPrelude Z} `{Httparse}.

(** C10: [krot http] with an authentication flag publishes no open tunnel.  Whatever the
    server, the network and the visitors do, every stream the command serves is handled
    with the policy the flag names, and on it the local port is dialled only for a TLS
    record or a request that policy lets pass; if the flag cannot be turned into a policy,
    the command fails before it connects anywhere. *)
Theorem protected_http (env : MainEnv S SK) (cli : Cli) (port : Z) (name : option str) (inspect : bool)
    (bind : SocketAddr) (flags : AuthFlags) (r : Result unit ClientError) (out : MainOut S)
    (Hcmd : cli_cmd cli = Http port name inspect bind flags) (Hgiven : auth_given flags = true)
    (Hrun : main env cli = (r, out)) :
  (forall e, build_auth_config (me_getenv env) (me_read env) flags = Err e ->
     (exists e', r = Err e') /\ out = nothing) /\
  forall n h, (n, h) ∈ mo_streams out ->
    hd_target h = local_target port /\
    exists cfg, build_auth_config (me_getenv env) (me_read env) flags = Ok (Some cfg) /\ hd_auth h = Some cfg /\
      forall penv prelude payload (w w' : ProxyWorld S) res,
        Opened DataHttp (hd_tunnel h) (hd_inspect h) prelude payload w ->
        handle_bi_inspected penv (hd_tunnel h) (hd_inspector h) (hd_inspect h) (hd_auth h) w = (res, w') ->
        pw_to_local w' <> None ->
        hd_error payload = Some 22 \/
        exists k, find_head_end payload = Some k /\
          gate_passes (pe_auth penv) cfg (pw_store w) (take k payload).
Proof.
  unfold ClientMain.main in Hrun. rewrite Hcmd in Hrun.
  pose proof (auth_given_kept (me_getenv env) (me_read env) flags Hgiven) as Hno.
  destruct (match cli_data_dir cli with Some d => Some d | None => me_default_dir env end) as [dir|].
  2:{ injection Hrun as <- <-. split; [by eauto|]. by intros n h ?%elem_of_nil. }
  destruct (build_auth_config _ _ _) as [[cfg|]|e] eqn:Ea; [|done|].
  2:{ injection Hrun as <- <-. split; [by eauto|]. by intros n h ?%elem_of_nil. }
  split; [done|]. intros n h Hin.
  destruct (http_handlers env dir port name inspect bind (Some cfg) n h) as (Ht & Hi & Hp & Hau).
  { by rewrite Hrun. }
  split; [done|]. exists cfg. split_and!; [done|done|]. intros penv prelude payload w w' res Ho Hh Hd.
  rewrite Hau in Hh. by eapply gated_dial.
Qed.
End Gate.

(** ** Interrupting, and coming back *)

Lemma streams_pending streams (w : ControlWorld S) :
  publish_loop (map PeStream streams) w = (Ok (streams, false), w).
Proof. induction streams as [|s streams IH]; [done|]. simpl. unfold sm_bind. by rewrite IH. Qed.

(** A tunnel is up, streams were served, the user interrupts: if the serving task gets to
    run, the last thing the server hears is [Bye]; if the runtime ends first, it hears
    nothing, and only the loss of the connection tells it. *)
Lemma interrupt_bye (env : MainEnv S SK) handler streams more w n bye :
  me_events env = map EvStream streams ++ EvCtrlC :: more -> encode_frame Bye [] = (Ok n, bye) ->
  cs_outcomes w = [] ->
  exists w', await_shutdown env handler w = (map (fun s => (s, handler)) streams, w') /\
    if me_task_runs env then cs_sent w' = cs_sent w ++ bye /\ cs_closed w' = Some 0 else w' = w.
Proof.
  intros He Hb Ho. unfold await_shutdown. rewrite He.
  assert (Ht : forall b, task_events b (map EvStream streams ++ EvCtrlC :: more) =
    map PeStream streams ++ (if b then [PeShutdown] else [])).
  { intros b. clear He. induction streams as [|s streams IH]; [done|]. simpl. by rewrite <-IH. }
  rewrite Ht. destruct (me_task_runs env).
  - destruct (shutdown_says_bye streams [] w n bye Hb Ho) as (w' & -> & Hs & _ & Hc). by exists w'.
  - rewrite app_nil_r. exists w. by rewrite streams_pending.
Qed.

Lemma enroll_Ok_config path io opts fresh learned (a : Attempt (S := S)) dir cfg w' dir' :
  enroll hex_error toml_to toml_from path io opts fresh learned a dir = (Ok cfg, w', dir') ->
  exists identity, cfg = enrolled_config opts identity learned.
Proof.
  unfold enroll. destruct (build_enroll_tls opts); [|done]. destruct (at_bind a); [done|].
  destruct (resolve_server _ _ _); [|done]. destruct (at_connect a); [done|].
  destruct (enroll_exchange _ _ _ _) as [[line|e] w1]; [|done]. destruct (save_to _ _ _ _) as [[u|e] d]; [|done].
  intros [= <- _ _]. by eexists.
Qed.

(** C27: What [krot init] enrolled is what [krot http] and [krot tcp] present.  If [init]
    succeeded, it sent an [Enroll] frame with the given token and the public key of an
    identity, and the server confirmed it.  A later run in the same data directory connects
    with that same identity to the host and port given to [--server], under the pinned
    fingerprint, or the one learned then; if it comes up, the key it announced on its
    control stream is the enrolled one. *)
Theorem init_then_connect (Htoml : forall cfg text, toml_to cfg = Ok text -> toml_from text = Ok cfg)
    (env later : MainEnv S SK) (dir server token : str) (fingerprint sni label : option str) (out : MainOut S)
    (Hrun : main env {| cli_data_dir := Some dir; cli_cmd := Init server token fingerprint sni label |} = (Ok tt, out))
    (Hdir : Some (me_dirs later dir) = mo_dir out) :
  exists cfg pk n frame line s w,
    (sp_host (cc_server cfg), sp_quic_port (cc_server cfg)) = split_host_port server /\
    sp_sni (cc_server cfg) = sni /\
    sp_fingerprint (cc_server cfg) = match fingerprint with Some fp => Some fp | None => me_learned env end /\
    pubkey hex_error (cc_identity cfg) = Ok pk /\
    encode_frame (Enroll token pk label) [] = (Ok n, frame) /\ mo_control out = Some w /\
    cs_sent w = cs_sent (at_control (me_quic env)) ++ StreamKind_as_byte Control :: frame /\
    read_frame (cs_recv (at_control (me_quic env))) = (Ok (EnrollOk line), s) /\
    open_session hex_error toml_from later dir =
      match connect hex_error (cc_server cfg) (cc_identity cfg) (me_quic later) (me_tcp later) with
      | (Err e, w) => Err (e, Some w)
      | (Ok _, w) => Ok w
      end /\
    forall w', open_session hex_error toml_from later dir = Ok w' ->
      exists a m auth more, (a = me_quic later \/ a = me_tcp later) /\
        encode_frame (AuthRequest pk) [] = (Ok m, auth) /\
        cs_sent w' = cs_sent (at_control a) ++ StreamKind_as_byte Control :: auth ++ more.
Proof.
  unfold ClientMain.main, run_init in Hrun. simpl in Hrun.
  destruct (split_host_port server) as [host port].
  set (opts := {| eo_server_host := host; eo_server_quic_port := port; eo_sni := sni; eo_admin_token := token;
    eo_label_hint := label; eo_pinned_fingerprint := fingerprint |}) in *.
  pose proof (enroll_persists hex_error toml_to toml_from Htoml (CONFIG_PATH dir) (me_io env) opts (me_fresh env)
    (me_learned env) (me_quic env) (me_dirs env dir)) as Hp.
  destruct (enroll _ _ _ _ _ _ _ _ _ _) as [[[cfg|e] w] d] eqn:Ee; [|done]. injection Hrun as <-.
  simpl in Hdir. injection Hdir as <-.
  destruct Hp as (_ & Hf & Hl & pk & n & frame & line & s & Hpk & He & Hs & Hr).
  destruct (enroll_Ok_config _ _ _ _ _ _ _ _ _ _ Ee) as [identity ->].
  assert (Ho : open_session hex_error toml_from later dir =
    match connect hex_error (cc_server (enrolled_config opts identity (me_learned env))) identity
      (me_quic later) (me_tcp later) with (Err e, w) => Err (e, Some w) | (Ok _, w) => Ok w end)
    by (unfold open_session; by rewrite Hl).
  exists (enrolled_config opts identity (me_learned env)), pk, n, frame, line, s, w.
  split_and!; [done..|]. intros w'. rewrite Ho.
  destruct (connect _ _ _ _ _) as [[sess|e] w1] eqn:Ec; [|done]. intros [= <-].
  apply connect_announces in Ec as (a & pk' & m & auth & more & Ha & Hpk' & ?).
  exists a, m, auth, more. cbn in Hpk. rewrite Hpk in Hpk'. by injection Hpk' as <-.
Qed.
End MainTheorems.

(** ** A run at a concrete input *)

(** A codec with a tag per frame, enough for one handshake and one registration. *)
#[local] Instance toy_client_codec : Postcard ClientFrame Z := {|
  to_stdvec _ := Ok [9];
  from_bytes _ := Err 0;
|}.

Definition toy_tunnel : TunnelId := {| tid_raw := 7 |}.

#[local] Instance toy_server_codec : Postcard ServerFrame Z := {|
  to_stdvec _ := Err 0;
  from_bytes (bs : bytes) :=
    match bs with
    | [0] => Ok (AuthChallenge {| nonce_raw := repeat 0 32 |})
    | [1] => Ok (AuthOk {| sid_raw := repeat 1 16 |})
    | [2] => Ok (TunnelRegistered toy_tunnel (lit "https://web.example") None)
    | _ => Err 1
    end;
|}.

#[local] Existing Instances unit_ed unit_seed toy_hex toy_recv toy_recv_laws toy_source toy_source_laws
  toy_prelude_postcard toy_prelude_laws toy_httparse.

(** An enrolled client whose server answers the handshake and grants the tunnel; one visitor. *)
Definition toy_main_config : ClientConfig :=
  {| cc_identity := Identity_generate tt; cc_server := toy_pin |}.

Definition toy_main_attempt : Attempt (S := bytes) :=
  {| at_lookup := Ok true; at_bind := None; at_connect := None;
     at_control := toy_control [1; 0; 1; 1; 1; 2] |}.

Definition toy_main_env : MainEnv bytes unit :=
  {| me_default_dir := Some (lit "/home/u/.krot"); me_dirs _ := {| cd_file := Some (lit "text"); cd_tmp := None |};
     me_read_error := []; me_getenv _ := Some (lit "alice:pw"); me_read _ := Err [];
     me_quic := toy_main_attempt; me_tcp := toy_main_attempt; me_timely := true; me_random := 5;
     me_events := [EvStream 3; EvCtrlC]; me_task_runs := true; me_fresh := tt; me_learned := None;
     me_io := toy_io |}.

Definition toy_cli : Cli :=
  {| cli_data_dir := None; cli_cmd := Http 8080 None false DEFAULT_INSPECTOR_BIND toy_flags |}.

Definition toy_run : Result unit ClientError * MainOut bytes :=
  main (fun e => e) (toy_toml_to toy_main_config) (toy_toml_from toy_main_config) toy_main_env toy_cli.

Lemma protected_http_witness :
  exists h, mo_streams toy_run.2 = [(3%nat, h)] /\ hd_target h = local_target 8080 /\
    exists cfg, hd_auth h = Some cfg /\ ac_policy cfg = Session (lit "alice") (lit "pw").
Proof.
  destruct (protected_http (fun e => e) (toy_toml_to toy_main_config) (toy_toml_from toy_main_config)
    toy_main_env toy_cli 8080 None false DEFAULT_INSPECTOR_BIND toy_flags toy_run.1 toy_run.2
    eq_refl eq_refl (surjective_pairing _)) as [_ Hs].
  eexists. split; [vm_compute; reflexivity|].
  edestruct (Hs 3%nat) as (Ht & cfg & Hb & Ha & _); [vm_compute; apply list_elem_of_here|].
  split; [exact Ht|]. exists cfg. split; [exact Ha|]. revert Hb. vm_compute. by intros [= <-].
Defined.

(** The server confirms an enrolment; what it leaves is what a later run opens. *)
Definition enroll_codec : Postcard ServerFrame Z :=
  {| to_stdvec _ := Err 0; from_bytes _ := Ok (EnrollOk (lit "line")) |}.

Definition toy_init_cli : Cli :=
  {| cli_data_dir := Some (lit "d"); cli_cmd := Init (lit "relay:7853") (lit "tok") None None None |}.

Definition toy_init_config : ClientConfig := enrolled_config toy_enroll (Identity_generate tt) None.

Definition toy_init_run : Result unit ClientError * MainOut bytes :=
  main (H1 := enroll_codec) (fun e => e) (toy_toml_to toy_init_config) (toy_toml_from toy_init_config)
    toy_main_env toy_init_cli.

Definition toy_later_env : MainEnv bytes unit :=
  {| me_default_dir := None; me_dirs _ := default toy_dir (mo_dir toy_init_run.2);
     me_read_error := []; me_getenv _ := None; me_read _ := Err [];
     me_quic := toy_main_attempt; me_tcp := toy_main_attempt; me_timely := true; me_random := 5;
     me_events := []; me_task_runs := true; me_fresh := tt; me_learned := None; me_io := toy_io |}.

Lemma init_then_connect_witness :
  exists cfg, (sp_host (cc_server cfg), sp_quic_port (cc_server cfg)) = (lit "relay", 7853) /\
    open_session (H1 := enroll_codec) (fun e => e) (toy_toml_from toy_init_config) toy_later_env (lit "d") =
      match connect (H1 := enroll_codec) (fun e => e) (cc_server cfg) (cc_identity cfg) toy_main_attempt toy_main_attempt with
      | (Err e, w) => Err (e, Some w)
      | (Ok _, w) => Ok w
      end.
Proof.
  destruct (init_then_connect (H1 := enroll_codec) (fun e => e) (toy_toml_to toy_init_config)
    (toy_toml_from toy_init_config) (toy_toml_law toy_init_config) toy_main_env toy_later_env (lit "d")
    (lit "relay:7853") (lit "tok") None None None toy_init_run.2)
    as (cfg & pk & n & frame & line & s & w & Hh & _ & _ & _ & _ & _ & _ & _ & Ho & _).
  - vm_compute. reflexivity.
  - vm_compute. reflexivity.
  - exists cfg. split; [rewrite Hh; vm_compute; reflexivity|exact Ho].
Defined.
