(* ===== verification/AdminApi.v ===== *)
(** * AdminApi: the operator's HTTP interface

    [krot-server/src/admin_api.rs]: a request is read off a TCP connection, its bearer
    token is checked against the live sessions, and a handler lists tunnels or keys,
    appends or removes a key, or renders the metrics; the one open endpoint exchanges the
    single-use admin token for a session.

    [serde_json] is a parameter: the documents the handlers build are values of [Json], the
    field a handler asks of a request body is [json_field].  [blake3], [base32] and [base64]
    are parameters as in [Admin] and [Handshake]; random draws, clocks and the outcomes of
    file operations are the fields of [ApiEnv]. *)

From S2P Require Import Prelude RustStr Wire Types Registry Rate Keys Admin Handshake Metrics Config Http Sni.

Local Open Scope Z_scope.

(** ** Data *)

Definition SESSION_TOKEN_RAW_LEN : nat := 32.
Definition DEFAULT_ADMIN_BIND : str := lit "127.0.0.1:9700".
Definition API_MAX_HEADER_BYTES : Z := 8 * 1024.
Definition MAX_BODY_BYTES : Z := 64 * 1024.

(** [rates] is shared with the data path; [aa_revoked] is what was broadcast on the key
    registry's revocation channel. *)
Record AdminApiState := {
  aa_keys : KeyRegistry;
  aa_registry : TunnelRegistry;
  aa_admin_tokens : AdminTokenStore;
  aa_sessions : gmap bytes Z;
  aa_session_ttl : Z;
  aa_rates : gmap PubKey RateLimitState;
  aa_metrics : ServerMetrics;
  aa_revoked : list PubKey;
}.

Definition AdminApiState_new (keys : KeyRegistry) (registry : TunnelRegistry)
    (admin_tokens : AdminTokenStore) (rates : gmap PubKey RateLimitState) (session_ttl : Z)
    (metrics : ServerMetrics) : AdminApiState :=
  {| aa_keys := keys; aa_registry := registry; aa_admin_tokens := admin_tokens;
     aa_sessions := ∅; aa_session_ttl := session_ttl; aa_rates := rates;
     aa_metrics := metrics; aa_revoked := [] |}.

Record Request := {
  rq_method : str;
  rq_path : str;
  rq_headers : list (str * str);
  rq_body : bytes;
}.

(** A JSON document as the handlers build it. *)
Inductive Json :=
| JNull
| JBool (b : bool)
| JNum (n : Z)
| JStr (s : str)
| JArr (l : list Json)
| JObj (fields : list (str * Json)).

(** [serde_json]: [to_vec], and [from_slice] into a struct with one string field. *)
Class SerdeJson := {
  json_to_vec : Json -> bytes;
  json_field : str -> bytes -> option str;
}.

(** What one request meets: the monotonic clock, the wall clock, the random bytes drawn,
    the outcomes of file operations, the text of an operating-system error. *)
Record ApiEnv := {
  ap_now : Z;
  ap_unix : Z;
  ap_raw : bytes;
  ap_rm_ok : bool;
  ap_write : WriteIo;
  ap_read : Z;
  ap_version : str;
  ap_inner_text : ServerError -> str;
}.

(** [Display] of [ServerError]; the text of a wrapped error is an input. *)
Definition ServerError_fmt (inner : ServerError -> str) (e : ServerError) : str :=
  match e with
  | SE_Io _ => lit "io: " ++ inner e
  | SE_Transport _ => lit "transport: " ++ inner e
  | SE_Rustls _ => lit "rustls: " ++ inner e
  | SE_Rcgen _ => lit "rcgen: " ++ inner e
  | SE_Keys msg => lit "authorized_keys: " ++ msg
  | SE_AdminToken msg => lit "admin token: " ++ msg
  | SE_Protocol msg => lit "protocol violation: " ++ msg
  | SE_PortPoolExhausted => lit "port pool exhausted"
  end.

(** ** Field updates *)

Definition with_keys (k : KeyRegistry) (revoked : list PubKey) (s : AdminApiState) : AdminApiState :=
  {| aa_keys := k; aa_registry := aa_registry s; aa_admin_tokens := aa_admin_tokens s;
     aa_sessions := aa_sessions s; aa_session_ttl := aa_session_ttl s; aa_rates := aa_rates s;
     aa_metrics := aa_metrics s; aa_revoked := aa_revoked s ++ revoked |}.

Definition with_admin (t : AdminTokenStore) (s : AdminApiState) : AdminApiState :=
  {| aa_keys := aa_keys s; aa_registry := aa_registry s; aa_admin_tokens := t;
     aa_sessions := aa_sessions s; aa_session_ttl := aa_session_ttl s; aa_rates := aa_rates s;
     aa_metrics := aa_metrics s; aa_revoked := aa_revoked s |}.

Definition with_sessions (m : gmap bytes Z) (s : AdminApiState) : AdminApiState :=
  {| aa_keys := aa_keys s; aa_registry := aa_registry s; aa_admin_tokens := aa_admin_tokens s;
     aa_sessions := m; aa_session_ttl := aa_session_ttl s; aa_rates := aa_rates s;
     aa_metrics := aa_metrics s; aa_revoked := aa_revoked s |}.

Definition count (c : Counter) (s : AdminApiState) : AdminApiState :=
  {| aa_keys := aa_keys s; aa_registry := aa_registry s; aa_admin_tokens := aa_admin_tokens s;
     aa_sessions := aa_sessions s; aa_session_ttl := aa_session_ttl s; aa_rates := aa_rates s;
     aa_metrics := bump c (aa_metrics s); aa_revoked := aa_revoked s |}.

Section AdminApi.
Context (blake3 : bytes -> bytes) (base32_encode : bytes -> str).
Context `{Base64} `{SerdeJson}.

(** ** Sessions *)

(** [mint_session]; Unix time saturates at [u64::MAX]. *)
Definition mint_session (env : ApiEnv) (s : AdminApiState) : (str * Z) * AdminApiState :=
  let token := base32_encode (ap_raw env) in
  let hash := blake3 (str_bytes token) in
  let expires_at := ap_now env + aa_session_ttl s in
  let expires_at_unix := Z.min (u_max 64) (ap_unix env + Duration_as_secs (aa_session_ttl s)) in
  ((token, expires_at_unix), with_sessions (<[hash := expires_at]> (aa_sessions s)) s).

Definition check_session (now : Z) (presented : str) (s : AdminApiState) : bool * AdminApiState :=
  let candidate := blake3 (str_bytes presented) in
  let sessions := filter (fun kv => now < kv.2) (aa_sessions s) in
  (foldr (fun kv hit => constant_time_eq_public candidate kv.1 || hit) false
     (map_to_list sessions),
   with_sessions sessions s).

(** ** Responses *)

Definition status_line (code : Z) : str :=
  if code =? 200 then lit "200 OK"
  else if code =? 204 then lit "204 No Content"
  else if code =? 400 then lit "400 Bad Request"
  else if code =? 401 then lit "401 Unauthorized"
  else if code =? 404 then lit "404 Not Found"
  else lit "500 Internal Server Error".

Definition Reply : Type := str * bytes.

Definition json (status_code : Z) (body : Json) : Reply :=
  (status_line status_code, json_to_vec body).

Definition error (status_code : Z) (message : str) : Reply :=
  (status_line status_code, json_to_vec (JObj [(lit "error", JStr message)])).

Definition b64 (bs : bytes) : str := b64_encode bs.

Definition json_opt {A} (f : A -> Json) (o : option A) : Json :=
  match o with Some a => f a | None => JNull end.

(** ** Handlers *)

Definition handle_session (env : ApiEnv) (req : Request) (s : AdminApiState) : Reply * AdminApiState :=
  match json_field (lit "admin_token") (rq_body req) with
  | None => (error 400 (lit "expected {" ++ [34] ++ lit "admin_token" ++ [34] ++ lit ": "
                          ++ [34] ++ lit "..." ++ [34] ++ lit "}"), s)
  | Some admin_token =>
    match consume blake3 (ap_now env) (ap_rm_ok env) admin_token (aa_admin_tokens s) with
    | (Err _, tokens) =>
      (error 401 (lit "admin token rejected"), count admin_api_session_rejected (with_admin tokens s))
    | (Ok _, tokens) =>
      let s := count admin_api_session_minted (with_admin tokens s) in
      let '((token, expires_at_unix), s) := mint_session env s in
      (json 200 (JObj [(lit "session_token", JStr token); (lit "expires_at_unix", JNum expires_at_unix)]), s)
    end
  end.

(** [dto_of], as the document it serialises to. *)
Definition dto_of (t : TunnelSnapshot) : Json :=
  let '(kind, label, port) :=
    match ts_kind t with
    | TSK_Http label => (lit "http", Some label, None)
    | TSK_Tcp public_port => (lit "tcp", None, Some public_port)
    end in
  JObj [ (lit "tunnel_id", JNum (tid_raw (ts_tunnel_id t)));
         (lit "owner_pubkey_b64", JStr (b64 (pk_raw (ts_owner t))));
         (lit "session_id_b64", JStr (b64 (sid_raw (ts_session_id t))));
         (lit "state", JStr (if ts_live t then lit "live" else lit "dangling"));
         (lit "inspect", JBool (ts_inspect t));
         (lit "kind", JStr kind);
         (lit "label", json_opt JStr label);
         (lit "public_port", json_opt JNum port) ].

Definition handle_list_tunnels (s : AdminApiState) : Reply :=
  json 200 (JArr (map dto_of (snapshot (aa_registry s)))).

Definition key_dto (ke : PubKey * AuthorizedEntry) : Json :=
  let (pk, e) := ke in
  JObj [ (lit "pubkey_b64", JStr (b64 (pk_raw pk)));
         (lit "allow_any_subdomain", JBool (ae_allow_any_subdomain e));
         (lit "allowed_subdomains", JArr (map JStr (ae_allowed_subdomains e)));
         (lit "max_conns", json_opt JNum (ae_max_conns e));
         (lit "allowed_ports", json_opt (fun l => JArr (map JNum l)) (ae_allowed_ports e));
         (lit "bw", json_opt (fun r => JStr (format_rate r)) (ae_bw e));
         (lit "quota", json_opt (fun r => JStr (format_rate r)) (ae_quota e));
         (lit "comment", json_opt JStr (ae_comment e)) ].

Definition handle_list_keys (s : AdminApiState) : Reply :=
  json 200 (JArr (map key_dto (KeyRegistry_snapshot (aa_keys s)))).

Definition handle_append_key (env : ApiEnv) (req : Request) (s : AdminApiState) : Reply * AdminApiState :=
  match json_field (lit "line") (rq_body req) with
  | None => (error 400 (lit "expected {" ++ [34] ++ lit "line" ++ [34] ++ lit ": "
                          ++ [34] ++ lit "..." ++ [34] ++ lit "}"), s)
  | Some line =>
    match append_line b64_decode (ap_write env) line (aa_keys s) with
    | (Ok stored, keys) =>
      ((lit "200 OK", json_to_vec (JObj [(lit "appended", JStr stored)])),
       count admin_api_key_appended (with_keys keys [] s))
    | (Err e, keys) =>
      (error 400 (lit "append_line: " ++ ServerError_fmt (ap_inner_text env) e), with_keys keys [] s)
    end
  end.

Definition handle_delete_key (env : ApiEnv) (pubkey_b64 : str) (s : AdminApiState) : Reply * AdminApiState :=
  match b64_decode pubkey_b64 with
  | None => (error 400 (lit "pubkey is not standard base64"), s)
  | Some raw =>
    if negb (Nat.eqb (length raw) 32) then (error 400 (lit "pubkey must be 32 bytes"), s)
    else
      match remove_pubkey b64_decode (ap_write env) (ap_read env) {| pk_raw := raw |} (aa_keys s) with
      | (Ok true, keys, sent) =>
        ((lit "204 No Content", []), count admin_api_key_removed (with_keys keys sent s))
      | (Ok false, keys, sent) =>
        (error 404 (lit "no such key"), count admin_api_key_remove_not_found (with_keys keys sent s))
      | (Err e, keys, sent) =>
        (error 500 (lit "remove_pubkey: " ++ ServerError_fmt (ap_inner_text env) e), with_keys keys sent s)
      end
  end.

Definition handle_metrics (env : ApiEnv) (s : AdminApiState) : Reply :=
  let snap := snapshot (aa_registry s) in
  let live := length (filter (fun t => ts_live t = true) snap) in
  let dangling := length (filter (fun t => ts_live t = false) snap) in
  let per_identity := map (fun kr => (b64 (pk_raw kr.1), quota_used_snapshot kr.2))
                        (map_to_list (aa_rates s)) in
  (lit "200 OK", str_bytes (to_prometheus_text (ap_version env) (ap_unix env) (Z.of_nat live)
                              (Z.of_nat dangling) per_identity (aa_metrics s))).

Definition POST : str := lit "POST".
Definition GET : str := lit "GET".
Definition DELETE : str := lit "DELETE".
Definition SESSION_PATH : str := lit "/admin/v1/session".
Definition TUNNELS_PATH : str := lit "/admin/v1/tunnels".
Definition KEYS_PATH : str := lit "/admin/v1/keys".
Definition KEY_PREFIX : str := lit "/admin/v1/keys/".
Definition METRICS_PATH : str := lit "/admin/v1/metrics".

(** The table of authenticated routes. *)
Definition dispatch_route (env : ApiEnv) (req : Request) (s : AdminApiState) : Reply * AdminApiState :=
  if bool_decide (rq_method req = GET /\ rq_path req = TUNNELS_PATH) then (handle_list_tunnels s, s)
  else if bool_decide (rq_method req = GET /\ rq_path req = KEYS_PATH) then (handle_list_keys s, s)
  else if bool_decide (rq_method req = POST /\ rq_path req = KEYS_PATH) then handle_append_key env req s
  else if bool_decide (rq_method req = GET /\ rq_path req = METRICS_PATH) then (handle_metrics env s, s)
  else if bool_decide (rq_method req = DELETE) then
    match strip_prefix KEY_PREFIX (rq_path req) with
    | Some pubkey_b64 => handle_delete_key env pubkey_b64 s
    | None => (error 404 (lit "no such route"), s)
    end
  else (error 404 (lit "no such route"), s).

Definition route (env : ApiEnv) (req : Request) (auth : option str) (s : AdminApiState) :
    Reply * AdminApiState :=
  if bool_decide (rq_method req = POST /\ rq_path req = SESSION_PATH) then handle_session env req s
  else
    match auth with
    | None => (error 401 (lit "missing Authorization: Bearer"), count admin_api_auth_failed s)
    | Some token =>
      let (ok, s) := check_session (ap_now env) token s in
      if negb ok
      then (error 401 (lit "invalid or expired session token"), count admin_api_auth_failed s)
      else dispatch_route env req s
    end.

(** ** Requests *)

Definition auth_bearer (req : Request) : option str :=
  find_map (fun kv =>
    if eq_ignore_ascii_case kv.1 (lit "authorization") then
      match strip_prefix (lit "Bearer ") kv.2 with
      | Some rest => Some (trim rest)
      | None => match strip_prefix (lit "bearer ") kv.2 with
                | Some rest => Some (trim rest)
                | None => None
                end
      end
    else None) (rq_headers req).

Section Reading.
Context `{Httparse}.

Inductive ReadError := RdIo (e : Z) | RdEof | RdHeaderCap | RdBodyCap | RdParse.

(** One header of the head: its text, and the content length so far. *)
Definition take_header (acc : list (str * str) * Z) (h : str * bytes) : list (str * str) * Z :=
  let value := default [] (from_utf8 h.2) in
  (acc.1 ++ [(h.1, value)],
   if eq_ignore_ascii_case h.1 (lit "content-length") then default 0 (parse_uint 64 value) else acc.2).

(** The head: every turn reads at least a byte, and [API_MAX_HEADER_BYTES] bounds them. *)
Fixpoint read_head (fuel : nat) (buf : bytes) (tcp : TcpStream) :
    option (Result (HttpHead * nat * bytes) ReadError * TcpStream) :=
  match fuel with
  | O => None
  | S fuel =>
    match tcp_read 1024 tcp with
    | (Err e, tcp) => Some (Err (RdIo e), tcp)
    | (Ok [], tcp) => Some (Err RdEof, tcp)
    | (Ok got, tcp) =>
      let buf := buf ++ got in
      match parse_request buf with
      | (HsComplete end_, head) => Some (Ok (head, end_, buf), tcp)
      | (HsPartial, _) =>
        if API_MAX_HEADER_BYTES <? len buf then Some (Err RdHeaderCap, tcp)
        else read_head fuel buf tcp
      | (HsError, _) => Some (Err RdParse, tcp)
      end
    end
  end.

(** The body; [fuel] exceeds the bytes still missing. *)
Fixpoint read_body (fuel : nat) (content_length : Z) (body : bytes) (tcp : TcpStream) :
    option (Result bytes ReadError * TcpStream) :=
  if content_length <=? len body then Some (Ok body, tcp)
  else
    match fuel with
    | O => None
    | S fuel =>
      match tcp_read 4096 tcp with
      | (Err e, tcp) => Some (Err (RdIo e), tcp)
      | (Ok [], tcp) => Some (Ok body, tcp)
      | (Ok got, tcp) => read_body fuel content_length (body ++ got) tcp
      end
    end.

Definition api_read_request (tcp : TcpStream) : option (Result Request ReadError * TcpStream) :=
  match read_head (Z.to_nat (API_MAX_HEADER_BYTES + 2)) [] tcp with
  | None => None
  | Some (Err e, tcp) => Some (Err e, tcp)
  | Some (Ok (head, end_, buf), tcp) =>
    let '(headers, content_length) := foldl take_header ([], 0) (hh_headers head) in
    if MAX_BODY_BYTES <? content_length then Some (Err RdBodyCap, tcp)
    else
      match read_body (Z.to_nat content_length) content_length (drop end_ buf) tcp with
      | None => None
      | Some (Err e, tcp) => Some (Err e, tcp)
      | Some (Ok body, tcp) =>
        Some (Ok {| rq_method := default [] (hh_method head); rq_path := default [] (hh_path head);
                    rq_headers := headers; rq_body := take (Z.to_nat content_length) body |}, tcp)
      end
  end.

Definition api_write_response (r : Reply) : bytes :=
  str_bytes (response_head r.1 (lit "application/json") (len r.2)) ++ r.2.

(** One connection: the response written, if the request could be read. *)
Definition api_handle (env : ApiEnv) (tcp : TcpStream) (s : AdminApiState) :
    option (Result bytes ReadError * AdminApiState) :=
  match api_read_request tcp with
  | None => None
  | Some (Err e, _) => Some (Err e, s)
  | Some (Ok req, _) =>
    let '(reply, s) := route env req (auth_bearer req) s in
    Some (Ok (api_write_response reply), s)
  end.

End Reading.
End AdminApi.

(** ** Sessions *)

Section Sessions.
Context (blake3 : bytes -> bytes) (base32_encode : bytes -> str).
Context `{Base64} `{SerdeJson}.

#[local] Arguments lit : simpl never.

(** A token is live when its hash is stored with a later expiry. *)
Definition live_session (now : Z) (token : str) (s : AdminApiState) : Prop :=
  exists exp, aa_sessions s !! blake3 (str_bytes token) = Some exp /\ now < exp.

Lemma check_session_spec now token s :
  (check_session blake3 now token s).1 = true <-> live_session now token s.
Proof.
  unfold check_session, live_session. simpl. set (c := blake3 _).
  assert (Hf : forall l : list (bytes * Z),
    foldr (fun kv hit => constant_time_eq_public c kv.1 || hit) false l = true <->
    exists e, (c, e) ∈ l).
  { induction l as [|[k e] l IH]; simpl.
    - split; [done|]. intros [e He]. by apply elem_of_nil in He.
    - rewrite orb_true_iff, IH. rewrite (constant_time_eq_true c k).
      setoid_rewrite elem_of_cons. naive_solver. }
  rewrite Hf. setoid_rewrite elem_of_map_to_list. setoid_rewrite map_lookup_filter_Some. naive_solver.
Qed.

Definition is_session_request (req : Request) : Prop :=
  rq_method req = POST /\ rq_path req = SESSION_PATH.

#[global] Instance is_session_request_dec req : Decision (is_session_request req).
Proof. unfold is_session_request. apply _. Defined.

(** What a request refused at [now] leaves behind: one counter moved, and of the sessions
    at most expired ones are gone. *)
Definition refused (now : Z) (s s' : AdminApiState) : Prop :=
  exists sessions, s' = count admin_api_auth_failed (with_sessions sessions s) /\
    sessions ⊆ aa_sessions s /\
    forall hash exp, aa_sessions s !! hash = Some exp -> now < exp -> sessions !! hash = Some exp.

Lemma with_sessions_same s : with_sessions (aa_sessions s) s = s.
Proof. by destruct s. Qed.

Lemma status_401 : status_line 401 = lit "401 Unauthorized".
Proof. done. Qed.

(** C28: Nothing behind the admin API moves without a live session.  A request other than
    the exchange of an admin token either presents a bearer token whose hash is stored with
    an expiry still to come, or it is answered 401 and changes nothing but one counter and
    the expired sessions: every session still to expire is there afterwards. *)
Theorem admin_gate (env : ApiEnv) (req : Request) (auth : option str) (s s' : AdminApiState)
    (reply : Reply) (Hr : route blake3 base32_encode env req auth s = (reply, s'))
    (Hn : ~ is_session_request req) :
  (exists token, auth = Some token /\ live_session (ap_now env) token s) \/
  (reply.1 = lit "401 Unauthorized" /\ refused (ap_now env) s s').
Proof.
  unfold route in Hr. rewrite bool_decide_eq_false_2 in Hr by done.
  destruct auth as [token|].
  - pose proof (check_session_spec (ap_now env) token s) as Hc.
    destruct (check_session blake3 (ap_now env) token s) as [ok s1] eqn:Ec. simpl in Hc.
    destruct ok; [left; exists token; split; [done|]; by apply Hc|right].
    injection Hr as <- <-. split; [done|]. unfold check_session in Ec. injection Ec as _ <-.
    eexists. split; [done|]. split; [apply map_filter_subseteq|].
    intros hash exp Hh Hlt. by apply map_lookup_filter_Some.
  - right. injection Hr as <- <-. split; [done|]. exists (aa_sessions s).
    by rewrite with_sessions_same.
Qed.

(** ** Where sessions come from *)

(** What happens to the state over time: a request; the operator issues an admin token; an
    enrolment consumes one; keys, tunnels, rates and metrics change through the rest of
    the server. *)
Inductive ApiEvent :=
| EvRequest (env : ApiEnv) (req : Request) (auth : option str)
| EvIssue (now : Z) (raw : bytes) (io_mkdir : option Z) (io : WriteIo)
| EvEnroll (now : Z) (rm_ok : bool) (presented : str)
| EvServer (keys : KeyRegistry) (registry : TunnelRegistry) (rates : gmap PubKey RateLimitState)
    (metrics : ServerMetrics).

Definition api_step (ev : ApiEvent) (s : AdminApiState) : option Reply * AdminApiState :=
  match ev with
  | EvRequest env req auth =>
    let (reply, s) := route blake3 base32_encode env req auth s in (Some reply, s)
  | EvIssue now raw io_mkdir io =>
    (None, with_admin (issue blake3 base32_encode now raw io_mkdir io (aa_admin_tokens s)).2 s)
  | EvEnroll now rm_ok presented =>
    (None, with_admin (consume blake3 now rm_ok presented (aa_admin_tokens s)).2 s)
  | EvServer keys registry rates metrics =>
    (None, {| aa_keys := keys; aa_registry := registry; aa_admin_tokens := aa_admin_tokens s;
              aa_sessions := aa_sessions s; aa_session_ttl := aa_session_ttl s; aa_rates := rates;
              aa_metrics := metrics; aa_revoked := aa_revoked s |})
  end.

Definition api_run (evs : list ApiEvent) (s : AdminApiState) : AdminApiState :=
  foldl (fun s ev => (api_step ev s).2) s evs.

(** The admin token of an exchange that succeeds in state [s]. *)
Definition mint_of (s : AdminApiState) (ev : ApiEvent) : option str :=
  match ev with
  | EvRequest env req _ =>
    guard (is_session_request req);;
    tok ← json_field (lit "admin_token") (rq_body req);
    guard (is_ok (consume blake3 (ap_now env) (ap_rm_ok env) tok (aa_admin_tokens s)).1 = true);;
    Some tok
  | _ => None
  end.

(** The clock and the random bytes of a request. *)
Definition ev_now (ev : ApiEvent) : Z := match ev with EvRequest env _ _ => ap_now env | _ => 0 end.
Definition ev_raw (ev : ApiEvent) : bytes := match ev with EvRequest env _ _ => ap_raw env | _ => [] end.

Lemma dispatch_route_keeps env req s :
  let s' := (dispatch_route env req s).2 in
  aa_sessions s' = aa_sessions s /\ aa_session_ttl s' = aa_session_ttl s /\
  aa_admin_tokens s' = aa_admin_tokens s.
Proof.
  unfold dispatch_route, handle_append_key, handle_delete_key.
  repeat (case_bool_decide; [by repeat case_match|]).
  repeat case_match; simplify_eq/=; done.
Qed.

(** A step keeps the time to live; a session it adds was minted by it; a pending admin
    token is an old one or was issued by it. *)
Lemma api_step_sessions ev s h exp :
  aa_sessions (api_step ev s).2 !! h = Some exp ->
  aa_sessions s !! h = Some exp \/
  exists tok, mint_of s ev = Some tok /\ h = blake3 (str_bytes (base32_encode (ev_raw ev))) /\
    exp = ev_now ev + aa_session_ttl s.
Proof.
  destruct ev as [env req auth| | |]; [|by left..]. simpl. unfold route.
  case_bool_decide as Hs.
  - rewrite option_guard_True by done. unfold handle_session.
    destruct (json_field _ _) as [tok|]; [|by left]. simpl.
    destruct (consume _ _ _ _ _) as [[[]|e] ts] eqn:Ec; [|by left]. simpl.
    rewrite lookup_insert_Some. intros [[<- <-]|[_ ?]]; [|by left]. right.
    exists tok. by split.
  - destruct auth as [token|]; [|by left].
    destruct (check_session _ _ _ _) as [ok s1] eqn:Ec. unfold check_session in Ec.
    injection Ec as <- <-. left. destruct (negb _).
    + simpl in *. by apply map_lookup_filter_Some in H1 as [? _].
    + pose proof (dispatch_route_keeps env req (with_sessions (filter (fun kv => ap_now env < kv.2)
        (aa_sessions s)) s)) as (E & _ & _).
      destruct (dispatch_route _ _ _) as [r s2]. simpl in *. rewrite E in H1.
      by apply map_lookup_filter_Some in H1 as [? _].
Qed.

(** The admin-token store and the time to live, after a step. *)
Lemma api_step_tokens ev s :
  aa_session_ttl (api_step ev s).2 = aa_session_ttl s /\
  aa_admin_tokens (api_step ev s).2 =
    match ev with
    | EvIssue now raw io_mkdir io => (issue blake3 base32_encode now raw io_mkdir io (aa_admin_tokens s)).2
    | EvEnroll now rm_ok presented => (consume blake3 now rm_ok presented (aa_admin_tokens s)).2
    | EvRequest env req _ =>
      if bool_decide (is_session_request req) then
        match json_field (lit "admin_token") (rq_body req) with
        | Some tok => (consume blake3 (ap_now env) (ap_rm_ok env) tok (aa_admin_tokens s)).2
        | None => aa_admin_tokens s
        end
      else aa_admin_tokens s
    | EvServer _ _ _ _ => aa_admin_tokens s
    end.
Proof.
  destruct ev as [env req auth| | |]; try done. simpl. unfold route.
  destruct (decide (is_session_request req)) as [Hs|Hs];
    [rewrite !bool_decide_eq_true_2 by done|rewrite !bool_decide_eq_false_2 by done].
  - unfold handle_session. destruct (json_field _ _) as [tok|]; [|done].
    by destruct (consume _ _ _ _ _) as [[[]|e] ts].
  - destruct auth as [token|]; [|done].
    destruct (check_session _ _ _ _) as [ok s1] eqn:Ec. unfold check_session in Ec.
    injection Ec as <- <-. destruct (negb _); [done|].
    pose proof (dispatch_route_keeps env req (with_sessions (filter (fun kv => ap_now env < kv.2)
      (aa_sessions s)) s)) as (_ & E1 & E2).
    by destruct (dispatch_route _ _ _) as [r s2].
Qed.

Lemma consume_state now rm_ok presented (a : AdminTokenStore) st :
  ats_state (consume blake3 now rm_ok presented a).2 = Some st -> ats_state a = Some st.
Proof. unfold consume. repeat case_match; simpl; congruence. Qed.

Lemma consume_Ok now rm_ok presented (a : AdminTokenStore) :
  (consume blake3 now rm_ok presented a).1 = Ok tt ->
  exists st, ats_state a = Some st /\ tok_hash st = blake3 (str_bytes presented) /\
    ats_state (consume blake3 now rm_ok presented a).2 = None.
Proof.
  unfold consume. destruct (ats_state a) as [st|] eqn:E; [|done].
  destruct (_ <=? _); [done|]. destruct (constant_time_eq _ _) eqn:Ec; [|done].
  intros _. exists st. split_and!; try done. symmetry. by apply constant_time_eq_true.
Qed.

(** A pending admin token is an old one or was issued by this step. *)
Lemma api_step_pending ev s st :
  ats_state (aa_admin_tokens (api_step ev s).2) = Some st ->
  ats_state (aa_admin_tokens s) = Some st \/
  exists now raw io_mkdir io, ev = EvIssue now raw io_mkdir io /\
    tok_hash st = blake3 (str_bytes (base32_encode raw)).
Proof.
  destruct (api_step_tokens ev s) as [_ ->]. destruct ev as [env req auth|now raw mk io|now rm p|].
  - repeat case_match; eauto using consume_state.
  - unfold issue. destruct mk; [by left|]. destruct (write_secret _ _ _) as [[[]|e] f]; simpl; [|by left].
    intros [= <-]. right. by eexists _, _, _, _.
  - intros Hc%consume_state. by left.
  - by left.
Qed.

Lemma mint_consumes s ev tok :
  mint_of s ev = Some tok ->
  exists st, ats_state (aa_admin_tokens s) = Some st /\ tok_hash st = blake3 (str_bytes tok) /\
    ats_state (aa_admin_tokens (api_step ev s).2) = None.
Proof.
  intros Hm. destruct (api_step_tokens ev s) as [_ ->].
  destruct ev as [env req auth| | |]; try done. unfold mint_of in Hm. case_guard as Hs; [|done].
  simpl in Hm. rewrite bool_decide_eq_true_2 by done.
  destruct (json_field _ _) as [t|]; [|done]. simpl in Hm. case_guard as Hc; [|done].
  injection Hm as ->. apply consume_Ok. by destruct (consume _ _ _ _ _) as [[[]|] ?].
Qed.

Lemma api_run_snoc evs ev s : api_run (evs ++ [ev]) s = (api_step ev (api_run evs s)).2.
Proof. unfold api_run. by rewrite foldl_app. Qed.

(** Every pending admin token was issued by the operator. *)
Lemma pending_issued evs s0 st :
  ats_state (aa_admin_tokens s0) = None ->
  ats_state (aa_admin_tokens (api_run evs s0)) = Some st ->
  exists now raw io_mkdir io, EvIssue now raw io_mkdir io ∈ evs /\
    tok_hash st = blake3 (str_bytes (base32_encode raw)).
Proof.
  intros Hinit. induction evs as [|ev evs IH] using rev_ind; [simpl; congruence|].
  rewrite api_run_snoc. intros [Hp|(now & raw & mk & io & -> & Hh)]%api_step_pending.
  - destruct (IH Hp) as (now & raw & mk & io & Hin & Hh). exists now, raw, mk, io.
    split; [apply elem_of_app; by left|done].
  - exists now, raw, mk, io. split; [|done]. apply elem_of_app. right. apply list_elem_of_here.
Qed.

(** A session that is stored was minted by an earlier exchange. *)
Lemma session_minted evs s0 h exp :
  aa_sessions s0 = ∅ -> aa_sessions (api_run evs s0) !! h = Some exp ->
  exists pre ev post tok, evs = pre ++ ev :: post /\ mint_of (api_run pre s0) ev = Some tok /\
    h = blake3 (str_bytes (base32_encode (ev_raw ev))) /\
    exp = ev_now ev + aa_session_ttl s0.
Proof.
  intros Hinit. assert (Httl : forall l, aa_session_ttl (api_run l s0) = aa_session_ttl s0).
  { intros l. induction l as [|ev l IH] using rev_ind; [done|]. rewrite api_run_snoc, <-IH.
    apply api_step_tokens. }
  induction evs as [|ev evs IH] using rev_ind; [simpl; rewrite Hinit; by rewrite lookup_empty|].
  rewrite api_run_snoc. intros [Hp|(tok & Hm & -> & ->)]%api_step_sessions.
  - destruct (IH Hp) as (pre & ev' & post & tok & -> & Hrest). exists pre, ev', (post ++ [ev]), tok.
    split; [by rewrite <-app_assoc|done].
  - exists evs, ev, [], tok. split_and!; [done..|]. by rewrite Httl.
Qed.

(** C17: Every admin session goes back to an admin token.  Over any history of requests,
    issued tokens, enrolments and changes elsewhere in the server, a token that the API
    accepts has the hash of a session token some earlier exchange minted, not longer ago
    than the time to live, and that exchange presented an admin token with the hash of one
    the operator had issued before. *)
Theorem admin_session_provenance (evs : list ApiEvent) (s0 : AdminApiState) (now : Z) (token : str)
    (Hinit : aa_sessions s0 = ∅) (Ht : ats_state (aa_admin_tokens s0) = None)
    (Hlive : (check_session blake3 now token (api_run evs s0)).1 = true) :
  exists pre ev post admin_token, evs = pre ++ ev :: post /\
    mint_of (api_run pre s0) ev = Some admin_token /\
    blake3 (str_bytes token) = blake3 (str_bytes (base32_encode (ev_raw ev))) /\
    now < ev_now ev + aa_session_ttl s0 /\
    exists n raw io_mkdir io, EvIssue n raw io_mkdir io ∈ pre /\
      blake3 (str_bytes admin_token) = blake3 (str_bytes (base32_encode raw)).
Proof.
  apply check_session_spec in Hlive as (exp & Hs & Hexp).
  destruct (session_minted _ _ _ _ Hinit Hs) as (pre & ev & post & tok & -> & Hm & Hh & ->).
  exists pre, ev, post, tok. split_and!; try done.
  destruct (mint_consumes _ _ _ Hm) as (st & Hst & Hhash & _).
  destruct (pending_issued pre s0 st Ht Hst) as (n & raw & mk & io & Hin & Hi).
  exists n, raw, mk, io. split; [done|]. congruence.
Qed.

(** The exchanges that succeeded, and the tokens issued, in a history. *)
Fixpoint minted (evs : list ApiEvent) (s : AdminApiState) : nat :=
  match evs with
  | [] => 0
  | ev :: evs => (if mint_of s ev then 1 else 0) + minted evs (api_step ev s).2
  end.

Definition issued (evs : list ApiEvent) : nat :=
  length (List.filter (fun ev => match ev with EvIssue _ _ _ _ => true | _ => false end) evs).

(** An admin token buys at most one session: in any history there are at most as many
    successful exchanges as tokens issued, counting one that was pending at the start. *)
Theorem admin_sessions_bounded (evs : list ApiEvent) (s : AdminApiState) :
  (minted evs s <= issued evs + if is_active (aa_admin_tokens s) then 1 else 0)%nat.
Proof.
  revert s. induction evs as [|ev evs IH]; intros s; [simpl; lia|].
  specialize (IH (api_step ev s).2). simpl.
  assert (Hi : issued (ev :: evs) = (match ev with EvIssue _ _ _ _ => 1 | _ => 0 end + issued evs)%nat)
    by (unfold issued; by destruct ev).
  rewrite Hi. destruct (mint_of s ev) as [tok|] eqn:Em.
  - destruct (mint_consumes _ _ _ Em) as (st & Hs & _ & Hn). unfold is_active in *.
    rewrite Hn in IH. rewrite Hs. lia.
  - unfold is_active in *. destruct (ats_state (aa_admin_tokens (api_step ev s).2)) as [st|] eqn:Ea; [|lia].
    apply api_step_pending in Ea as [->|(? & ? & ? & ? & -> & _)]; lia.
Qed.
End Sessions.

(** ** Removing a key *)

Section Removal.
Context (blake3 : bytes -> bytes) (base32_encode : bytes -> str).
Context `{Base64} `{SerdeJson}.

#[local] Arguments lit : simpl never.

(** [DELETE /admin/v1/keys/<key>] does exactly that.  With a live session, a key file
    that agrees with the index and a write that goes through: an authorised key is answered
    204, file and index lose that key and no other and still agree, and the key, and only
    the key, is broadcast for revocation; an unknown key is answered 404 and neither the
    keys nor the broadcast change; no tunnel is touched either way. *)
Theorem admin_delete_key (env : ApiEnv) (req : Request) (token : str) (raw : bytes) (text : str)
    (s : AdminApiState) (Hlive : live_session blake3 (ap_now env) token s)
    (Hm : rq_method req = DELETE) (Hp : rq_path req = KEY_PREFIX ++ b64_encode raw)
    (Hdec : b64_decode (b64_encode raw) = Some raw) (Hlen : length raw = 32%nat)
    (Hw : ap_write env = write_all_ok) (Hfile : kr_file (aa_keys s) = Some text)
    (Hsync : parse_text b64_decode text = Ok (kr_entries (aa_keys s))) :
  let '(reply, s') := route blake3 base32_encode env req (Some token) s in
  let pk := {| pk_raw := raw |} in
  aa_registry s' = aa_registry s /\
  match kr_entries (aa_keys s) !! pk with
  | Some _ => reply.1 = lit "204 No Content" /\
      kr_entries (aa_keys s') = delete pk (kr_entries (aa_keys s)) /\
      parse_file b64_decode (ap_read env) (kr_file (aa_keys s')) = Ok (kr_entries (aa_keys s')) /\
      exists sent, aa_revoked s' = aa_revoked s ++ sent /\ forall k, k ∈ sent <-> k = pk
  | None => reply.1 = lit "404 Not Found" /\ aa_keys s' = aa_keys s /\ aa_revoked s' = aa_revoked s
  end.
Proof.
  unfold route. rewrite bool_decide_eq_false_2 by (rewrite Hm; by intros [? _]).
  apply (check_session_spec blake3 base32_encode) in Hlive.
  destruct (check_session blake3 (ap_now env) token s) as [ok s1] eqn:Ec. simpl in Hlive. subst ok.
  unfold check_session in Ec. injection Ec as _ <-. simpl negb. cbn match.
  unfold dispatch_route. rewrite Hm, Hp.
  rewrite !bool_decide_eq_false_2 by (by intros [? _]). rewrite bool_decide_eq_true_2 by done.
  rewrite (proj2 (strip_prefix_Some _ _ _) eq_refl). unfold handle_delete_key. rewrite Hdec, Hlen. simpl negb. cbn match.
  pose proof (remove_pubkey_spec b64_decode (ap_read env) {| pk_raw := raw |} text (aa_keys s)
    Hfile Hsync) as Hr. rewrite Hw. simpl aa_keys.
  destruct (remove_pubkey _ _ _ _ _) as [[res k'] sent].
  destruct (kr_entries (aa_keys s) !! _).
  - destruct Hr as (-> & He & Hf & Hs). simpl. split_and!; eauto.
  - destruct Hr as (-> & -> & ->). simpl. split_and!; try done. by rewrite app_nil_r.
Qed.
End Removal.

(** ** Reading a request *)

Section ReadTotal.
Context `{Httparse}.

Lemma read_head_total fuel buf tcp :
  API_MAX_HEADER_BYTES + 2 - len buf <= Z.of_nat fuel -> 0 <= API_MAX_HEADER_BYTES + 1 - len buf ->
  is_Some (read_head fuel buf tcp).
Proof.
  revert buf tcp. induction fuel as [|fuel IH]; intros buf tcp Hf Hb; [lia|]. simpl.
  destruct (tcp_read 1024 tcp) as [[[|b got]|e] tcp1]; [done| |done].
  destruct (parse_request _) as [[] ?]; [done| |done].
  destruct (Z.ltb_spec API_MAX_HEADER_BYTES (len (buf ++ b :: got))) as [|Hl]; [done|].
  rewrite len_app, len_cons in Hl. pose proof (len_nonneg got).
  apply IH; rewrite len_app, len_cons; lia.
Qed.

Lemma read_body_total fuel n body tcp :
  n - len body <= Z.of_nat fuel -> is_Some (read_body fuel n body tcp).
Proof.
  revert body tcp. induction fuel as [|fuel IH]; intros body tcp Hf; simpl;
    destruct (Z.leb_spec n (len body)) as [|Hl]; try done; [lia|].
  destruct (tcp_read 4096 tcp) as [[[|b got]|e] tcp1]; [done| |done].
  pose proof (len_nonneg got). apply IH. rewrite len_app, len_cons. lia.
Qed.

(** Reading an admin request always ends, and what it accepts is bounded: whatever the
    peer sends, in whatever pieces, [read_request] returns a request or an error, and the
    body of a request is at most [MAX_BODY_BYTES] long. *)
Theorem api_read_total (tcp : TcpStream) :
  exists res rest, api_read_request tcp = Some (res, rest) /\
    match res with Ok req => len (rq_body req) <= MAX_BODY_BYTES | Err _ => True end.
Proof.
  unfold api_read_request.
  destruct (read_head_total (Z.to_nat (API_MAX_HEADER_BYTES + 2)) [] tcp) as [[[[[head n] buf]|e] t] ->];
    [done|done| |by eexists _, _].
  destruct (foldl take_header _ _) as [headers cl].
  destruct (Z.ltb_spec MAX_BODY_BYTES cl) as [|Hcl]; [by eexists _, _|].
  destruct (read_body_total (Z.to_nat cl) cl (drop n buf) t) as [[[body|e] t'] ->];
    [pose proof (len_nonneg (drop n buf)); lia| |by eexists _, _].
  eexists _, _. split; [done|]. simpl. unfold len. rewrite length_take. unfold MAX_BODY_BYTES in *. lia.
Qed.
End ReadTotal.

(** ** The theorems at concrete inputs *)

(** Bodies are the bare field; hashes and encodings are transparent. *)
#[local] Instance toy_serde : SerdeJson :=
  {| json_to_vec _ := []; json_field _ body := Some body |}.

#[local] Instance toy_b64_pair : Base64 :=
  {| b64_encode bs := if bool_decide (bs = repeat 1 32) then lit "AAAA" else lit "BBBB";
     b64_decode := toy_b64 |}.

Definition toy_api_env (now : Z) (raw : bytes) : ApiEnv :=
  {| ap_now := now; ap_unix := 1000; ap_raw := raw; ap_rm_ok := true; ap_write := write_all_ok;
     ap_read := 0; ap_version := lit "1.0"; ap_inner_text := fun _ => [] |}.

Definition toy_api_state : AdminApiState :=
  AdminApiState_new toy_keys (TunnelRegistry_new 10000 10100) (AdminTokenStore_new None) ∅ 900
    (ServerMetrics_new 0).

(** The operator issues a token, the token is exchanged for a session. *)
Definition toy_exchange : list ApiEvent :=
  [ EvIssue 5 (lit "tok") None write_all_ok;
    EvRequest (toy_api_env 10 (lit "secret"))
      {| rq_method := POST; rq_path := SESSION_PATH; rq_headers := []; rq_body := lit "tok" |} None ].

Definition toy_signed_in : AdminApiState := api_run id id toy_exchange toy_api_state.

Lemma admin_session_provenance_witness :
  (check_session id 20 (lit "secret") (api_run id id toy_exchange toy_api_state)).1 = true /\
  exists pre ev post admin_token, toy_exchange = pre ++ ev :: post /\
    mint_of id (api_run id id pre toy_api_state) ev = Some admin_token.
Proof.
  assert (Hc : (check_session id 20 (lit "secret") (api_run id id toy_exchange toy_api_state)).1 = true) by (vm_compute; reflexivity).
  split; [exact Hc|].
  destruct (admin_session_provenance id id toy_exchange toy_api_state 20 (lit "secret")
    eq_refl eq_refl Hc) as (pre & ev & post & tok & He & Hm & _).
  exists pre, ev, post, tok. split; [exact He|exact Hm].
Defined.

Definition toy_delete : Request :=
  {| rq_method := DELETE; rq_path := KEY_PREFIX ++ lit "AAAA"; rq_headers := []; rq_body := [] |}.

Lemma admin_gate_witness :
  refused 20 toy_signed_in (route id id (toy_api_env 20 []) toy_delete (Some (lit "guess")) toy_signed_in).2.
Proof.
  destruct (admin_gate id id (toy_api_env 20 []) toy_delete (Some (lit "guess")) toy_signed_in
    (route id id (toy_api_env 20 []) toy_delete (Some (lit "guess")) toy_signed_in).2
    (route id id (toy_api_env 20 []) toy_delete (Some (lit "guess")) toy_signed_in).1)
    as [(token & [= <-] & exp & Hl & _)|[_ Hr]].
  - apply surjective_pairing.
  - intros [Hm _]. discriminate Hm.
  - vm_compute in Hl. discriminate Hl.
  - exact Hr.
Defined.

Lemma admin_delete_key_witness :
  kr_entries (aa_keys (route id id (toy_api_env 20 []) toy_delete (Some (lit "secret")) toy_signed_in).2)
    = delete {| pk_raw := repeat 1 32 |} (kr_entries toy_keys).
Proof.
  pose proof (admin_delete_key id id (toy_api_env 20 []) toy_delete (lit "secret") (repeat 1 32)
    toy_text toy_signed_in) as H.
  destruct (route id id (toy_api_env 20 []) toy_delete (Some (lit "secret")) toy_signed_in) as [reply s'].
  assert (is_Some (kr_entries (aa_keys toy_signed_in) !! {| pk_raw := repeat 1 32 |})) as [e He]
    by (apply (bool_decide_unpack _); vm_compute; exact I).
  cbn beta iota zeta in H. rewrite He in H. destruct H as (_ & _ & Hd & _).
  - exists 910. split; [vm_compute; reflexivity|reflexivity].
  - reflexivity.
  - vm_compute. reflexivity.
  - vm_compute. reflexivity.
  - reflexivity.
  - reflexivity.
  - vm_compute. reflexivity.
  - vm_compute. reflexivity.
  - exact Hd.
Defined.
