(* ===== verification/System.v ===== *)
(** * System: every connection of a server, and what a visitor reaches

    [Server] models one connection with the others around it.  This file puts them together:
    the registry operations a session may issue ([may_issue], the session's contract), the
    server as a history of such operations by authenticated sessions and of the reaper
    ([server_run]), and the proof that handling a connection, from the accept to the end of
    its session and with any other connections in between, is such a history
    ([connection_refines]).  What the public routers do with the table then follows for every
    interleaving of any number of clients ([visitor_reaches_owner]). *)

From S2P Require Import Prelude RustStr Wire Framing Types Registry Rate Keys Admin Handshake Peers Metrics Config Session Server Sni Router.

Local Open Scope Z_scope.

(** ** The contract of a session *)

(** The port restriction of the session's entry. *)
Definition may_bind (s : Session) (p : Z) : Prop :=
  forall allow, ae_allowed_ports (s_entry s) = Some allow -> p ∈ allow.

(** What a session's entry lets it publish. *)
Definition permits (s : Session) (k : RegisteredKind) : Prop :=
  match k with
  | RK_Http label => is_valid_label label = true /\ may_publish s label
  | RK_Tcp p => may_bind s p
  end.

(** The registry operations a session may issue: reservations within its entry, tunnels of
    its own key on its own connection, leases of its own key, the removal of any tunnel id
    it names, and the disposition of its own tunnels. *)
Inductive may_issue (s : Session) : RegOp -> Prop :=
| issue_allocate_http label : permits s (RK_Http label) -> may_issue s (OpAllocateHttp label)
| issue_allocate_tcp : may_issue s (OpAllocateTcp (ae_allowed_ports (s_entry s)))
| issue_insert info abort :
    ti_owner info = s_pubkey s -> ti_session_id info = s_session_id s ->
    ti_state info = Live (s_connection s) abort -> permits s (ti_kind info) ->
    may_issue s (OpInsert info)
| issue_resume order label sid : may_issue s (OpTryResume order label sid (s_pubkey s) (s_connection s))
| issue_set_abort id a : may_issue s (OpSetTcpAbort id a)
| issue_remove id : may_issue s (OpRemove id)
| issue_dangle now grace : may_issue s (OpMarkDangling now (s_pubkey s) grace)
| issue_remove_all : may_issue s (OpRemoveAll (s_pubkey s)).

#[global] Hint Constructors may_issue : issue.

(** [trace] is [f] with operations that satisfy [P] in between. *)
Inductive interleaved (P : RegOp -> Prop) : list RegOp -> list RegOp -> Prop :=
| interleaved_nil : interleaved P [] []
| interleaved_own o f trace : P o -> interleaved P f trace -> interleaved P f (o :: trace)
| interleaved_foreign o f trace : interleaved P f trace -> interleaved P (o :: f) (o :: trace).

Lemma interleaved_app P f1 t1 f2 t2 :
  interleaved P f1 t1 -> interleaved P f2 t2 -> interleaved P (f1 ++ f2) (t1 ++ t2).
Proof.
  induction 1; intros; cbn; [done|by apply interleaved_own; auto|by apply interleaved_foreign; auto].
Qed.

Lemma interleaved_all P f : interleaved P f f.
Proof. induction f; [constructor|by apply interleaved_foreign]. Qed.

Lemma interleaved_elem P f trace o : interleaved P f trace -> o ∈ trace -> P o \/ o ∈ f.
Proof.
  induction 1 as [|o' f trace Hp _ IH|o' f trace _ IH]; intros Ho; [by apply elem_of_nil in Ho| |];
    apply elem_of_cons in Ho as [->|Ho]; rewrite ?elem_of_cons; naive_solver.
Qed.

Lemma run_app ops1 ops2 w : run (ops1 ++ ops2) w = run ops2 (run ops1 w).
Proof. apply foldl_app. Qed.

Lemma sublist_concat {A} (l k : list (list A)) : l `sublist_of` k -> concat l `sublist_of` concat k.
Proof. induction 1; cbn; [done|by apply sublist_app|by apply sublist_inserts_l]. Qed.

Section Contract.
Context (s : Session).

(** From [w] to [w'] other sessions took their turns, in order, and this one issued
    operations within its contract; nothing else touched the registry. *)
Definition acts (w w' : SessWorld) : Prop :=
  exists taken f trace, sw_others w = taken ++ sw_others w' /\ f `sublist_of` concat taken /\
    interleaved (may_issue s) f trace /\ sw_reg w' = run trace (sw_reg w).

#[export] Instance acts_preorder : PreOrder acts.
Proof.
  split.
  - intros w. exists [], [], []. split_and!; [done..|constructor|done].
  - intros w1 w2 w3 (t1 & f1 & r1 & H1 & S1 & I1 & R1) (t2 & f2 & r2 & H2 & S2 & I2 & R2).
    exists (t1 ++ t2), (f1 ++ f2), (r1 ++ r2). rewrite concat_app.
    split_and!; [by rewrite H1, H2, app_assoc|by apply sublist_app|by apply interleaved_app|].
    by rewrite run_app, R2, R1.
Qed.

Lemma others_acts w w' : others_acted w w' -> acts w w'.
Proof.
  intros (taken & Ho & Hr & _ & _). set (f := List.filter (foreign (sw_mine w)) (concat taken)) in *.
  exists taken, f, f.
  split_and!; [done| |apply interleaved_all|exact Hr].
  unfold f. clear. induction (concat taken) as [|o l IH]; [done|]. cbn. destruct (foreign _ o); by constructor.
Qed.

Lemma acts_same w w' : sw_reg w' = sw_reg w -> sw_others w' = sw_others w -> acts w w'.
Proof. intros Hr Ho. exists [], [], []. split_and!; [by rewrite Ho|done|constructor|done]. Qed.

Lemma acts_one o w w' :
  may_issue s o -> sw_reg w' = exec_op o (sw_reg w) -> sw_others w' = sw_others w -> acts w w'.
Proof.
  intros Hi Hr Ho. exists [], [], [o]. split_and!; [by rewrite Ho|done|by repeat constructor|done].
Qed.

Lemma interfere_acts w : acts w (interfere w).2.
Proof. apply others_acts, interfere_acted. Qed.

Lemma reg_call_acts {A} (f : TunnelRegistry -> A) o w : may_issue s o -> acts w (reg_call f o w).2.
Proof. intros Hi. etrans; [apply interfere_acts|]. by apply (acts_one o). Qed.

Lemma reg_get_acts {A} (f : TunnelRegistry -> A) w : acts w (reg_get f w).2.
Proof. etrans; [apply interfere_acts|]. by apply acts_same. Qed.

Lemma reply_acts f w : acts w (reply f w).2.
Proof. unfold reply. destruct (send_side_write _ _). by apply acts_same. Qed.

(** A program that stays within the contract from every world. *)
Definition acting {A} (m : SeM A) : Prop := forall w, acts w (m w).2.

Lemma acting_quiet {A} (m : SeM A) :
  (forall w, sw_reg (m w).2 = sw_reg w /\ sw_others (m w).2 = sw_others w) -> acting m.
Proof. intros Hm w. by apply acts_same; apply Hm. Qed.

Lemma acts_bind {A B} (m : SeM A) (k : A -> SeM B) w :
  acts w (m w).2 -> (forall a, acting (k a)) -> acts w (sm_bind m k w).2.
Proof.
  intros Hm Hk. unfold sm_bind. destruct (m w) as [[a|e] w1]; [|done]. etrans; [exact Hm|apply Hk].
Qed.

Lemma acting_bind {A B} (m : SeM A) (k : A -> SeM B) :
  acting m -> (forall a, acting (k a)) -> acting (sm_bind m k).
Proof. intros Hm Hk w. by apply acts_bind. Qed.

Lemma acting_ignore {A} (m : SeM A) : acting m -> acting (sm_ignore m).
Proof. intros Hm w. specialize (Hm w). unfold sm_ignore. by destruct (m w). Qed.

Lemma acting_ret {A} (a : A) : acting (sm_ret a).
Proof. by apply acting_quiet. Qed.
Lemma acting_throw {A} e : acting (sm_throw (A := A) e).
Proof. by apply acting_quiet. Qed.
Lemma acting_metric c : acting (metric c).
Proof. by apply acting_quiet. Qed.
Lemma acting_spawn t : acting (spawn_tunnel t).
Proof. by apply acting_quiet. Qed.
Lemma acting_finish : acting finish_stream.
Proof. by apply acting_quiet. Qed.
Lemma acting_reply f : acting (reply f).
Proof. intros w. apply reply_acts. Qed.
Lemma acting_get {A} (f : TunnelRegistry -> A) : acting (reg_get f).
Proof. intros w. apply reg_get_acts. Qed.
Lemma acting_call {A} (f : TunnelRegistry -> A) o : may_issue s o -> acting (reg_call f o).
Proof. intros Hi w. by apply reg_call_acts. Qed.

(** Publishing the reservation. *)
Lemma insert_acts n info w :
  0 <= n -> sess_ok n w -> sw_mine w = Some (ti_id info, ti_kind info) ->
  has_listener info = is_tcp (ti_kind info) -> may_issue s (OpInsert info) ->
  acts w (reg_insert info w).2.
Proof.
  intros Hn Hw Hm Hl Hi. etrans; [apply interfere_acts|].
  pose proof (interfere_ok n Hn w Hw) as Hw1. destruct (interfere_acted w) as [(t & _ & _ & Hm1 & _) _].
  unfold reg_insert, sm_bind. destruct (interfere w) as [r w1] eqn:E. cbn in Hw1, Hm1.
  assert (r = Ok tt) as -> by (unfold interfere, sm_modify in E; congruence).
  apply (acts_one (OpInsert info)); [done| |done]. cbn. rewrite decide_True; [done|].
  split; [|done]. apply (ok_mine n w1 Hw1). congruence.
Qed.

(** A reservation is handed out, and published after the operating system has had its say. *)
Lemma reserve_acts n id k w w' (m : SeM unit) :
  0 <= n -> sess_ok n w -> rw_pending (sw_reg w) !! id = Some k -> w' = (reserve id k w).2 ->
  (sess_ok n w' -> sw_mine w' = Some (id, k) -> acts w' (m w').2) ->
  acts w (sm_bind (reserve id k) (fun _ => m) w).2.
Proof.
  intros Hn Hw Hp -> Hm. destruct (reserve_ok n id k w (conj Hw Hp)) as [Hok Hmine].
  etrans; [|by apply Hm]. by apply acts_same.
Qed.
End Contract.

#[local] Hint Resolve acting_ignore acting_ret acting_throw acting_metric acting_spawn acting_finish acting_reply acting_get
  acting_call acting_bind : issue.

(** Run a program of effects that stay within the contract. *)
Ltac acting_chain :=
  repeat first
    [ apply acting_bind; [by eauto with issue|intros ?]
    | by eauto with issue ].
Ltac quiet_rest :=
  match goal with |- acts ?s ?w (?m ?w).2 => apply (fun Hm : acting s m => Hm w); acting_chain end.

Section Registration.
Context {L : Type} `{PeerLabelLookup L}.
Context (s : Session).

Lemma spawn_then {B} n t (k : AbortHandle -> SeM B) w :
  sess_ok n w ->
  (forall a w1, sess_ok n w1 -> sw_mine w1 = sw_mine w -> acts s w1 (k a w1).2) ->
  acts s w (sm_bind (spawn_tunnel t) k w).2.
Proof.
  intros Hw Hk. unfold sm_bind. cbn. transitivity (spawn_tunnel t w).2; [by apply acts_same|].
  apply Hk; [exact (spawn_ok n t w Hw)|done].
Qed.

Lemma call_then {A B} n (f : TunnelRegistry -> A) o (k : A -> SeM B) w :
  0 <= n -> no_insert o -> may_issue s o -> sess_ok (n + 1) w ->
  (forall w0 w1, sess_ok (n + 1) w0 -> sess_ok n w1 -> sw_reg w1 = exec_op o (sw_reg w0) ->
     acts s w1 (k (f (rw_reg (sw_reg w0))) w1).2) ->
  acts s w (sm_bind (reg_call f o) k w).2.
Proof.
  intros Hn Ho Hi Hw Hk. pose proof (reg_call_acts s f o w Hi) as Ha.
  destruct (reg_call_ok n f o Hn Ho w Hw) as [Hw1 (w0 & Hw0 & Hr & He)].
  unfold sm_bind. destruct (reg_call f o w) as [r w1]. cbn in *. subst r.
  etrans; [exact Ha|]. by apply Hk.
Qed.

Lemma register_http_acts (env : DispatchEnv L) label inspect w :
  sess_ok 1 w -> acts s w (register_http s env label inspect w).2.
Proof.
  intros Hw. unfold register_http. destruct (s_mode s) as [|apex]; [apply acting_reply|].
  destruct (is_valid_label label) eqn:Ev; cbn [negb]; [|quiet_rest].
  destruct (label_permitted_spec s label) as [Hp|_]; cbn [negb]; [|quiet_rest].
  destruct (if bool_decide _ then _ else _) as [m|c]; [|quiet_rest].
  apply (call_then 0); [done|done|by constructor|done|]. intros w0 w1 _ Hw1 He.
  destruct (allocate_http label _).1 as [id|e] eqn:Ea; [|quiet_rest].
  eapply (reserve_acts s 0); [done|done| |done|].
  - rewrite He. by apply exec_allocate_http.
  - intros Hok Hmine. apply acts_bind; [|intros; acting_chain].
    by eapply insert_acts; [..|eapply issue_insert].
Qed.

Lemma register_tcp_acts (env : DispatchEnv L) label rp inspect w :
  bind_law env -> sess_ok 1 w -> acts s w (register_tcp s env label rp inspect w).2.
Proof.
  intros Hb Hw. unfold register_tcp. destruct (match rp with Some _ => _ | None => None end); [quiet_rest|].
  apply (call_then 0); [done|done|by constructor|done|]. intros w0 w1 Hw0 Hw1 He.
  destruct (allocate_tcp _ _).1 as [[id port]|e] eqn:Ea; [|quiet_rest].
  assert (Hport : 1 <= port /\ may_bind s port).
  { split; [by eapply (allocated_port_pos 0)|]. unfold allocate_tcp in Ea.
    destruct (pick_free_port _ _ _ _) as [q|] eqn:E; [|done]. injection Ea as _ ->.
    apply pick_free_port_Some in E as [(_ & _ & Hallow) _]. exact Hallow. }
  destruct Hport as [Hpos Hmay].
  eapply (reserve_acts s 0); [done|done| |done|].
  - rewrite He. by apply exec_allocate_tcp.
  - intros Hok Hmine. destruct (de_bind env port) as [[l [q|e]]|e] eqn:Eb; [|quiet_rest..].
    assert (q = port) as -> by (by eapply Hb).
    eapply (spawn_then 0); [done|]. intros abort w3 Hok3 Hmine3.
    apply acts_bind; [|intros; acting_chain].
    eapply (insert_acts s 0); [done|exact Hok3|cbn in *; congruence|done|by eapply issue_insert].
Qed.

Lemma finish_resume_acting (env : DispatchEnv L) id info inspect : acting s (finish_resume s env id info inspect).
Proof. unfold finish_resume. destruct info; [destruct (s_mode s)|]; acting_chain. Qed.

Lemma register_fresh_acts (env : DispatchEnv L) label kind inspect w :
  bind_law env -> sess_ok 1 w -> acts s w (register_fresh s env label kind inspect w).2.
Proof.
  intros Hb Hw. unfold register_fresh. set (m := match ae_max_conns _ with Some _ => _ | None => _ end).
  assert (Hm : acting s m) by (unfold m; destruct (ae_max_conns _); acting_chain).
  assert (Hok : triple (sess_ok 1) m (fun _ => sess_ok 1)).
  { unfold m. destruct (ae_max_conns _); [|by intros ? ?].
    apply (triple_bind _ _ _ (fun _ => sess_ok 1)); [|by intros ? ? ?].
    intros w1 Hw1. exact (reg_get_ok 1 _ ltac:(lia) w1 Hw1). }
  specialize (Hm w). specialize (Hok w Hw). unfold sm_bind at 1. destruct (m w) as [[over|e] w1]; [|done].
  cbn in Hok. etrans; [exact Hm|]. cbn [snd]. destruct over as [[live cap]|]; [quiet_rest|].
  destruct kind; [by apply register_http_acts|by apply register_tcp_acts].
Qed.

Lemma register_acts (env : DispatchEnv L) label kind resume inspect w :
  bind_law env -> sess_ok 2 w -> acts s w (register s env label kind resume inspect w).2.
Proof.
  intros Hb Hw. unfold register. destruct resume as [prev|].
  - apply (call_then 1); [lia|done|constructor|done|]. intros w0 w1 _ Hw1 _.
    destruct (try_resume _ _ _ _ _ _).1; [| |quiet_rest].
    + apply acts_bind; [apply acting_metric|]. intros _. apply finish_resume_acting.
    + unfold sm_bind at 1. cbn. etrans; [|apply register_fresh_acts; [done|]].
      * by apply acts_same.
      * by apply (metric_ok 1 resume_unknown w1).
  - apply register_fresh_acts; [done|]. by eapply sess_ok_weaken.
Qed.

Lemma run_step_acts (p : Poll) w :
  bind_law (pl_env p) -> sess_ok 2 w -> acts s w (run_step s p w).2.
Proof.
  intros Hb Hw. unfold run_step.
  destruct (wait_shutdown (pl_shutdown p)); [unfold farewell; quiet_rest|].
  destruct (wait_shutdown (pl_revoked p)); [unfold farewell; quiet_rest|].
  destruct (pl_frame p) as [[f|e]|]; [|apply acting_ret|].
  - destruct f; cbn [dispatch]; try solve [quiet_rest]. apply acts_bind; [by apply register_acts|]. intros. apply acting_ret.
  - destruct (pl_ctrl p); quiet_rest.
Qed.

Lemma session_run_acts (polls : list Poll) n w :
  0 <= n -> Forall (fun p => bind_law (pl_env p)) polls -> sess_ok (n + 2 * len polls) w ->
  acts s w (session_run s polls w).2.
Proof.
  intros Hn Hb. revert w. induction Hb as [|p polls Hp _ IH]; intros w Hw; [by apply acts_same|].
  assert (Hlen : len (p :: polls) = len polls + 1) by (unfold len; cbn [length]; lia).
  assert (0 <= len polls) by apply len_nonneg. rewrite Hlen in Hw. cbn [session_run].
  assert (Hs : acts s w (run_step s p w).2) by (apply run_step_acts; [done|eapply sess_ok_weaken; [exact Hw|lia]]).
  pose proof (run_step_ok (n + 2 * len polls) ltac:(lia) s p Hp w) as Hok.
  replace (n + 2 * len polls + 2) with (n + 2 * (len polls + 1)) in Hok by lia. specialize (Hok Hw).
  unfold sm_bind. destruct (run_step s p w) as [[[|reason]|e] w1]; cbn in *; [|done..].
  etrans; [exact Hs|by apply IH].
Qed.

Lemma dispose_acting config now result : acting s (dispose config now (s_pubkey s) result).
Proof. unfold dispose. destruct result as [[]|]; acting_chain. Qed.
End Registration.

(** ** The server *)

Section Server.
Context {S L : Type} `{RecvStream S Z Z} `{Postcard ClientFrame Z} `{PeerLabelLookup L}.
Context {SK VK : Type} `{Ed25519 SK VK} `{Base64}.
Context (blake3 : bytes -> bytes).

(** The peer of the connection [env] presented a key of [keys], signed this connection's
    nonce with it, and [s] is the session it was given. *)
Record authenticates (env : ConnEnv S L) (keys : KeyRegistry) (s : Session) : Prop := {
  au_connection : ce_accept env = Ok (s_connection s);
  au_entry : KeyRegistry_get (s_pubkey s) keys = Some (s_entry s);
  au_session : s_session_id s = he_sid (ce_handshake env);
  au_proof : exists send recv kb s1 s2 s3 sig,
    ce_accept_bi env = Ok (send, recv) /\ read_exact 1 recv = (Ok kb, s1) /\
    read_frame s1 = (Ok (AuthRequest (s_pubkey s)), s2) /\ read_frame s2 = (Ok (AuthResponse sig), s3) /\
    verify_challenge (s_pubkey s) (he_nonce (ce_handshake env)) sig = true;
}.

(** What touches the registry: a session within its contract, or the reaper. *)
Definition system_op (sessions : list Session) (o : RegOp) : Prop :=
  (exists s, s ∈ sessions /\ may_issue s o) \/ exists now, o = OpReap now.

(** The sessions that have authenticated and the operations issued so far. *)
Inductive server_run : list Session -> list RegOp -> Prop :=
| run_start : server_run [] []
| run_connects sessions ops env keys s :
    server_run sessions ops -> authenticates env keys s -> server_run (s :: sessions) ops
| run_issues sessions ops o :
    server_run sessions ops -> system_op sessions o -> server_run sessions (ops ++ [o]).

Lemma server_run_ops sessions ops new :
  server_run sessions ops -> Forall (system_op sessions) new -> server_run sessions (ops ++ new).
Proof.
  intros Hr Hn. revert ops Hr. induction Hn as [|o new Ho _ IH]; intros ops Hr; [by rewrite app_nil_r|].
  rewrite cons_middle, app_assoc. by apply IH, run_issues.
Qed.

Lemma system_op_mono sessions s o : system_op sessions o -> system_op (s :: sessions) o.
Proof. intros [(s' & Hs & Hi)|Hn]; [left|by right]. exists s'. rewrite elem_of_cons. auto. Qed.

Lemma server_run_ok sessions ops :
  server_run sessions ops ->
  Forall (system_op sessions) ops /\ forall s, s ∈ sessions -> exists env keys, authenticates env keys s.
Proof.
  induction 1 as [|sessions ops env keys s _ [IHo IHs] Ha|sessions ops o _ [IHo IHs] Ho].
  - split; [constructor|]. by intros s ?%elem_of_nil.
  - split; [eapply Forall_impl; [|exact IHo]; intros; by apply system_op_mono|].
    intros s' [->|Hs]%elem_of_cons; eauto.
  - split; [|done]. by apply Forall_app_2; [|constructor].
Qed.

(** The session of an authenticated connection, from its creation to the end. *)
Lemma serve_session_acts (env : ConnEnv S L) connection send ok sh :
  server_ok (2 * len (ce_polls env) + 1) sh -> Forall (fun p => bind_law (pl_env p)) (ce_polls env) ->
  exists s taken f trace, s_pubkey s = ho_pubkey ok /\ s_entry s = ho_entry ok /\
    s_session_id s = ho_session_id ok /\ s_connection s = connection /\
    f `sublist_of` concat taken /\ taken `sublist_of` sh_others sh /\ interleaved (may_issue s) f trace /\
    sh_reg (serve_session env connection send ok sh).2 = run trace (sh_reg sh).
Proof.
  intros (Hi & Hlo & Hroom) Hb. unfold serve_session. set (sh0 := count handshake_auth_ok sh).
  destruct (ensure_rate_state _ _ _ _ sh0) as [rate sh1] eqn:Er.
  assert (Hr : sh_reg sh1 = sh_reg sh /\ sh_others sh1 = sh_others sh).
  { unfold ensure_rate_state in Er. destruct (sh_rates sh0 !! _) as [[]|]; injection Er as _ <-; done. }
  destruct Hr as [Hreg Hoth]. cbv zeta.
  match goal with |- context [session_run ?s ?ps ?w] => set (s0 := s); set (w0 := w) end.
  assert (Hw0 : sess_ok (1 + 2 * len (ce_polls env)) w0).
  { split; cbn; rewrite ?Hreg, ?Hoth; try done. lia. }
  pose proof (session_run_acts s0 (ce_polls env) 1 w0 ltac:(lia) Hb Hw0) as Hrun.
  assert (Hfin : forall result w1, acts s0 w0 w1 ->
    exists taken f trace, f `sublist_of` concat taken /\ taken `sublist_of` sh_others sh /\
      interleaved (may_issue s0) f trace /\
      sw_reg (dispose (sh_config sh1) (ce_end_now env) (ho_pubkey ok) result w1).2 = run trace (sh_reg sh)).
  { intros result w1 Hw1.
    assert (acts s0 w0 (dispose (sh_config sh1) (ce_end_now env) (ho_pubkey ok) result w1).2)
      as (taken & f & trace & Ho & Hf & Hi' & He).
    { etrans; [exact Hw1|]. apply (dispose_acting s0). }
    exists taken, f, trace. cbn in Ho, He. rewrite Hreg in He. rewrite Hoth in Ho. split_and!; try done.
    rewrite Ho. by apply sublist_inserts_r. }
  destruct (session_run s0 (ce_polls env) w0) as [[[outcome|]|e] w1].
  - destruct (Hfin (Ok outcome) w1 Hrun) as (taken & f & trace & ?). exists s0, taken, f, trace. naive_solver.
  - destruct Hrun as (taken & f & trace & Ho & Hf & Hi' & He). exists s0, taken, f, trace.
    cbn in Ho, He. rewrite Hreg in He. rewrite Hoth in Ho. split_and!; try done.
    rewrite Ho. by apply sublist_inserts_r.
  - destruct (Hfin (Err e) w1 Hrun) as (taken & f & trace & ?). exists s0, taken, f, trace. naive_solver.
Qed.

(** C4: A server that serves any number of clients at once is a history of authenticated
    sessions that keep their contract.  Handling a connection, from its accept to wherever
    its session has got, while operations of other authenticated sessions and of the reaper
    arrive between any two of its own, takes a server in such a history to one: either the
    registry is as it was, or the peer has authenticated as a session [s], and what happened
    to the registry is the other operations in their order with operations of [s] in
    between, each within what the entry of its key allows. *)
Theorem connection_refines (lo hi : Z) (sessions : list Session) (ops : list RegOp) (env : ConnEnv S L)
    (sh : SharedState) (Hrun : server_run sessions ops) (Hreg : sh_reg sh = run ops (initial lo hi))
    (Hothers : Forall (system_op sessions) (concat (sh_others sh)))
    (Hsh : server_ok (2 * len (ce_polls env) + 1) sh)
    (Hb : Forall (fun p => bind_law (pl_env p)) (ce_polls env)) :
  exists sessions' new, server_run sessions' (ops ++ new) /\
    sh_reg (handle_connection blake3 env sh).2 = run (ops ++ new) (initial lo hi) /\
    (sessions' = sessions /\ new = [] \/
     exists s f, sessions' = s :: sessions /\ authenticates env (sh_keys sh) s /\
       f `sublist_of` concat (sh_others sh) /\ interleaved (may_issue s) f new).
Proof.
  unfold handle_connection.
  destruct (ce_accept env) as [c|e] eqn:Ec; [|exists sessions, []; rewrite app_nil_r; by auto].
  destruct (ce_accept_bi env) as [[send recv]|e] eqn:Eb; [|exists sessions, []; rewrite app_nil_r; by auto].
  destruct (ce_timed_out env) as [[k a]|]; [exists sessions, []; rewrite app_nil_r; by auto|].
  destruct (perform _ _ _) as [[[ok|b|code]|e] hw] eqn:Ep;
    try (exists sessions, []; rewrite app_nil_r; by auto).
  apply perform_authenticates in Ep as (Hg & Hsid & (kb & s1 & s2 & sig & Hkb & _ & Hreq & Hr & Hv) & _).
  match goal with |- context [serve_session env c ?snd ok ?sh1] => set (sh' := sh1);
    destruct (serve_session_acts env c snd ok sh') as (s & taken & f & trace & Hpk & Hen & Hs & Hc & Hf & Ht & Hi & He)
  end; [done|done|].
  assert (Hauth : authenticates env (sh_keys sh) s).
  { split; [congruence|by rewrite Hpk, Hen|congruence|]. rewrite Hpk. by eauto 20. }
  assert (Hf' : f `sublist_of` concat (sh_others sh)) by (etrans; [exact Hf|by apply sublist_concat]).
  exists (s :: sessions), trace. split_and!.
  - apply server_run_ops; [by apply (run_connects _ _ env (sh_keys sh))|].
    apply List.Forall_forall. intros o Ho%list_elem_of_In.
    destruct (interleaved_elem _ _ _ _ Hi Ho) as [Hown|Hfor].
    + left. exists s. split; [apply list_elem_of_here|done].
    + apply system_op_mono. eapply List.Forall_forall in Hothers; [exact Hothers|].
      apply list_elem_of_In. by eapply elem_of_sublist.
  - rewrite He, run_app. f_equal. exact Hreg.
  - right. by exists s, f.
Qed.

(** ** Who stands behind a tunnel *)

(** Some session of the owner's key had an entry that permits the tunnel; if the tunnel is
    live, its connection is one on which the owner's key authenticated. *)
Definition accountable (sessions : list Session) (info : TunnelInfo) : Prop :=
  (exists s, s ∈ sessions /\ s_pubkey s = ti_owner info /\ permits s (ti_kind info)) /\
  forall c a, ti_state info = Live c a ->
    exists s, s ∈ sessions /\ s_pubkey s = ti_owner info /\ s_connection s = c.

Definition all_accountable (sessions : list Session) (m : gmap TunnelId TunnelInfo) : Prop :=
  map_Forall (fun _ => accountable sessions) m.

(** Parking a tunnel, or attaching a connection of its owner, leaves it accountable. *)
Lemma accountable_dangling sessions info t :
  accountable sessions info -> accountable sessions (with_state (Dangling t) info).
Proof. intros [Ha _]. by split. Qed.

Lemma accountable_live sessions info c a :
  accountable sessions info ->
  (exists s, s ∈ sessions /\ s_pubkey s = ti_owner info /\ s_connection s = c) ->
  accountable sessions (with_state (Live c a) info).
Proof. intros [Ha _] Hs. split; [done|]. by intros ? ? [= <- <-]. Qed.

Lemma accountable_resume sessions order l sid pk c r :
  (exists s, s ∈ sessions /\ s_pubkey s = pk /\ s_connection s = c) ->
  all_accountable sessions (tr_tunnels r) ->
  all_accountable sessions (tr_tunnels (try_resume order l sid pk c r).2).
Proof.
  intros Hs Hall. unfold try_resume. destruct (match tr_labels r !! l with Some id => _ | None => _ end) as [id|]; [|done].
  destruct (tr_tunnels r !! id) as [i|] eqn:E; [|done]. destruct (negb _); [done|].
  case_bool_decide; [done|]. case_bool_decide as Ho; [done|]. subst pk.
  assert (all_accountable sessions (<[id := with_state (Live c None) i]> (tr_tunnels r))) as Hnew.
  { apply map_Forall_insert_2; [|done]. apply accountable_live; [by eapply Hall|done]. }
  by destruct (ti_kind i), (ti_tcp_listener i).
Qed.

Lemma exec_accountable sessions o w :
  system_op sessions o -> all_accountable sessions (tr_tunnels (rw_reg w)) ->
  all_accountable sessions (tr_tunnels (rw_reg (exec_op o w))).
Proof.
  intros [(s & Hs & Ho)|[now ->]] Hall.
  2:{ cbn [exec_op rw_reg]. rewrite reap_tunnels. by intros id i [Hi%Hall _]%map_lookup_filter_Some. }
  destruct Ho as [label Hp| |info abort Hown _ Hst Hp|order label sid|id a|id|now grace|]; cbn [exec_op rw_reg].
  - unfold allocate_http. by destruct (bool_decide _).
  - unfold allocate_tcp. by destruct (pick_free_port _ _ _ _).
  - case_decide; [|done]. cbn. apply map_Forall_insert_2; [|done]. split; [by exists s|].
    intros c b E. exists s. split_and!; [done|done|]. rewrite Hst in E. congruence.
  - apply accountable_resume; [by exists s|done].
  - unfold set_tcp_abort. destruct (tr_tunnels (rw_reg w) !! id) as [i|] eqn:E; [|done].
    destruct (ti_state i) as [c b|] eqn:Est; [|done]. cbn. apply map_Forall_insert_2; [|done].
    pose proof (Hall _ _ E) as Hi. apply accountable_live; [done|]. by eapply Hi.
  - unfold TunnelRegistry_remove. rewrite (proj1 (remove_locked_tunnels id _)). by apply map_Forall_delete.
  - rewrite mark_dangling_tunnels. apply map_Forall_fmap. intros id i Hi. cbn.
    destruct (_ && _); [by eapply accountable_dangling, Hall|by eapply Hall].
  - rewrite remove_all_tunnels. by intros id i [Hi%Hall _]%map_lookup_filter_Some.
Qed.

Lemma run_accountable sessions lo hi ops :
  Forall (system_op sessions) ops -> all_accountable sessions (tr_tunnels (rw_reg (run ops (initial lo hi)))).
Proof.
  induction ops as [|o ops IH] using rev_ind; intros Hops; [apply map_Forall_empty|].
  apply Forall_app in Hops as [Hops [Ho _]%Forall_cons_1]. rewrite run_app. cbn.
  apply exec_accountable; auto.
Qed.
(** ** What a visitor reaches *)

Section Visitors.
Context `{Postcard InspectionPrelude Z}.

(** A visitor whose ClientHello, or whose Host, names [label] under [apex], and how the
    router that took it ended. *)
Inductive visit (apex : str) (reg : TunnelRegistry) (label : str) (e : RouteEnd) : Prop :=
| visit_tls to_lowercase now peer tcp c c' p tcp' :
    peek_sni to_lowercase tcp = (Ok p, tcp') -> extract_sni_label (sp_server_name p) apex = Some label ->
    https_handle to_lowercase now peer apex reg tcp c = (Ok e, c') -> visit apex reg label e
| visit_http http_parse now peer challenges tcp k c c' buffered host path tcp' :
    read_request http_parse tcp = Some (Ok (buffered, host, path), tcp') ->
    extract_host_label host apex = Some label ->
    http_handle http_parse now peer apex reg challenges tcp = Some k -> k c = (Ok e, c') ->
    visit apex reg label e.

(** Both routers look the label up and relay to what they find. *)
Lemma visit_resolves apex reg label conn rate id sent rest :
  visit apex reg label (Relayed conn rate id sent rest) ->
  exists inspect prelude buffered, stream_start DataHttp id inspect prelude buffered sent /\
    resolve_label label reg = Some {| rt_id := id; rt_connection := conn; rt_rate := rate; rt_inspect := inspect |}.
Proof.
  destruct 1 as [? ? ? ? ? ? p ? Hp El Hh|? ? ? ? ? ? ? ? ? host ? ? Hr El Hk Hh].
  - apply https_handle_Ok in Hh as (p' & ? & Hp' & label' & inspect & prelude & El' & Hres & Hs & _).
    rewrite Hp in Hp'. injection Hp' as <- _. rewrite El in El'. injection El' as <-.
    by exists inspect, prelude, (sp_buffered p).
  - destruct (http_handle_Ok _ _ _ _ _ _ _ _ _ _ _ Hk Hh)
      as (? & host' & ? & ? & Hr' & _ & _ & label' & inspect & prelude & El' & Hres & Hs & _).
    rewrite Hr in Hr'. injection Hr' as _ <- _ _. rewrite El in El'. injection El' as <-. by do 3 eexists.
Qed.

(** C2: Whoever a visitor reaches was entitled to be there.  In a server that has seen any
    number of connections, authenticated sessions and reaper ticks, interleaved in any order,
    if either public router relays a visitor that names [label], then the tunnel it is
    relayed to is the one published under [label], a session [s] whose entry allowed the
    label published it under a valid name, and the bytes go to a connection [s'] on which
    the holder of the same private key proved itself; the stream starts with the header of
    that very tunnel. *)
Theorem visitor_reaches_owner (lo hi : Z) (sessions : list Session) (ops : list RegOp) (apex label : str)
    (conn : Connection) (rate : RateRef) (id : TunnelId) (sent : bytes) (rest : TcpStream)
    (Hrun : server_run sessions ops) (Hlen : len ops < 2 ^ 64 - 2)
    (Hv : visit apex (rw_reg (run ops (initial lo hi))) label (Relayed conn rate id sent rest)) :
  exists info s s', tr_tunnels (rw_reg (run ops (initial lo hi))) !! id = Some info /\
    ti_kind info = RK_Http label /\
    s ∈ sessions /\ s_pubkey s = ti_owner info /\ is_valid_label label = true /\ may_publish s label /\
    s' ∈ sessions /\ s_pubkey s' = ti_owner info /\ s_connection s' = conn /\
    (exists env keys, authenticates env keys s) /\ (exists env keys, authenticates env keys s') /\
    exists inspect prelude buffered, stream_start DataHttp id inspect prelude buffered sent.
Proof.
  apply visit_resolves in Hv as (inspect & prelude & buffered & Hs & Hres).
  destruct (server_run_ok _ _ Hrun) as [Hops Hauth]. destruct (inv_run lo hi ops Hlen) as [I _].
  pose proof (run_accountable sessions lo hi ops Hops) as Hacc. unfold resolve_label in Hres.
  destruct (tr_labels _ !! label) as [id'|] eqn:El; [|done].
  apply (inv_labels _ I) in El as (info & Hi & Hk). cbn [mbind option_bind] in Hres. rewrite Hi in Hres.
  cbn in Hres. destruct (ti_state info) as [c a|t] eqn:Est; [|done]. simplify_eq.
  destruct (Hacc _ _ Hi) as [(s & Hin & Hpk & Hp) Hlive]. destruct (Hlive _ _ Est) as (s' & Hin' & Hpk' & Hc).
  rewrite Hk in Hp. destruct Hp as [Hval Hmay]. exists info, s, s'. split_and!; try done; eauto.
Qed.
End Visitors.
End Server.

(** ** Witnesses *)

#[local] Existing Instance toy_postcard.
#[local] Existing Instance toy_stream.
#[local] Existing Instance toy_ed.
#[local] Existing Instance toy_base64.
#[local] Existing Instance toy_prelude.

#[local] Notation toy_run :=
  (server_run (S := bytes) (L := NoOpPeerLookup) (SK := bytes) (VK := bytes)).

(** The connection [h] of [alice], who authenticates and then sends [frames]. *)
Definition alice_conn (h : Z) (frames : list ClientFrame) : ConnEnv bytes NoOpPeerLookup :=
  {| ce_kind := Quic; ce_accept := Ok {| conn_handle := h |};
     ce_accept_bi := Ok (fresh_send, auth_input); ce_timed_out := None; ce_handshake := toy_env;
     ce_rate_now := 0; ce_rate_ref := {| rate_handle := 1 |}; ce_ctrl_tx := 4;
     ce_polls := map frame_poll frames; ce_end_now := 50 |}.

Definition alice_on (h : Z) : Session :=
  {| s_pubkey := alice; s_session_id := he_sid toy_env; s_connection := {| conn_handle := h |};
     s_mode := ModeDomain (lit "krot.test") (Acme (lit "a") None) any_addr any_addr (40000, 40001);
     s_entry := wild_entry; s_rate := {| rate_handle := 0 |} |}.

Lemma alice_authenticates h frames : authenticates (alice_conn h frames) revoking_keys (alice_on h).
Proof.
  split; [done|reflexivity|done|]. do 7 eexists. split; [reflexivity|].
  split; [vm_compute; reflexivity|]. split; [vm_compute; reflexivity|]. split; vm_compute; reflexivity.
Qed.

(** [alice] publishes [web] on one connection, loses it and resumes on another. *)
Definition web_live : TunnelInfo :=
  {| ti_id := {| tid_raw := 1 |}; ti_owner := alice; ti_session_id := he_sid toy_env;
     ti_kind := RK_Http (lit "web"); ti_state := Live {| conn_handle := 6 |} None;
     ti_tcp_listener := None; ti_rate := {| rate_handle := 0 |}; ti_inspect := true |}.

Definition roaming_ops : list RegOp :=
  [OpAllocateHttp (lit "web"); OpInsert web_live; OpMarkDangling 50 alice 30; OpReap 60;
   OpTryResume [] (lit "web") (he_sid toy_env) alice {| conn_handle := 8 |}].

Lemma roaming_run : toy_run [alice_on 8; alice_on 6] roaming_ops.
Proof.
  assert (Hp : permits (alice_on 6) (RK_Http (lit "web"))) by (split; [reflexivity|by left]).
  apply (server_run_ops _ []).
  - eapply run_connects, (alice_authenticates 8 []). eapply run_connects, (alice_authenticates 6 []). constructor.
  - assert (H6 : forall o, may_issue (alice_on 6) o -> system_op [alice_on 8; alice_on 6] o).
    { intros o Ho. left. exists (alice_on 6). split; [|done]. rewrite !elem_of_cons. auto. }
    repeat apply Forall_cons_2; [apply H6; by constructor|apply H6; by eapply issue_insert| |by right; eexists| |constructor].
    + apply H6. exact (issue_dangle (alice_on 6) 50 30).
    + left. exists (alice_on 8). split; [apply list_elem_of_here|].
      exact (issue_resume (alice_on 8) [] (lit "web") (he_sid toy_env)).
Qed.

Lemma visitor_reaches_owner_witness : exists s', s' ∈ [alice_on 8; alice_on 6] /\
  s_connection s' = {| conn_handle := 8 |}.
Proof.
  assert (exists rate id sent rest c', https_handle to_ascii_lowercase 7 (lit "1.2.3.4:5") (lit "krot.test")
    (rw_reg (run roaming_ops (initial 40000 40001))) [Ok (tls_record web_hello)] [] =
    (Ok (Relayed {| conn_handle := 8 |} rate id sent rest), c')) as (rate & id & sent & rest & c' & E).
  { do 5 eexists. vm_compute. reflexivity. }
  assert (exists p tcp', peek_sni to_ascii_lowercase [Ok (tls_record web_hello)] = (Ok p, tcp') /\
    extract_sni_label (sp_server_name p) (lit "krot.test") = Some (lit "web")) as (p & tcp' & Ep & El).
  { do 2 eexists. split; vm_compute; reflexivity. }
  destruct (visitor_reaches_owner (S := bytes) (L := NoOpPeerLookup) (SK := bytes) (VK := bytes)
    40000 40001 [alice_on 8; alice_on 6] roaming_ops (lit "krot.test") (lit "web")
    {| conn_handle := 8 |} rate id sent rest roaming_run)
    as (info & s & s' & _ & _ & _ & _ & _ & _ & Hs' & _ & Hc & _).
  - vm_compute. reflexivity.
  - eapply visit_tls; [exact Ep|exact El|exact E].
  - exists s'. split; [exact Hs'|exact Hc].
Defined.

(** [alice] publishes a port while the reaper runs. *)
Definition busy_shared : SharedState :=
  {| sh_keys := revoking_keys; sh_admin := {| ats_state := None; ats_file := None |};
     sh_config := local_in (lit "/tmp"); sh_rates := ∅; sh_metrics := ServerMetrics_new 0;
     sh_reg := initial 40000 40001; sh_others := [[OpReap 3]]; sh_closed := [] |}.

Definition publish_conn : ConnEnv bytes NoOpPeerLookup :=
  alice_conn 6 [RegisterTunnel (lit "t") (TK_Tcp None) None false].

Lemma connection_refines_witness : exists sessions' new, toy_run sessions' new /\ length sessions' = 1%nat /\
  map_size (tr_tunnels (rw_reg (run new (initial 40000 40001)))) = 1%nat.
Proof.
  destruct (connection_refines (SK := bytes) (VK := bytes) (fun b => b) 40000 40001 [] [] publish_conn busy_shared) as
    (sessions' & new & Hrun & Hreg & Hcase).
  - constructor.
  - reflexivity.
  - constructor; [|constructor]. right. by exists 3.
  - split; [exact (proj1 (inv_run 40000 40001 [] eq_refl))|]. vm_compute. split; [discriminate|reflexivity].
  - repeat constructor; exact sample_bind_law.
  - exists sessions', new. split; [exact Hrun|].
    assert (Hn : map_size (tr_tunnels (rw_reg (run new (initial 40000 40001)))) = 1%nat).
    { cbn [app] in Hreg. rewrite <-Hreg. vm_compute. reflexivity. }
    split; [|exact Hn]. destruct Hcase as [[-> ->]|(s & f & -> & _)]; [|reflexivity].
    vm_compute in Hn. discriminate.
Defined.

(** ** The limits of resuming *)

Definition with_entry (e : AuthorizedEntry) (s : Session) : Session :=
  {| s_pubkey := s_pubkey s; s_session_id := s_session_id s; s_connection := s_connection s;
     s_mode := s_mode s; s_entry := e; s_rate := s_rate s |}.

(** Whether and how a lease is resumed does not depend on the entry of the key: neither the
    labels and ports it allows nor its cap on tunnels is consulted. *)
Lemma resume_ignores_entry {L} `{PeerLabelLookup L} (s : Session) (e : AuthorizedEntry) (env : DispatchEnv L)
    label kind prev inspect w id info i :
  (try_resume (de_order env) label prev (s_pubkey s) (s_connection s)
     (rw_reg (sw_reg (interfere w).2))).1 = Reattached id info i ->
  register (with_entry e s) env label kind (Some prev) inspect w =
  register s env label kind (Some prev) inspect w.
Proof.
  intros Ht. unfold register, reg_call, sm_bind. destruct (interfere w) as [r w1]. cbn in *.
  destruct r; [|done]. by rewrite Ht.
Qed.

(** What [s] is told when it asks to publish and no other session interferes. *)
Definition told (s : Session) (label : str) (kind : TunnelKind) (resume : option SessionId) (w : RegWorld) :
    list ServerFrame :=
  ss_sent (sw_send (register s
    {| de_order := [{| tid_raw := 1 |}]; de_peers := de_peers sample_env; de_lookup := NoOp;
       de_bind := de_bind sample_env; de_message := fun _ => []; de_abort := {| abort_handle := 1 |} |}
    label kind resume false (sess_world w [])).2).

Definition parked (info : TunnelInfo) : RegWorld :=
  run [match ti_kind info with RK_Http l => OpAllocateHttp l | RK_Tcp _ => OpAllocateTcp None end;
       OpInsert info; OpMarkDangling 50 (ti_owner info) 30] (initial 40000 40001).

Definition api_only : AuthorizedEntry :=
  {| ae_allow_any_subdomain := false; ae_allowed_subdomains := [lit "api"]; ae_max_conns := None;
     ae_allowed_ports := None; ae_bw := None; ae_quota := None; ae_federation := []; ae_comment := None |}.

(** The entry of [alice] is restricted while her tunnel dangles: she may not publish [web]
    any more, and gets it back. *)
Example resume_skips_allowlist :
  told (with_entry api_only (alice_on 8)) (lit "web") TK_Http None (initial 40000 40001) =
    [TunnelRejected LABEL_FORBIDDEN (lit "`web` not permitted for this identity")] /\
  told (with_entry api_only (alice_on 8)) (lit "web") TK_Http (Some (he_sid toy_env)) (parked web_live) =
    [TunnelRegistered {| tid_raw := 1 |} (lit "https://web.krot.test") None].
Proof. split; vm_compute; reflexivity. Qed.

(** A client that starts again without its old session id, as [run_http] does, cannot have
    its own label while the lease lasts. *)
Example restart_finds_label_taken : exists detail,
  told (alice_on 8) (lit "web") TK_Http None (parked web_live) = [TunnelRejected LABEL_UNAVAILABLE detail].
Proof. eexists. vm_compute. reflexivity. Qed.

(** A resumed tunnel stays filed under the session that published it: when the session that
    resumed it is lost in turn, the id of that session resumes nothing. *)
Example second_resume_needs_first_id :
  let newer := {| sid_raw := repeat 5 16 |} in
  let lost := run [OpTryResume [] (lit "web") (he_sid toy_env) alice {| conn_handle := 8 |};
                   OpMarkDangling 90 alice 30] (parked web_live) in
  (try_resume [] (lit "web") newer alice {| conn_handle := 10 |} (rw_reg lost)).1 = ResumeUnknown /\
  (try_resume [] (lit "web") (he_sid toy_env) alice {| conn_handle := 10 |} (rw_reg lost)).1 =
    Reattached {| tid_raw := 1 |} (RI_Http (lit "web")) true.
Proof. split; vm_compute; reflexivity. Qed.

Definition tcp_live : TunnelInfo :=
  {| ti_id := {| tid_raw := 1 |}; ti_owner := alice; ti_session_id := he_sid toy_env;
     ti_kind := RK_Tcp 40000; ti_state := Live {| conn_handle := 6 |} (Some {| abort_handle := 3 |});
     ti_tcp_listener := Some {| listener_handle := 9 |}; ti_rate := {| rate_handle := 0 |};
     ti_inspect := false |}.

(** An HTTP request for a label nobody holds is answered with a TCP tunnel. *)
Example resume_ignores_kind :
  told (alice_on 8) (lit "new") TK_Http (Some (he_sid toy_env)) (parked tcp_live) =
    [TunnelRegistered {| tid_raw := 1 |} (lit "tcp://krot.test:40000") (Some 40000)].
Proof. vm_compute. reflexivity. Qed.

(** Somebody else's HTTP tunnel named like the label of a TCP request hides the lease of the
    TCP tunnel: a second port is opened in place of it. *)
Example http_label_blocks_tcp_resume :
  let squatter := {| ti_id := {| tid_raw := 2 |}; ti_owner := {| pk_raw := repeat 2 32 |};
    ti_session_id := alice_session; ti_kind := RK_Http (lit "tcp"); ti_state := Live {| conn_handle := 7 |} None;
    ti_tcp_listener := None; ti_rate := {| rate_handle := 5 |}; ti_inspect := false |} in
  let resume := told (alice_on 8) (lit "tcp") (TK_Tcp None) (Some (he_sid toy_env)) in
  resume (parked tcp_live) =
    [TunnelRegistered {| tid_raw := 1 |} (lit "tcp://krot.test:40000") (Some 40000)] /\
  resume (run [OpAllocateHttp (lit "tcp"); OpInsert squatter] (parked tcp_live)) =
    [TunnelRegistered {| tid_raw := 3 |} (lit "tcp://krot.test:40001") (Some 40001)].
Proof. split; vm_compute; reflexivity. Qed.
