(* ===== verification/Boot.v ===== *)
(** * Boot: the start of the server

    [Server::start], [start_domain_plane], [issue_admin_token_if_needed], [run_multicore] and
    [worker] of [krot-server/src/server.rs] with the socket helpers of [sockets.rs]: what is
    opened in which order, which sockets are bound, which tasks run in the background, and
    the state the first connection meets.

    Whether the operating system lets a socket bind is the parameter [os_bind]; sockets that
    are open are a table.  The state of a started server is the [SharedState] of [Server]. *)

From S2P Require Import Prelude RustStr Wire Framing Types Registry Rate Keys Admin Handshake Peers Metrics Config Http LoginPage LocalAuth ClientConfig Certs Session Server Sni Router Acme Accept.

Local Open Scope Z_scope.

(** A bound socket: TCP or UDP, its address, and whether [SO_REUSEPORT] was set. *)
Record Sock := { sk_tcp : bool; sk_addr : SocketAddr; sk_reuse : bool }.

(** Tasks that live as long as the runtime. *)
Inductive Background :=
| BgKeysWatcher
| BgPeersWatcher
| BgReaper
| BgHttpRouter (apex : str)
| BgHttpsRouter (apex : str) (rx : ShutdownRx)
| BgAdminApi
| BgFallback (rx : ShutdownRx).

Record BootWorld := {
  bo_acme : AcmeWorld;
  bo_socks : list Sock;
  bo_tasks : list Background;
}.

Abbreviation BoM := (SM BootWorld ServerError).

(** What a start meets. *)
Record BootEnv := {
  be_now : Z;
  be_unix_secs : Z;
  be_keys_create : option Z;
  be_keys_read : Z;
  be_keys_exists : bool;
  be_keys_file : option str;
  be_peers : PeerFile;
  be_token_file : option bytes;
  be_generated : Result Generated ServerError;
  be_authority : Authority;
  be_quic_crypto : option Z;
}.

(** A running server; the fields of [SharedState] that [Server] does not have are here. *)
Record KrotServer := {
  sv_endpoint : Sock;
  sv_shared : SharedState;
  sv_tls : TlsConfig;
  sv_apex : option str;
  sv_https_bind : option SocketAddr;
  sv_peers : PeerRegistry;
  sv_identity : option ServerIdentity;
  sv_http_addr : option SocketAddr;
  sv_https_addr : option SocketAddr;
  sv_admin_api_addr : option SocketAddr;
  sv_tcp_fallback_addr : option SocketAddr;
}.

Definition boot_lift {A} (r : Result A ServerError) : BoM A := fun w => (r, w).

Definition background (b : Background) : BoM unit :=
  sm_modify (fun w => {| bo_acme := bo_acme w; bo_socks := bo_socks w; bo_tasks := bo_tasks w ++ [b] |}).

Definition boot_acme {A} (m : SM AcmeWorld ServerError A) : BoM A := fun w =>
  let '(r, a) := m (bo_acme w) in
  (r, {| bo_acme := a; bo_socks := bo_socks w; bo_tasks := bo_tasks w |}).

Definition set_socks (l : list Sock) (w : BootWorld) : BootWorld :=
  {| bo_acme := bo_acme w; bo_socks := l; bo_tasks := bo_tasks w |}.

#[global] Instance SocketAddr_eq_dec : EqDecision SocketAddr.
Proof. solve_decision. Defined.
#[global] Instance Sock_eq_dec : EqDecision Sock.
Proof. solve_decision. Defined.

Section Boot.
Context `{Base64} `{Hex}.
Context (b64_error : str -> str) (x509_error : bytes -> str).
Context (spki : bytes -> option bytes) (sha256 : bytes -> bytes) (not_after : bytes -> option Z).
Context (single_cert : list bytes -> bytes -> option Z).
(** Bind a socket next to those that are open: the address it gets, or an error. *)
Context (os_bind : list Sock -> Sock -> Result SocketAddr Z).

Definition bind_sock (err : Z -> ServerError) (tcp : bool) (addr : SocketAddr) (reuse : bool) : BoM SocketAddr :=
  fun w =>
  match os_bind (bo_socks w) {| sk_tcp := tcp; sk_addr := addr; sk_reuse := reuse |} with
  | Err e => (Err (err e), w)
  | Ok a => (Ok a, set_socks (bo_socks w ++ [{| sk_tcp := tcp; sk_addr := a; sk_reuse := reuse |}]) w)
  end.

Definition start_domain_plane (env : BootEnv) (apex : str) (tls : DomainTls) (http_bind https_bind : SocketAddr)
    (data_dir : str) : BoM (TlsConfig * SocketAddr * SocketAddr) :=
  let! http_addr := bind_sock SE_Io true http_bind false in
  let! https_addr := bind_sock SE_Io true https_bind false in
  let! _ := background (BgHttpRouter apex) in
  let! tls_cfg :=
    match tls with
    | PemFile cert key => boot_acme (on_disk (load_tls_from_pem b64_error single_cert cert key))
    | Acme contact directory =>
      let! issued :=
        boot_acme (acquire_cert b64_error x509_error not_after (be_authority env) (be_now env) contact apex
          directory data_dir) in
      boot_lift (with_single_cert single_cert issued.1 issued.2)
    end in
  sm_ret (tls_cfg, http_addr, https_addr).

(** What the mode decides: the TLS configuration, the identity, the addresses of the HTTP and
    HTTPS listeners. *)
Definition start_mode (env : BootEnv) (config : ServerConfig) :
    BoM (TlsConfig * option ServerIdentity * option SocketAddr * option SocketAddr) :=
  match sc_mode config with
  | ModeIp _ _ =>
    let! id := boot_acme (on_disk (load_or_create b64_error x509_error spki sha256 (be_generated env)
                                     (sc_data_dir config))) in
    let! tls := boot_lift (into_rustls single_cert id) in
    sm_ret (tls, Some id, None, None)
  | ModeDomain apex tls http_bind https_bind _ =>
    let! got := start_domain_plane env apex tls http_bind https_bind (sc_data_dir config) in
    let '(tls_cfg, http_addr, https_addr) := got in
    sm_ret (tls_cfg, None, Some http_addr, Some https_addr)
  end.

Definition mode_apex (m : Mode) : option str :=
  match m with ModeIp _ _ => None | ModeDomain apex _ _ _ _ => Some apex end.
Definition mode_https_bind (m : Mode) : option SocketAddr :=
  match m with ModeIp _ _ => None | ModeDomain _ _ _ https_bind _ => Some https_bind end.

Definition Server_start (env : BootEnv) (config : ServerConfig) : BoM KrotServer :=
  let! keys := boot_lift (KeyRegistry_open b64_decode (be_keys_create env) (be_keys_read env)
                            (be_keys_exists env) (be_keys_file env)) in
  let! _ := background BgKeysWatcher in
  let! peers := boot_lift (PeerRegistry_open (be_peers env)) in
  let! _ := background BgPeersWatcher in
  let admin := AdminTokenStore_new (be_token_file env) in
  let port_pool := Mode_tcp_port_pool (sc_mode config) in
  let registry := initial port_pool.1 port_pool.2 in
  let! _ := background BgReaper in
  let! mode := start_mode env config in
  let '(tls, identity, http_addr, https_addr) := mode in
  let! _ := boot_lift (match be_quic_crypto env with
                       | Some e => Err (SE_Transport (TE_QuicCrypto e))
                       | None => Ok tt
                       end) in
  let! quic_addr := bind_sock (fun e => SE_Transport (TE_Io e)) false (sc_bind config) false in
  let shared :=
    {| sh_keys := keys; sh_admin := admin; sh_config := config; sh_rates := ∅;
       sh_metrics := ServerMetrics_new (be_unix_secs env); sh_reg := registry; sh_others := [];
       sh_closed := [] |} in
  let! _ := match mode_apex (sc_mode config) with
            | Some apex => background (BgHttpsRouter apex Never)
            | None => sm_ret tt
            end in
  let! admin_api_addr :=
    match sc_admin_bind config with
    | Some bind =>
      let! addr := bind_sock SE_Io true bind false in
      let! _ := background BgAdminApi in
      sm_ret (Some addr)
    | None => sm_ret None
    end in
  let! tcp_fallback_addr :=
    match sc_tcp_fallback_bind config with
    | Some bind =>
      let! addr := bind_sock (fun e => SE_Transport (TE_Io e)) true bind false in
      let! _ := background (BgFallback Never) in
      sm_ret (Some addr)
    | None => sm_ret None
    end in
  sm_ret {| sv_endpoint := {| sk_tcp := false; sk_addr := quic_addr; sk_reuse := false |};
            sv_shared := shared; sv_tls := tls; sv_apex := mode_apex (sc_mode config);
            sv_https_bind := mode_https_bind (sc_mode config); sv_peers := peers; sv_identity := identity;
            sv_http_addr := http_addr; sv_https_addr := https_addr; sv_admin_api_addr := admin_api_addr;
            sv_tcp_fallback_addr := tcp_fallback_addr |}.

(** The token of a first start; [raw], the clock and the outcomes are those of [issue]. *)
Definition issue_admin_token_if_needed (blake3 : bytes -> bytes) (base32 : bytes -> str) (now : Z)
    (raw : bytes) (io_mkdir : option Z) (io : WriteIo) (sh : SharedState) :
    Result (option str) ServerError * SharedState :=
  if sc_issue_admin_token (sh_config sh) || bool_decide (kr_entries (sh_keys sh) = ∅) then
    let '(r, admin) := issue blake3 base32 now raw io_mkdir io (sh_admin sh) in
    let sh := set_auth (sh_keys sh) admin sh in
    (let? token := r in Ok (Some token), sh)
  else (Ok None, sh).

(** ** One endpoint per core *)

(** The sockets of a worker: its own QUIC endpoint, and its own HTTPS listener in a domain. *)
Definition worker_setup (quic_crypto : option Z) (quic_bind : SocketAddr) (https_bind : option SocketAddr)
    (apex : option str) : BoM unit :=
  let! _ := bind_sock SE_Io false quic_bind true in
  let! _ := boot_lift (match quic_crypto with
                       | Some e => Err (SE_Transport (TE_QuicCrypto e))
                       | None => Ok tt
                       end) in
  match https_bind, apex with
  | Some https_bind, Some apex =>
    let! _ := bind_sock SE_Io true https_bind true in
    background (BgHttpsRouter apex Never)
  | _, _ => sm_ret tt
  end.

(** A worker: its set-up, then the loop of [Accept]; a worker that fails closes its sockets.
    The sockets and the HTTPS task of a worker whose loop has ended go with its runtime; that
    is after every set-up and not recorded. *)
Definition worker {I} (quic_crypto : option Z) (quic_bind : SocketAddr) (https_bind : option SocketAddr)
    (apex : option str) (turns : list (QuicTurn I)) (ends : list (Z * nat)) : BoM (option (LoopEnd I)) :=
  fun w =>
  match worker_setup quic_crypto quic_bind https_bind apex w with
  | (Err e, w') => (Err e, set_socks (bo_socks w) w')
  | (Ok _, w') => (Ok (run_until turns ends), w')
  end.

Fixpoint run_workers {I} (quic_crypto : option Z) (quic_bind : SocketAddr) (https_bind : option SocketAddr)
    (apex : option str) (cores : list (list (QuicTurn I) * list (Z * nat))) (w : BootWorld) :
    list (Result (option (LoopEnd I)) ServerError) * BootWorld :=
  match cores with
  | [] => ([], w)
  | (turns, ends) :: cores =>
    let '(r, w) := worker quic_crypto quic_bind https_bind apex turns ends w in
    let '(rs, w) := run_workers quic_crypto quic_bind https_bind apex cores w in
    (r :: rs, w)
  end.

(** [run_multicore]: [None] is a failed assertion; the endpoint of [start] is closed before
    the workers bind theirs, in the order the threads get to it.  A worker's error is only
    logged. *)
Definition run_multicore {I} (quic_crypto : option Z) (sv : KrotServer)
    (cores : list (list (QuicTurn I) * list (Z * nat))) (w : BootWorld) :
    option (list (Result (option (LoopEnd I)) ServerError) * BootWorld) :=
  let quic_bind := sc_bind (sh_config (sv_shared sv)) in
  if bool_decide (cores = []) then None
  else if sa_port quic_bind =? 0 then None
  else if from_option (fun a => sa_port a =? 0) false (sv_https_bind sv) then None
  else
    let w := set_socks (filter (fun s => s <> sv_endpoint sv) (bo_socks w)) w in
    Some (run_workers quic_crypto quic_bind (sv_https_bind sv) (sv_apex sv) cores w).

End Boot.

#[local] Arguments lit : simpl never.

(** ** What a start leaves *)

(** Sockets and background tasks are only added. *)
Definition grows (w w' : BootWorld) : Prop :=
  (exists l, bo_socks w' = bo_socks w ++ l) /\ (exists l, bo_tasks w' = bo_tasks w ++ l).

#[global] Instance grows_preorder : PreOrder grows.
Proof.
  split.
  - intros w. split; exists []; by rewrite app_nil_r.
  - intros w1 w2 w3 [[a Ha] [b Hb]] [[c Hc] [d Hd]].
    split; [exists (a ++ c)|exists (b ++ d)]; by rewrite app_assoc; congruence.
Qed.

Lemma boot_lift_grows {A} (r : Result A ServerError) : sm_within grows (boot_lift r).
Proof. by intros w. Qed.
Lemma background_grows b : sm_within grows (background b).
Proof. intros w. split; [exists []; by rewrite app_nil_r|by exists [b]]. Qed.
Lemma boot_acme_grows {A} (m : SM AcmeWorld ServerError A) : sm_within grows (boot_acme m).
Proof.
  intros w. unfold boot_acme. destruct (m (bo_acme w)). split; exists []; by rewrite app_nil_r.
Qed.
Lemma bind_sock_grows os err tcp addr reuse : sm_within grows (bind_sock os err tcp addr reuse).
Proof.
  intros w. unfold bind_sock. destruct (os _ _) as [a|e]; [|done].
  split; [by eexists|exists []; by rewrite app_nil_r].
Qed.
#[global] Hint Resolve boot_lift_grows background_grows boot_acme_grows bind_sock_grows : within.

Lemma grows_sock w w' s : grows w w' -> s ∈ bo_socks w -> s ∈ bo_socks w'.
Proof. intros [[l ->] _] ?. apply elem_of_app. by left. Qed.
Lemma grows_task w w' b : grows w w' -> b ∈ bo_tasks w -> b ∈ bo_tasks w'.
Proof. intros [_ [l ->]] ?. apply elem_of_app. by left. Qed.

(** Step over the first part of a start that returned, keeping that the world only grew. *)
Lemma grows_bind_Ok {A B} (m : BoM A) (k : A -> BoM B) w b w' :
  sm_within grows m -> sm_bind m k w = (Ok b, w') ->
  exists a w1, m w = (Ok a, w1) /\ grows w w1 /\ k a w1 = (Ok b, w').
Proof.
  intros Hm (a & w1 & Hw & Hk)%sm_bind_Ok. exists a, w1. split_and!; [done| |done].
  specialize (Hm w). by rewrite Hw in Hm.
Qed.

Lemma background_Ok b w u w' : background b w = (Ok u, w') -> b ∈ bo_tasks w'.
Proof. intros [= _ <-]. cbn. apply elem_of_app. right. left. Qed.

Section BootTheorems.
Context `{Base64} `{Hex}.
Context (b64_error : str -> str) (x509_error : bytes -> str).
Context (spki : bytes -> option bytes) (sha256 : bytes -> bytes) (not_after : bytes -> option Z).
Context (single_cert : list bytes -> bytes -> option Z).
Context (os_bind : list Sock -> Sock -> Result SocketAddr Z).

Let do_start := Server_start b64_error x509_error spki sha256 not_after single_cert os_bind.
Let do_mode := start_mode b64_error x509_error spki sha256 not_after single_cert os_bind.

(** What the mode left behind, given what came back from it. *)
Definition mode_up (m : Mode) (identity : option ServerIdentity) (http https : option SocketAddr)
    (w : BootWorld) : Prop :=
  match m with
  | ModeIp _ _ => is_Some identity /\ http = None /\ https = None
  | ModeDomain apex _ _ https_bind _ =>
      identity = None /\ is_Some http /\ BgHttpRouter apex ∈ bo_tasks w /\
      exists a table, https = Some a /\
        os_bind table {| sk_tcp := true; sk_addr := https_bind; sk_reuse := false |} = Ok a /\
        {| sk_tcp := true; sk_addr := a; sk_reuse := false |} ∈ bo_socks w
  end.

Lemma mode_up_grows m i h hs w w' : grows w w' -> mode_up m i h hs w -> mode_up m i h hs w'.
Proof.
  intros Hg. destruct m; [done|]. intros (-> & Hh & Ht & a & tb & -> & Hb & Hs). split_and!; try done.
  - by eapply grows_task.
  - exists a, tb. split_and!; try done. by eapply grows_sock.
Qed.

Lemma bind_sock_Ok err tcp addr reuse w a w' :
  bind_sock os_bind err tcp addr reuse w = (Ok a, w') ->
  os_bind (bo_socks w) {| sk_tcp := tcp; sk_addr := addr; sk_reuse := reuse |} = Ok a /\
  {| sk_tcp := tcp; sk_addr := a; sk_reuse := reuse |} ∈ bo_socks w'.
Proof.
  unfold bind_sock. destruct (os_bind _ _) as [b|e]; [|done]. intros [= -> <-]. split; [done|].
  cbn. apply elem_of_app. right. left.
Qed.

Lemma start_mode_Ok env config w tls i h hs w' :
  do_mode env config w = (Ok (tls, i, h, hs), w') -> mode_up (sc_mode config) i h hs w'.
Proof.
  unfold do_mode, start_mode. destruct (sc_mode config) as [host pool|apex dtls hb sb pool]; cbn [mode_up].
  { intros (id & w1 & _ & (t & w2 & _ & [= <- <- <- <- <-])%sm_bind_Ok)%sm_bind_Ok. by split_and!. }
  intros ([[t ha] sa] & w1 & Hd & [= <- <- <- <- <-])%sm_bind_Ok. unfold start_domain_plane in Hd.
  apply sm_bind_Ok in Hd as (ha' & w2 & _ & Hd).
  apply sm_bind_Ok in Hd as (sa' & w3 & [Hb Hs]%bind_sock_Ok & Hd).
  apply grows_bind_Ok in Hd as ([] & w4 & Ht%background_Ok & G4 & Hd); [|within].
  apply grows_bind_Ok in Hd as (cfg & w5 & _ & G5 & [= <- <- <- <-]); [|case_match; within].
  split_and!; [done|done|by apply (grows_task w4)|]. exists sa', (bo_socks w2). split_and!; [done|done|].
  eapply grows_sock; [|exact Hs]. by etrans.
Qed.

(** A started server is ready.  Its registry is empty with the configured port pool and
    consistent, no identity has used any of its quota; in IpMode it has its own identity
    and no web listeners, in a domain the HTTP router runs and the HTTPS listener is bound
    and served; the krot-tcp/1 listener runs exactly when it was asked for. *)
Lemma start_ready (env : BootEnv) (config : ServerConfig) (w w' : BootWorld) (sv : KrotServer)
    (Hok : do_start env config w = (Ok sv, w')) :
  let '(lo, hi) := Mode_tcp_port_pool (sc_mode config) in
  sh_config (sv_shared sv) = config /\ sh_reg (sv_shared sv) = initial lo hi /\
  reg_inv (sh_reg (sv_shared sv)) /\ sh_rates (sv_shared sv) = ∅ /\
  BgReaper ∈ bo_tasks w' /\ BgKeysWatcher ∈ bo_tasks w' /\
  mode_up (sc_mode config) (sv_identity sv) (sv_http_addr sv) (sv_https_addr sv) w' /\
  (forall apex, mode_apex (sc_mode config) = Some apex -> BgHttpsRouter apex Never ∈ bo_tasks w') /\
  sv_apex sv = mode_apex (sc_mode config) /\ sv_https_bind sv = mode_https_bind (sc_mode config) /\
  {| sk_tcp := false; sk_addr := sk_addr (sv_endpoint sv); sk_reuse := false |} = sv_endpoint sv /\
  match sc_tcp_fallback_bind config with
  | Some _ => is_Some (sv_tcp_fallback_addr sv) /\ BgFallback Never ∈ bo_tasks w'
  | None => sv_tcp_fallback_addr sv = None
  end.
Proof.
  unfold do_start, Server_start in Hok. apply sm_bind_Ok in Hok as (keys & w1 & _ & Hok).
  apply grows_bind_Ok in Hok as ([] & w2 & T2%background_Ok & _ & Hok); [|within].
  apply grows_bind_Ok in Hok as (peers & w3 & _ & G3 & Hok); [|within].
  apply grows_bind_Ok in Hok as ([] & w4 & _ & G4 & Hok); [|within].
  apply grows_bind_Ok in Hok as ([] & w5 & T5%background_Ok & G5 & Hok); [|within].
  apply grows_bind_Ok in Hok as ([[[tls i] h] hs] & w6 & Hm%start_mode_Ok & G6 & Hok).
  2: { unfold start_mode, start_domain_plane. within. }
  apply grows_bind_Ok in Hok as ([] & w7 & _ & G7 & Hok); [|within].
  apply grows_bind_Ok in Hok as (qa & w8 & _ & G8 & Hok); [|within].
  apply grows_bind_Ok in Hok as ([] & w9 & T9 & G9 & Hok); [|case_match; within].
  apply grows_bind_Ok in Hok as (aa & w10 & _ & G10 & Hok); [|case_match; within].
  apply grows_bind_Ok in Hok as (fa & w11 & Hf & G11 & [= <- <-]); [|case_match; within].
  assert (G96 : grows w6 w11) by by do 5 (etrans; [eassumption|]).
  assert (G92 : grows w5 w11) by by etrans.
  destruct (Mode_tcp_port_pool (sc_mode config)) as [lo hi]. cbn. split_and!; try done.
  - apply inv_initial.
  - by apply (grows_task w5).
  - eapply grows_task; [|exact T2]. by do 3 (etrans; [eassumption|]).
  - by apply (mode_up_grows _ _ _ _ w6).
  - intros apex Ha. rewrite Ha in T9. apply background_Ok in T9.
    eapply grows_task; [|exact T9]. by etrans.
  - destruct (sc_tcp_fallback_bind config); [|by injection Hf].
    apply sm_bind_Ok in Hf as (a & wa & _ & (? & wb & Tb%background_Ok & [= <- <-])%sm_bind_Ok). by split.
Qed.

(** What the operating system is documented to do ([bind(2)], [socket(7)]): an explicit port
    is the port one gets, and an address in use is refused unless both sockets have
    [SO_REUSEPORT]. *)
Class OsBindLaws : Prop := {
  bind_explicit : forall table s a, os_bind table s = Ok a -> sa_port (sk_addr s) <> 0 -> a = sk_addr s;
  bind_in_use : forall table s x, x ∈ table -> sk_tcp x = sk_tcp s -> sk_addr x = sk_addr s ->
    sa_port (sk_addr s) <> 0 -> sk_reuse x && sk_reuse s = false -> exists e, os_bind table s = Err e;
}.

Context `{!OsBindLaws}.

(** A worker whose HTTPS address is taken by a socket without [SO_REUSEPORT] fails, and the
    sockets are as before. *)
Lemma worker_in_use {I} crypto quic_bind https_bind apex (turns : list (QuicTurn I)) ends w :
  sa_port https_bind <> 0 ->
  {| sk_tcp := true; sk_addr := https_bind; sk_reuse := false |} ∈ bo_socks w ->
  exists e w', worker os_bind crypto quic_bind (Some https_bind) (Some apex) turns ends w = (Err e, w') /\
    bo_socks w' = bo_socks w.
Proof.
  intros Hport Hin. unfold worker.
  assert (Hf : forall u w', worker_setup os_bind crypto quic_bind (Some https_bind) (Some apex) w <> (Ok u, w')).
  { intros u w' Hs. apply grows_bind_Ok in Hs as (a & w1 & _ & G1 & Hs); [|within].
    apply grows_bind_Ok in Hs as ([] & w2 & _ & G2 & Hs); [|within].
    apply sm_bind_Ok in Hs as (a' & w3 & [Hb _]%bind_sock_Ok & _).
    destruct (bind_in_use (bo_socks w2) {| sk_tcp := true; sk_addr := https_bind; sk_reuse := true |}
      {| sk_tcp := true; sk_addr := https_bind; sk_reuse := false |}) as [e He]; try done; [|congruence].
    eapply grows_sock; [exact G2|]. by eapply grows_sock. }
  destruct (worker_setup _ _ _ _ _ w) as [[u|e] w'] eqn:E; [by destruct (Hf u w')|]. by exists e, (set_socks (bo_socks w) w').
Qed.

(** C40: On more than one core a domain server serves no QUIC connection.  [start] binds the HTTPS
    address without [SO_REUSEPORT] and its router keeps the listener for the life of the
    process; each worker then fails to bind the same address, before its accept loop, and
    [run_multicore] returns without an error. *)
Theorem multicore_domain_dead {I} (env : BootEnv) (config : ServerConfig) (w w' : BootWorld) (sv : KrotServer)
    (apex : str) (tls : DomainTls) (http_bind https_bind : SocketAddr) (pool : Z * Z) (crypto : option Z)
    (cores : list (list (QuicTurn I) * list (Z * nat)))
    (Hmode : sc_mode config = ModeDomain apex tls http_bind https_bind pool)
    (Hok : Server_start b64_error x509_error spki sha256 not_after single_cert os_bind env config w = (Ok sv, w'))
    (Hcores : cores <> []) (Hquic : sa_port (sc_bind config) <> 0) (Hhttps : sa_port https_bind <> 0) :
  exists results w'', run_multicore os_bind crypto sv cores w' = Some (results, w'') /\
    length results = length cores /\ Forall (fun r => is_ok r = false) results.
Proof.
  pose proof (start_ready env config w w' sv Hok) as Hr. rewrite Hmode in Hr.
  destruct (Mode_tcp_port_pool _) as [lo hi].
  destruct Hr as (Hc & _ & _ & _ & _ & _ & Hup & _ & Hapex & Hbind & Hep & _).
  destruct Hup as (_ & _ & _ & a & table & _ & Hb & Hs).
  assert (a = https_bind) as ->. { by eapply (bind_explicit _ _ _ Hb). }
  unfold run_multicore. rewrite Hc, Hapex, Hbind, bool_decide_false by done. cbn [mode_apex mode_https_bind from_option].
  rewrite !(proj2 (Z.eqb_neq _ _)) by done.
  set (w0 := set_socks _ w'). assert (Hin : {| sk_tcp := true; sk_addr := https_bind; sk_reuse := false |} ∈ bo_socks w0).
  { cbn. apply list_elem_of_filter. split; [|done]. rewrite <-Hep. by intros [=]. }
  clearbody w0. revert w0 Hin. clear Hcores. induction cores as [|[turns ends] cores IH]; intros w0 Hin.
  { by eexists _, _. }
  cbn [run_workers].
  destruct (worker_in_use crypto (sc_bind config) https_bind apex turns ends w0 Hhttps Hin) as (e & w1 & -> & Hw1).
  rewrite <-Hw1 in Hin. destruct (IH w1 Hin) as (rs & w2 & [= ->] & Hl & Hf).
  eexists _, _. split_and!; [done|cbn; by rewrite Hl|by constructor].
Qed.

End BootTheorems.

(** ** The first token *)

(** A token that is handed out is in the store, and enrols until it expires. *)
Lemma token_enrols (blake3 : bytes -> bytes) (base32 : bytes -> str) (now : Z) (raw : bytes)
    (io_mkdir : option Z) (io : WriteIo) (sh sh' : SharedState) token now' rm_ok :
  issue_admin_token_if_needed blake3 base32 now raw io_mkdir io sh = (Ok (Some token), sh') ->
  now' < now + ADMIN_TOKEN_TTL -> (consume blake3 now' rm_ok token (sh_admin sh')).1 = Ok tt.
Proof.
  unfold issue_admin_token_if_needed. case_match; [|done].
  destruct (issue blake3 base32 now raw io_mkdir io (sh_admin sh)) as [[t|e] admin] eqn:Ei; [|done].
  intros [= -> <-] Hnow. cbn.
  unfold issue in Ei. destruct io_mkdir; [done|]. destruct (write_secret io _ _) as [[u|e] f]; [|done].
  injection Ei as <- <-. unfold consume. cbn. rewrite (proj2 (Z.leb_gt _ _)) by lia.
  by rewrite (proj2 (constant_time_eq_true _ _) eq_refl).
Qed.

(** A start issues a token exactly when it was told to or no key can sign in, and the token
    it prints is the one that enrols, once, for the next ten minutes. *)
Theorem first_token (blake3 : bytes -> bytes) (base32 : bytes -> str) (now : Z) (raw : bytes)
    (io_mkdir : option Z) (io : WriteIo) (sh sh' : SharedState) (r : option str)
    (Hi : issue_admin_token_if_needed blake3 base32 now raw io_mkdir io sh = (Ok r, sh')) :
  (is_Some r <-> sc_issue_admin_token (sh_config sh) = true \/ kr_entries (sh_keys sh) = ∅) /\
  forall token now' rm_ok, r = Some token -> now' < now + ADMIN_TOKEN_TTL ->
    (consume blake3 now' rm_ok token (sh_admin sh')).1 = Ok tt.
Proof.
  split; [|intros token now' rm_ok -> Hnow; by eapply token_enrols].
  unfold issue_admin_token_if_needed in Hi.
  destruct (sc_issue_admin_token (sh_config sh) || bool_decide (kr_entries (sh_keys sh) = ∅)) eqn:En.
  - apply orb_true_iff in En. rewrite bool_decide_eq_true in En.
    destruct (issue blake3 base32 now raw io_mkdir io (sh_admin sh)) as [[t|e] admin]; [|done].
    injection Hi as <- <-. by split.
  - apply orb_false_iff in En as [E1 E2]. apply bool_decide_eq_false in E2. injection Hi as <- <-.
    split; [by intros [? ?]|]. rewrite E1. by intros [?|?].
Qed.

(** ** Witnesses *)

#[local] Existing Instance toy_base64.
#[local] Existing Instance toy_hex.

(** An operating system with only the rule about addresses in use. *)
Definition toy_os (table : list Sock) (s : Sock) : Result SocketAddr Z :=
  if sa_port (sk_addr s) =? 0 then Ok {| sa_ip := sa_ip (sk_addr s); sa_port := 50000 + len table |}
  else if existsb (fun x => eqb (sk_tcp x) (sk_tcp s) && bool_decide (sk_addr x = sk_addr s) &&
                            negb (sk_reuse x && sk_reuse s)) table
  then Err 98 else Ok (sk_addr s).

#[local] Instance toy_os_laws : OsBindLaws toy_os.
Proof.
  split; unfold toy_os.
  - intros table s a H Hp. rewrite (proj2 (Z.eqb_neq _ _) Hp) in H. case_match; [done|]. by injection H.
  - intros table s x Hx Ht Ha Hp Hr. rewrite (proj2 (Z.eqb_neq _ _) Hp).
    assert (existsb (fun x => eqb (sk_tcp x) (sk_tcp s) && bool_decide (sk_addr x = sk_addr s) &&
      negb (sk_reuse x && sk_reuse s)) table = true) as ->; [|by eexists].
    apply existsb_exists. exists x. split; [by apply list_elem_of_In|].
    by rewrite Ht, Bool.eqb_reflx, Hr, bool_decide_true.
Qed.

Definition toy_addr (port : Z) : SocketAddr := {| sa_ip := lit "0.0.0.0"; sa_port := port |}.

Definition toy_boot_env : BootEnv :=
  {| be_now := 0; be_unix_secs := 0; be_keys_create := None; be_keys_read := 0; be_keys_exists := false;
     be_keys_file := None; be_peers := PeerMissing; be_token_file := None;
     be_generated := Ok (toy_generated [1; 2] [3]); be_authority := toy_ca [100] [3]; be_quic_crypto := None |}.

Definition toy_config (m : Mode) : ServerConfig :=
  {| sc_bind := toy_addr 7853; sc_data_dir := lit "/d"; sc_authorized_keys_path := lit "/d/k"; sc_mode := m;
     sc_issue_admin_token := false; sc_admin_bind := None; sc_admin_session_ttl := 0;
     sc_peer_list_path := lit "/d/p"; sc_tcp_fallback_bind := Some (toy_addr 7854); sc_bw_partitions := 1;
     sc_resume_grace := None |}.

Definition toy_domain : Mode :=
  ModeDomain (lit "example.com") (Acme (lit "mailto:a") None) (toy_addr 80) (toy_addr 443) (40000, 40001).

Definition toy_boot_world : BootWorld :=
  {| bo_acme := toy_acme_world toy_disk; bo_socks := []; bo_tasks := [] |}.

Abbreviation toy_boot m :=
  (Server_start (fun e => e) (fun e => e) Some toy_sha toy_not_after (fun _ _ => None) toy_os toy_boot_env
     (toy_config m) toy_boot_world).

(** A worker that accepts one connection and is then told to stop. *)
Definition toy_core : list (QuicTurn Z) * list (Z * nat) :=
  ([{| qt_shutdown := []; qt_incoming := Some (Some 5); qt_joined := None |};
    {| qt_shutdown := [{| wt_value := true; wt_open := true |}]; qt_incoming := None; qt_joined := None |}],
   [(1, O)]).

Lemma shutdown_orderly_witness : exists e, run_until toy_core.1 toy_core.2 = Some e /\ le_aborted e = [].
Proof.
  destruct (shutdown_orderly toy_core.1 toy_core.2) as (e & pre & turn & post & He & _).
  - right. left. left. reflexivity.
  - repeat constructor.
  - exists e. split; [exact He|]. vm_compute in He. injection He as <-. reflexivity.
Defined.

Lemma multicore_domain_dead_witness : exists sv w results w'',
  toy_boot toy_domain = (Ok sv, w) /\
  run_multicore toy_os None sv [toy_core; toy_core] w = Some (results, w'') /\
  length results = 2%nat /\ Forall (fun r => is_ok r = false) results.
Proof.
  destruct (toy_boot toy_domain) as [[sv|e] w] eqn:E; [|vm_compute in E; discriminate].
  exists sv, w.
  destruct (multicore_domain_dead (fun e => e) (fun e => e) Some toy_sha toy_not_after (fun _ _ => None) toy_os
    toy_boot_env (toy_config toy_domain) toy_boot_world w sv (lit "example.com") (Acme (lit "mailto:a") None)
    (toy_addr 80) (toy_addr 443) (40000, 40001) None [toy_core; toy_core]) as (rs & w'' & Hr & Hl & Hf).
  - reflexivity.
  - exact E.
  - discriminate.
  - discriminate.
  - discriminate.
  - exists rs, w''. split; [reflexivity|]. split; [exact Hr|]. split; [exact Hl|exact Hf].
Defined.

(** In IpMode the same two workers serve. *)
Example multicore_ip_serves :
  match toy_boot (ModeIp (lit "relay") (40000, 40001)) with
  | (Ok sv, w) =>
    match run_multicore toy_os None sv [toy_core; toy_core] w with
    | Some (rs, _) => map (fun r => match r with Ok (Some e) => length (le_spawned e) | _ => O end) rs = [1; 1]%nat
    | None => False
    end
  | _ => False
  end.
Proof. vm_compute. reflexivity. Qed.

Definition toy_calm_io : WriteIo :=
  {| io_open := None; io_write := None; io_sync := None; io_chmod := None; io_rename := None;
     io_sync_parent := None |}.

Definition toy_first_shared : SharedState :=
  {| sh_keys := {| kr_file := None; kr_entries := ∅ |}; sh_admin := AdminTokenStore_new None;
     sh_config := toy_config toy_domain; sh_rates := ∅; sh_metrics := ServerMetrics_new 0;
     sh_reg := initial 1 2; sh_others := []; sh_closed := [] |}.

Lemma first_token_witness : exists (r : option str) (sh' : SharedState),
  issue_admin_token_if_needed (fun b => b) (fun b => b) 0 [1] None toy_calm_io toy_first_shared = (Ok r, sh') /\ is_Some r.
Proof.
  eexists _, _. split; [reflexivity|].
  apply (first_token (fun b => b) (fun b => b) 0 [1] None toy_calm_io toy_first_shared _ _ eq_refl).
  right. reflexivity.
Defined.
