(* ===== verification/ServerMain.v ===== *)
(** * ServerMain: the server's command line, put together

    [main] of [krot-server/src/main.rs] after the arguments are parsed: the configuration
    ([Config]), the start ([Boot]), the first admin token, the lines a deployment script
    reads, and one accept loop or one per core.  What the process meets (the files, the
    certificate authority, the operating system, the connections) is its input; log
    output is left out. *)

From S2P Require Import Prelude RustStr Wire Framing Types Registry Rate Keys Admin Handshake Peers Metrics Config Http LoginPage LocalAuth ClientConfig Certs Session Server Sni Router Acme Accept Boot.
From S2P Require Import ClientSession.

Local Open Scope Z_scope.

Inductive MainError := ME_Args (msg : str) | ME_Server (e : ServerError) | ME_Io (e : Z).

(** How the process ends: the single loop ([None] while it runs), a failed assertion, or what
    the workers returned. *)
Inductive MainEnd (I : Type) :=
| EndSingle (e : option (LoopEnd I))
| EndPanic
| EndMulti (results : list (Result (option (LoopEnd I)) ServerError)).
Arguments EndSingle {I} e.
Arguments EndPanic {I}.
Arguments EndMulti {I} results.

(** What the process meets: the answers of the system ([mi_runtime], [mi_addr_fault]: the error
    of building the runtime and of asking the bound address), the draw, the clock and the file
    calls of the first token, and the connections of each core. *)
Record MainIo (I : Type) := {
  mi_parallelism : option Z;
  mi_runtime : option Z;
  mi_addr_fault : option Z;
  mi_boot : BootEnv;
  mi_token_raw : bytes;
  mi_token_mkdir : option Z;
  mi_token_io : WriteIo;
  mi_core : nat -> list (QuicTurn I) * list (Z * nat);
}.
Arguments mi_parallelism {I}.
Arguments mi_runtime {I}.
Arguments mi_addr_fault {I}.
Arguments mi_boot {I}.
Arguments mi_token_raw {I}.
Arguments mi_token_mkdir {I}.
Arguments mi_token_io {I}.
Arguments mi_core {I}.

Definition fingerprint_hex (sv : KrotServer) : option str := si_spki_sha256 <$> sv_identity sv.
Definition endpoint_addr (sv : KrotServer) : SocketAddr := sk_addr (sv_endpoint sv).
Definition local_addr (fault : option Z) (sv : KrotServer) : Result SocketAddr Z :=
  match fault with Some e => Err e | None => Ok (endpoint_addr sv) end.
Definition addr_fmt (a : SocketAddr) : str := sa_ip a ++ lit ":" ++ fmt_dec (sa_port a).

Definition ADMIN_TOKEN_LINE : str := lit "KROT_ADMIN_TOKEN=".
Definition FINGERPRINT_LINE : str := lit "KROT_SERVER_FINGERPRINT=".
Definition QUIC_LINE : str := lit "KROT_QUIC_BIND=".
Definition HTTP_LINE : str := lit "KROT_HTTP_BIND=".
Definition HTTPS_LINE : str := lit "KROT_HTTPS_BIND=".

(** A line when there is a value. *)
Definition line {A} (prefix : str) (fmt : A -> str) (o : option A) : list str :=
  match o with Some a => [prefix ++ fmt a] | None => [] end.

(** The lines, up to the call that fails. *)
Definition banner (fault : option Z) (token : option str) (sv : KrotServer) : list str * option Z :=
  let head := line ADMIN_TOKEN_LINE id token
              ++ line FINGERPRINT_LINE (fun fp => SHA256_PREFIX ++ fp) (fingerprint_hex sv) in
  match local_addr fault sv with
  | Err e => (head, Some e)
  | Ok a => (head ++ [QUIC_LINE ++ addr_fmt a]
             ++ line HTTP_LINE addr_fmt (sv_http_addr sv) ++ line HTTPS_LINE addr_fmt (sv_https_addr sv), None)
  end.

(** [Server::run]: the watch of the loop never changes. *)
Definition Server_run {I} (turns : list (QuicTurn I)) (ends : list (Z * nat)) : option (LoopEnd I) :=
  run_until (map (fun t => {| qt_shutdown := [{| wt_value := false; wt_open := true |}];
                              qt_incoming := qt_incoming t; qt_joined := qt_joined t |}) turns) ends.

Definition set_shared (sh : SharedState) (sv : KrotServer) : KrotServer :=
  {| sv_endpoint := sv_endpoint sv; sv_shared := sh; sv_tls := sv_tls sv; sv_apex := sv_apex sv;
     sv_https_bind := sv_https_bind sv; sv_peers := sv_peers sv; sv_identity := sv_identity sv;
     sv_http_addr := sv_http_addr sv; sv_https_addr := sv_https_addr sv;
     sv_admin_api_addr := sv_admin_api_addr sv; sv_tcp_fallback_addr := sv_tcp_fallback_addr sv |}.

Section Main.
Context `{Base64} `{Hex}.
Context (b64_error : str -> str) (x509_error : bytes -> str).
Context (spki : bytes -> option bytes) (sha256 : bytes -> bytes) (not_after : bytes -> option Z).
Context (single_cert : list bytes -> bytes -> option Z).
Context (os_bind : list Sock -> Sock -> Result SocketAddr Z).
Context (blake3 : bytes -> bytes) (base32 : bytes -> str).

(** The lines printed, the running server, and how the process ends. *)
Definition main {I} (io : MainIo I) (args : Args) (w : BootWorld) :
    list str * Result (KrotServer * MainEnd I) MainError * BootWorld :=
  match build_config (mi_parallelism io) args with
  | Err msg => ([], Err (ME_Args msg), w)
  | Ok (config, cores) =>
    match mi_runtime io with
    | Some e => ([], Err (ME_Io e), w)
    | None =>
      match Server_start b64_error x509_error spki sha256 not_after single_cert os_bind (mi_boot io) config w with
      | (Err e, w) => ([], Err (ME_Server e), w)
      | (Ok sv, w) =>
        match issue_admin_token_if_needed blake3 base32 (be_now (mi_boot io)) (mi_token_raw io)
                (mi_token_mkdir io) (mi_token_io io) (sv_shared sv) with
        | (Err e, _) => ([], Err (ME_Server e), w)
        | (Ok token, sh) =>
          let sv := set_shared sh sv in
          match banner (mi_addr_fault io) token sv with
          | (lines, Some e) => (lines, Err (ME_Io e), w)
          | (lines, None) =>
            if cores <=? 1 then
              (lines, Ok (sv, EndSingle (run_until (mi_core io 0).1 (mi_core io 0).2)), w)
            else
              match run_multicore os_bind (be_quic_crypto (mi_boot io)) sv
                      (map (mi_core io) (seq 0 (Z.to_nat cores))) w with
              | None => (lines, Ok (sv, EndPanic), w)
              | Some (rs, w) => (lines, Ok (sv, EndMulti rs), w)
              end
          end
        end
      end
    end
  end.
End Main.

#[local] Arguments lit : simpl never.

(** ** What a deployment reads off the first lines *)

Section MainTheorems.
Context `{Base64} `{!Base64Laws} `{Hex} `{!HexLaws}.
Context (b64_error : str -> str) (x509_error : bytes -> str).
Context (spki : bytes -> option bytes) (sha256 : bytes -> bytes) (not_after : bytes -> option Z).
Context (single_cert : list bytes -> bytes -> option Z).
Context (os_bind : list Sock -> Sock -> Result SocketAddr Z).
Context (blake3 : bytes -> bytes) (base32 : bytes -> str).

Let run {I} := main (I := I) b64_error x509_error spki sha256 not_after single_cert os_bind blake3 base32.

(** The TLS configuration and the identity of a started server are those of its mode. *)
Lemma start_took_mode env config w sv w' :
  Server_start b64_error x509_error spki sha256 not_after single_cert os_bind env config w = (Ok sv, w') ->
  sh_config (sv_shared sv) = config /\
  exists wa wb h hs, start_mode b64_error x509_error spki sha256 not_after single_cert os_bind env config wa =
    (Ok (sv_tls sv, sv_identity sv, h, hs), wb).
Proof.
  unfold Server_start. intros Hok. do 5 apply sm_bind_Ok in Hok as (? & ? & _ & Hok).
  apply sm_bind_Ok in Hok as ([[[tls i] h] hs] & wb & Hm & Hok).
  do 5 apply sm_bind_Ok in Hok as (? & ? & _ & Hok). injection Hok as <- <-. cbn. split; [done|].
  by eexists _, wb, h, hs.
Qed.

(** In IpMode the server presents its own certificate, and its fingerprint is the one kept. *)
Lemma start_presents env config host pool w sv w' :
  sc_mode config = ModeIp host pool -> generated_ok (be_generated env) ->
  Server_start b64_error x509_error spki sha256 not_after single_cert os_bind env config w = (Ok sv, w') ->
  exists i, sv_identity sv = Some i /\ tc_chain (sv_tls sv) = [si_cert_der i] /\
    compute_spki_fingerprint x509_error spki sha256 (si_cert_der i) = Ok (si_spki_sha256 i).
Proof.
  intros Hm Hg (_ & wa & wb & h & hs & Hs)%start_took_mode. unfold start_mode in Hs. rewrite Hm in Hs.
  apply sm_bind_Ok in Hs as (i & w1 & Hi & Hs). apply sm_bind_Ok in Hs as (t & w2 & Ht & [= Et Ei _ _ _]).
  exists i. split_and!; [congruence| |].
  - unfold boot_lift, into_rustls, with_single_cert in Ht. injection Ht as Ht _. rewrite <-Et.
    by destruct (single_cert _ _); [done|]; injection Ht as <-.
  - unfold boot_acme, on_disk in Hi. destruct (load_or_create _ _ _ _ _ _ _) as [r d'] eqn:El.
    injection Hi as -> _. eapply run_settles in El as (c & k & _ & _ & _ & _ & Hf); [exact Hf|exact Hg].
Qed.

(** The pin a client makes of a fingerprint given on its command line. *)
Definition enroll_with (fp : str) (opts : EnrollOptions) : EnrollOptions :=
  {| eo_server_host := eo_server_host opts; eo_server_quic_port := eo_server_quic_port opts;
     eo_sni := eo_sni opts; eo_admin_token := eo_admin_token opts; eo_label_hint := eo_label_hint opts;
     eo_pinned_fingerprint := Some fp |}.

Lemma pin_of_fingerprint i opts :
  compute_spki_fingerprint x509_error spki sha256 (si_cert_der i) = Ok (si_spki_sha256 i) ->
  (forall key, Forall is_byte (sha256 key) /\ length (sha256 key) = 32%nat) ->
  exists raw, build_enroll_tls (enroll_with (SHA256_PREFIX ++ si_spki_sha256 i) opts) = Ok (Some raw) /\
    pin_accepts spki sha256 raw (si_cert_der i) = true.
Proof.
  intros Hf Hsha. destruct (printed_pin_accepts x509_error spki sha256 i toy_pin Hf Hsha) as (raw & Hb & Hp).
  exists raw. split; [|done]. unfold build_client_tls, fingerprint_bytes, printed_pin in Hb. cbn [sp_fingerprint] in Hb.
  unfold build_enroll_tls, enroll_with. cbn [eo_pinned_fingerprint].
  destruct (parse_fingerprint _) as [raw'|e]; [|done]. simpl in *. by injection Hb as ->.
Qed.

(** C26: The lines a server prints are what its clients need.  In IpMode, whatever was on disk
    before, a server that comes up prints exactly one fingerprint; [krot init --fingerprint]
    accepts that text as it is, and with it the client accepts the certificate the server
    presents; and if a token is printed, it enrols within its ten minutes. *)
Theorem banner_serves_clients {I} (io : MainIo I) (args : Args) (w w' : BootWorld) (lines : list str)
    (sv : KrotServer) (e : MainEnd I) (opts : EnrollOptions)
    (Hmode : a_domain args = None) (Hgen : generated_ok (be_generated (mi_boot io)))
    (Hsha : forall key, Forall is_byte (sha256 key) /\ length (sha256 key) = 32%nat)
    (Hrun : run io args w = (lines, Ok (sv, e), w')) :
  exists fp token cert raw,
    lines = line ADMIN_TOKEN_LINE id token
            ++ [FINGERPRINT_LINE ++ fp; QUIC_LINE ++ addr_fmt (endpoint_addr sv)]
            ++ line HTTP_LINE addr_fmt (sv_http_addr sv) ++ line HTTPS_LINE addr_fmt (sv_https_addr sv) /\
    tc_chain (sv_tls sv) = [cert] /\
    build_enroll_tls (enroll_with fp opts) = Ok (Some raw) /\ pin_accepts spki sha256 raw cert = true /\
    forall t now rm_ok, token = Some t -> now < be_now (mi_boot io) + ADMIN_TOKEN_TTL ->
      (consume blake3 now rm_ok t (sh_admin (sv_shared sv))).1 = Ok tt.
Proof.
  unfold run, main in Hrun. destruct (build_config _ _) as [[config cores]|msg] eqn:Ec; [|done].
  assert (exists host pool, sc_mode config = ModeIp host pool) as (host & pool & Hm).
  { unfold build_config in Ec. rewrite Hmode in Ec. simpl in Ec. injection Ec as <- _. by eexists _, _. }
  destruct (mi_runtime io); [done|].
  destruct (Server_start _ _ _ _ _ _ _ _ _ _) as [[sv0|e0] w1] eqn:Es; [|done].
  destruct (start_presents _ _ _ _ _ _ _ Hm Hgen Es) as (i & Hi & Ht & Hf).
  destruct (issue_admin_token_if_needed _ _ _ _ _ _ _) as [[token|e1] sh] eqn:Ei; [|done].
  destruct (banner _ _ _) as [ls [f|]] eqn:Eb; [done|].
  assert (lines = ls /\ sv = set_shared sh sv0) as [-> ->].
  { destruct (cores <=? 1); [by injection Hrun as <- <- _ _|].
    destruct (run_multicore _ _ _ _ _) as [[rs w2]|]; by injection Hrun as <- <- _ _. }
  destruct (pin_of_fingerprint i opts) as (raw & Hb & Hp); [done..|].
  exists (SHA256_PREFIX ++ si_spki_sha256 i), token, (si_cert_der i), raw. split_and!; try done.
  - unfold banner, fingerprint_hex, local_addr in Eb. destruct (mi_addr_fault io); [done|]. cbn in Eb. rewrite Hi in Eb.
    injection Eb as <-. cbn. by rewrite <-app_assoc.
  - intros t now rm_ok -> Hnow. by eapply token_enrols.
Qed.
End MainTheorems.

(** ** A run at a concrete input *)

#[local] Existing Instances toy_base64 toy_base64_laws toy_hex toy_hex_laws.

Definition toy_args : Args :=
  {| a_domain := None; a_public_host := Some (lit "relay"); a_public_quic := None; a_bind := toy_addr 7853;
     a_data_dir := lit "/d"; a_authorized_keys := lit "/d/k"; a_peer_list := lit "/d/p";
     a_tcp_fallback_bind := None; a_tcp_port_pool := {| prg_lo := 40000; prg_hi := 40001 |};
     a_issue_admin_token := false; a_admin_bind := None; a_cores := 1; a_resume_grace_secs := 30;
     a_tls_cert := None; a_tls_key := None; a_acme_contact := None; a_acme_directory := None;
     a_acme_production := false; a_http_bind := toy_addr 80; a_https_bind := toy_addr 443 |}.

Definition toy_main_io : MainIo Z :=
  {| mi_parallelism := None; mi_runtime := None; mi_addr_fault := None; mi_boot := toy_boot_env; mi_token_raw := [1]; mi_token_mkdir := None;
     mi_token_io := toy_calm_io; mi_core _ := toy_core |}.

Definition toy_server_run : list str * Result (KrotServer * MainEnd Z) MainError * BootWorld :=
  main (fun e => e) (fun e => e) Some toy_sha toy_not_after (fun _ _ => None) toy_os (fun b => b) (fun b => b)
    toy_main_io toy_args toy_boot_world.

(** The token, the fingerprint, and more lines. *)
Lemma banner_serves_clients_witness : exists fp token cert raw more,
  toy_server_run.1.1 = line ADMIN_TOKEN_LINE id token ++ (FINGERPRINT_LINE ++ fp) :: more /\
  build_enroll_tls (enroll_with fp toy_enroll) = Ok (Some raw) /\ pin_accepts Some toy_sha raw cert = true.
Proof.
  destruct toy_server_run as [[lines [[sv e]|err]] w'] eqn:E.
  2:{ apply (f_equal (fun x => is_ok x.1.2)) in E. vm_compute in E. discriminate. }
  destruct (banner_serves_clients (fun e => e) (fun e => e) Some toy_sha toy_not_after (fun _ _ => None) toy_os
    (fun b => b) (fun b => b) toy_main_io toy_args toy_boot_world w' lines sv e toy_enroll)
    as (fp & token & cert & raw & Hl & _ & Hb & Hp & _).
  - reflexivity.
  - exists [10], (toy_block CERTIFICATE [1; 2]), (toy_block PRIVATE_KEY [3]).
    split; [left; reflexivity|].
    split; [|split; [|repeat split; reflexivity]];
      (split; [reflexivity|split; [solve_bytes|split; repeat constructor; done]]).
  - intros key. split; [|apply repeat_length]. apply List.Forall_forall. intros b Hb.
    apply repeat_spec in Hb as ->. unfold is_byte, in_u. apply Z.mod_pos_bound. lia.
  - exact E.
  - exists fp, token, cert, raw. eexists. split; [exact Hl|]. by split.
Defined.
