(* ===== verification/TcpMux.v ===== *)
(** * TcpMux: streams multiplexed over one byte pipe

    [krot-transport/src/tcp_mux.rs] and the receive half of [conn.rs] on top of it.  A
    connection owns a queue of outgoing frames that the writer task serialises, and a table
    from stream ids to the senders of bounded channels that the reader task fills; a send
    half turns writes into OPEN, DATA and FIN frames, a receive half drains its channel.

    The tasks are machines that advance from one await point to the next: [None] is a
    pending future.  A channel is a slot of [mx_chans]; a sender is alive while the table
    [mx_streams] names the slot or the reader holds a clone of it in [RdSend].

    The end of the file joins two connections by two pipes: [duplex_step] is any move of
    either application or of any of the four tasks, and [MuxLink] proves what a stream
    delivers under every interleaving of them. *)

From S2P Require Import Prelude Wire Framing.

Local Open Scope Z_scope.

(** ** Data *)

Definition STREAM_INBOUND_CAPACITY : nat := 64.
Definition MAX_MUX_PAYLOAD : Z := 256 * 1024.

Inductive OutFrame :=
| OutFrame_Frame (header : MuxHeader) (payload : bytes)
| OutFrame_Close.

(** The receive end of a channel, by the slot it drains. *)
Definition ChanId : Type := nat.
Record Chan := { ch_queue : list bytes; ch_rx_alive : bool }.

Record AcceptedStream := { as_stream_id : Z; as_open_payload : bytes; as_data_rx : ChanId }.

(** Where the reader task awaits: a header, the payload of a header, or room in a channel. *)
Inductive ReaderState :=
| RdHeader
| RdPayload (header : MuxHeader)
| RdSend (tx : ChanId) (buf : bytes)
| RdDone.

Record Inner := {
  mx_is_server : bool;
  mx_out : list OutFrame;
  mx_writer_alive : bool;
  mx_streams : gmap Z ChanId;
  mx_accept : list AcceptedStream;
  mx_next_stream_id : Z;
  mx_closed : bool;
  mx_control_slot : option ChanId;
  mx_chans : gmap ChanId Chan;
  mx_next_chan : ChanId;
  mx_reader : ReaderState;
}.

Record TcpMuxSendStream := {
  ss_stream_id : Z;
  ss_pending_open : option bytes;
  ss_finished : bool;
}.

Record TcpMuxRecvStream := {
  rv_stream_id : Z;
  rv_data_rx : ChanId;
  rv_leftover : bytes;
  rv_eof : bool;
}.

(** ** Field updates *)

Definition with_out (out : list OutFrame) (m : Inner) : Inner :=
  {| mx_is_server := mx_is_server m; mx_out := out; mx_writer_alive := mx_writer_alive m;
     mx_streams := mx_streams m; mx_accept := mx_accept m;
     mx_next_stream_id := mx_next_stream_id m; mx_closed := mx_closed m;
     mx_control_slot := mx_control_slot m; mx_chans := mx_chans m;
     mx_next_chan := mx_next_chan m; mx_reader := mx_reader m |}.

Definition with_writer (alive : bool) (m : Inner) : Inner :=
  {| mx_is_server := mx_is_server m; mx_out := mx_out m; mx_writer_alive := alive;
     mx_streams := mx_streams m; mx_accept := mx_accept m;
     mx_next_stream_id := mx_next_stream_id m; mx_closed := mx_closed m;
     mx_control_slot := mx_control_slot m; mx_chans := mx_chans m;
     mx_next_chan := mx_next_chan m; mx_reader := mx_reader m |}.

Definition with_streams (streams : gmap Z ChanId) (m : Inner) : Inner :=
  {| mx_is_server := mx_is_server m; mx_out := mx_out m; mx_writer_alive := mx_writer_alive m;
     mx_streams := streams; mx_accept := mx_accept m;
     mx_next_stream_id := mx_next_stream_id m; mx_closed := mx_closed m;
     mx_control_slot := mx_control_slot m; mx_chans := mx_chans m;
     mx_next_chan := mx_next_chan m; mx_reader := mx_reader m |}.

Definition with_accept (accept : list AcceptedStream) (m : Inner) : Inner :=
  {| mx_is_server := mx_is_server m; mx_out := mx_out m; mx_writer_alive := mx_writer_alive m;
     mx_streams := mx_streams m; mx_accept := accept;
     mx_next_stream_id := mx_next_stream_id m; mx_closed := mx_closed m;
     mx_control_slot := mx_control_slot m; mx_chans := mx_chans m;
     mx_next_chan := mx_next_chan m; mx_reader := mx_reader m |}.

Definition with_next (next : Z) (m : Inner) : Inner :=
  {| mx_is_server := mx_is_server m; mx_out := mx_out m; mx_writer_alive := mx_writer_alive m;
     mx_streams := mx_streams m; mx_accept := mx_accept m;
     mx_next_stream_id := next; mx_closed := mx_closed m;
     mx_control_slot := mx_control_slot m; mx_chans := mx_chans m;
     mx_next_chan := mx_next_chan m; mx_reader := mx_reader m |}.

Definition with_closed (m : Inner) : Inner :=
  {| mx_is_server := mx_is_server m; mx_out := mx_out m; mx_writer_alive := mx_writer_alive m;
     mx_streams := mx_streams m; mx_accept := mx_accept m;
     mx_next_stream_id := mx_next_stream_id m; mx_closed := true;
     mx_control_slot := mx_control_slot m; mx_chans := mx_chans m;
     mx_next_chan := mx_next_chan m; mx_reader := mx_reader m |}.

Definition with_slot (slot : option ChanId) (m : Inner) : Inner :=
  {| mx_is_server := mx_is_server m; mx_out := mx_out m; mx_writer_alive := mx_writer_alive m;
     mx_streams := mx_streams m; mx_accept := mx_accept m;
     mx_next_stream_id := mx_next_stream_id m; mx_closed := mx_closed m;
     mx_control_slot := slot; mx_chans := mx_chans m;
     mx_next_chan := mx_next_chan m; mx_reader := mx_reader m |}.

Definition with_chans (chans : gmap ChanId Chan) (next : ChanId) (m : Inner) : Inner :=
  {| mx_is_server := mx_is_server m; mx_out := mx_out m; mx_writer_alive := mx_writer_alive m;
     mx_streams := mx_streams m; mx_accept := mx_accept m;
     mx_next_stream_id := mx_next_stream_id m; mx_closed := mx_closed m;
     mx_control_slot := mx_control_slot m; mx_chans := chans;
     mx_next_chan := next; mx_reader := mx_reader m |}.

Definition with_reader (rd : ReaderState) (m : Inner) : Inner :=
  {| mx_is_server := mx_is_server m; mx_out := mx_out m; mx_writer_alive := mx_writer_alive m;
     mx_streams := mx_streams m; mx_accept := mx_accept m;
     mx_next_stream_id := mx_next_stream_id m; mx_closed := mx_closed m;
     mx_control_slot := mx_control_slot m; mx_chans := mx_chans m;
     mx_next_chan := mx_next_chan m; mx_reader := rd |}.

(** ** Channels *)

Definition empty_chan : Chan := {| ch_queue := []; ch_rx_alive := true |}.

(** [mpsc::channel(STREAM_INBOUND_CAPACITY)], its sender stored under [stream_id]. *)
Definition new_channel (stream_id : Z) (m : Inner) : ChanId * Inner :=
  let ch := mx_next_chan m in
  (ch, with_streams (<[stream_id := ch]> (mx_streams m))
         (with_chans (<[ch := empty_chan]> (mx_chans m)) (S ch) m)).

Definition chan_of (m : Inner) (ch : ChanId) : Chan :=
  default {| ch_queue := []; ch_rx_alive := false |} (mx_chans m !! ch).

(** A sender of the channel is alive: the table holds one, or the reader a clone. *)
Definition sender_alive (m : Inner) (ch : ChanId) : bool :=
  bool_decide (map_Exists (fun _ c => c = ch) (mx_streams m)) ||
  match mx_reader m with RdSend tx _ => bool_decide (tx = ch) | _ => false end.

(** [poll_recv]: a queued chunk, the end once no sender is left, or pending. *)
Definition poll_recv (ch : ChanId) (m : Inner) : option (option bytes * Inner) :=
  match ch_queue (chan_of m ch) with
  | chunk :: q =>
    Some (Some chunk, with_chans (<[ch := {| ch_queue := q; ch_rx_alive := ch_rx_alive (chan_of m ch) |}]>
                                    (mx_chans m)) (mx_next_chan m) m)
  | [] => if sender_alive m ch then None else Some (None, m)
  end.

(** [writer_tx.send]: fails once the writer task is gone. *)
Definition send_out (f : OutFrame) (m : Inner) : bool * Inner :=
  if mx_writer_alive m then (true, with_out (mx_out m ++ [f]) m) else (false, m).

(** ** The connection *)

Definition mux_new (is_server : bool) : Inner :=
  {| mx_is_server := is_server; mx_out := []; mx_writer_alive := true;
     mx_streams := {[CONTROL_STREAM_ID := 0%nat]};
     mx_accept := if is_server
                  then [{| as_stream_id := CONTROL_STREAM_ID; as_open_payload := replicate 9 0;
                           as_data_rx := 0%nat |}]
                  else [];
     mx_next_stream_id := if is_server then 1 else 2;
     mx_closed := false;
     mx_control_slot := if is_server then None else Some 0%nat;
     mx_chans := {[0%nat := empty_chan]}; mx_next_chan := 1%nat; mx_reader := RdHeader |}.

(** [fetch_add(2)] on an [AtomicU32]. *)
Definition mint_stream_id (m : Inner) : Z * Inner :=
  (mx_next_stream_id m, with_next (wrap 32 (mx_next_stream_id m + 2)) m).

Definition open_frame (id : Z) (payload : bytes) : OutFrame :=
  OutFrame_Frame {| mh_flag := Open; mh_stream_id := id; mh_payload_len := 9 |} payload.

Definition send_half (id : Z) (pending : option bytes) : TcpMuxSendStream :=
  {| ss_stream_id := id; ss_pending_open := pending; ss_finished := false |}.
Definition recv_half (id : Z) (rx : ChanId) (leftover : bytes) : TcpMuxRecvStream :=
  {| rv_stream_id := id; rv_data_rx := rx; rv_leftover := leftover; rv_eof := false |}.

Definition Halves : Type := TcpMuxSendStream * TcpMuxRecvStream.
Abbreviation MuxError := (TransportError Z Z).

(** A receiver goes out of scope: what is queued is gone, and later sends fail. *)
Definition drop_rx (ch : ChanId) (m : Inner) : Inner :=
  with_chans (<[ch := {| ch_queue := []; ch_rx_alive := false |}]> (mx_chans m)) (mx_next_chan m) m.

(** When the OPEN cannot be queued the receiver is dropped; its sender stays in the table. *)
Definition open_data_stream (header : bytes) (m : Inner) : Result Halves MuxError * Inner :=
  if mx_closed m then (Err TE_UnexpectedEof, m)
  else
    let '(id, m) := mint_stream_id m in
    let '(rx, m) := new_channel id m in
    let '(sent, m) := send_out (open_frame id header) m in
    if sent then (Ok (send_half id None, recv_half id rx []), m)
    else (Err TE_UnexpectedEof, drop_rx rx m).

(** The accept queue's sender lives in the connection itself, so the wait for an entry
    never ends with [None]. *)
Definition accept_data_stream (m : Inner) : option (bytes * Halves * Inner) :=
  match mx_accept m with
  | [] => None
  | a :: rest =>
    Some (as_open_payload a,
          (send_half (as_stream_id a) None, recv_half (as_stream_id a) (as_data_rx a) []),
          with_accept rest m)
  end.

Definition open_bi (m : Inner) : Result Halves MuxError * Inner :=
  if mx_closed m then (Err TE_UnexpectedEof, m)
  else
    match (if mx_is_server m then None else mx_control_slot m) with
    | Some rx =>
      (Ok (send_half CONTROL_STREAM_ID None, recv_half CONTROL_STREAM_ID rx []),
       with_slot None m)
    | None =>
      let '(id, m) := mint_stream_id m in
      let '(rx, m) := new_channel id m in
      (Ok (send_half id (Some []), recv_half id rx []), m)
    end.

Definition accept_bi (m : Inner) : option (Halves * Inner) :=
  match mx_accept m with
  | [] => None
  | a :: rest =>
    let leftover := if as_stream_id a =? CONTROL_STREAM_ID then [] else as_open_payload a in
    Some ((send_half (as_stream_id a) None, recv_half (as_stream_id a) (as_data_rx a) leftover),
          with_accept rest m)
  end.

Definition close (m : Inner) : Inner :=
  if mx_closed m then m else (send_out OutFrame_Close (with_closed m)).2.

(** ** The tasks *)

(** The read half of the pipe: bytes that have arrived, and whether it ended or failed. *)
Record Pipe := { pi_bytes : bytes; pi_ended : bool }.

(** [read_exact]: waits for [n] bytes, fails at the end of the pipe. *)
Definition pipe_read_exact (n : nat) (p : Pipe) : option (option bytes * Pipe) :=
  if bool_decide (n <= length (pi_bytes p))%nat
  then Some (Some (take n (pi_bytes p)),
             {| pi_bytes := drop n (pi_bytes p); pi_ended := pi_ended p |})
  else if pi_ended p then Some (None, {| pi_bytes := []; pi_ended := true |})
  else None.

(** After the loop of [reader_task]. *)
Definition reader_exit (m : Inner) : Inner := with_reader RdDone (with_closed m).

(** What the reader does with a complete frame. *)
Definition dispatch_frame (header : MuxHeader) (payload : bytes) (m : Inner) : Inner :=
  match mh_flag header with
  | Open =>
    if mh_stream_id header =? CONTROL_STREAM_ID then reader_exit m
    else
      let '(rx, m) := new_channel (mh_stream_id header) m in
      with_reader RdHeader
        (with_accept (mx_accept m ++ [{| as_stream_id := mh_stream_id header;
                                         as_open_payload := payload; as_data_rx := rx |}]) m)
  | Data =>
    match mx_streams m !! mh_stream_id header with
    | Some tx => with_reader (RdSend tx payload) m
    | None => with_reader RdHeader m
    end
  | Fin => with_reader RdHeader (with_streams (delete (mh_stream_id header) (mx_streams m)) m)
  end.

(** One step of [reader_task], from an await point to the next. *)
Definition reader_step (p : Pipe) (m : Inner) : option (Pipe * Inner) :=
  match mx_reader m with
  | RdHeader =>
    match pipe_read_exact MUX_HEADER_SIZE p with
    | None => None
    | Some (None, p) => Some (p, reader_exit m)
    | Some (Some header_buf, p) =>
      match MuxHeader_decode header_buf with
      | Err _ => Some (p, reader_exit m)
      | Ok header =>
        match mh_flag header with
        | Open => Some (p, with_reader (RdPayload header) m)
        | Data =>
          if MAX_MUX_PAYLOAD <? mh_payload_len header then Some (p, reader_exit m)
          else Some (p, with_reader (RdPayload header) m)
        | Fin => Some (p, dispatch_frame header [] m)
        end
      end
    end
  | RdPayload header =>
    let n := match mh_flag header with Open => 9%nat | _ => Z.to_nat (mh_payload_len header) end in
    match pipe_read_exact n p with
    | None => None
    | Some (None, p) => Some (p, reader_exit m)
    | Some (Some payload, p) => Some (p, dispatch_frame header payload m)
    end
  | RdSend tx buf =>
    let c := chan_of m tx in
    if negb (ch_rx_alive c) then Some (p, with_reader RdHeader m)
    else if bool_decide (length (ch_queue c) < STREAM_INBOUND_CAPACITY)%nat then
      Some (p, with_reader RdHeader
                 (with_chans (<[tx := {| ch_queue := ch_queue c ++ [buf]; ch_rx_alive := true |}]>
                                (mx_chans m)) (mx_next_chan m) m))
    else None
  | RdDone => None
  end.

Definition frame_bytes (header : MuxHeader) (payload : bytes) : bytes :=
  MuxHeader_to_bytes header ++ payload.

Definition pipe_push (bs : bytes) (p : Pipe) : Pipe :=
  {| pi_bytes := pi_bytes p ++ bs; pi_ended := pi_ended p |}.
Definition pipe_end (p : Pipe) : Pipe := {| pi_bytes := pi_bytes p; pi_ended := true |}.

(** One step of [writer_task] on the head of its queue.  [fault] is [None] when the write
    succeeds; otherwise it fails with that many bytes of the frame on the wire. *)
Definition writer_step (fault : option nat) (p : Pipe) (m : Inner) : option (Pipe * Inner) :=
  if negb (mx_writer_alive m) then None
  else
    match mx_out m with
    | [] => None
    | OutFrame_Close :: out => Some (pipe_end p, with_writer false (with_out out m))
    | OutFrame_Frame header payload :: out =>
      match fault with
      | None => Some (pipe_push (frame_bytes header payload) p, with_out out m)
      | Some k => Some (pipe_end (pipe_push (take k (frame_bytes header payload)) p),
                        with_writer false (with_out out m))
      end
    end.

(** ** The send half *)

Definition fin_frame (id : Z) : OutFrame :=
  OutFrame_Frame {| mh_flag := Fin; mh_stream_id := id; mh_payload_len := 0 |} [].
Definition data_frame (id : Z) (payload : bytes) : OutFrame :=
  OutFrame_Frame {| mh_flag := Data; mh_stream_id := id;
                    mh_payload_len := wrap 32 (len payload) |} payload.

(** [buf.resize(9, 0)]. *)
Definition pad9 (buf : bytes) : bytes := take 9 (buf ++ replicate 9 0).

Definition finish (s : TcpMuxSendStream) (m : Inner) :
    Result unit MuxError * TcpMuxSendStream * Inner :=
  if ss_finished s then (Ok tt, s, m)
  else
    let m := match ss_pending_open s with
             | Some buf => (send_out (open_frame (ss_stream_id s) (pad9 buf)) m).2
             | None => m
             end in
    let s := {| ss_stream_id := ss_stream_id s; ss_pending_open := None; ss_finished := true |} in
    let '(sent, m) := send_out (fin_frame (ss_stream_id s)) m in
    (if sent then Ok tt else Err TE_UnexpectedEof, s, m).

Inductive WriteError := MuxStreamClosed | MuxWriterGone.

(** The rest of a write as a single DATA frame. *)
Definition write_rest (s : TcpMuxSendStream) (buf : bytes) (cursor : nat) (m : Inner) :
    Result nat WriteError * TcpMuxSendStream * Inner :=
  let rest := drop cursor buf in
  match rest with
  | [] => (Ok cursor, s, m)
  | _ =>
    let '(sent, m) := send_out (data_frame (ss_stream_id s) rest) m in
    if sent then (Ok (cursor + length rest)%nat, s, m) else (Err MuxWriterGone, s, m)
  end.

Definition poll_write (buf : bytes) (s : TcpMuxSendStream) (m : Inner) :
    Result nat WriteError * TcpMuxSendStream * Inner :=
  if ss_finished s || mx_closed m then (Err MuxStreamClosed, s, m)
  else
    match ss_pending_open s with
    | None => write_rest s buf 0 m
    | Some pending =>
      let take_ := Nat.min (9 - length pending) (length buf) in
      let pending := pending ++ take take_ buf in
      if bool_decide (length pending = 9%nat) then
        let s := {| ss_stream_id := ss_stream_id s; ss_pending_open := None;
                    ss_finished := ss_finished s |} in
        let '(sent, m) := send_out (open_frame (ss_stream_id s) pending) m in
        if sent then write_rest s buf take_ m else (Err MuxWriterGone, s, m)
      else
        (Ok take_, {| ss_stream_id := ss_stream_id s; ss_pending_open := Some pending;
                      ss_finished := ss_finished s |}, m)
    end.

Definition poll_shutdown (s : TcpMuxSendStream) (m : Inner) : TcpMuxSendStream * Inner :=
  let '(_, s, m) := finish s m in (s, m).

(** ** The receive half *)

Definition set_leftover (leftover : bytes) (r : TcpMuxRecvStream) : TcpMuxRecvStream :=
  {| rv_stream_id := rv_stream_id r; rv_data_rx := rv_data_rx r; rv_leftover := leftover;
     rv_eof := rv_eof r |}.
Definition set_eof (r : TcpMuxRecvStream) : TcpMuxRecvStream :=
  {| rv_stream_id := rv_stream_id r; rv_data_rx := rv_data_rx r;
     rv_leftover := rv_leftover r; rv_eof := true |}.

(** [poll_read] into a buffer with room for [n] bytes. *)
Definition poll_read (n : nat) (r : TcpMuxRecvStream) (m : Inner) :
    option (bytes * TcpMuxRecvStream * Inner) :=
  match rv_leftover r with
  | _ :: _ => Some (take n (rv_leftover r), set_leftover (drop n (rv_leftover r)) r, m)
  | [] =>
    if rv_eof r then Some ([], r, m)
    else
      match poll_recv (rv_data_rx r) m with
      | None => None
      | Some (Some chunk, m) => Some (take n chunk, set_leftover (drop n chunk) r, m)
      | Some (None, m) => Some ([], set_eof r, m)
      end
  end.

(** [Drop]: the table forgets the stream's sender; then the receiver is gone. *)
Definition drop_recv (r : TcpMuxRecvStream) (m : Inner) : Inner :=
  with_streams (delete (rv_stream_id r) (mx_streams m)) (drop_rx (rv_data_rx r) m).

(** ** Two connections joined by pipes *)

(** What an application holds, and ghost records of what happened: the bytes each stream
    accepted from the application and delivered to it, the frames handed to the writer and
    the frames the reader completed. *)
Definition Frame : Type := MuxHeader * bytes.

Record Side := {
  sd_mux : Inner;
  sd_sends : gmap Z TcpMuxSendStream;
  sd_recvs : gmap Z TcpMuxRecvStream;
  sd_put : Z -> bytes;
  sd_got : Z -> bytes;
  sd_sent : list Frame;
  sd_rcvd : list Frame;
}.

Definition side_new (is_server : bool) : Side :=
  {| sd_mux := mux_new is_server; sd_sends := ∅; sd_recvs := ∅; sd_put := fun _ => [];
     sd_got := fun _ => []; sd_sent := []; sd_rcvd := [] |}.

Definition out_frame (f : OutFrame) : option Frame :=
  match f with OutFrame_Frame h p => Some (h, p) | OutFrame_Close => None end.
Definition out_frames (out : list OutFrame) : list Frame := omap out_frame out.

(** The frames an operation handed to the writer. *)
Definition pushed (m m' : Inner) : list Frame :=
  out_frames (drop (length (mx_out m)) (mx_out m')).

(** The frame the reader completes in its next step. *)
Definition dispatched (p : Pipe) (m : Inner) : list Frame :=
  match mx_reader m with
  | RdHeader =>
    match pipe_read_exact MUX_HEADER_SIZE p with
    | Some (Some buf, _) =>
      match MuxHeader_decode buf with
      | Ok h => if decide (mh_flag h = Fin) then [(h, [])] else []
      | Err _ => []
      end
    | _ => []
    end
  | RdPayload h =>
    let n := match mh_flag h with Open => 9%nat | _ => Z.to_nat (mh_payload_len h) end in
    match pipe_read_exact n p with
    | Some (Some payload, _) => [(h, payload)]
    | _ => []
    end
  | _ => []
  end.

Definition add_at (id : Z) (bs : bytes) (f : Z -> bytes) : Z -> bytes :=
  fun i => if decide (i = id) then f i ++ bs else f i.

(** The connection moves to [m']; what it handed to the writer is recorded. *)
Definition on_mux (m' : Inner) (sd : Side) : Side :=
  {| sd_mux := m'; sd_sends := sd_sends sd; sd_recvs := sd_recvs sd; sd_put := sd_put sd;
     sd_got := sd_got sd; sd_sent := sd_sent sd ++ pushed (sd_mux sd) m'; sd_rcvd := sd_rcvd sd |}.

(** The application takes the two halves of a stream. *)
Definition adopt (h : Halves) (sd : Side) : Side :=
  {| sd_mux := sd_mux sd; sd_sends := <[ss_stream_id h.1 := h.1]> (sd_sends sd);
     sd_recvs := <[rv_stream_id h.2 := h.2]> (sd_recvs sd); sd_put := sd_put sd;
     sd_got := sd_got sd; sd_sent := sd_sent sd; sd_rcvd := sd_rcvd sd |}.

Definition set_send (id : Z) (s : TcpMuxSendStream) (bs : bytes) (sd : Side) : Side :=
  {| sd_mux := sd_mux sd; sd_sends := <[id := s]> (sd_sends sd); sd_recvs := sd_recvs sd;
     sd_put := add_at id bs (sd_put sd); sd_got := sd_got sd; sd_sent := sd_sent sd;
     sd_rcvd := sd_rcvd sd |}.

Definition set_recv (id : Z) (r : option TcpMuxRecvStream) (bs : bytes) (sd : Side) : Side :=
  {| sd_mux := sd_mux sd; sd_sends := sd_sends sd;
     sd_recvs := partial_alter (fun _ => r) id (sd_recvs sd);
     sd_put := sd_put sd; sd_got := add_at id bs (sd_got sd); sd_sent := sd_sent sd;
     sd_rcvd := sd_rcvd sd |}.

Definition log_rcvd (fs : list Frame) (sd : Side) : Side :=
  {| sd_mux := sd_mux sd; sd_sends := sd_sends sd; sd_recvs := sd_recvs sd; sd_put := sd_put sd;
     sd_got := sd_got sd; sd_sent := sd_sent sd; sd_rcvd := sd_rcvd sd ++ fs |}.

(** What a write that consumed [n] bytes, or failed, took from the buffer. *)
Definition consumed (buf : bytes) (res : Result nat WriteError) : bytes :=
  match res with Ok n => take n buf | Err _ => [] end.

(** The padding [finish] adds to an incomplete header. *)
Definition padding (s : TcpMuxSendStream) : bytes :=
  match ss_pending_open s with
  | Some buf => if ss_finished s then [] else drop (length buf) (pad9 buf)
  | None => []
  end.

(** The promoted header of a data stream; the control stream has none. *)
Definition promoted (id : Z) (header : bytes) : bytes :=
  if id =? CONTROL_STREAM_ID then [] else header.

(** Steps of one side, with the pipe it reads and the pipe it writes.  Stream ids are not
    exhausted, and a single write is at most [MAX_MUX_PAYLOAD]: [poll_write] does not check
    that, but every caller in the repository keeps to it; what a larger write does is
    [oversized_write_fatal]. *)
Inductive side_step : Side -> Pipe -> Pipe -> Side -> Pipe -> Pipe -> Prop :=
| step_open_bi sd i o h m' :
    mx_next_stream_id (sd_mux sd) + 2 < 2 ^ 32 -> open_bi (sd_mux sd) = (Ok h, m') ->
    side_step sd i o (adopt h (on_mux m' sd)) i o
| step_open_data sd i o header h m' :
    mx_next_stream_id (sd_mux sd) + 2 < 2 ^ 32 -> length header = 9%nat ->
    open_data_stream header (sd_mux sd) = (Ok h, m') ->
    side_step sd i o (set_send (ss_stream_id h.1) h.1 header (adopt h (on_mux m' sd))) i o
| step_open_data_err sd i o header e m' :
    mx_next_stream_id (sd_mux sd) + 2 < 2 ^ 32 ->
    open_data_stream header (sd_mux sd) = (Err e, m') ->
    side_step sd i o (on_mux m' sd) i o
| step_accept_bi sd i o h m' :
    accept_bi (sd_mux sd) = Some (h, m') ->
    side_step sd i o (adopt h (on_mux m' sd)) i o
| step_accept_data sd i o header h m' :
    accept_data_stream (sd_mux sd) = Some (header, h, m') ->
    side_step sd i o
      (set_recv (rv_stream_id h.2) (Some h.2) (promoted (rv_stream_id h.2) header)
         (adopt h (on_mux m' sd))) i o
| step_write sd i o id s buf res s' m' :
    sd_sends sd !! id = Some s -> len buf <= MAX_MUX_PAYLOAD ->
    poll_write buf s (sd_mux sd) = (res, s', m') ->
    side_step sd i o (set_send id s' (consumed buf res) (on_mux m' sd)) i o
| step_finish sd i o id s res s' m' :
    sd_sends sd !! id = Some s -> finish s (sd_mux sd) = (res, s', m') ->
    side_step sd i o (set_send id s' (padding s) (on_mux m' sd)) i o
| step_close sd i o :
    side_step sd i o (on_mux (close (sd_mux sd)) sd) i o
| step_read sd i o id n r bs r' m' :
    sd_recvs sd !! id = Some r -> poll_read n r (sd_mux sd) = Some (bs, r', m') ->
    side_step sd i o (set_recv id (Some r') bs (on_mux m' sd)) i o
| step_drop sd i o id r :
    sd_recvs sd !! id = Some r ->
    side_step sd i o (set_recv id None [] (on_mux (drop_recv r (sd_mux sd)) sd)) i o
| step_writer sd i o fault o' m' :
    writer_step fault o (sd_mux sd) = Some (o', m') ->
    side_step sd i o (on_mux m' sd) i o'
| step_reader sd i o i' m' :
    reader_step i (sd_mux sd) = Some (i', m') ->
    side_step sd i o (log_rcvd (dispatched i (sd_mux sd)) (on_mux m' sd)) i' o.

Record Duplex := { dx_client : Side; dx_server : Side; dx_up : Pipe; dx_down : Pipe }.

Definition empty_pipe : Pipe := {| pi_bytes := []; pi_ended := false |}.
Definition duplex_new : Duplex :=
  {| dx_client := side_new false; dx_server := side_new true; dx_up := empty_pipe;
     dx_down := empty_pipe |}.

Inductive duplex_step : Duplex -> Duplex -> Prop :=
| client_moves c s up down c' up' down' :
    side_step c down up c' down' up' ->
    duplex_step {| dx_client := c; dx_server := s; dx_up := up; dx_down := down |}
                {| dx_client := c'; dx_server := s; dx_up := up'; dx_down := down' |}
| server_moves c s up down s' up' down' :
    side_step s up down s' up' down' ->
    duplex_step {| dx_client := c; dx_server := s; dx_up := up; dx_down := down |}
                {| dx_client := c; dx_server := s'; dx_up := up'; dx_down := down' |}.

Definition reachable (d : Duplex) : Prop := rtc duplex_step duplex_new d.

(** The side that receives, and the side that sends to it. *)
Definition receiver (to_server : bool) (d : Duplex) : Side :=
  if to_server then dx_server d else dx_client d.
Definition sender (to_server : bool) (d : Duplex) : Side :=
  if to_server then dx_client d else dx_server d.

(** ** The receive half as a stream of control frames

    [RecvStream::read_exact] of [conn.rs] on a mux stream, and that it keeps the promise the
    framing of control messages relies on, for a stream whose FIN has arrived. *)

(** The loop of [read_exact]; every round but a failing one reads at least one byte. *)
Fixpoint conn_read_exact_loop (fuel : nat) (n : nat) (acc : bytes) (r : TcpMuxRecvStream)
    (m : Inner) : option (Result bytes MuxError * (TcpMuxRecvStream * Inner)) :=
  if bool_decide (n = 0%nat) then Some (Ok acc, (r, m))
  else
    match fuel with
    | O => None
    | S fuel =>
      match poll_read n r m with
      | None => None
      | Some ([], r, m) => Some (Err TE_UnexpectedEof, (r, m))
      | Some (bs, r, m) => conn_read_exact_loop fuel (n - length bs) (acc ++ bs) r m
      end
    end.

Definition conn_read_exact (n : nat) (s : TcpMuxRecvStream * Inner) :
    option (Result bytes MuxError * (TcpMuxRecvStream * Inner)) :=
  conn_read_exact_loop n n [] s.1 s.2.

(** FIN has arrived, and no DATA frame was empty. *)
Definition settled (s : TcpMuxRecvStream * Inner) : Prop :=
  let ch := rv_data_rx s.1 in
  sender_alive s.2 ch = false /\ Forall (fun c => c <> []) (ch_queue (chan_of s.2 ch)) /\
  (rv_eof s.1 = true -> rv_leftover s.1 = [] /\ ch_queue (chan_of s.2 ch) = []).

Definition unread (s : TcpMuxRecvStream * Inner) : bytes :=
  rv_leftover s.1 ++ concat (ch_queue (chan_of s.2 (rv_data_rx s.1))).

(** One read: some of the unread bytes, in order, and none only at the end. *)
Lemma poll_read_settled n r m :
  settled (r, m) -> (0 < n)%nat ->
  exists bs r' m', poll_read n r m = Some (bs, r', m') /\ settled (r', m') /\
    unread (r, m) = bs ++ unread (r', m') /\ (length bs <= n)%nat /\
    (bs = [] -> unread (r, m) = []).
Proof.
  intros (Ha & Hq & He) Hn. cbn [fst snd] in *. unfold poll_read, unread. cbn [fst snd].
  destruct (rv_leftover r) as [|b lo] eqn:El.
  - destruct (rv_eof r) eqn:Ee.
    + destruct (He eq_refl) as [_ Hq0]. exists [], r, m. split_and!; try done.
      * by rewrite El.
      * simpl. lia.
      * by rewrite Hq0.
    + unfold poll_recv. destruct (ch_queue (chan_of m (rv_data_rx r))) as [|c q] eqn:Eq.
      * rewrite Ha. exists [], (set_eof r), m. split_and!; try done.
        -- unfold settled. cbn. by rewrite Eq, El.
        -- cbn. by rewrite Eq, El.
        -- simpl. lia.
      * apply Forall_cons_1 in Hq as [Hc Hq].
        set (m' := with_chans _ _ _).
        assert (Hm' : chan_of m' (rv_data_rx r) =
          {| ch_queue := q; ch_rx_alive := ch_rx_alive (chan_of m (rv_data_rx r)) |}).
        { unfold chan_of, m'. cbn. by rewrite lookup_insert_eq. }
        exists (take n c), (set_leftover (drop n c) r), m'. split_and!; try done.
        -- unfold settled. cbn [fst snd set_leftover rv_data_rx rv_eof rv_leftover]. rewrite Hm'.
           split_and!; [exact Ha|done|congruence].
        -- cbn [fst snd set_leftover rv_data_rx rv_leftover]. rewrite Hm'. cbn.
           by rewrite app_assoc, take_drop.
        -- rewrite length_take. lia.
        -- intros E. destruct c as [|x c]; [done|]. destruct n; [lia|done].
  - exists (take n (b :: lo)), (set_leftover (drop n (b :: lo)) r), m. split_and!; try done.
    + unfold settled. cbn. split_and!; try done. intros E. by destruct (He E).
    + cbn [fst snd set_leftover rv_data_rx rv_leftover]. by rewrite app_assoc, take_drop.
    + rewrite length_take. lia.
    + intros E. destruct n; [lia|done].
Qed.

Lemma conn_read_exact_loop_spec fuel n acc r m :
  settled (r, m) -> (n <= fuel)%nat ->
  exists res s', conn_read_exact_loop fuel n acc r m = Some (res, s') /\ settled s' /\
    if bool_decide (n <= length (unread (r, m)))%nat
    then res = Ok (acc ++ take n (unread (r, m))) /\ unread s' = drop n (unread (r, m))
    else res = Err TE_UnexpectedEof.
Proof.
  revert n acc r m. induction fuel as [|fuel IH]; intros n acc r m Hs Hn; simpl;
    (case_bool_decide as E0; [subst n; rewrite bool_decide_eq_true_2 by lia;
       eexists _, _; split_and!; [done..|by rewrite take_0, app_nil_r|done]|]); [lia|].
  destruct (poll_read_settled n r m Hs) as (bs & r' & m' & Hp & Hs' & Hu & Hl & Hemp); [lia|].
  rewrite Hp. destruct bs as [|b bs].
  - rewrite Hemp by done. rewrite bool_decide_eq_false_2 by (simpl; lia). by eexists _, _.
  - set (bs1 := b :: bs) in *. assert (0 < length bs1)%nat by (simpl; lia).
    destruct (IH (n - length bs1)%nat (acc ++ bs1) r' m' Hs') as (res & s' & Hr & Hs2 & Hc); [lia|].
    exists res, s'. split_and!; [done..|]. rewrite Hu, length_app.
    repeat case_bool_decide; try lia; [|done]. destruct Hc as [-> Hu2]. split.
    + rewrite take_app_ge by lia. by rewrite <-app_assoc.
    + by rewrite drop_app_ge by lia.
Qed.

(** A receive half that keeps [RecvStream]'s promises. *)
Definition SettledStream : Type := { s : TcpMuxRecvStream * Inner | settled s }.

Lemma conn_read_exact_spec n s :
  settled s ->
  exists res s', conn_read_exact n s = Some (res, s') /\ settled s' /\
    if bool_decide (n <= length (unread s))%nat
    then res = Ok (take n (unread s)) /\ unread s' = drop n (unread s)
    else res = Err TE_UnexpectedEof.
Proof. destruct s as [r m]. intros Hs. by apply (conn_read_exact_loop_spec n n []). Qed.

Lemma conn_read_exact_settled n s res s' :
  settled s -> conn_read_exact n s = Some (res, s') -> settled s'.
Proof.
  intros Hs E. destruct (conn_read_exact_spec n s Hs) as (r' & s2 & E2 & H2 & _). by simplify_eq.
Qed.

Definition settled_read (n : nat) (s : SettledStream) : Result bytes MuxError * SettledStream :=
  match conn_read_exact n (proj1_sig s) as o
    return conn_read_exact n (proj1_sig s) = o -> Result bytes MuxError * SettledStream with
  | Some (res, s') => fun E => (res, exist _ s' (conn_read_exact_settled n _ res s' (proj2_sig s) E))
  | None => fun _ => (Err TE_UnexpectedEof, s)
  end eq_refl.

#[global] Instance mux_stream : RecvStream SettledStream Z Z := {|
  read_exact := settled_read;
  rs_pending s := unread (proj1_sig s);
|}.

Lemma settled_read_spec n (s : SettledStream) :
  exists res (s' : SettledStream), settled_read n s = (res, s') /\
    conn_read_exact n (proj1_sig s) = Some (res, proj1_sig s').
Proof.
  unfold settled_read.
  destruct (conn_read_exact_spec n _ (proj2_sig s)) as (res & s' & E & Hs' & _).
  generalize (conn_read_exact_settled n (proj1_sig s)). rewrite E. intros H.
  by eexists _, (exist _ s' _).
Qed.

#[global] Instance mux_stream_laws : RecvStreamLaws SettledStream Z Z.
Proof.
  split; intros n s Hn; cbn in *; destruct (settled_read_spec n s) as (res & s' & -> & E);
    destruct (conn_read_exact_spec n _ (proj2_sig s)) as (res2 & s2 & E2 & _ & Hc);
    rewrite E in E2; injection E2 as <- <-.
  - rewrite bool_decide_eq_true_2 in Hc by done. destruct Hc as [-> Hu]. by exists s'.
  - rewrite bool_decide_eq_false_2 in Hc by lia. subst res. by exists TE_UnexpectedEof, s'.
Qed.

Section Control.
Context {T : Type} `{PostcardLaws T Z}.

(** Control frames survive the multiplexer: on a mux stream whose unread bytes start with
    the frame of a value, in whatever chunks they arrived, [read_frame] returns the value
    and leaves the rest unread. *)
Theorem mux_frame_delivery (v : T) (n : Z) (frame rest : bytes) (s : SettledStream)
    (He : encode_frame v [] = (Ok n, frame)) (Hb : Forall is_byte rest)
    (Hu : unread (proj1_sig s) = frame ++ rest) :
  exists s', read_frame s = (Ok v, s') /\ unread (proj1_sig s') = rest.
Proof.
  destruct (encode_frame_Ok _ _ _ _ He) as (payload & Hp & Hl).
  destruct (read_frame_encoded (S := SettledStream) (X := Z) v payload Hp Hl) as (frame' & _ & He' & Hr).
  rewrite He' in He. injection He as _ <-. by apply (Hr s).
Qed.
End Control.

(** ** A disconnect *)

(** When the pipe ends the reader marks the connection closed but keeps the senders of its
    streams and of the accept queue: a read of a stream without FIN and the wait for a new
    stream stay pending, for good as no task is left to wake them. *)
Lemma disconnect_pending n r m (Hd : mx_reader m = RdDone) (He : rv_eof r = false)
    (Hl : rv_leftover r = []) (Hq : ch_queue (chan_of m (rv_data_rx r)) = [])
    (Hs : mx_streams m !! rv_stream_id r = Some (rv_data_rx r)) (p : Pipe) :
  poll_read n r m = None /\ reader_step p m = None.
Proof.
  unfold poll_read, poll_recv, reader_step, sender_alive. rewrite Hl, He, Hq, Hd.
  rewrite bool_decide_eq_true_2; [done|]. by exists (rv_stream_id r), (rv_data_rx r).
Qed.

(** A server whose client vanished before it sent anything: the control stream neither
    ends nor fails, and no stream is accepted. *)
Example disconnect_unseen :
  let ended := {| pi_bytes := []; pi_ended := true |} in
  exists m1 s r m2, reader_step ended (mux_new true) = Some (ended, m1) /\
    accept_bi m1 = Some ((s, r), m2) /\ mx_closed m2 = true /\
    poll_read 1 r m2 = None /\ accept_bi m2 = None /\ reader_step ended m2 = None.
Proof. by eexists _, _, _, _. Qed.

(** A write above [MAX_MUX_PAYLOAD] is sent as one frame, which ends the peer's reader. *)
Example oversized_write_fatal :
  let big := {| mh_flag := Data; mh_stream_id := 0; mh_payload_len := MAX_MUX_PAYLOAD + 1 |} in
  exists p' m', reader_step {| pi_bytes := MuxHeader_to_bytes big; pi_ended := false |}
                  (mux_new true) = Some (p', m') /\ mx_reader m' = RdDone.
Proof. by eexists _, _. Qed.
