(* ===== verification/MuxInv.v ===== *)
(** * MuxInv: the invariant of one multiplexed connection

    What one side of [TcpMux]'s two joined connections keeps true: its send halves agree
    with the log of frames handed to the writer ([SendInv]), stream ids come from where
    they should ([Origin]), and what arrived for a stream is delivered, held or queued for
    its reader ([RecvCore], [EofInv]). *)

From S2P Require Import Prelude Wire Framing TcpMux.

Local Open Scope Z_scope.

(** ** The log of a stream *)

(** The frames of one stream, in order. *)
Definition frame_for (id : Z) (f : Frame) : option (MuxFlag * bytes) :=
  if mh_stream_id f.1 =? id then Some (mh_flag f.1, f.2) else None.
Definition frames_of (id : Z) (l : list Frame) : list (MuxFlag * bytes) := omap (frame_for id) l.
Definition payload_of (id : Z) (l : list Frame) : bytes := concat (frames_of id l).*2.

(** The life of one direction of a stream: [StNew] awaits its OPEN. *)
Inductive Stage := StNew | StOpen | StFin | StBad.

#[global] Instance Stage_eq_dec : EqDecision Stage.
Proof. solve_decision. Defined.

Definition stage_step (st : Stage) (flag : MuxFlag) : Stage :=
  match st, flag with
  | StNew, Open => StOpen
  | StOpen, Data => StOpen
  | StOpen, Fin => StFin
  | _, _ => StBad
  end.

Definition stage_from (st : Stage) (l : list (MuxFlag * bytes)) : Stage :=
  foldl (fun st f => stage_step st f.1) st l.

(** Ids of the parity a side mints. *)
Definition own (is_server : bool) (id : Z) : bool :=
  negb (id =? CONTROL_STREAM_ID) && Bool.eqb (Z.odd id) is_server.

(** A stream's log starts with an OPEN on the side that minted its id, and only there. *)
Definition start (is_server : bool) (id : Z) : Stage := if own is_server id then StNew else StOpen.

Definition stage_of (is_server : bool) (id : Z) (l : list Frame) : Stage :=
  stage_from (start is_server id) (frames_of id l).

Lemma frames_of_app id l k : frames_of id (l ++ k) = frames_of id l ++ frames_of id k.
Proof. apply omap_app. Qed.

Lemma payload_of_app id l k : payload_of id (l ++ k) = payload_of id l ++ payload_of id k.
Proof. unfold payload_of. by rewrite frames_of_app, fmap_app, concat_app. Qed.

Lemma stage_of_app srv id l k :
  stage_of srv id (l ++ k) = stage_from (stage_of srv id l) (frames_of id k).
Proof. unfold stage_of, stage_from. by rewrite frames_of_app, foldl_app. Qed.

Lemma stage_from_bad l : stage_from StBad l = StBad.
Proof. induction l as [|[[] ?] l IH]; [done|..]; apply IH. Qed.

(** A log that is not bad has no bad prefix; after FIN nothing follows. *)
Lemma stage_of_prefix srv id l k :
  stage_of srv id (l ++ k) <> StBad -> stage_of srv id l <> StBad.
Proof. rewrite stage_of_app. intros H E. rewrite E, stage_from_bad in H. done. Qed.

Lemma stage_fin_last srv id l k :
  stage_of srv id (l ++ k) <> StBad -> stage_of srv id l = StFin -> frames_of id k = [].
Proof.
  rewrite stage_of_app. intros H E. rewrite E in H.
  destruct (frames_of id k) as [|[[] ?] fs]; [done|..];
    cbn in H; change (foldl _ _ _) with (stage_from StBad fs) in H; by rewrite stage_from_bad in H.
Qed.

Lemma stage_of_fin srv id l k :
  stage_of srv id (l ++ k) <> StBad -> stage_of srv id l = StFin ->
  stage_of srv id (l ++ k) = StFin /\ payload_of id (l ++ k) = payload_of id l.
Proof.
  intros H E. pose proof (stage_fin_last _ _ _ _ H E) as Hn.
  rewrite stage_of_app, E, payload_of_app. unfold payload_of at 2. rewrite Hn.
  split; [done|]. by rewrite app_nil_r.
Qed.

Lemma frames_of_other id h p : mh_stream_id h <> id -> frames_of id [(h, p)] = [].
Proof. intros Hn. unfold frames_of, frame_for. simpl. by rewrite (proj2 (Z.eqb_neq _ _) Hn). Qed.

Lemma frames_of_here id h p : mh_stream_id h = id -> frames_of id [(h, p)] = [(mh_flag h, p)].
Proof. intros <-. unfold frames_of, frame_for. simpl. by rewrite Z.eqb_refl. Qed.

Lemma payload_of_here id h p : mh_stream_id h = id -> payload_of id [(h, p)] = p.
Proof. intros E. unfold payload_of. rewrite frames_of_here by done. simpl. apply app_nil_r. Qed.

Lemma payload_of_other id h p : mh_stream_id h <> id -> payload_of id [(h, p)] = [].
Proof. intros E. unfold payload_of. by rewrite frames_of_other. Qed.

Lemma payload_of_nil id l : frames_of id l = [] -> payload_of id l = [].
Proof. unfold payload_of. by intros ->. Qed.

(** Only the first frame can be an OPEN, and only on a stream of the sender's parity. *)
Lemma stage_open_first srv id l p :
  stage_from (stage_of srv id l) [(Open, p)] <> StBad ->
  own srv id = true /\ frames_of id l = [].
Proof.
  unfold stage_of, start. intros H.
  assert (Hno : forall st fs, st <> StNew -> stage_from st fs <> StNew).
  { intros st fs. revert st. induction fs as [|[g q] fs IH]; intros st Hst; [done|].
    simpl. apply IH. by destruct st, g. }
  destruct (own srv id) eqn:Eo.
  - split; [done|]. destruct (frames_of id l) as [|[g q] fs]; [done|]. exfalso.
    simpl in H. assert (Hs : stage_step StNew g <> StNew) by (by destruct g).
    apply (Hno _ fs) in Hs. unfold stage_from in *. by destruct (foldl _ _ fs) eqn:Ef.
  - assert (Hs : stage_from StOpen (frames_of id l) <> StNew) by (by apply Hno).
    unfold stage_from in *. cbn in *. by destruct (foldl _ _ (frames_of id l)) eqn:Ef.
Qed.

(** [id] is minted by one side, by the other, or is the control stream. *)
Lemma own_negb srv id : id <> CONTROL_STREAM_ID -> own (negb srv) id = negb (own srv id).
Proof.
  intros Hn. unfold own. rewrite (proj2 (Z.eqb_neq _ _) Hn). simpl. by destruct (Z.odd id), srv.
Qed.

Lemma own_control srv : own srv CONTROL_STREAM_ID = false.
Proof. done. Qed.

Lemma own_next srv id : own srv id = true -> 0 <= id -> own srv (id + 2) = true.
Proof.
  unfold own, CONTROL_STREAM_ID. rewrite !andb_true_iff, !negb_true_iff, !Z.eqb_neq.
  intros [? <-%eqb_prop] ?. rewrite Z.odd_add, xorb_false_r, eqb_reflx. split; [lia|done].
Qed.

(** ** The send side *)

Definition frame_ok (f : Frame) : Prop :=
  MuxHeader_valid f.1 /\ mh_payload_len f.1 = len f.2 /\
  (mh_flag f.1 = Data -> mh_payload_len f.1 <= MAX_MUX_PAYLOAD) /\
  (mh_flag f.1 = Open -> mh_stream_id f.1 <> CONTROL_STREAM_ID).

(** Where the log of a stream stands, by the state of its send half. *)
Definition expected (s : TcpMuxSendStream) : Stage :=
  match ss_pending_open s with
  | Some _ => StNew
  | None => if ss_finished s then StFin else StOpen
  end.

(** A send half agrees with the log: what was pushed is what the application wrote, less
    the bytes still waiting for the OPEN, as long as the writer lives or once FIN is out. *)
Definition send_ok (srv alive : bool) (id : Z) (s : TcpMuxSendStream) (put : bytes)
    (sent : list Frame) : Prop :=
  ss_stream_id s = id /\
  stage_of srv id sent <> StBad /\
  payload_of id sent `prefix_of` put /\
  (alive = true -> stage_of srv id sent = expected s) /\
  (alive = true \/ stage_of srv id sent = StFin ->
     put = payload_of id sent ++ default [] (ss_pending_open s)) /\
  (stage_of srv id sent = StFin -> ss_finished s = true /\ ss_pending_open s = None) /\
  (forall p, ss_pending_open s = Some p ->
     put = p /\ (length p < 9)%nat /\ frames_of id sent = [] /\ own srv id = true).

Definition SendInv (srv alive : bool) (sends : gmap Z TcpMuxSendStream) (put : Z -> bytes)
    (sent : list Frame) : Prop :=
  (forall id s, sends !! id = Some s -> in_u 32 id /\ send_ok srv alive id s (put id) sent) /\
  (forall id, sends !! id = None -> put id = [] /\ frames_of id sent = []) /\
  Forall frame_ok sent.

Definition as_out (fs : list Frame) : list OutFrame := map (fun f => OutFrame_Frame f.1 f.2) fs.

Lemma out_frames_app l k : out_frames (l ++ k) = out_frames l ++ out_frames k.
Proof. apply omap_app. Qed.

Lemma out_frames_as_out fs : out_frames (as_out fs) = fs.
Proof. induction fs as [|[h p] fs IH]; [done|]. cbn. by f_equal. Qed.

Lemma with_out_same m : with_out (mx_out m) m = m.
Proof. by destruct m. Qed.

Lemma pushed_out out m : pushed m (with_out (mx_out m ++ out) m) = out_frames out.
Proof. unfold pushed. cbn. by rewrite drop_app_length. Qed.

(** The frame of a push, when the writer takes it. *)
Lemma send_out_spec f m :
  send_out f m = (mx_writer_alive m,
                  with_out (mx_out m ++ if mx_writer_alive m then [f] else []) m).
Proof.
  unfold send_out. destruct (mx_writer_alive m); [done|].
  by rewrite app_nil_r, with_out_same.
Qed.

Lemma with_out_out a b m : with_out a (with_out b m) = with_out a m.
Proof. done. Qed.

Lemma stage_push srv id (sent : list Frame) h p :
  mh_stream_id h = id ->
  stage_of srv id (sent ++ [(h, p)]) = stage_step (stage_of srv id sent) (mh_flag h).
Proof. intros E. rewrite stage_of_app, frames_of_here by done. done. Qed.

(** Pushing one frame in step with the half. *)
Lemma send_ok_push srv id s s' put sent h p :
  send_ok srv true id s put sent -> mh_stream_id h = id ->
  ss_stream_id s' = id -> ss_pending_open s' = None ->
  stage_step (expected s) (mh_flag h) = expected s' ->
  (expected s' = StFin -> ss_finished s' = true) ->
  send_ok srv true id s' (payload_of id sent ++ p) (sent ++ [(h, p)]).
Proof.
  intros (Hid & Hb & Hpre & Hst & Hput & Hfin & Hpend) Hh Hid' Hnone Hstep Hf'.
  rewrite <-(Hst eq_refl), <-(stage_push srv id sent h p Hh) in Hstep.
  unfold send_ok. rewrite Hstep, payload_of_app, payload_of_here, Hnone by done. simpl.
  rewrite app_nil_r. split_and!; try done.
  - unfold expected. rewrite Hnone. by destruct (ss_finished s').
  - intros E. split; [|done]. by apply Hf'.
Qed.

Lemma send_ok_put srv id s put sent :
  send_ok srv true id s put sent -> put = payload_of id sent ++ default [] (ss_pending_open s).
Proof. intros (_ & _ & _ & _ & Hp & _). by apply Hp; left. Qed.

Definition open_header (id : Z) : MuxHeader :=
  {| mh_flag := Open; mh_stream_id := id; mh_payload_len := 9 |}.
Definition fin_header (id : Z) : MuxHeader :=
  {| mh_flag := Fin; mh_stream_id := id; mh_payload_len := 0 |}.
Definition data_header (id : Z) (p : bytes) : MuxHeader :=
  {| mh_flag := Data; mh_stream_id := id; mh_payload_len := wrap 32 (len p) |}.

Lemma data_frame_ok id p :
  in_u 32 id -> len p <= MAX_MUX_PAYLOAD -> frame_ok (data_header id p, p).
Proof.
  unfold frame_ok, data_header, MuxHeader_valid, in_u, wrap, MAX_MUX_PAYLOAD. cbn [fst snd mh_flag mh_stream_id mh_payload_len].
  intros Hid Hp. pose proof (len_nonneg p). rewrite Z.mod_small by lia.
  split_and!; try done; lia.
Qed.

Lemma open_frame_ok srv id p :
  in_u 32 id -> own srv id = true -> length p = 9%nat -> frame_ok (open_header id, p).
Proof.
  intros Hid Ho Hp. unfold frame_ok, open_header, MuxHeader_valid, len. simpl. rewrite Hp.
  split_and!; try done. intros _ ->. done.
Qed.

Lemma fin_frame_ok id : in_u 32 id -> frame_ok (fin_header id, []).
Proof. intros Hid. by unfold frame_ok, fin_header, MuxHeader_valid. Qed.

(** What a write does: it pushes frames of its stream only, keeps the half in step with
    the log, and the frames are ones the peer's reader accepts. *)
Definition write_effect (srv : bool) (id : Z) (s' : TcpMuxSendStream) (m m' : Inner)
    (sent : list Frame) (put' : bytes) : Prop :=
  exists fs, m' = with_out (mx_out m ++ as_out fs) m /\
    Forall (fun f => mh_stream_id f.1 = id /\ frame_ok f) fs /\
    send_ok srv (mx_writer_alive m) id s' put' (sent ++ fs).

Lemma write_effect_none srv id s' m sent put' :
  send_ok srv (mx_writer_alive m) id s' put' sent -> write_effect srv id s' m m sent put'.
Proof. intros H. exists []. by rewrite !app_nil_r, with_out_same. Qed.

(** Two rounds of pushes. *)
Lemma write_effect_trans srv id s2 m fs1 m2 sent put2 :
  Forall (fun f => mh_stream_id f.1 = id /\ frame_ok f) fs1 ->
  write_effect srv id s2 (with_out (mx_out m ++ as_out fs1) m) m2 (sent ++ fs1) put2 ->
  write_effect srv id s2 m m2 sent put2.
Proof.
  intros H1 (fs2 & -> & H2 & H3). exists (fs1 ++ fs2). unfold as_out in *.
  rewrite map_app, !(app_assoc sent), !(app_assoc (mx_out m)).
  split_and!; [done|by apply Forall_app|done].
Qed.

Lemma write_rest_effect srv id s buf cursor m res s' m' sent put :
  send_ok srv (mx_writer_alive m) id s put sent -> ss_pending_open s = None ->
  ss_finished s = false -> in_u 32 id -> len buf <= MAX_MUX_PAYLOAD ->
  write_rest s buf cursor m = (res, s', m') ->
  write_effect srv id s' m m' sent (put ++ drop cursor (consumed buf res)).
Proof.
  intros Hok Hn Hf Hid Hlen. unfold write_rest. destruct (drop cursor buf) as [|b rest] eqn:Er.
  { intros [= <- <- <-]. apply write_effect_none. simpl. rewrite skipn_firstn_comm, Nat.sub_diag.
    by rewrite app_nil_r. }
  rewrite send_out_spec. destruct (mx_writer_alive m) eqn:Ha.
  - intros [= <- <- <-]. pose proof (f_equal length Er) as Hl. rewrite length_drop in Hl.
    cbn [consumed]. rewrite (take_ge buf) by (simpl in Hl |- *; lia). rewrite Er.
    assert (Hs : ss_stream_id s = id) by apply Hok. rewrite Hs.
    exists [(data_header id (b :: rest), b :: rest)]. split_and!; [done|..].
    + constructor; [|done]. split; [done|]. apply data_frame_ok; [done|].
      unfold len in *. rewrite <-Er, length_drop. lia.
    + pose proof (send_ok_put _ _ _ _ _ Hok) as ->. rewrite Hn. cbn [default]. rewrite app_nil_r.
      rewrite Ha. eapply send_ok_push; try done; unfold expected; rewrite Hn, Hf; done.
  - intros [= <- <- <-]. rewrite app_nil_r, with_out_same. apply write_effect_none.
    cbn [consumed]. rewrite drop_nil, app_nil_r. by rewrite Ha.
Qed.

Lemma write_rest_Ok s buf cursor m res s' m' :
  mx_writer_alive m = true -> write_rest s buf cursor m = (res, s', m') ->
  exists n, res = Ok n /\ (cursor <= n)%nat.
Proof.
  unfold write_rest. intros Ha. rewrite send_out_spec, Ha.
  destruct (drop cursor buf); intros [= <- _ _]; eexists; (split; [done|lia]).
Qed.

(** A half that has lost its OPEN with the writer. *)
Lemma send_ok_dead srv id s s' put put' sent :
  send_ok srv false id s put sent -> ss_stream_id s' = id -> ss_pending_open s' = None ->
  (ss_finished s = true -> ss_finished s' = true /\ put' = put) -> put `prefix_of` put' ->
  send_ok srv false id s' put' sent.
Proof.
  intros (Hid & Hb & Hpre & _ & Hput & Hfin & _) Hid' Hn Hf Hp. unfold send_ok. rewrite Hn.
  split_and!; try done.
  - by etrans.
  - intros [?|Hs]; [done|]. destruct (Hfin Hs) as [Hs1 Hs2]. destruct (Hf Hs1) as [_ ->].
    rewrite Hput by auto. by rewrite Hs2.
  - intros Hs. destruct (Hfin Hs) as [Hs1 _]. by destruct (Hf Hs1).
Qed.

(** The bytes waiting for the OPEN become its payload. *)
Lemma send_ok_open srv id s s' put sent p p' :
  send_ok srv true id s put sent -> ss_pending_open s = Some p ->
  ss_stream_id s' = id -> ss_pending_open s' = None -> ss_finished s' = false ->
  send_ok srv true id s' p' (sent ++ [(open_header id, p')]).
Proof.
  intros Hok Hp Hid Hn Hf. pose proof Hok as (_ & _ & _ & _ & _ & _ & Hpend).
  destruct (Hpend _ Hp) as (_ & _ & Hfr & _).
  replace p' with (payload_of id sent ++ p') at 1 by (by rewrite payload_of_nil).
  eapply send_ok_push; try done; unfold expected; rewrite Hn, Hf, ?Hp; done.
Qed.

Lemma poll_write_effect srv id buf s m res s' m' sent put :
  send_ok srv (mx_writer_alive m) id s put sent -> in_u 32 id -> len buf <= MAX_MUX_PAYLOAD ->
  poll_write buf s m = (res, s', m') ->
  write_effect srv id s' m m' sent (put ++ consumed buf res).
Proof.
  intros Hok Hid Hlen. pose proof Hok as (Hs & Hb & Hpre & Hst & Hput & Hfin & Hpend).
  unfold poll_write. destruct (ss_finished s || mx_closed m) eqn:Ec.
  { intros [= <- <- <-]. apply write_effect_none. by rewrite app_nil_r. }
  apply orb_false_iff in Ec as [Ef _].
  destruct (ss_pending_open s) as [p|] eqn:Ep.
  2:{ intros Hw. by eapply write_rest_effect in Hw. }
  destruct (Hpend p eq_refl) as (-> & Hl9 & Hfr & Ho). cbv zeta.
  set (k := Nat.min _ _). assert (Hk : (k <= length buf)%nat) by lia.
  case_bool_decide as H9.
  - rewrite send_out_spec, Hs. destruct (mx_writer_alive m) eqn:Ha.
    + intros Hw. set (s1 := {| ss_stream_id := id |}) in Hw.
      assert (Hok1 : send_ok srv true id s1 (p ++ take k buf)
                       (sent ++ [(open_header id, p ++ take k buf)]))
        by (by eapply send_ok_open).
      apply (write_effect_trans _ _ _ _ [(open_header id, p ++ take k buf)]).
      { constructor; [|done]. split; [done|]. by eapply open_frame_ok. }
      destruct (write_rest_Ok _ _ _ _ _ _ _ (Ha : mx_writer_alive (with_out _ m) = true) Hw)
        as (n & -> & Hn).
      eapply write_rest_effect in Hw; [|by cbn; rewrite Ha|done..].
      cbn [consumed] in *. rewrite <-(take_drop k (take n buf)), take_take, Nat.min_l by done.
      by rewrite app_assoc.
    + intros [= <- <- <-]. rewrite app_nil_r, with_out_same. apply write_effect_none.
      rewrite app_nil_r, Ha. by eapply send_ok_dead.
  - intros [= <- <- <-]. apply write_effect_none. cbn [consumed].
    rewrite length_app, length_take in H9. unfold send_ok. rewrite (payload_of_nil _ _ Hfr) in *.
    split_and!; try done; [by apply prefix_nil| |intros E; by destruct (Hfin E)|].
    { intros E. rewrite Hst by done. unfold expected. by rewrite Ep. }
    intros q [= <-]. rewrite length_app, length_take. split_and!; try done. lia.
Qed.

Lemma length_pad9 buf : length (pad9 buf) = 9%nat.
Proof. unfold pad9. rewrite length_take, length_app, length_replicate. lia. Qed.

Lemma pad9_split buf : (length buf <= 9)%nat -> buf ++ drop (length buf) (pad9 buf) = pad9 buf.
Proof.
  intros H. rewrite <-(take_drop (length buf) (pad9 buf)) at 2. f_equal. unfold pad9.
  by rewrite take_take, Nat.min_l, take_app_length by done.
Qed.

Lemma finish_effect srv id s m res s' m' sent put :
  send_ok srv (mx_writer_alive m) id s put sent -> in_u 32 id ->
  finish s m = (res, s', m') ->
  write_effect srv id s' m m' sent (put ++ padding s).
Proof.
  intros Hok Hid. pose proof Hok as (Hs & Hb & Hpre & Hst & Hput & Hfin & Hpend).
  unfold finish, padding. destruct (ss_finished s) eqn:Ef.
  { intros [= <- <- <-]. apply write_effect_none. destruct (ss_pending_open s); by rewrite app_nil_r. }
  cbv zeta. cbn [ss_stream_id]. rewrite Hs. destruct (mx_writer_alive m) eqn:Ha.
  - destruct (ss_pending_open s) as [p|] eqn:Ep.
    + destruct (Hpend p eq_refl) as (-> & Hl9 & Hfr & Ho). rewrite pad9_split by lia.
      rewrite !send_out_spec. cbn [snd mx_writer_alive with_out mx_out]. rewrite Ha.
      intros [= <- <- <-].
      apply (write_effect_trans _ _ _ _ [(open_header id, pad9 p)]).
      { constructor; [|done]. split; [done|]. eapply open_frame_ok; [done..|apply length_pad9]. }
      exists [(fin_header id, [])]. split_and!; [done| |].
      { constructor; [|done]. split; [done|]. by apply fin_frame_ok. }
      cbn. rewrite Ha. pose proof (send_ok_open _ _ _ (send_half id None) _ _ _ (pad9 p) Hok Ep eq_refl eq_refl eq_refl) as H1.
      pose proof (send_ok_put _ _ _ _ _ H1) as H2. cbn in H2. rewrite app_nil_r in H2.
      rewrite H2 at 1. rewrite <-(app_nil_r (payload_of _ _)). by eapply send_ok_push.
    + rewrite send_out_spec, Ha. intros [= <- <- <-]. exists [(fin_header id, [])].
      split_and!; [done| |].
      { constructor; [|done]. split; [done|]. by apply fin_frame_ok. }
      rewrite Ha. pose proof (send_ok_put _ _ _ _ _ Hok) as ->. rewrite Ep, app_nil_r.
      eapply send_ok_push; try done. unfold expected. by rewrite Ep, Ef.
  - assert (Hm : forall f, (send_out f m).2 = m) by (intros f; unfold send_out; by rewrite Ha).
    intros Heq.
    assert (m' = m /\ ss_stream_id s' = id /\ ss_pending_open s' = None /\ ss_finished s' = true)
      as (-> & ? & ? & ?).
    { destruct (ss_pending_open s); rewrite ?Hm, send_out_spec, Ha, app_nil_r, with_out_same in Heq;
        by injection Heq as _ <- <-. }
    apply write_effect_none. rewrite Ha.
    eapply send_ok_dead; [done..| |by apply prefix_app_r]. by rewrite Ef.
Qed.

(** The frames of one stream leave every other stream's log alone. *)
Lemma frames_of_others id id' (fs : list Frame) :
  Forall (fun f => mh_stream_id f.1 = id /\ frame_ok f) fs -> id' <> id -> frames_of id' fs = [].
Proof.
  intros Hf Hn. induction Hf as [|[h p] fs [Hh _] _ IH]; [done|].
  change ((h, p) :: fs) with ([(h, p)] ++ fs). rewrite frames_of_app, IH, frames_of_other; [done|].
  simpl in Hh. congruence.
Qed.

Lemma send_ok_others srv alive id s put sent fs :
  frames_of id fs = [] -> send_ok srv alive id s put sent -> send_ok srv alive id s put (sent ++ fs).
Proof.
  intros Hn. unfold send_ok. rewrite stage_of_app, payload_of_app, frames_of_app, Hn.
  by rewrite (payload_of_nil _ _ Hn), !app_nil_r.
Qed.

Lemma frames_ok (id : Z) (fs : list Frame) :
  Forall (fun f => mh_stream_id f.1 = id /\ frame_ok f) fs -> Forall frame_ok fs.
Proof. intros H. eapply Forall_impl; [|exact H]. by intros f []. Qed.

Lemma add_at_here id bs f : add_at id bs f id = f id ++ bs.
Proof. unfold add_at. by rewrite decide_True. Qed.
Lemma add_at_other id id' bs f : id' <> id -> add_at id bs f id' = f id'.
Proof. intros. unfold add_at. by rewrite decide_False. Qed.

(** An operation on one send half. *)
Lemma SendInv_half srv alive sends put sent id s' bs fs :
  SendInv srv alive sends put sent -> in_u 32 id ->
  Forall (fun f => mh_stream_id f.1 = id /\ frame_ok f) fs ->
  send_ok srv alive id s' (put id ++ bs) (sent ++ fs) ->
  SendInv srv alive (<[id := s']> sends) (add_at id bs put) (sent ++ fs).
Proof.
  intros (Hs & Hn & Hf) Hid Hfs Hok. split_and!.
  - intros i s. destruct (decide (i = id)) as [->|Hi].
    + rewrite lookup_insert_eq. intros [= <-]. by rewrite add_at_here.
    + rewrite lookup_insert_ne, add_at_other by done. intros Hl.
      destruct (Hs _ _ Hl). split; [done|]. apply send_ok_others; [|done]. by eapply frames_of_others.
  - intros i. destruct (decide (i = id)) as [->|Hi]; [by rewrite lookup_insert_eq|].
    rewrite lookup_insert_ne, add_at_other, frames_of_app, (frames_of_others id i fs), app_nil_r by done.
    apply Hn.
  - apply Forall_app. split; [done|]. by eapply frames_ok.
Qed.

(** The writer stops. *)
Lemma SendInv_dead srv alive sends put sent :
  SendInv srv alive sends put sent -> SendInv srv false sends put sent.
Proof.
  intros (Hs & Hn & Hf). split_and!; try done. intros id s Hl.
  destruct (Hs _ _ Hl) as [? (? & ? & ? & ? & Hput & ? & ?)]. split; [done|].
  unfold send_ok. split_and!; try done. intros [?|E]; [done|]. auto.
Qed.

(** ** The receive side *)

(** Bytes of a channel the application has not taken: queued chunks, and the chunk the
    reader is about to queue. *)
Definition in_hand (rd : ReaderState) (ch : ChanId) : bytes :=
  match rd with RdSend tx buf => if decide (tx = ch) then buf else [] | _ => [] end.
Definition content (m : Inner) (ch : ChanId) : bytes :=
  concat (ch_queue (chan_of m ch)) ++ in_hand (mx_reader m) ch.

(** Who will read a stream: a receive half, an entry of the accept queue or the control
    slot; with the channel and the bytes taken out of it but not yet delivered. *)
Definition holder (m : Inner) (recvs : gmap Z TcpMuxRecvStream) (id : Z) :
    option (ChanId * bytes) :=
  match recvs !! id with
  | Some r => Some (rv_data_rx r, rv_leftover r)
  | None =>
    match find_first (fun a => as_stream_id a =? id) (mx_accept m) with
    | Some a => Some (as_data_rx a, promoted id (as_open_payload a))
    | None => if id =? CONTROL_STREAM_ID then (fun ch => (ch, [])) <$> mx_control_slot m else None
    end
  end.

Abbreviation Holders := (Z -> option (ChanId * bytes)).

(** What a holder has delivered, holds and will find in its channel is exactly what arrived
    for the stream; its sender is in the table until FIN. *)
Definition held_ok (m : Inner) (srv : bool) (got : Z -> bytes) (rcvd : list Frame)
    (id : Z) (ch : ChanId) (rest : bytes) : Prop :=
  got id ++ rest ++ content m ch = payload_of id rcvd /\
  mx_streams m !! id = (if decide (stage_of (negb srv) id rcvd = StFin) then None else Some ch) /\
  (forall id', mx_streams m !! id' = Some ch -> id' = id) /\
  ch_rx_alive (chan_of m ch) = true /\ (ch < mx_next_chan m)%nat.

Definition RecvCore (H : Holders) (m : Inner) (srv : bool) (got : Z -> bytes)
    (rcvd : list Frame) : Prop :=
  (forall id ch rest, H id = Some (ch, rest) -> held_ok m srv got rcvd id ch rest) /\
  (forall id id' ch r r', H id = Some (ch, r) -> H id' = Some (ch, r') -> id = id') /\
  (forall id, got id `prefix_of` payload_of id rcvd) /\
  (forall id ch, mx_streams m !! id = Some ch -> (ch < mx_next_chan m)%nat) /\
  (forall tx buf, mx_reader m = RdSend tx buf -> (tx < mx_next_chan m)%nat).

Definition hset (id : Z) (h : option (ChanId * bytes)) (H : Holders) : Holders :=
  fun i => if decide (i = id) then h else H i.

Lemma hset_here id h H : hset id h H id = h.
Proof. unfold hset. by rewrite decide_True. Qed.
Lemma hset_other id i h H : i <> id -> hset id h H i = H i.
Proof. intros. unfold hset. by rewrite decide_False. Qed.

Lemma hset_inj (id : Z) (ch : ChanId) (rest rest' : bytes) (H : Holders) :
  (forall i i' c r r', H i = Some (c, r) -> H i' = Some (c, r') -> i = i') ->
  H id = Some (ch, rest) ->
  forall i i' c r r', hset id (Some (ch, rest')) H i = Some (c, r) ->
    hset id (Some (ch, rest')) H i' = Some (c, r') -> i = i'.
Proof.
  intros Hinj Hid i i' c r r'. unfold hset. do 2 case_decide; subst; [done|..|apply Hinj].
  - intros [= <- <-] Hh. by eapply Hinj.
  - intros Hh [= <- <-]. by eapply Hinj.
Qed.

Lemma core_ext H H' m srv got rcvd :
  (forall id, H' id = H id) -> RecvCore H m srv got rcvd -> RecvCore H' m srv got rcvd.
Proof.
  intros E (H1 & H2 & H3 & H4 & H5). split_and!; try done.
  - intros id ch rest. rewrite E. apply H1.
  - intros id id' ch r r'. rewrite !E. apply H2.
Qed.

(** Letting go of a holder needs nothing. *)
Lemma core_forget id H m srv got rcvd :
  RecvCore H m srv got rcvd -> RecvCore (hset id None H) m srv got rcvd.
Proof.
  intros (H1 & H2 & H3 & H4 & H5). split_and!; try done.
  - intros i ch rest. unfold hset. case_decide; [done|apply H1].
  - intros i i' ch r r'. unfold hset. case_decide; [done|]. case_decide; [done|]. apply H2.
Qed.

Lemma held_ok_log m srv got got' rcvd rcvd' id ch rest :
  frames_of id rcvd' = frames_of id rcvd -> got' id = got id ->
  held_ok m srv got rcvd id ch rest -> held_ok m srv got' rcvd' id ch rest.
Proof. unfold held_ok, stage_of, payload_of. by intros -> ->. Qed.

(** A fresh channel for a stream nobody holds. *)
Lemma core_new id rest H m srv got rcvd rcvd' :
  RecvCore H m srv got rcvd -> H id = None -> got id = [] ->
  payload_of id rcvd' = rest -> stage_of (negb srv) id rcvd' <> StFin ->
  (forall i, i <> id -> frames_of i rcvd' = frames_of i rcvd) ->
  RecvCore (hset id (Some (mx_next_chan m, rest)) H) (new_channel id m).2 srv got rcvd'.
Proof.
  intros (H1 & H2 & H3 & H4 & H5) Hno Hgot Hpay Hst Hfr.
  assert (Hch : forall ch, ch <> mx_next_chan m -> chan_of (new_channel id m).2 ch = chan_of m ch).
  { intros ch Hn. unfold chan_of. cbn. by rewrite lookup_insert_ne by done. }
  assert (Hnew : chan_of (new_channel id m).2 (mx_next_chan m) = empty_chan).
  { unfold chan_of. cbn. by rewrite lookup_insert_eq. }
  split_and!.
  - intros i ch r. destruct (decide (i = id)) as [->|Hi].
    + rewrite hset_here. intros [= <- <-]. unfold held_ok, content. rewrite Hnew, Hgot, Hpay. cbn.
      split_and!; [|by rewrite lookup_insert_eq, decide_False| |done|lia].
      * replace (in_hand _ _) with (@nil Z); [by rewrite app_nil_r|].
        unfold in_hand. destruct (mx_reader m) as [| |tx buf|] eqn:Er; try done.
        case_decide; [|done]. specialize (H5 _ _ eq_refl). lia.
      * intros i. destruct (decide (i = id)) as [->|Hi]; [done|].
        rewrite lookup_insert_ne by done. intros Hs%H4. lia.
    + rewrite hset_other by done. intros Hh. pose proof (H1 _ _ _ Hh) as Hok.
      assert (ch < mx_next_chan m)%nat by apply Hok.
      eapply held_ok_log; [by apply Hfr|done|]. destruct Hok as (Ha & Hb & Hc & Hd & He).
      unfold held_ok, content. rewrite Hch by lia. cbn.
      rewrite lookup_insert_ne by done. split_and!; try done; [|lia].
      intros i'. destruct (decide (i' = id)) as [->|Hi']; [|by rewrite lookup_insert_ne; auto].
      rewrite lookup_insert_eq. intros [= E]. lia.
  - intros i i' ch r r'. unfold hset. do 2 case_decide; subst; [done|..].
    + intros [= <- <-] Hh. apply H1 in Hh as (_ & _ & _ & _ & ?). lia.
    + intros Hh [= <- <-]. apply H1 in Hh as (_ & _ & _ & _ & ?). lia.
    + apply H2.
  - intros i. destruct (decide (i = id)) as [->|Hi]; [rewrite Hgot; apply prefix_nil|].
    unfold payload_of. rewrite Hfr by done. apply H3.
  - intros i ch. cbn. destruct (decide (i = id)) as [->|Hi].
    + rewrite lookup_insert_eq. intros [= <-]. lia.
    + rewrite lookup_insert_ne by done. intros Hs%H4. lia.
  - intros tx buf Hr%H5. cbn. lia.
Qed.

(** Other holders keep what they have when one channel, held by [id] or by nobody,
    changes and the table loses at most entries of [id]. *)
Lemma held_ok_other m m' srv got rcvd i ch rest ch0 id :
  held_ok m srv got rcvd i ch rest -> ch <> ch0 -> i <> id ->
  (forall c, c <> ch0 -> chan_of m' c = chan_of m c) ->
  (forall c, c <> ch0 -> in_hand (mx_reader m') c = in_hand (mx_reader m) c) ->
  (forall i', i' <> id -> mx_streams m' !! i' = mx_streams m !! i') ->
  (forall c, mx_streams m' !! id = Some c -> mx_streams m !! id = Some c) ->
  mx_next_chan m' = mx_next_chan m ->
  held_ok m' srv got rcvd i ch rest.
Proof.
  intros (Ha & Hb & Hc & Hd & He) Hn Hi Hch Hh Hs Hsi Hx. unfold held_ok, content.
  rewrite Hch, Hh, Hs, Hx by done. split_and!; try done.
  intros i' Hi'. apply Hc. destruct (decide (i' = id)) as [->|]; [by apply Hsi|by rewrite <-Hs].
Qed.

(** Bytes move from the holder to the application. *)
Lemma core_deliver id ch bs rest H m srv got rcvd :
  RecvCore H m srv got rcvd -> H id = Some (ch, bs ++ rest) ->
  RecvCore (hset id (Some (ch, rest)) H) m srv (add_at id bs got) rcvd.
Proof.
  intros (H1 & H2 & H3 & H4 & H5) Hid. pose proof (H1 _ _ _ Hid) as (Ha & Hb & Hc & Hd & He).
  split_and!; try done.
  - intros i c r. destruct (decide (i = id)) as [->|Hi].
    + rewrite hset_here. intros [= <- <-]. unfold held_ok. rewrite add_at_here.
      split_and!; try done. by rewrite <-Ha, <-!app_assoc.
    + rewrite hset_other by done. intros Hh%H1. eapply held_ok_log; [done| |done].
      by rewrite add_at_other.
  - by eapply hset_inj.
  - intros i. destruct (decide (i = id)) as [->|Hi].
    + rewrite add_at_here, <-Ha. rewrite <-(app_assoc bs), app_assoc. by apply prefix_app_r.
    + rewrite add_at_other by done. apply H3.
Qed.

Definition set_chan (ch : ChanId) (c : Chan) (m : Inner) : Inner :=
  with_chans (<[ch := c]> (mx_chans m)) (mx_next_chan m) m.

Lemma chan_of_set ch c m : chan_of (set_chan ch c m) ch = c.
Proof. unfold chan_of, set_chan. cbn. by rewrite lookup_insert_eq. Qed.
Lemma chan_of_set_ne ch ch' c m : ch' <> ch -> chan_of (set_chan ch c m) ch' = chan_of m ch'.
Proof. intros. unfold chan_of, set_chan. cbn. by rewrite lookup_insert_ne. Qed.

(** A chunk moves from the channel to its holder. *)
Lemma core_pop id ch chunk q H m srv got rcvd :
  RecvCore H m srv got rcvd -> H id = Some (ch, []) -> ch_queue (chan_of m ch) = chunk :: q ->
  RecvCore (hset id (Some (ch, chunk)) H)
    (set_chan ch {| ch_queue := q; ch_rx_alive := ch_rx_alive (chan_of m ch) |} m) srv got rcvd.
Proof.
  intros (H1 & H2 & H3 & H4 & H5) Hid Hq. pose proof (H1 _ _ _ Hid) as (Ha & Hb & Hc & Hd & He).
  split_and!; try done.
  - intros i c r. destruct (decide (i = id)) as [->|Hi].
    + rewrite hset_here. intros [= <- <-]. unfold held_ok, content. rewrite chan_of_set.
      split_and!; try done. rewrite <-Ha. unfold content. rewrite Hq. cbn. by rewrite <-!app_assoc.
    + rewrite hset_other by done. intros Hh. pose proof (H1 _ _ _ Hh) as Hok.
      eapply (held_ok_other m _ _ _ _ _ _ _ ch id); try done.
      * intros ->. apply Hi. by eapply H2.
      * intros c' Hc'. by apply chan_of_set_ne.
  - by eapply hset_inj.
Qed.

(** The receive half is dropped. *)
Lemma core_drop id ch rest H m srv got rcvd r :
  RecvCore H m srv got rcvd -> H id = Some (ch, rest) ->
  rv_stream_id r = id -> rv_data_rx r = ch ->
  RecvCore (hset id None H) (drop_recv r m) srv got rcvd.
Proof.
  intros (H1 & H2 & H3 & H4 & H5) Hid <- <-. split_and!; try done.
  - intros i c rs. unfold hset. case_decide as Hi; [done|]. intros Hh.
    pose proof (H1 _ _ _ Hh) as Hok.
    eapply (held_ok_other m _ _ _ _ _ _ _ (rv_data_rx r) (rv_stream_id r)); try done.
    + intros ->. apply Hi. by eapply H2.
    + intros c' Hc'. unfold chan_of. cbn. by rewrite lookup_insert_ne.
    + intros i' Hi'. cbn. by rewrite lookup_delete_ne.
    + intros c'. cbn. by rewrite lookup_delete_eq.
  - intros i i' c rs rs'. unfold hset. case_decide; [done|]. case_decide; [done|]. apply H2.
  - intros i c. cbn. intros [_ Hs]%lookup_delete_Some. by eapply H4.
Qed.

(** A receiver nobody holds any more goes out of scope. *)
Lemma core_drop_rx ch H m srv got rcvd :
  RecvCore H m srv got rcvd -> (forall id rest, H id <> Some (ch, rest)) ->
  RecvCore H (drop_rx ch m) srv got rcvd.
Proof.
  intros (H1 & H2 & H3 & H4 & H5) Hno. split_and!; try done. intros i c rs Hh.
  destruct (decide (c = ch)) as [->|Hc]; [by destruct (Hno i rs)|].
  destruct (H1 _ _ _ Hh) as (Ha & Hb & Hd & He & Hf). unfold held_ok, content.
  assert (chan_of (drop_rx ch m) c = chan_of m c) as -> by (by apply chan_of_set_ne).
  by split_and!.
Qed.

(** The reader moves between states in which it holds no chunk. *)
Lemma core_reader H m srv got rcvd rd :
  RecvCore H m srv got rcvd -> (forall c, in_hand rd c = in_hand (mx_reader m) c) ->
  (forall tx buf, rd = RdSend tx buf -> (tx < mx_next_chan m)%nat) ->
  RecvCore H (with_reader rd m) srv got rcvd.
Proof.
  intros (H1 & H2 & H3 & H4 & H5) Hh Htx. split_and!; try done.
  intros i c r Hi. destruct (H1 _ _ _ Hi) as (Ha & Hb & Hc & Hd & He).
  unfold held_ok, content. cbn. rewrite Hh. by split_and!.
Qed.

Lemma prefix_payload id rcvd fs bs :
  bs `prefix_of` payload_of id rcvd -> bs `prefix_of` payload_of id (rcvd ++ fs).
Proof. intros H. rewrite payload_of_app. by apply prefix_app_r. Qed.

(** A DATA frame arrives while the reader's hands are empty. *)
Lemma core_data h p H m srv got rcvd :
  RecvCore H m srv got rcvd -> (forall c, in_hand (mx_reader m) c = []) -> mh_flag h = Data ->
  stage_of (negb srv) (mh_stream_id h) (rcvd ++ [(h, p)]) <> StBad ->
  RecvCore H (dispatch_frame h p m) srv got (rcvd ++ [(h, p)]).
Proof.
  intros Hcore Hh Hf Hst. pose proof Hcore as (H1 & H2 & H3 & H4 & H5).
  rewrite stage_push, Hf in Hst by done.
  set (rd := match mx_streams m !! mh_stream_id h with Some tx => RdSend tx p | None => RdHeader end).
  replace (dispatch_frame h p m) with (with_reader rd m)
    by (unfold dispatch_frame, rd; rewrite Hf; by destruct (_ !! _)).
  split_and!; [|done| |done|].
  - intros i c r Hi. destruct (H1 _ _ _ Hi) as (Ha & Hb & Hc & Hd & He).
    unfold held_ok, content in *. cbn [mx_reader mx_streams mx_next_chan with_reader].
    rewrite Hh, app_nil_r in Ha.
    change (chan_of (with_reader rd m) c) with (chan_of m c).
    destruct (decide (i = mh_stream_id h)) as [->|Hn].
    + rewrite stage_push, Hf, payload_of_app, payload_of_here by done.
      assert (Hno : stage_of (negb srv) (mh_stream_id h) rcvd = StOpen).
      { by destruct (stage_of (negb srv) (mh_stream_id h) rcvd). }
      rewrite Hno in Hb |- *. simpl in Hb |- *. split_and!; try done.
      unfold rd. rewrite Hb. simpl. rewrite decide_True by done. by rewrite <-Ha, <-!app_assoc.
    + rewrite stage_of_app, payload_of_app, frames_of_other, payload_of_other, app_nil_r by done.
      split_and!; try done. replace (in_hand rd c) with (@nil Z); [by rewrite app_nil_r|].
      unfold rd. destruct (mx_streams m !! mh_stream_id h) as [tx|] eqn:Es; [|done]. simpl.
      rewrite decide_False; [done|]. intros ->. apply Hn. symmetry. by apply Hc.
  - intros i. by apply prefix_payload.
  - intros tx buf. cbn. unfold rd. destruct (mx_streams m !! _) as [tx'|] eqn:Es; [|done].
    intros [= <- _]. by eapply H4.
Qed.

(** A FIN arrives: the table forgets the stream. *)
Lemma core_fin h H m srv got rcvd :
  RecvCore H m srv got rcvd -> (forall c, in_hand (mx_reader m) c = []) -> mh_flag h = Fin ->
  stage_of (negb srv) (mh_stream_id h) (rcvd ++ [(h, [])]) <> StBad ->
  RecvCore H (dispatch_frame h [] m) srv got (rcvd ++ [(h, [])]).
Proof.
  intros (H1 & H2 & H3 & H4 & H5) Hh Hf Hst. rewrite stage_push, Hf in Hst by done.
  unfold dispatch_frame. rewrite Hf.
  split_and!; [|done| | |done].
  - intros i c r Hi. destruct (H1 _ _ _ Hi) as (Ha & Hb & Hc & Hd & He).
    unfold held_ok, content in *. rewrite Hh, app_nil_r in Ha. cbn. rewrite app_nil_r.
    change (chan_of (with_reader _ _) c) with (chan_of m c).
    destruct (decide (i = mh_stream_id h)) as [->|Hn].
    + rewrite stage_push, Hf, payload_of_app, payload_of_here, app_nil_r by done.
      assert (Hno : stage_of (negb srv) (mh_stream_id h) rcvd = StOpen).
      { by destruct (stage_of (negb srv) (mh_stream_id h) rcvd). }
      rewrite Hno. simpl. rewrite lookup_delete_eq. split_and!; try done.
      intros id' [_ Hs]%lookup_delete_Some. by apply Hc.
    + rewrite stage_of_app, payload_of_app, frames_of_other, payload_of_other, app_nil_r by done.
      rewrite lookup_delete_ne by done. split_and!; try done.
      intros id' [_ Hs]%lookup_delete_Some. by apply Hc.
  - intros i. by apply prefix_payload.
  - intros i c. cbn. intros [_ Hs]%lookup_delete_Some. by eapply H4.
Qed.

(** The chunk in the reader's hand is queued, or discarded with its dead receiver. *)
Lemma core_push tx buf H m srv got rcvd :
  RecvCore H m srv got rcvd -> mx_reader m = RdSend tx buf -> ch_rx_alive (chan_of m tx) = true ->
  RecvCore H (with_reader RdHeader
    (set_chan tx {| ch_queue := ch_queue (chan_of m tx) ++ [buf]; ch_rx_alive := true |} m))
    srv got rcvd.
Proof.
  intros (H1 & H2 & H3 & H4 & H5) Hr Hal. split_and!; try done.
  intros i c r Hi. destruct (H1 _ _ _ Hi) as (Ha & Hb & Hc & Hd & He).
  unfold held_ok, content in *. rewrite Hr in Ha. cbn [mx_reader in_hand with_reader].
  change (chan_of (with_reader RdHeader ?x) c) with (chan_of x c). cbn in Ha.
  destruct (decide (tx = c)) as [->|Hn].
  - rewrite chan_of_set. cbn. rewrite concat_app. cbn. rewrite !app_nil_r. by split_and!.
  - by rewrite chan_of_set_ne.
Qed.

Lemma core_discard tx buf H m srv got rcvd :
  RecvCore H m srv got rcvd -> mx_reader m = RdSend tx buf -> ch_rx_alive (chan_of m tx) = false ->
  RecvCore H (with_reader RdHeader m) srv got rcvd.
Proof.
  intros (H1 & H2 & H3 & H4 & H5) Hr Hal. split_and!; try done.
  intros i c r Hi. destruct (H1 _ _ _ Hi) as (Ha & Hb & Hc & Hd & He).
  unfold held_ok, content in *. rewrite Hr in Ha. cbn in Ha |- *.
  rewrite decide_False in Ha by congruence. by split_and!.
Qed.

(** ** One side *)

(** A half that saw the end of its stream has delivered everything that arrived. *)
Definition EofInv (srv : bool) (recvs : gmap Z TcpMuxRecvStream) (got : Z -> bytes)
    (rcvd : list Frame) : Prop :=
  forall id r, recvs !! id = Some r ->
    rv_stream_id r = id /\
    (rv_eof r = true -> stage_of (negb srv) id rcvd = StFin /\ rv_leftover r = [] /\
                        got id = payload_of id rcvd).

(** Where stream ids come from: minted here below [next], or opened by the peer. *)
Definition foreign (srv : bool) (id : Z) (rcvd : list Frame) : Prop :=
  own srv id = false /\ (id = CONTROL_STREAM_ID \/ frames_of id rcvd <> []).

Definition Origin (m : Inner) (sends : gmap Z TcpMuxSendStream)
    (recvs : gmap Z TcpMuxRecvStream) (got : Z -> bytes) (rcvd : list Frame) : Prop :=
  let srv := mx_is_server m in
  own srv (mx_next_stream_id m) = true /\ 0 < mx_next_stream_id m < 2 ^ 32 /\
  (forall id s, sends !! id = Some s ->
     own srv id = true /\ id < mx_next_stream_id m \/ foreign srv id rcvd) /\
  (forall a, a ∈ mx_accept m ->
     sends !! as_stream_id a = None /\ in_u 32 (as_stream_id a) /\
     foreign srv (as_stream_id a) rcvd) /\
  NoDup (as_stream_id <$> mx_accept m) /\
  (is_Some (mx_control_slot m) ->
     sends !! CONTROL_STREAM_ID = None /\ CONTROL_STREAM_ID ∉ as_stream_id <$> mx_accept m) /\
  (forall id, sends !! id = None -> got id = [] /\ recvs !! id = None).

Definition SideInv (sd : Side) : Prop :=
  let m := sd_mux sd in
  SendInv (mx_is_server m) (mx_writer_alive m) (sd_sends sd) (sd_put sd) (sd_sent sd) /\
  Origin m (sd_sends sd) (sd_recvs sd) (sd_got sd) (sd_rcvd sd) /\
  RecvCore (holder m (sd_recvs sd)) m (mx_is_server m) (sd_got sd) (sd_rcvd sd) /\
  EofInv (mx_is_server m) (sd_recvs sd) (sd_got sd) (sd_rcvd sd).

Lemma foreign_app srv id rcvd fs : foreign srv id rcvd -> foreign srv id (rcvd ++ fs).
Proof.
  intros [Ho [?|Hf]]; (split; [done|]); [by left|right]. rewrite frames_of_app.
  intros [E _]%app_eq_nil. by apply Hf.
Qed.

Lemma foreign_not_own srv id rcvd : foreign srv id rcvd -> own srv id = false.
Proof. by intros []. Qed.

(** Nobody holds a stream that is neither handed out, nor queued, nor the control slot's. *)
Lemma holder_none m sends recvs got rcvd id :
  Origin m sends recvs got rcvd -> sends !! id = None ->
  id ∉ as_stream_id <$> mx_accept m -> (id = CONTROL_STREAM_ID -> mx_control_slot m = None) ->
  holder m recvs id = None.
Proof.
  intros (_ & _ & _ & _ & _ & _ & Hn) Hs Ha Hc. unfold holder. destruct (Hn _ Hs) as [_ ->].
  destruct (find_first _ _) as [a|] eqn:Ef.
  - apply find_first_Some in Ef as [Hin Hid]. apply Z.eqb_eq in Hid as <-. destruct Ha.
    apply list_elem_of_fmap. by exists a.
  - destruct (id =? _) eqn:Ei; [|done]. apply Z.eqb_eq in Ei. by rewrite Hc.
Qed.

Lemma holder_recv m recvs id r :
  recvs !! id = Some r -> holder m recvs id = Some (rv_data_rx r, rv_leftover r).
Proof. unfold holder. by intros ->. Qed.

(** Handing a half to the application replaces the holder of its stream. *)
Lemma holder_insert m recvs id r i :
  holder m (<[id := r]> recvs) i = hset id (Some (rv_data_rx r, rv_leftover r)) (holder m recvs) i.
Proof.
  unfold holder, hset. case_decide as E; [subst; by rewrite lookup_insert_eq|].
  by rewrite lookup_insert_ne.
Qed.

(** A minted id is fresh: nothing was sent, received or held under it. *)
Lemma minted_fresh sd (id := mx_next_stream_id (sd_mux sd)) :
  SideInv sd ->
  sd_sends sd !! id = None /\ in_u 32 id /\ own (mx_is_server (sd_mux sd)) id = true /\
  id ∉ as_stream_id <$> mx_accept (sd_mux sd) /\ id <> CONTROL_STREAM_ID.
Proof.
  intros (_ & (Ho & Hr & Hs & Ha & _) & _ & _). fold id in Ho, Hr, Hs. split_and!.
  - destruct (sd_sends sd !! id) as [s|] eqn:E; [|done].
    destruct (Hs _ _ E) as [[_ ?]|[? _]]; [lia|congruence].
  - split; lia.
  - done.
  - intros (a & E & Hin)%list_elem_of_fmap. destruct (Ha _ Hin) as (_ & _ & [Hf _]). congruence.
  - intros E. by rewrite E in Ho.
Qed.

(** The receive half of a freshly minted stream. *)
Lemma open_recv sd s (id := mx_next_stream_id (sd_mux sd))
    (m' := (new_channel id (mint_stream_id (sd_mux sd)).2).2)
    (r := recv_half id (mx_next_chan (sd_mux sd)) []) :
  SideInv sd -> id + 2 < 2 ^ 32 -> frames_of id (sd_rcvd sd) = [] ->
  Origin m' (<[id := s]> (sd_sends sd)) (<[id := r]> (sd_recvs sd)) (sd_got sd) (sd_rcvd sd) /\
  RecvCore (holder m' (<[id := r]> (sd_recvs sd))) m' (mx_is_server m') (sd_got sd) (sd_rcvd sd) /\
  EofInv (mx_is_server m') (<[id := r]> (sd_recvs sd)) (sd_got sd) (sd_rcvd sd).
Proof.
  intros Hinv Hmax Hfr. destruct (minted_fresh sd Hinv) as (Hno & Hid & Hown & Hna & Hn0).
  fold id in Hno, Hid, Hown, Hna, Hn0.
  destruct Hinv as (_ & Hor & Hcore & Heof). pose proof Hor as (H1 & H2 & H3 & H4 & H5 & H6 & H7).
  split_and!.
  - assert (Hw : wrap 32 (id + 2) = id + 2).
    { unfold wrap. destruct Hid. apply Z.mod_small. lia. }
    unfold Origin, m', new_channel, mint_stream_id. cbn. fold id. rewrite Hw. destruct Hid.
    split_and!; [apply own_next; [done|lia]|lia|lia|..].
    + intros i s'. destruct (decide (i = id)) as [->|Hi].
      * rewrite lookup_insert_eq. intros _. left. split; [done|lia].
      * rewrite lookup_insert_ne by done. intros Hs. fold id in H3.
        destruct (H3 _ _ Hs) as [[??]|?]; [left; split; [done|lia]|by right].
    + intros a Ha. destruct (H4 _ Ha) as (Hs & Hf). rewrite lookup_insert_ne; [done|].
      intros E. apply Hna, list_elem_of_fmap. by exists a.
    + done.
    + intros Hs. destruct (H6 Hs) as [??]. by rewrite lookup_insert_ne.
    + intros i [Hs Hi]%lookup_insert_None. rewrite lookup_insert_ne by done. by apply H7.
  - eapply core_ext; [intros i; apply holder_insert|].
    apply (core_new id [] (holder m' (sd_recvs sd)) (mint_stream_id (sd_mux sd)).2 _ _ (sd_rcvd sd)).
    + exact Hcore.
    + apply (holder_none (sd_mux sd) (sd_sends sd) _ (sd_got sd) (sd_rcvd sd)); try done.
    + by apply H7.
    + by apply payload_of_nil.
    + unfold stage_of, start. rewrite Hfr. unfold stage_from. cbn. by case_match.
    + done.
  - intros i r'. destruct (decide (i = id)) as [->|Hi].
    + rewrite lookup_insert_eq. by intros [= <-].
    + rewrite lookup_insert_ne by done. apply Heof.
Qed.

(** A new send half: with the OPEN to come on a minted stream, open on any other. *)
Lemma send_ok_fresh srv alive id (sent : list Frame) :
  frames_of id sent = [] ->
  send_ok srv alive id (send_half id (if own srv id then Some [] else None)) [] sent.
Proof.
  intros Hf. unfold send_ok, stage_of, start, expected. rewrite Hf, (payload_of_nil _ _ Hf).
  unfold stage_from. cbn. destruct (own srv id) eqn:Eo; cbn; split_and!; try done.
  intros p [= <-]. split_and!; try done. simpl. lia.
Qed.

(** The application takes over a stream the mux already holds for it: the control slot's
    or the head of the accept queue. *)
Lemma adopt_held sd m' id r :
  SideInv sd -> holder (sd_mux sd) (sd_recvs sd) id = Some (rv_data_rx r, rv_leftover r) ->
  rv_stream_id r = id -> rv_eof r = false ->
  mx_streams m' = mx_streams (sd_mux sd) -> mx_chans m' = mx_chans (sd_mux sd) ->
  mx_next_chan m' = mx_next_chan (sd_mux sd) -> mx_reader m' = mx_reader (sd_mux sd) ->
  mx_is_server m' = mx_is_server (sd_mux sd) ->
  (forall i, i <> id -> holder m' (sd_recvs sd) i = holder (sd_mux sd) (sd_recvs sd) i) ->
  RecvCore (holder m' (<[id := r]> (sd_recvs sd))) m' (mx_is_server m') (sd_got sd) (sd_rcvd sd) /\
  EofInv (mx_is_server m') (<[id := r]> (sd_recvs sd)) (sd_got sd) (sd_rcvd sd).
Proof.
  intros (_ & _ & Hcore & Heof) Hh Hid Hne E1 E2 E3 E4 E5 Hother. rewrite E5. split.
  - eapply (core_ext (holder (sd_mux sd) (sd_recvs sd))).
    + intros i. rewrite holder_insert. destruct (decide (i = id)) as [->|Hi].
      * by rewrite hset_here.
      * rewrite hset_other by done. by apply Hother.
    + unfold RecvCore, held_ok, content, chan_of in *. by rewrite E1, E2, E3, E4.
  - intros i r'. destruct (decide (i = id)) as [->|Hi].
    + rewrite lookup_insert_eq. intros [= <-]. by rewrite Hne.
    + rewrite lookup_insert_ne by done. apply Heof.
Qed.

Lemma find_first_cons_ne (a : AcceptedStream) l i :
  as_stream_id a <> i ->
  find_first (fun a => as_stream_id a =? i) (a :: l) = find_first (fun a => as_stream_id a =? i) l.
Proof. intros H. simpl. by rewrite (proj2 (Z.eqb_neq _ _) H). Qed.

Lemma accept_recv sd a rest s (id := as_stream_id a) (m' := with_accept rest (sd_mux sd))
    (r := recv_half id (as_data_rx a) (promoted id (as_open_payload a))) :
  SideInv sd -> mx_accept (sd_mux sd) = a :: rest ->
  Origin m' (<[id := s]> (sd_sends sd)) (<[id := r]> (sd_recvs sd)) (sd_got sd) (sd_rcvd sd) /\
  RecvCore (holder m' (<[id := r]> (sd_recvs sd))) m' (mx_is_server m') (sd_got sd) (sd_rcvd sd) /\
  EofInv (mx_is_server m') (<[id := r]> (sd_recvs sd)) (sd_got sd) (sd_rcvd sd).
Proof.
  intros Hinv Ha. pose proof Hinv as (_ & (H1 & H2 & H3 & H4 & H5 & H6 & H7) & _).
  rewrite Ha in H4, H5, H6. destruct (H4 a) as (Hs & Hu & Hf); [apply list_elem_of_here|].
  rewrite fmap_cons in H5, H6. apply list.NoDup_cons in H5 as [Hnin Hnd].
  destruct (H7 _ Hs) as [Hg Hr]. split.
  - unfold Origin, m'. cbn. split_and!; [done|lia|lia|..].
    + intros i s'. destruct (decide (i = id)) as [->|Hi].
      * rewrite lookup_insert_eq. intros _. by right.
      * rewrite lookup_insert_ne by done. apply H3.
    + intros a' Ha'. destruct (H4 a') as (Hs' & Hu' & Hf'); [by apply list_elem_of_further|].
      rewrite lookup_insert_ne; [done|]. intros E. apply Hnin, list_elem_of_fmap. by exists a'.
    + done.
    + intros Hsl. destruct (H6 Hsl) as [Hc Hn]. apply not_elem_of_cons in Hn as [Hn1 Hn2].
      by rewrite lookup_insert_ne.
    + intros i [Hs' Hi]%lookup_insert_None. rewrite lookup_insert_ne by done. by apply H7.
  - apply adopt_held; try done.
    + unfold holder. fold id in Hr. rewrite Hr, Ha. simpl. unfold id. by rewrite Z.eqb_refl.
    + intros i Hi. unfold holder. rewrite Ha. by rewrite find_first_cons_ne.
Qed.

Lemma control_recv sd rx s (m' := with_slot None (sd_mux sd))
    (r := recv_half CONTROL_STREAM_ID rx []) :
  SideInv sd -> mx_control_slot (sd_mux sd) = Some rx ->
  Origin m' (<[CONTROL_STREAM_ID := s]> (sd_sends sd)) (<[CONTROL_STREAM_ID := r]> (sd_recvs sd))
    (sd_got sd) (sd_rcvd sd) /\
  RecvCore (holder m' (<[CONTROL_STREAM_ID := r]> (sd_recvs sd))) m' (mx_is_server m')
    (sd_got sd) (sd_rcvd sd) /\
  EofInv (mx_is_server m') (<[CONTROL_STREAM_ID := r]> (sd_recvs sd)) (sd_got sd) (sd_rcvd sd).
Proof.
  intros Hinv Hslot. pose proof Hinv as (_ & (H1 & H2 & H3 & H4 & H5 & H6 & H7) & _).
  destruct H6 as [Hs Hn]; [by rewrite Hslot|]. destruct (H7 _ Hs) as [Hg Hr]. split.
  - unfold Origin, m'. cbn. split_and!; [done|lia|lia|..].
    + intros i s'. destruct (decide (i = CONTROL_STREAM_ID)) as [->|Hi].
      * rewrite lookup_insert_eq. intros _. right. split; [done|by left].
      * rewrite lookup_insert_ne by done. apply H3.
    + intros a Ha. destruct (H4 _ Ha) as (? & ?). rewrite lookup_insert_ne; [done|].
      intros E. apply Hn, list_elem_of_fmap. by exists a.
    + done.
    + by intros [].
    + intros i [Hs' Hi]%lookup_insert_None. rewrite lookup_insert_ne by done. by apply H7.
  - apply adopt_held; try done.
    + unfold holder. rewrite Hr, Hslot. destruct (find_first _ _) as [a|] eqn:Ef; [|done].
      apply find_first_Some in Ef as [Hin Hid]. apply Z.eqb_eq in Hid. destruct Hn.
      apply list_elem_of_fmap. by exists a.
    + intros i Hi. unfold holder. cbn. by rewrite (proj2 (Z.eqb_neq _ _) Hi).
Qed.

Lemma add_at_nil id f i : add_at id [] f i = f i.
Proof. unfold add_at. case_decide; [by rewrite app_nil_r|done]. Qed.

Lemma core_got_ext H m srv got got' rcvd :
  (forall i, got' i = got i) -> RecvCore H m srv got rcvd -> RecvCore H m srv got' rcvd.
Proof.
  intros E (H1 & H2 & H3 & H4 & H5). split_and!; try done.
  - intros id ch rest Hh. eapply held_ok_log; [done|apply E|by apply H1].
  - intros id. rewrite E. apply H3.
Qed.

(** No sender is left and nothing is queued: FIN arrived and everything was delivered. *)
Lemma channel_end H m srv got rcvd id ch :
  RecvCore H m srv got rcvd -> H id = Some (ch, []) ->
  ch_queue (chan_of m ch) = [] -> sender_alive m ch = false ->
  stage_of (negb srv) id rcvd = StFin /\ got id = payload_of id rcvd.
Proof.
  intros (H1 & _) Hh Hq Hs. destruct (H1 _ _ _ Hh) as (Ha & Hb & _ & _ & _).
  unfold sender_alive in Hs. apply orb_false_iff in Hs as [Ht Hr].
  apply bool_decide_eq_false in Ht. unfold content in Ha. rewrite Hq in Ha.
  replace (in_hand (mx_reader m) ch) with (@nil Z) in Ha.
  - cbn in Ha. rewrite app_nil_r in Ha. split; [|done]. case_decide; [done|].
    destruct Ht. by exists id, ch.
  - unfold in_hand. destruct (mx_reader m); try done.
    apply bool_decide_eq_false in Hr. by rewrite decide_False.
Qed.

Lemma poll_read_effect sd id n r bs r' m' :
  SideInv sd -> sd_recvs sd !! id = Some r -> poll_read n r (sd_mux sd) = Some (bs, r', m') ->
  RecvCore (hset id (Some (rv_data_rx r', rv_leftover r')) (holder (sd_mux sd) (sd_recvs sd)))
    m' (mx_is_server m') (add_at id bs (sd_got sd)) (sd_rcvd sd) /\
  rv_stream_id r' = id /\
  (rv_eof r' = true -> stage_of (negb (mx_is_server m')) id (sd_rcvd sd) = StFin /\
     rv_leftover r' = [] /\ add_at id bs (sd_got sd) id = payload_of id (sd_rcvd sd)) /\
  (m' = sd_mux sd \/ exists ch c, m' = set_chan ch c (sd_mux sd)).
Proof.
  intros (_ & _ & Hcore & Heof) Hr Hp. destruct (Heof _ _ Hr) as [Hid He].
  pose proof (holder_recv (sd_mux sd) _ _ _ Hr) as Hh. unfold poll_read in Hp.
  destruct (rv_leftover r) as [|b lo] eqn:El.
  2:{ injection Hp as <- <- <-. split_and!; [|done| |by left].
      - apply core_deliver; [done|]. rewrite Hh. f_equal. f_equal. cbn [rv_leftover set_leftover].
        by rewrite take_drop.
      - cbn. intros E. destruct (He E) as (_ & ? & _). done. }
  destruct (rv_eof r) eqn:Ee.
  { injection Hp as <- <- <-. destruct He as (Hst & _ & Hg); [done|].
    split_and!; [|done| |by left].
    - apply core_deliver; [done|]. by rewrite Hh, El.
    - intros _. by rewrite add_at_nil, El. }
  unfold poll_recv in Hp. destruct (ch_queue _) as [|chunk q] eqn:Eq.
  - destruct (sender_alive _ _) eqn:Es; [done|]. injection Hp as <- <- <-.
    destruct (channel_end _ _ _ _ _ _ _ Hcore Hh Eq Es) as [Hst Hg].
    split_and!; [|done| |by left].
    + apply core_deliver; [done|]. cbn. by rewrite Hh, El.
    + intros _. cbn; by rewrite add_at_nil.
  - injection Hp as <- <- <-.
    pose proof (core_pop _ _ _ _ _ _ _ _ _ Hcore Hh Eq) as Hpop.
    apply (core_deliver id (rv_data_rx r) (take n chunk) (drop n chunk)) in Hpop;
      [|by rewrite hset_here, take_drop].
    split_and!; [|done| |right; by eexists _, _].
    + eapply core_ext; [|exact Hpop]. intros i. unfold hset. by case_decide.
    + cbn. by rewrite Ee.
Qed.

Lemma Origin_recvs m m' sends recvs got rcvd id bs ro s :
  Origin m sends recvs got rcvd -> sends !! id = Some s ->
  mx_is_server m' = mx_is_server m -> mx_next_stream_id m' = mx_next_stream_id m ->
  mx_accept m' = mx_accept m -> mx_control_slot m' = mx_control_slot m ->
  Origin m' sends (partial_alter (fun _ => ro) id recvs) (add_at id bs got) rcvd.
Proof.
  intros (H1 & H2 & H3 & H4 & H5 & H6 & H7) Hs E1 E2 E3 E4.
  unfold Origin. rewrite E1, E2, E3, E4. split_and!; try done; [lia..|].
  intros i Hn. assert (i <> id) by congruence.
  rewrite add_at_other, lookup_partial_alter_ne by done. by apply H7.
Qed.

Lemma recvs_in_sends sd id r :
  SideInv sd -> sd_recvs sd !! id = Some r -> exists s, sd_sends sd !! id = Some s.
Proof.
  intros (_ & (_ & _ & _ & _ & _ & _ & H7) & _) Hr.
  destruct (sd_sends sd !! id) as [s|] eqn:E; [by exists s|]. destruct (H7 _ E). congruence.
Qed.
