(* ===== verification/MuxLink.v ===== *)
(** * MuxLink: two connections, one byte stream per stream

    The frames handed to one writer arrive at the other reader in order ([Fifo]), so the
    invariants of both sides ([MuxInv]) survive every step of either; the theorems say what
    the applications see of it. *)

From S2P Require Import Prelude Wire Framing TcpMux MuxInv.

Local Open Scope Z_scope.

(** ** The wire *)

Definition enc (fs : list Frame) : bytes := concat (map (fun f => frame_bytes f.1 f.2) fs).

(** The bytes in the pipe, with the part a failed write did not deliver, are the frames in
    flight; a reader that awaits a payload has taken the header of the first. *)
Definition wire (rd : ReaderState) (bs missing : bytes) (flight : list Frame) : Prop :=
  match rd with
  | RdHeader | RdSend _ _ => bs ++ missing = enc flight
  | RdPayload h => exists p fs, flight = (h, p) :: fs /\ bs ++ missing = p ++ enc fs
  | RdDone => True
  end.

(** Everything handed to the writer has been completed by the peer's reader, is in flight,
    or waits in the queue, in this order. *)
Definition Fifo (x : Side) (p : Pipe) (y : Side) : Prop :=
  exists flight missing,
    sd_sent x = sd_rcvd y ++ flight ++ out_frames (mx_out (sd_mux x)) /\
    (mx_writer_alive (sd_mux x) = true -> missing = []) /\
    wire (mx_reader (sd_mux y)) (pi_bytes p) missing flight.

(** What one step of the reader does to the connection. *)
Inductive reader_effect (m : Inner) : list Frame -> Inner -> Prop :=
| effect_dispatch h p :
    (forall c, in_hand (mx_reader m) c = []) -> frame_ok (h, p) -> (mh_flag h = Fin -> p = []) ->
    reader_effect m [(h, p)] (dispatch_frame h p m)
| effect_header h :
    (forall c, in_hand (mx_reader m) c = []) -> reader_effect m [] (with_reader (RdPayload h) m)
| effect_exit :
    (forall c, in_hand (mx_reader m) c = []) -> reader_effect m [] (reader_exit m)
| effect_queue tx buf :
    mx_reader m = RdSend tx buf -> ch_rx_alive (chan_of m tx) = true ->
    reader_effect m [] (with_reader RdHeader
      (set_chan tx {| ch_queue := ch_queue (chan_of m tx) ++ [buf]; ch_rx_alive := true |} m))
| effect_discard tx buf :
    mx_reader m = RdSend tx buf -> ch_rx_alive (chan_of m tx) = false ->
    reader_effect m [] (with_reader RdHeader m).

Lemma enc_cons f fs : enc (f :: fs) = MuxHeader_to_bytes f.1 ++ f.2 ++ enc fs.
Proof. unfold enc, frame_bytes. cbn. by rewrite <-app_assoc. Qed.

Lemma enc_app fs gs : enc (fs ++ gs) = enc fs ++ enc gs.
Proof. unfold enc. by rewrite map_app, concat_app. Qed.

(** A complete item at the front of the pipe. *)
Lemma take_front n (bs missing x rest : bytes) :
  bs ++ missing = x ++ rest -> (length x <= length bs)%nat -> length x = n ->
  take n bs = x /\ drop n bs ++ missing = rest.
Proof.
  intros E Hl <-. pose proof (f_equal (take (length x)) E) as Et.
  rewrite take_app_le, take_app_length in Et by done. split; [done|].
  apply (f_equal (drop (length x))) in E. by rewrite drop_app_le, drop_app_length in E.
Qed.

Lemma dispatch_reader h p m :
  frame_ok (h, p) ->
  mx_reader (dispatch_frame h p m) = RdHeader \/
  exists tx, mx_reader (dispatch_frame h p m) = RdSend tx p.
Proof.
  intros (_ & _ & _ & Ho). unfold dispatch_frame. destruct (mh_flag h) eqn:Ef.
  - cbn in Ho. rewrite (proj2 (Z.eqb_neq _ _) (Ho Ef)). by left.
  - destruct (_ !! _) as [tx|]; [right; by exists tx|by left].
  - by left.
Qed.

Lemma wire_dispatch h p m bs missing fs :
  frame_ok (h, p) -> bs ++ missing = enc fs -> wire (mx_reader (dispatch_frame h p m)) bs missing fs.
Proof. intros Hok E. by destruct (dispatch_reader h p m Hok) as [->|[tx ->]]. Qed.

Lemma payload_size h p :
  frame_ok (h, p) ->
  match mh_flag h with Open => 9%nat | _ => Z.to_nat (mh_payload_len h) end = length p.
Proof.
  intros ((_ & _ & _ & Ho) & Hl & _ & _). cbn in *. unfold len in Hl.
  destruct (mh_flag h); [specialize (Ho eq_refl)|..]; lia.
Qed.

Lemma fin_payload h p : frame_ok (h, p) -> mh_flag h = Fin -> p = [].
Proof.
  intros ((_ & _ & Hf & _) & Hl & _) E. cbn in *. rewrite (Hf E) in Hl. unfold len in Hl.
  by destruct p.
Qed.

(** A reader that awaits a header finds the next frame in flight. *)
Lemma reader_at_header p m missing flight p' m' :
  mx_reader m = RdHeader -> wire RdHeader (pi_bytes p) missing flight -> Forall frame_ok flight ->
  reader_step p m = Some (p', m') ->
  exists fl', flight = dispatched p m ++ fl' /\ reader_effect m (dispatched p m) m' /\
    wire (mx_reader m') (pi_bytes p') missing fl'.
Proof.
  intros Hr Hw Hok. unfold reader_step, dispatched. rewrite Hr.
  assert (Hh : forall c, in_hand (mx_reader m) c = []) by (by rewrite Hr).
  unfold pipe_read_exact. case_bool_decide as Hl.
  2:{ destruct (pi_ended p); [|done]. intros [= <- <-]. exists flight.
      split_and!; [done|by constructor|done]. }
  destruct flight as [|[h pl] fs].
  { cbn in Hw. apply (f_equal length) in Hw. rewrite length_app in Hw. cbn in Hw, Hl.
    unfold MUX_HEADER_SIZE in Hl. lia. }
  apply Forall_cons_1 in Hok as [Hf Hok]. cbn [wire] in Hw. rewrite enc_cons in Hw.
  destruct (take_front MUX_HEADER_SIZE _ _ _ _ Hw) as [Ht Hd]; [done|done|].
  rewrite Ht. pose proof Hf as (Hv & _ & Hmax & _).
  replace (MuxHeader_decode _) with (Ok (E := MuxHeaderError) h).
  2:{ symmetry. rewrite <-(app_nil_r (MuxHeader_to_bytes _)). by apply MuxHeader_decode_encode. }
  cbn [fst snd] in Hd, Hmax. destruct (mh_flag h) eqn:Ef; cbn [decide].
  - intros [= <- <-]. exists ((h, pl) :: fs). split_and!; [done|by constructor|]. by exists pl, fs.
  - replace (_ <? _) with false by (symmetry; apply Z.ltb_ge; auto).
    intros [= <- <-]. exists ((h, pl) :: fs). split_and!; [done|by constructor|]. by exists pl, fs.
  - intros [= <- <-]. pose proof (fin_payload h pl Hf Ef) as ->. exists fs.
    split_and!; [done|by constructor|]. by apply wire_dispatch.
Qed.

(** A reader that awaits a payload completes the frame. *)
Lemma reader_at_payload p m h missing flight p' m' :
  mx_reader m = RdPayload h -> wire (RdPayload h) (pi_bytes p) missing flight ->
  Forall frame_ok flight -> reader_step p m = Some (p', m') ->
  exists fl', flight = dispatched p m ++ fl' /\ reader_effect m (dispatched p m) m' /\
    wire (mx_reader m') (pi_bytes p') missing fl'.
Proof.
  intros Hr (pl & fs & -> & Hw) Hok. apply Forall_cons_1 in Hok as [Hf Hok].
  unfold reader_step, dispatched. rewrite Hr. cbv zeta. rewrite (payload_size h pl Hf).
  assert (Hh : forall c, in_hand (mx_reader m) c = []) by (by rewrite Hr).
  unfold pipe_read_exact. case_bool_decide as Hl.
  - destruct (take_front (length pl) _ _ _ _ Hw) as [Ht Hd]; [done|done|]. rewrite Ht.
    intros [= <- <-]. exists fs. split_and!; [done| |by apply wire_dispatch].
    constructor; try done. intros E. by eapply fin_payload.
  - destruct (pi_ended p); [|done]. intros [= <- <-]. exists ((h, pl) :: fs).
    split_and!; [done|by constructor|done].
Qed.

Lemma reader_wire p m missing flight p' m' :
  wire (mx_reader m) (pi_bytes p) missing flight -> Forall frame_ok flight ->
  reader_step p m = Some (p', m') ->
  exists fl', flight = dispatched p m ++ fl' /\ reader_effect m (dispatched p m) m' /\
    wire (mx_reader m') (pi_bytes p') missing fl'.
Proof.
  intros Hw Hok Hs. destruct (mx_reader m) as [|h|tx buf|] eqn:Er.
  - by eapply reader_at_header.
  - by eapply reader_at_payload.
  - exists flight. unfold reader_step, dispatched in *. rewrite Er in *.
    destruct (ch_rx_alive _) eqn:Ea; cbn [negb] in Hs.
    + case_bool_decide; [|done]. injection Hs as <- <-.
      split_and!; [done|by eapply effect_queue|done].
    + injection Hs as <- <-. split_and!; [done|by eapply effect_discard|done].
  - unfold reader_step in Hs. by rewrite Er in Hs.
Qed.

(** ** The receive side follows the reader *)

Lemma EofInv_log srv recvs got rcvd fs :
  EofInv srv recvs got rcvd -> (forall id, stage_of (negb srv) id (rcvd ++ fs) <> StBad) ->
  EofInv srv recvs got (rcvd ++ fs).
Proof.
  intros He Hst id r Hr. destruct (He _ _ Hr) as [Hid Hf]. split; [done|]. intros E.
  destruct (Hf E) as (Hs & Hl & Hg). destruct (stage_of_fin _ _ _ fs (Hst id) Hs) as [? Hp].
  by rewrite Hp.
Qed.

Lemma Origin_log m m' sends recvs got rcvd fs :
  Origin m sends recvs got rcvd ->
  mx_is_server m' = mx_is_server m -> mx_next_stream_id m' = mx_next_stream_id m ->
  mx_accept m' = mx_accept m -> mx_control_slot m' = mx_control_slot m ->
  Origin m' sends recvs got (rcvd ++ fs).
Proof.
  intros (H1 & H2 & H3 & H4 & H5 & H6 & H7) E1 E2 E3 E4. unfold Origin. rewrite E1, E2, E3, E4.
  split_and!; try done; [lia..| |].
  - intros id s Hs. destruct (H3 _ _ Hs) as [?|?]; [by left|right]. by apply foreign_app.
  - intros a Ha. destruct (H4 _ Ha) as (? & ? & ?). split_and!; try done. by apply foreign_app.
Qed.

(** A stream the peer opens is new here. *)
Lemma opened_fresh sd h p :
  SideInv sd -> mh_flag h = Open ->
  stage_of (negb (mx_is_server (sd_mux sd))) (mh_stream_id h) (sd_rcvd sd ++ [(h, p)]) <> StBad ->
  own (mx_is_server (sd_mux sd)) (mh_stream_id h) = false /\ mh_stream_id h <> CONTROL_STREAM_ID /\
  frames_of (mh_stream_id h) (sd_rcvd sd) = [] /\ sd_sends sd !! mh_stream_id h = None /\
  mh_stream_id h ∉ as_stream_id <$> mx_accept (sd_mux sd).
Proof.
  intros (_ & (H1 & H2 & H3 & H4 & _) & _) Hf Hst. rewrite stage_of_app, frames_of_here, Hf in Hst by done.
  apply stage_open_first in Hst as [Ho Hfr].
  assert (Hn : mh_stream_id h <> CONTROL_STREAM_ID) by (intros E; by rewrite E in Ho).
  rewrite own_negb in Ho by done. apply negb_true_iff in Ho.
  assert (Hnf : ~ foreign (mx_is_server (sd_mux sd)) (mh_stream_id h) (sd_rcvd sd)) by (by intros [_ []]).
  split_and!; try done.
  - destruct (sd_sends sd !! _) as [s|] eqn:E; [|done].
    destruct (H3 _ _ E) as [[? _]|?]; [congruence|done].
  - intros (a & E & Ha)%list_elem_of_fmap. destruct (H4 _ Ha) as (_ & _ & Hfo). by rewrite <-E in Hfo.
Qed.

Lemma find_first_snoc (a : AcceptedStream) l i :
  find_first (fun a => as_stream_id a =? i) (l ++ [a]) =
  match find_first (fun a => as_stream_id a =? i) l with
  | Some b => Some b
  | None => if as_stream_id a =? i then Some a else None
  end.
Proof. induction l as [|b l IH]; [done|]. simpl. by destruct (as_stream_id b =? i). Qed.

(** What an OPEN leaves in the connection, and who then holds the stream. *)
Definition opened (h : MuxHeader) (p : bytes) (m : Inner) : Inner :=
  with_reader RdHeader
    (with_accept (mx_accept m ++ [{| as_stream_id := mh_stream_id h; as_open_payload := p;
                                     as_data_rx := mx_next_chan m |}])
       (new_channel (mh_stream_id h) m).2).

Lemma dispatch_open h p m :
  mh_flag h = Open -> mh_stream_id h <> CONTROL_STREAM_ID -> dispatch_frame h p m = opened h p m.
Proof. intros Hf Hn. unfold dispatch_frame. by rewrite Hf, (proj2 (Z.eqb_neq _ _) Hn). Qed.

Lemma open_holder sd h p i :
  Origin (sd_mux sd) (sd_sends sd) (sd_recvs sd) (sd_got sd) (sd_rcvd sd) ->
  sd_sends sd !! mh_stream_id h = None ->
  mh_stream_id h ∉ as_stream_id <$> mx_accept (sd_mux sd) -> mh_stream_id h <> CONTROL_STREAM_ID ->
  holder (opened h p (sd_mux sd)) (sd_recvs sd) i =
  hset (mh_stream_id h) (Some (mx_next_chan (sd_mux sd), p)) (holder (sd_mux sd) (sd_recvs sd)) i.
Proof.
  intros (_ & _ & _ & _ & _ & _ & H7) Hs Hna Hn0. unfold hset, holder, opened. cbn.
  rewrite find_first_snoc. cbn. case_decide as Ei; [subst i|].
  - destruct (H7 _ Hs) as [_ ->]. rewrite Z.eqb_refl.
    destruct (find_first _ _) as [b|] eqn:Ef.
    + apply find_first_Some in Ef as [Hin Hid]. apply Z.eqb_eq in Hid. destruct Hna.
      apply list_elem_of_fmap. by exists b.
    + unfold promoted. cbn. by rewrite (proj2 (Z.eqb_neq _ _) Hn0).
  - rewrite (proj2 (Z.eqb_neq (mh_stream_id h) i)) by congruence.
    destruct (sd_recvs sd !! i); [done|]. by destruct (find_first _ _).
Qed.

Lemma open_dispatched sd h p (m' := dispatch_frame h p (sd_mux sd)) :
  SideInv sd -> (forall c, in_hand (mx_reader (sd_mux sd)) c = []) -> frame_ok (h, p) ->
  mh_flag h = Open ->
  (forall id, stage_of (negb (mx_is_server (sd_mux sd))) id (sd_rcvd sd ++ [(h, p)]) <> StBad) ->
  Origin m' (sd_sends sd) (sd_recvs sd) (sd_got sd) (sd_rcvd sd ++ [(h, p)]) /\
  RecvCore (holder m' (sd_recvs sd)) m' (mx_is_server (sd_mux sd)) (sd_got sd)
    (sd_rcvd sd ++ [(h, p)]).
Proof.
  intros Hinv Hh Hok Hf Hst. destruct (opened_fresh sd h p Hinv Hf (Hst _)) as (Ho & Hn0 & Hfr & Hs & Hna).
  pose proof Hinv as (_ & Hor & Hcore & _). pose proof Hor as (H1 & H2 & H3 & H4 & H5 & H6 & H7).
  unfold m'. rewrite dispatch_open by done. clear m'. split.
  - pose proof (Origin_log _ _ _ _ _ _ [(h, p)] Hor eq_refl eq_refl eq_refl eq_refl)
      as (_ & _ & G3 & G4 & _). unfold Origin. cbn. split_and!; try done; [lia|lia|..].
    + intros b [Hb| ->%list_elem_of_singleton]%elem_of_app; [by apply G4|]. cbn.
      split_and!; [done|apply Hok|]. split; [done|right]. rewrite frames_of_app, Hfr.
      by rewrite frames_of_here.
    + rewrite fmap_app. apply list.NoDup_app. split_and!; [done| |apply NoDup_singleton].
      intros i Hi ->%list_elem_of_singleton. by apply Hna.
    + intros Hsl. destruct (H6 Hsl) as [? Hn]. split; [done|]. rewrite fmap_app, not_elem_of_app.
      split; [done|]. cbn. rewrite list_elem_of_singleton. congruence.
  - apply core_reader; [|done|done].
    eapply core_ext.
    2:{ apply (core_new (mh_stream_id h) p (holder (sd_mux sd) (sd_recvs sd)) (sd_mux sd)
                 _ _ (sd_rcvd sd)); try done.
        - by eapply holder_none.
        - by apply H7.
        - by rewrite payload_of_app, payload_of_here, payload_of_nil.
        - rewrite stage_push, Hf by done. specialize (Hst (mh_stream_id h)).
          rewrite stage_push, Hf in Hst by done. by destruct (stage_of _ _ _).
        - intros i Hi. rewrite frames_of_app, frames_of_other, app_nil_r; [done|congruence]. }
    intros i. by apply (open_holder sd h p).
Qed.

(** ** One step of one side *)

Lemma pushed_same m m' : mx_out m' = mx_out m -> pushed m m' = [].
Proof. unfold pushed. intros ->. by rewrite drop_all. Qed.

(** What the reader leaves alone. *)
Lemma dispatch_keeps h p m (m' := dispatch_frame h p m) :
  mx_out m' = mx_out m /\ mx_writer_alive m' = mx_writer_alive m /\
  mx_is_server m' = mx_is_server m /\ mx_next_stream_id m' = mx_next_stream_id m /\
  mx_control_slot m' = mx_control_slot m /\ (mh_flag h <> Open -> mx_accept m' = mx_accept m).
Proof.
  unfold m', dispatch_frame. destruct (mh_flag h).
  - destruct (_ =? _); by split_and!.
  - destruct (_ !! _); by split_and!.
  - by split_and!.
Qed.

Lemma holder_keeps m m' recvs :
  mx_accept m' = mx_accept m -> mx_control_slot m' = mx_control_slot m ->
  forall i, holder m' recvs i = holder m recvs i.
Proof. intros E1 E2 i. unfold holder. by rewrite E1, E2. Qed.

Lemma reader_side sd fs m' :
  SideInv sd -> reader_effect (sd_mux sd) fs m' ->
  (forall id, stage_of (negb (mx_is_server (sd_mux sd))) id (sd_rcvd sd ++ fs) <> StBad) ->
  SideInv (log_rcvd fs (on_mux m' sd)).
Proof.
  intros Hinv Heff Hst. pose proof Hinv as (Hs & Hor & Hcore & Heof). unfold SideInv. cbn.
  destruct Heff as [h p Hh Hok Hfin|h Hh|Hh|tx buf Hr Ha|tx buf Hr Ha].
  - destruct (dispatch_keeps h p (sd_mux sd)) as (E1 & E2 & E3 & E4 & E5 & E6).
    rewrite pushed_same, app_nil_r, E2, E3 by done.
    split_and!; [done| | |by apply EofInv_log].
    + destruct (decide (mh_flag h = Open)) as [Hf|Hf]; [by apply open_dispatched|].
      eapply Origin_log; eauto.
    + destruct (mh_flag h) eqn:Hf.
      * by apply open_dispatched.
      * eapply core_ext; [by apply holder_keeps; [apply E6|]|]. by apply core_data.
      * rewrite (Hfin eq_refl). eapply core_ext; [|apply core_fin; try done].
        -- rewrite (Hfin eq_refl) in E5, E6. apply holder_keeps; [by apply E6|done].
        -- rewrite (Hfin eq_refl) in Hst. apply Hst.
  - rewrite pushed_same, !app_nil_r by done. split_and!; [done..| |done].
    by apply core_reader.
  - rewrite pushed_same, !app_nil_r by done. split_and!; [done..| |done].
    by apply (core_reader _ (with_closed (sd_mux sd))).
  - rewrite pushed_same, !app_nil_r by done. split_and!; [done..| |done]. by apply core_push.
  - rewrite pushed_same, !app_nil_r by done. split_and!; [done..| |done]. by eapply core_discard.
Qed.

(** An operation of the application: it may add to the writer's queue, and leaves the
    tasks and what was received alone. *)
Definition quiet (sd sd' : Side) : Prop :=
  (exists extra, mx_out (sd_mux sd') = mx_out (sd_mux sd) ++ extra /\
     sd_sent sd' = sd_sent sd ++ out_frames extra) /\
  mx_writer_alive (sd_mux sd') = mx_writer_alive (sd_mux sd) /\
  mx_reader (sd_mux sd') = mx_reader (sd_mux sd) /\
  mx_is_server (sd_mux sd') = mx_is_server (sd_mux sd) /\ sd_rcvd sd' = sd_rcvd sd.

Definition steps_to (sd sd' : Side) : Prop := SideInv sd' /\ quiet sd sd'.

Lemma quiet_same sd sd' :
  mx_out (sd_mux sd') = mx_out (sd_mux sd) -> sd_sent sd' = sd_sent sd ++ pushed (sd_mux sd) (sd_mux sd') ->
  mx_writer_alive (sd_mux sd') = mx_writer_alive (sd_mux sd) ->
  mx_reader (sd_mux sd') = mx_reader (sd_mux sd) ->
  mx_is_server (sd_mux sd') = mx_is_server (sd_mux sd) -> sd_rcvd sd' = sd_rcvd sd ->
  quiet sd sd'.
Proof.
  intros E Es. intros. split_and!; try done. exists []. rewrite app_nil_r. split; [done|].
  by rewrite Es, pushed_same.
Qed.

Lemma write_effect_side sd id s s' m' bs :
  SideInv sd -> sd_sends sd !! id = Some s ->
  write_effect (mx_is_server (sd_mux sd)) id s' (sd_mux sd) m' (sd_sent sd) (sd_put sd id ++ bs) ->
  steps_to sd (set_send id s' bs (on_mux m' sd)).
Proof.
  intros (Hs & Hor & Hcore & Heof) Hl (fs & -> & Hfs & Hok).
  assert (Hid : in_u 32 id) by (by destruct Hs as (Hs & _); destruct (Hs _ _ Hl)).
  split.
  - unfold SideInv. cbn. rewrite pushed_out, out_frames_as_out. split_and!; [| |done|done].
    + by apply SendInv_half.
    + destruct Hor as (H1 & H2 & H3 & H4 & H5 & H6 & H7). unfold Origin. cbn.
      split_and!; try done; [lia..| | | |].
      * intros i si. destruct (decide (i = id)) as [->|Hi].
        -- intros _. by eapply H3.
        -- rewrite lookup_insert_ne by done. apply H3.
      * intros a Ha. destruct (H4 _ Ha) as (Hn & ?). split; [|done].
        rewrite lookup_insert_ne; [done|]. intros E. congruence.
      * intros Hsl. destruct (H6 Hsl). split; [|done]. rewrite lookup_insert_ne; [done|]. congruence.
      * intros i [Hn Hi]%lookup_insert_None. by apply H7.
  - split_and!; try done. exists (as_out fs). split; [done|]. cbn. by rewrite pushed_out.
Qed.

Lemma write_side sd id s buf res s' m' :
  SideInv sd -> sd_sends sd !! id = Some s -> len buf <= MAX_MUX_PAYLOAD ->
  poll_write buf s (sd_mux sd) = (res, s', m') ->
  steps_to sd (set_send id s' (consumed buf res) (on_mux m' sd)).
Proof.
  intros Hinv Hl Hb Hw. pose proof Hinv as ((Hs & _) & _). destruct (Hs _ _ Hl).
  eapply write_effect_side; [done..|]. by eapply poll_write_effect.
Qed.

Lemma finish_side sd id s res s' m' :
  SideInv sd -> sd_sends sd !! id = Some s -> finish s (sd_mux sd) = (res, s', m') ->
  steps_to sd (set_send id s' (padding s) (on_mux m' sd)).
Proof.
  intros Hinv Hl Hw. pose proof Hinv as ((Hs & _) & _). destruct (Hs _ _ Hl).
  eapply write_effect_side; [done..|]. by eapply finish_effect.
Qed.

Lemma close_side sd : SideInv sd -> steps_to sd (on_mux (close (sd_mux sd)) sd).
Proof.
  intros Hinv. unfold close. destruct (mx_closed (sd_mux sd)).
  { split; [|by apply quiet_same]. unfold SideInv. cbn. by rewrite pushed_same, app_nil_r. }
  rewrite send_out_spec. cbn [snd mx_out with_closed mx_writer_alive].
  set (extra := if mx_writer_alive (sd_mux sd) then [OutFrame_Close] else []).
  assert (He : out_frames extra = []) by (unfold extra; by destruct (mx_writer_alive _)).
  split.
  - unfold SideInv. cbn. unfold pushed. cbn. rewrite drop_app_length, He, app_nil_r. exact Hinv.
  - split_and!; try done. exists extra. split; [done|]. cbn. unfold pushed. cbn.
    by rewrite drop_app_length.
Qed.

Lemma read_side sd id n r bs r' m' :
  SideInv sd -> sd_recvs sd !! id = Some r -> poll_read n r (sd_mux sd) = Some (bs, r', m') ->
  steps_to sd (set_recv id (Some r') bs (on_mux m' sd)).
Proof.
  intros Hinv Hr Hp. destruct (poll_read_effect _ _ _ _ _ _ _ Hinv Hr Hp) as (Hc & Hid & He & Hm).
  destruct (recvs_in_sends _ _ _ Hinv Hr) as [s Hs]. destruct Hinv as (Hsi & Hor & Hcore & Heof).
  assert (exists ch nx, m' = with_chans ch nx (sd_mux sd)) as (ch & nx & ->).
  { destruct Hm as [->|(c & x & ->)]; [|by eexists _, _]. exists (mx_chans (sd_mux sd)), (mx_next_chan (sd_mux sd)).
    by destruct (sd_mux sd). }
  split; [|by apply quiet_same]. unfold SideInv. cbn. rewrite pushed_same, app_nil_r by done.
  split_and!; [done| | |].
  - by eapply Origin_recvs.
  - eapply core_ext; [|exact Hc]. intros i.
    exact (holder_insert (with_chans ch nx (sd_mux sd)) (sd_recvs sd) id r' i).
  - intros i ri. destruct (decide (i = id)) as [->|Hi].
    + rewrite lookup_partial_alter_eq. by intros [= <-].
    + rewrite lookup_partial_alter_ne, add_at_other by done. apply Heof.
Qed.

(** A stream already handed out is in no queue. *)
Lemma not_waiting m sends recvs got rcvd id s :
  Origin m sends recvs got rcvd -> sends !! id = Some s ->
  match find_first (fun a => as_stream_id a =? id) (mx_accept m) with
  | Some a => Some (as_data_rx a, promoted id (as_open_payload a))
  | None => if id =? CONTROL_STREAM_ID then (fun ch => (ch, [])) <$> mx_control_slot m else None
  end = None.
Proof.
  intros (_ & _ & _ & H4 & _ & H6 & _) Hs. destruct (find_first _ _) as [a|] eqn:Ef.
  - apply find_first_Some in Ef as [Ha Hid]. apply Z.eqb_eq in Hid. destruct (H4 _ Ha). congruence.
  - destruct (id =? _) eqn:Ei; [|done]. apply Z.eqb_eq in Ei as ->.
    destruct (mx_control_slot m) as [c|]; [|done]. destruct H6; [done|congruence].
Qed.

Lemma drop_side sd id r :
  SideInv sd -> sd_recvs sd !! id = Some r ->
  steps_to sd (set_recv id None [] (on_mux (drop_recv r (sd_mux sd)) sd)).
Proof.
  intros Hinv Hr. destruct (recvs_in_sends _ _ _ Hinv Hr) as [s Hs].
  destruct Hinv as (Hsi & Hor & Hcore & Heof). pose proof (holder_recv (sd_mux sd) _ _ _ Hr) as Hh.
  destruct (Heof _ _ Hr) as [Hid _].
  split; [|by apply quiet_same]. unfold SideInv. cbn. rewrite pushed_same, app_nil_r by done.
  split_and!; [done| | |].
  - by eapply Origin_recvs.
  - eapply core_got_ext; [intros i; apply add_at_nil|].
    eapply core_ext; [|by eapply core_drop]. intros i. unfold hset, holder. case_decide as E.
    + subst i. rewrite lookup_partial_alter_eq. by eapply not_waiting.
    + by rewrite lookup_partial_alter_ne.
  - intros i ri. destruct (decide (i = id)) as [->|Hi].
    + by rewrite lookup_partial_alter_eq.
    + rewrite lookup_partial_alter_ne, add_at_other by done. apply Heof.
Qed.

Lemma SendInv_new srv alive sends put sent id
    (s := send_half id (if own srv id then Some [] else None)) :
  SendInv srv alive sends put sent -> sends !! id = None -> in_u 32 id ->
  SendInv srv alive (<[id := s]> sends) put sent.
Proof.
  intros (H1 & H2 & H3) Hn Hid. destruct (H2 _ Hn) as [Hp Hf]. split_and!; [| |done].
  - intros i si. destruct (decide (i = id)) as [->|Hi].
    + rewrite lookup_insert_eq. intros [= <-]. split; [done|]. rewrite Hp. by apply send_ok_fresh.
    + rewrite lookup_insert_ne by done. apply H1.
  - intros i [Hi _]%lookup_insert_None. by apply H2.
Qed.

Lemma accepted_send sd a rest :
  SideInv sd -> mx_accept (sd_mux sd) = a :: rest ->
  SendInv (mx_is_server (sd_mux sd)) (mx_writer_alive (sd_mux sd))
    (<[as_stream_id a := send_half (as_stream_id a) None]> (sd_sends sd)) (sd_put sd) (sd_sent sd).
Proof.
  intros (Hs & (_ & _ & _ & H4 & _) & _) Ea.
  destruct (H4 a) as (Hn & Hu & [Ho _]); [rewrite Ea; apply list_elem_of_here|].
  pose proof (SendInv_new _ _ _ _ _ _ Hs Hn Hu) as H. by rewrite Ho in H.
Qed.

Lemma open_bi_side sd h m' :
  SideInv sd -> mx_next_stream_id (sd_mux sd) + 2 < 2 ^ 32 ->
  frames_of (mx_next_stream_id (sd_mux sd)) (sd_rcvd sd) = [] ->
  open_bi (sd_mux sd) = (Ok h, m') -> steps_to sd (adopt h (on_mux m' sd)).
Proof.
  intros Hinv Hmax Hfr. unfold open_bi. destruct (mx_closed (sd_mux sd)); [done|].
  destruct (if mx_is_server (sd_mux sd) then None else _) as [rx|] eqn:Ec.
  - assert (Hslot : mx_control_slot (sd_mux sd) = Some rx) by (by destruct (mx_is_server (sd_mux sd))).
    intros [= <- <-]. destruct (control_recv sd rx (send_half CONTROL_STREAM_ID None) Hinv Hslot)
      as (H1 & H2 & H3). split; [|by apply quiet_same].
    destruct Hinv as (Hs & (_ & _ & _ & _ & _ & H6 & _) & _).
    unfold SideInv. cbn. rewrite pushed_same, app_nil_r by done. split_and!; [|done..].
    apply (SendInv_new _ _ _ _ _ CONTROL_STREAM_ID); [done|by apply H6; rewrite Hslot|done].
  - intros [= <- <-]. pose proof (minted_fresh sd Hinv) as (Hno & Hid & Hown & _).
    destruct (open_recv sd (send_half (mx_next_stream_id (sd_mux sd)) (Some [])) Hinv Hmax Hfr)
      as (H1 & H2 & H3). split; [|by apply quiet_same].
    unfold SideInv. cbn. rewrite pushed_same, app_nil_r by done. split_and!; [|done..].
    destruct Hinv as (Hs & _).
    pose proof (SendInv_new _ _ _ _ _ _ Hs Hno Hid) as Hn. by rewrite Hown in Hn.
Qed.

Lemma open_data_side sd header h m' :
  SideInv sd -> mx_next_stream_id (sd_mux sd) + 2 < 2 ^ 32 -> length header = 9%nat ->
  frames_of (mx_next_stream_id (sd_mux sd)) (sd_rcvd sd) = [] ->
  open_data_stream header (sd_mux sd) = (Ok h, m') ->
  steps_to sd (set_send (ss_stream_id h.1) h.1 header (adopt h (on_mux m' sd))).
Proof.
  intros Hinv Hmax H9 Hfr. unfold open_data_stream. destruct (mx_closed (sd_mux sd)); [done|].
  set (id := mx_next_stream_id (sd_mux sd)) in *. cbn [mint_stream_id new_channel]. fold id.
  rewrite send_out_spec. cbn [mx_writer_alive with_streams with_chans with_next].
  destruct (mx_writer_alive (sd_mux sd)) eqn:Ha; [|done]. intros [= <- <-].
  pose proof (minted_fresh sd Hinv) as (Hno & Hid & Hown & _). fold id in Hno, Hid, Hown.
  destruct (open_recv sd (send_half id None) Hinv Hmax Hfr) as (H1 & H2 & H3).
  assert (Hp : forall m, mx_out m = mx_out (sd_mux sd) ++ [open_frame id header] ->
     pushed (sd_mux sd) m = [(open_header id, header)]).
  { intros m Hm. unfold pushed. by rewrite Hm, drop_app_length. }
  split.
  - unfold SideInv. cbn. rewrite insert_insert_eq, Hp by done. split_and!; [|done..].
    destruct Hinv as (Hs & _). pose proof (SendInv_new _ _ _ _ _ _ Hs Hno Hid) as Hn. rewrite Ha in Hn.
    rewrite Hown in Hn. rewrite Ha, <-(insert_insert_eq (sd_sends sd) id _ (send_half id (Some []))).
    apply SendInv_half; [done..| |].
    + constructor; [|done]. split; [done|]. by eapply open_frame_ok.
    + destruct Hs as (_ & Hs & _). destruct (Hs _ Hno) as [-> _].
      eapply (send_ok_open _ _ (send_half id (Some [])) _ []); try done.
      destruct Hn as (Hn & Hput & _). specialize (Hn id (send_half id (Some []))).
      rewrite lookup_insert_eq in Hn. destruct (Hn eq_refl) as [_ Hk].
      destruct (Hs _ Hno) as [Hpid _]. by rewrite Hpid in Hk.
  - split_and!; try done. exists [open_frame id header]. split; [done|]. cbn. by rewrite Hp.
Qed.

Lemma open_data_err_side sd header e m' :
  SideInv sd -> mx_next_stream_id (sd_mux sd) + 2 < 2 ^ 32 ->
  frames_of (mx_next_stream_id (sd_mux sd)) (sd_rcvd sd) = [] ->
  open_data_stream header (sd_mux sd) = (Err e, m') -> steps_to sd (on_mux m' sd).
Proof.
  intros Hinv Hmax Hfr. unfold open_data_stream. destruct (mx_closed (sd_mux sd)).
  { intros [= _ <-]. split; [|by apply quiet_same]. unfold SideInv. cbn.
    by rewrite pushed_same, app_nil_r. }
  set (id := mx_next_stream_id (sd_mux sd)) in *. cbn [mint_stream_id new_channel]. fold id.
  rewrite send_out_spec. cbn [mx_writer_alive with_streams with_chans with_next].
  destruct (mx_writer_alive (sd_mux sd)) eqn:Ha; [done|]. rewrite app_nil_r, with_out_same.
  intros [= _ <-]. split; [|by apply quiet_same].
  pose proof (minted_fresh sd Hinv) as (Hno & [Hid0 _] & Hown & Hna & Hn0).
  fold id in Hno, Hid0, Hown, Hna, Hn0.
  destruct (open_recv sd (send_half id None) Hinv Hmax Hfr) as (_ & H2 & _).
  pose proof Hinv as (Hs & Hor & Hcore & Heof).
  unfold SideInv. cbn. rewrite pushed_same, app_nil_r by done. split_and!; [done| | |done].
  - destruct Hor as (G1 & G2 & G3 & G4 & G5 & G6 & G7). unfold Origin. cbn.
    replace (wrap 32 (id + 2)) with (id + 2) by (unfold wrap; rewrite Z.mod_small; lia).
    split_and!; try done; [by apply own_next|lia..|].
    intros i s Hi. fold id in G3. destruct (G3 _ _ Hi) as [[??]|?]; [left; split; [done|lia]|by right].
  - apply (core_drop_rx (mx_next_chan (sd_mux sd))).
    + eapply core_ext; [|apply (core_forget id); exact H2]. intros i. unfold hset.
      case_decide as E; [subst i|].
      * by eapply (holder_none (sd_mux sd)).
      * unfold holder. by rewrite lookup_insert_ne.
    + intros i rest Hh. destruct Hcore as (C1 & _). destruct (C1 i _ rest Hh) as (_ & _ & _ & _ & ?). lia.
Qed.

Lemma accept_bi_side sd h m' :
  SideInv sd -> accept_bi (sd_mux sd) = Some (h, m') -> steps_to sd (adopt h (on_mux m' sd)).
Proof.
  intros Hinv. unfold accept_bi. destruct (mx_accept (sd_mux sd)) as [|a rest] eqn:Ea; [done|].
  intros [= <- <-]. destruct (accept_recv sd a rest (send_half (as_stream_id a) None) Hinv Ea)
    as (H1 & H2 & H3). split; [|by apply quiet_same].
  unfold SideInv. cbn. rewrite pushed_same, app_nil_r by done. split_and!; [|done..].
  by eapply accepted_send.
Qed.

Lemma accept_data_side sd header h m' :
  SideInv sd -> accept_data_stream (sd_mux sd) = Some (header, h, m') ->
  steps_to sd (set_recv (rv_stream_id h.2) (Some h.2) (promoted (rv_stream_id h.2) header)
                 (adopt h (on_mux m' sd))).
Proof.
  intros Hinv. unfold accept_data_stream.
  destruct (mx_accept (sd_mux sd)) as [|a rest] eqn:Ea; [done|]. intros [= <- <- <-].
  set (id := as_stream_id a). cbn [snd rv_stream_id recv_half].
  destruct (accept_recv sd a rest (send_half id None) Hinv Ea) as (H1 & H2 & H3). fold id in H1, H2, H3.
  split; [|by apply quiet_same].
  set (r1 := recv_half id (as_data_rx a) (promoted id (as_open_payload a))) in *.
  set (r0 := recv_half id (as_data_rx a) []).
  assert (E : forall rv, partial_alter (fun _ => Some r0) id (<[id := rv]> (sd_recvs sd)) =
                <[id := r0]> (sd_recvs sd)) by exact (fun rv => insert_insert_eq (sd_recvs sd) id r0 rv).
  unfold SideInv. cbn. fold id. fold r0. rewrite pushed_same, app_nil_r by done. split_and!.
  - by eapply accepted_send.
  - rewrite E, <-(E r1). eapply Origin_recvs; try done. by rewrite lookup_insert_eq.
  - rewrite E.
    apply (core_deliver id (as_data_rx a) (promoted id (as_open_payload a)) []) in H2;
      [|by rewrite holder_insert, hset_here, app_nil_r].
    eapply core_ext; [|exact H2]. intros i. rewrite holder_insert. unfold hset.
    case_decide; [done|]. rewrite holder_insert. by rewrite hset_other.
  - rewrite E. intros i ri. destruct (decide (i = id)) as [->|Hi].
    + rewrite lookup_insert_eq. by intros [= <-].
    + intros Hl. specialize (H3 i ri). rewrite lookup_insert_ne in H3, Hl by done.
      rewrite add_at_other by done. by apply H3.
Qed.

(** ** Both sides *)

Definition LinkInv (x y : Side) (xy yx : Pipe) : Prop :=
  SideInv x /\ SideInv y /\ Fifo x xy y /\ Fifo y yx x /\
  mx_is_server (sd_mux y) = negb (mx_is_server (sd_mux x)).

Lemma LinkInv_sym x y xy yx : LinkInv x y xy yx -> LinkInv y x yx xy.
Proof.
  intros (H1 & H2 & H3 & H4 & H5). split_and!; try done. by rewrite H5, negb_involutive.
Qed.

Lemma sent_stage sd id : SideInv sd -> stage_of (mx_is_server (sd_mux sd)) id (sd_sent sd) <> StBad.
Proof.
  intros ((Hs & Hn & _) & _). destruct (sd_sends sd !! id) as [s|] eqn:E.
  - destruct (Hs _ _ E) as (_ & _ & Hb & _). done.
  - destruct (Hn _ E) as [_ Hf]. unfold stage_of, start. rewrite Hf. unfold stage_from. cbn.
    by case_match.
Qed.

Lemma sent_handle sd id : SideInv sd -> frames_of id (sd_sent sd) <> [] ->
  exists s, sd_sends sd !! id = Some s.
Proof.
  intros ((_ & Hn & _) & _) Hf. destruct (sd_sends sd !! id) as [s|] eqn:E; [by exists s|].
  by destruct (Hn _ E).
Qed.

(** What arrived was sent, in order. *)
Lemma rcvd_sent x p y : Fifo x p y -> exists k, sd_sent x = sd_rcvd y ++ k.
Proof. intros (fl & ms & E & _). by eexists. Qed.

Lemma frames_arrived x p y id : Fifo x p y -> frames_of id (sd_rcvd y) <> [] -> frames_of id (sd_sent x) <> [].
Proof.
  intros [k E]%rcvd_sent Hf. rewrite E, frames_of_app. by intros [? _]%app_eq_nil.
Qed.

(** Nothing has arrived for an id that is not minted yet. *)
Lemma next_unused x y xy yx :
  LinkInv x y xy yx -> frames_of (mx_next_stream_id (sd_mux x)) (sd_rcvd x) = [].
Proof.
  intros (Hx & Hy & Hxy & Hyx & Hsrv). destruct (minted_fresh x Hx) as (Hno & _ & Hown & _ & Hn0).
  set (id := mx_next_stream_id (sd_mux x)) in *.
  destruct (frames_of id (sd_rcvd x)) as [|f fs] eqn:Ef; [done|]. exfalso.
  destruct (sent_handle y id Hy) as [s Hs].
  { apply (frames_arrived y yx x); [done|]. by rewrite Ef. }
  pose proof Hy as (_ & (_ & _ & H3 & _) & _). rewrite Hsrv in H3.
  destruct (H3 _ _ Hs) as [[Ho _]|[_ [?|Hf]]]; [|done|].
  - rewrite own_negb, Hown in Ho by done. done.
  - destruct (sent_handle x id Hx) as [s' Hs']; [by eapply frames_arrived|]. congruence.
Qed.

Lemma Fifo_quiet x x' p y : Fifo x p y -> quiet x x' -> Fifo x' p y.
Proof.
  intros (fl & ms & E & Hm & Hw) ((ex & Eo & Es) & Ea & _). exists fl, ms.
  rewrite Es, Eo, Ea, out_frames_app, E, <-!app_assoc. by split_and!.
Qed.

Lemma Fifo_quiet_recv x p y y' : Fifo x p y -> quiet y y' -> Fifo x p y'.
Proof.
  intros (fl & ms & E & Hm & Hw) (_ & _ & Er & _ & Ec). exists fl, ms. by rewrite Er, Ec.
Qed.

Lemma LinkInv_quiet x x' y xy yx :
  LinkInv x y xy yx -> steps_to x x' -> LinkInv x' y xy yx.
Proof.
  intros (Hx & Hy & Hxy & Hyx & Hsrv) [Hx' Hq]. split_and!; try done.
  - by eapply Fifo_quiet.
  - by eapply Fifo_quiet_recv.
  - by destruct Hq as (_ & _ & _ & -> & _).
Qed.

Lemma wire_push rd bs fl f new ms :
  wire rd bs [] fl -> new ++ ms = frame_bytes f.1 f.2 -> wire rd (bs ++ new) ms (fl ++ [f]).
Proof.
  assert (He : enc [f] = frame_bytes f.1 f.2) by apply app_nil_r.
  intros Hw E. destruct rd as [|h| |]; cbn [wire] in *; try done.
  - by rewrite enc_app, <-Hw, He, <-E, app_nil_r, <-app_assoc.
  - destruct Hw as (p & fs & -> & Hw). exists p, (fs ++ [f]). split; [done|].
    rewrite app_nil_r in Hw. by rewrite enc_app, Hw, He, <-E, <-!app_assoc.
  - by rewrite enc_app, <-Hw, He, <-E, app_nil_r, <-app_assoc.
Qed.

(** The writer moves the head of its queue to the wire, whole or in part. *)
Lemma writer_link x y xy yx fault o' m' :
  LinkInv x y xy yx -> writer_step fault xy (sd_mux x) = Some (o', m') ->
  LinkInv (on_mux m' x) y o' yx.
Proof.
  intros (Hx & Hy & (fl & ms & E & Hm & Hw) & Hyx & Hsrv) Hs. unfold writer_step in Hs.
  destruct (mx_writer_alive (sd_mux x)) eqn:Ha; [|done]. rewrite (Hm eq_refl) in Hw.
  cbn [negb] in Hs. destruct (mx_out (sd_mux x)) as [|f out] eqn:Eo; [done|].
  assert (Hp : forall m, mx_out m = out -> pushed (sd_mux x) m = []).
  { intros m Em. unfold pushed. rewrite Eo, Em. cbn. rewrite drop_ge; [done|lia]. }
  assert (Hdead : SideInv (on_mux (with_writer false (with_out out (sd_mux x))) x)).
  { destruct Hx as (Hs1 & Hr1). unfold SideInv. cbn. rewrite Hp, app_nil_r by done.
    split; [by eapply SendInv_dead|exact Hr1]. }
  assert (Hlive : SideInv (on_mux (with_out out (sd_mux x)) x)).
  { unfold SideInv. cbn. rewrite Hp, app_nil_r by done. exact Hx. }
  destruct f as [h pl|]; [destruct fault as [k|]|]; injection Hs as <- <-; split_and!; try done.
  - exists (fl ++ [(h, pl)]), (drop k (frame_bytes h pl)). cbn. rewrite Hp, app_nil_r, E by done.
    rewrite <-!app_assoc. split_and!; try done. apply wire_push; [done|apply take_drop].
  - exists (fl ++ [(h, pl)]), []. cbn. rewrite Hp, app_nil_r, E by done.
    rewrite <-!app_assoc. split_and!; try done. apply wire_push; [done|apply app_nil_r].
  - exists fl, []. cbn. rewrite Hp, app_nil_r, E by done. by split_and!.
Qed.

Lemma reader_link x y xy yx i' m' :
  LinkInv x y xy yx -> reader_step yx (sd_mux x) = Some (i', m') ->
  LinkInv (log_rcvd (dispatched yx (sd_mux x)) (on_mux m' x)) y xy i'.
Proof.
  intros (Hx & Hy & Hxy & (fl & ms & E & Hm & Hw) & Hsrv) Hs.
  assert (Hok : Forall frame_ok fl).
  { destruct Hy as ((_ & _ & Hf) & _). rewrite E in Hf.
    by apply Forall_app in Hf as [_ [Hf _]%Forall_app]. }
  destruct (reader_wire _ _ _ _ _ _ Hw Hok Hs) as (fl' & -> & Heff & Hw').
  assert (Hkeep : mx_out m' = mx_out (sd_mux x) /\ mx_writer_alive m' = mx_writer_alive (sd_mux x) /\
                  mx_is_server m' = mx_is_server (sd_mux x)).
  { destruct Heff as [h p| | | |]; try done. by destruct (dispatch_keeps h p (sd_mux x)) as (? & ? & ? & _). }
  destruct Hkeep as (E1 & E2 & E3). split_and!; [|done| | |cbn; by rewrite E3].
  - apply reader_side; [done..|]. intros id.
    apply (stage_of_prefix _ _ _ (fl' ++ out_frames (mx_out (sd_mux y)))).
    rewrite <-app_assoc, app_assoc. rewrite <-app_assoc in E. rewrite <-!app_assoc, <-E, <-Hsrv.
    by apply sent_stage.
  - destruct Hxy as (fl2 & ms2 & F & Hm2 & Hw2). exists fl2, ms2. cbn.
    rewrite pushed_same, app_nil_r, E1, E2 by done. by split_and!.
  - exists fl', ms. cbn. rewrite E, <-!app_assoc. by split_and!.
Qed.

Lemma link_step x y xy yx x' xy' yx' :
  side_step x yx xy x' yx' xy' -> LinkInv x y xy yx -> LinkInv x' y xy' yx'.
Proof.
  intros Hstep Hinv. pose proof (next_unused _ _ _ _ Hinv) as Hfr. pose proof Hinv as (Hx & _).
  destruct Hstep.
  - eapply LinkInv_quiet; [done|]. by apply open_bi_side.
  - eapply LinkInv_quiet; [done|]. by apply open_data_side.
  - eapply LinkInv_quiet; [done|]. by eapply open_data_err_side.
  - eapply LinkInv_quiet; [done|]. by apply accept_bi_side.
  - eapply LinkInv_quiet; [done|]. by apply accept_data_side.
  - eapply LinkInv_quiet; [done|]. by eapply write_side.
  - eapply LinkInv_quiet; [done|]. by eapply finish_side.
  - eapply LinkInv_quiet; [done|]. by apply close_side.
  - eapply LinkInv_quiet; [done|]. by eapply read_side.
  - eapply LinkInv_quiet; [done|]. by apply drop_side.
  - by eapply writer_link.
  - by apply reader_link.
Qed.

Lemma SideInv_new srv : SideInv (side_new srv).
Proof.
  unfold SideInv. cbn. split_and!.
  - by split_and!.
  - unfold Origin. cbn. split_and!; try done; try (by destruct srv).
    + intros a Ha. destruct srv; [|by apply elem_of_nil in Ha].
      apply list_elem_of_singleton in Ha as ->. cbn. split_and!; try done. split; [done|by left].
    + destruct srv; [apply NoDup_singleton|apply NoDup_nil_2].
    + intros [c Hc]. destruct srv; [done|]. split; [done|apply not_elem_of_nil].
  - assert (Hh : forall id ch rest, holder (mux_new srv) ∅ id = Some (ch, rest) ->
       id = CONTROL_STREAM_ID /\ ch = 0%nat /\ rest = []).
    { intros id ch rest. unfold holder. rewrite lookup_empty. unfold mux_new. cbn. destruct srv; cbn.
      - destruct id; cbn; by intros [= <- <-].
      - destruct (id =? CONTROL_STREAM_ID) eqn:E; [|done]. apply Z.eqb_eq in E as ->.
        by intros [= <- <-]. }
    split_and!; try done.
    + intros id ch rest (-> & -> & ->)%Hh. unfold held_ok. split_and!; try done; [|cbn; lia].
      intros id'. unfold mux_new. cbn [mx_streams]. rewrite lookup_singleton_Some. by intros [<- _].
    + intros id id' ch r r' (-> & _)%Hh (-> & _)%Hh. done.
    + intros id ch. unfold mux_new. cbn [mx_streams mx_next_chan].
      rewrite lookup_singleton_Some. intros [_ <-]. lia.
  - done.
Qed.

Lemma Fifo_new a b : Fifo (side_new a) empty_pipe (side_new b).
Proof. by exists [], []. Qed.

Definition DuplexInv (d : Duplex) : Prop :=
  LinkInv (dx_client d) (dx_server d) (dx_up d) (dx_down d).

Lemma reachable_inv d : reachable d -> DuplexInv d.
Proof.
  unfold reachable. intros Hr. remember duplex_new as d0 eqn:E0.
  assert (H0 : DuplexInv d0).
  { subst d0. split_and!; try apply SideInv_new; try apply Fifo_new. done. }
  clear E0. induction Hr as [d|d1 d2 d3 Hs _ IH]; [done|]. apply IH. clear IH.
  destruct Hs as [c s up down c' up' down' Hs|c s up down s' up' down' Hs].
  - by eapply link_step.
  - apply LinkInv_sym. eapply link_step; [exact Hs|]. by apply LinkInv_sym.
Qed.

Definition pipe_to (to_server : bool) (d : Duplex) : Pipe :=
  if to_server then dx_up d else dx_down d.

Lemma reachable_link d to_server :
  reachable d ->
  SideInv (sender to_server d) /\ SideInv (receiver to_server d) /\
  Fifo (sender to_server d) (pipe_to to_server d) (receiver to_server d) /\
  mx_is_server (sd_mux (sender to_server d)) = negb (mx_is_server (sd_mux (receiver to_server d))).
Proof.
  intros (H1 & H2 & H3 & H4 & H5)%reachable_inv. destruct to_server; cbn; split_and!; try done.
  by rewrite H5, negb_involutive.
Qed.

(** What was sent on a stream, against what its application wrote. *)
Lemma sent_put sd id :
  SideInv sd -> payload_of id (sd_sent sd) `prefix_of` sd_put sd id /\
  (mx_writer_alive (sd_mux sd) = true -> (forall s, sd_sends sd !! id = Some s -> ss_pending_open s = None) ->
   sd_put sd id = payload_of id (sd_sent sd)).
Proof.
  intros ((Hs & Hn & _) & _). destruct (sd_sends sd !! id) as [s|] eqn:E.
  - destruct (Hs _ _ E) as (_ & _ & _ & Hp & _ & Hput & _). split; [done|]. intros Ha Hpend.
    rewrite Hput, (Hpend s) by auto. apply app_nil_r.
  - destruct (Hn _ E) as [Hp Hf]. rewrite Hp, (payload_of_nil _ _ Hf). done.
Qed.

(** Nothing of the stream is on its way: no bytes wait for an OPEN, none are queued, on the
    wire, in the reader's hand or in the channel, and the receive half has no leftover. *)
Definition drained (x y : Side) (p : Pipe) (id : Z) (r : TcpMuxRecvStream) : Prop :=
  mx_writer_alive (sd_mux x) = true /\ mx_out (sd_mux x) = [] /\ pi_bytes p = [] /\
  mx_reader (sd_mux y) = RdHeader /\ rv_leftover r = [] /\
  ch_queue (chan_of (sd_mux y) (rv_data_rx r)) = [] /\
  (forall s, sd_sends x !! id = Some s -> ss_pending_open s = None).

(** What has been read of a stream is an initial part of what was written to it. *)
Lemma got_prefix d to_server id :
  reachable d -> sd_got (receiver to_server d) id `prefix_of` sd_put (sender to_server d) id.
Proof.
  intros Hd. destruct (reachable_link d to_server Hd) as (Hx & (_ & _ & (_ & _ & H3 & _) & _) & Hf & _).
  destruct (sent_put _ id Hx) as [Hp _]. destruct (rcvd_sent _ _ _ Hf) as [k E].
  rewrite E, payload_of_app in Hp. etrans; [apply H3|]. etrans; [|exact Hp]. by apply prefix_app_r.
Qed.

(** C6: Multiplexing is invisible to a stream.  In every reachable state of two connected
    muxes, under any interleaving of both applications and both pairs of tasks, with write
    failures at any byte, what either side has read from a stream is a prefix of what the
    other side wrote to that stream; and when nothing of it is on its way any more, it is
    all of it.  No byte is lost, repeated, reordered or delivered to another stream.  The
    applications write at most [MAX_MUX_PAYLOAD] bytes per call. *)
Theorem mux_stream_integrity (d : Duplex) (to_server : bool) (id : Z) (Hd : reachable d) :
  let x := sender to_server d in
  let y := receiver to_server d in
  sd_got y id `prefix_of` sd_put x id /\
  (forall r, sd_recvs y !! id = Some r -> drained x y (pipe_to to_server d) id r ->
     sd_got y id = sd_put x id).
Proof.
  destruct (reachable_link d to_server Hd) as (Hx & Hy & Hf & _). cbv zeta.
  pose proof Hy as (_ & _ & Hcore & _). pose proof Hcore as (H1 & _ & H3 & _).
  destruct (sent_put _ id Hx) as [Hp Hput]. split; [by apply got_prefix|].
  intros r Hr (Da & Do & Dp & Dr & Dl & Dq & Ds).
  rewrite (Hput Da Ds). destruct Hf as (fl & ms & E & Hm & Hw).
  rewrite (Hm Da), Dr, Dp in Hw. cbn in Hw.
  assert (fl = []) as ->.
  { destruct fl as [|f fl]; [done|]. rewrite enc_cons in Hw. done. }
  rewrite Do in E. cbn in E. rewrite app_nil_r in E. rewrite E.
  destruct (H1 _ _ _ (holder_recv _ _ _ _ Hr)) as (Ha & _). rewrite <-Ha.
  unfold content. by rewrite Dq, Dr, Dl, !app_nil_r.
Qed.

(** The receiving side has read all that the sending side wrote, and that side is done. *)
Definition complete (x y : Side) (id : Z) : Prop :=
  sd_got y id = sd_put x id /\ exists s, sd_sends x !! id = Some s /\ ss_finished s = true.

(** C18: The end of a stream is genuine.  A receive half that reports end-of-file has
    delivered every byte the peer wrote to the stream, and the peer has finished it. *)
Theorem mux_eof_sound (d : Duplex) (to_server : bool) (id : Z) (r : TcpMuxRecvStream)
    (Hd : reachable d) (Hr : sd_recvs (receiver to_server d) !! id = Some r)
    (He : rv_eof r = true) :
  complete (sender to_server d) (receiver to_server d) id.
Proof.
  destruct (reachable_link d to_server Hd) as (Hx & Hy & Hf & Hsrv).
  pose proof Hy as (_ & _ & _ & Heof). destruct (Heof _ _ Hr) as [_ Hfin].
  destruct (Hfin He) as (Hst & _ & Hg). destruct (rcvd_sent _ _ _ Hf) as [k E].
  assert (Hb := sent_stage _ id Hx). rewrite E, Hsrv in Hb.
  destruct (stage_of_fin _ _ _ k Hb Hst) as [Hst' Hp]. rewrite <-E in Hst', Hp.
  destruct (sent_handle _ id Hx) as [s Hs].
  { intros Hn. unfold stage_of, start in Hst'. rewrite Hn in Hst'. cbn in Hst'. by case_match. }
  pose proof Hx as ((Hsend & _) & _). destruct (Hsend _ _ Hs) as (_ & _ & _ & _ & _ & Hput & Hfi & _).
  rewrite Hsrv in Hput, Hfi. destruct (Hfi Hst') as [Hfs Hpn]. split; [|by exists s].
  rewrite Hg, Hput, Hpn, Hp by auto. symmetry. apply app_nil_r.
Qed.

(** ** A run *)

(** Moves of one side as a function, to execute runs. *)
Inductive Move :=
| MOpenBi
| MWrite (id : Z) (buf : bytes)
| MFinish (id : Z)
| MAcceptBi
| MRead (id : Z) (n : nat)
| MWriter
| MReader.

Definition side_move (mv : Move) (sd : Side) (i o : Pipe) : option (Side * Pipe * Pipe) :=
  match mv with
  | MOpenBi =>
    match open_bi (sd_mux sd) with
    | (Ok h, m') => guard (mx_next_stream_id (sd_mux sd) + 2 < 2 ^ 32);;
                    Some (adopt h (on_mux m' sd), i, o)
    | _ => None
    end
  | MWrite id buf =>
    s ← sd_sends sd !! id; guard (len buf <= MAX_MUX_PAYLOAD);;
    let '(res, s', m') := poll_write buf s (sd_mux sd) in
    Some (set_send id s' (consumed buf res) (on_mux m' sd), i, o)
  | MFinish id =>
    s ← sd_sends sd !! id;
    let '(res, s', m') := finish s (sd_mux sd) in
    Some (set_send id s' (padding s) (on_mux m' sd), i, o)
  | MAcceptBi => '(h, m') ← accept_bi (sd_mux sd); Some (adopt h (on_mux m' sd), i, o)
  | MRead id n =>
    r ← sd_recvs sd !! id;
    '(bs, r', m') ← poll_read n r (sd_mux sd);
    Some (set_recv id (Some r') bs (on_mux m' sd), i, o)
  | MWriter => '(o', m') ← writer_step None o (sd_mux sd); Some (on_mux m' sd, i, o')
  | MReader => '(i', m') ← reader_step i (sd_mux sd);
               Some (log_rcvd (dispatched i (sd_mux sd)) (on_mux m' sd), i', o)
  end.

Lemma side_move_sound mv sd i o sd' i' o' :
  side_move mv sd i o = Some (sd', i', o') -> side_step sd i o sd' i' o'.
Proof.
  destruct mv as [|id buf|id| |id n| |]; simpl.
  - destruct (open_bi _) as [[h|e] m'] eqn:E; [|done]. case_guard; [|done].
    intros [= <- <- <-]. by apply step_open_bi.
  - destruct (sd_sends sd !! id) as [s|] eqn:Es; simpl; [|done]. case_guard; [|done]. simpl.
    destruct (poll_write _ _ _) as [[res s'] m'] eqn:E. intros [= <- <- <-]. by eapply step_write.
  - destruct (sd_sends sd !! id) as [s|] eqn:Es; simpl; [|done].
    destruct (finish _ _) as [[res s'] m'] eqn:E. intros [= <- <- <-]. by eapply step_finish.
  - destruct (accept_bi _) as [[h m']|] eqn:E; simpl; [|done]. intros [= <- <- <-].
    by apply step_accept_bi.
  - destruct (sd_recvs sd !! id) as [r|] eqn:Er; simpl; [|done].
    destruct (poll_read _ _ _) as [[[bs r'] m']|] eqn:E; simpl; [|done]. intros [= <- <- <-].
    by eapply step_read.
  - destruct (writer_step _ _ _) as [[p m']|] eqn:E; simpl; [|done]. intros [= <- <- <-].
    by eapply step_writer.
  - destruct (reader_step _ _) as [[p m']|] eqn:E; simpl; [|done]. intros [= <- <- <-].
    by apply step_reader.
Qed.

(** [true] moves the server. *)
Definition duplex_move (w : bool * Move) (d : Duplex) : option Duplex :=
  if w.1
  then '(s, up, down) ← side_move w.2 (dx_server d) (dx_up d) (dx_down d);
       Some {| dx_client := dx_client d; dx_server := s; dx_up := up; dx_down := down |}
  else '(c, down, up) ← side_move w.2 (dx_client d) (dx_down d) (dx_up d);
       Some {| dx_client := c; dx_server := dx_server d; dx_up := up; dx_down := down |}.

Fixpoint duplex_run (ws : list (bool * Move)) (d : Duplex) : option Duplex :=
  match ws with [] => Some d | w :: ws => d ← duplex_move w d; duplex_run ws d end.

Lemma duplex_run_sound ws d d' : duplex_run ws d = Some d' -> rtc duplex_step d d'.
Proof.
  revert d. induction ws as [|[[] mv] ws IH]; intros [c s up down]; simpl.
  - intros [= <-]. done.
  - unfold duplex_move. simpl. destruct (side_move _ _ _ _) as [[[s' u] w]|] eqn:E; simpl; [|done].
    intros Hr. eapply rtc_l; [by apply server_moves, (side_move_sound _ _ _ _ _ _ _ E)|by apply IH].
  - unfold duplex_move. simpl. destruct (side_move _ _ _ _) as [[[s' u] w]|] eqn:E; simpl; [|done].
    intros Hr. eapply rtc_l; [by apply client_moves, (side_move_sound _ _ _ _ _ _ _ E)|by apply IH].
Qed.

(** The client opens the control stream and a data stream, writes a header and two bytes in
    one call and finishes; the server accepts both and reads the data stream to its end. *)
Definition sample_header : bytes := [1; 7; 0; 0; 0; 0; 0; 0; 0].
Definition sample_moves : list (bool * Move) :=
  [(false, MOpenBi); (false, MOpenBi); (false, MWrite 2 (sample_header ++ [65; 66]));
   (false, MFinish 2); (false, MWriter); (false, MWriter); (false, MWriter)]
  ++ replicate 6 (true, MReader)
  ++ [(true, MAcceptBi); (true, MAcceptBi); (true, MRead 2 100); (true, MRead 2 100)].

Definition sample_duplex (more : list (bool * Move)) : Duplex :=
  default duplex_new (duplex_run (sample_moves ++ more) duplex_new).

Lemma run_reachable ws : reachable (default duplex_new (duplex_run ws duplex_new)).
Proof.
  destruct (duplex_run ws duplex_new) as [d|] eqn:E; [|apply rtc_refl].
  exact (duplex_run_sound _ _ _ E).
Qed.

Lemma sample_reachable more : reachable (sample_duplex more).
Proof. exact (run_reachable (sample_moves ++ more)). Qed.

Lemma mux_stream_integrity_witness :
  sd_got (receiver true (sample_duplex [])) 2 = sample_header ++ [65; 66] /\
  sd_got (receiver true (sample_duplex [])) 2 `prefix_of`
    sd_put (sender true (sample_duplex [])) 2.
Proof.
  split; [vm_compute; reflexivity|].
  exact (proj1 (mux_stream_integrity (sample_duplex []) true 2 (sample_reachable []))).
Defined.

Lemma mux_eof_sound_witness :
  sd_got (receiver true (sample_duplex [(true, MRead 2 100)])) 2 =
  sd_put (sender true (sample_duplex [(true, MRead 2 100)])) 2.
Proof.
  assert (Hr : sd_recvs (receiver true (sample_duplex [(true, MRead 2 100)])) !! 2 =
    Some {| rv_stream_id := 2; rv_data_rx := 1%nat; rv_leftover := []; rv_eof := true |})
    by (vm_compute; reflexivity).
  exact (proj1 (mux_eof_sound _ true 2 _ (sample_reachable _) Hr eq_refl)).
Defined.
