(* ===== verification/MuxLive.v ===== *)
(** * MuxLive: what the multiplexer owes a stream gets there

    [MuxLink] shows that nothing wrong is delivered; this file shows that everything is.
    The reader task of a mux can block on the full channel of one stream and then serves
    none, so delivery is not obvious: [Owned] says that a channel the reader can block on
    always has somebody to drain it, and the run of [pump] steps built from it (neither
    application writes, no write fails) empties the writer's queue, the pipe and the
    channels. *)

From S2P Require Import Prelude Wire Framing TcpMux MuxInv MuxLink.

Local Open Scope Z_scope.

(** ** Every live channel has an owner *)

Definition alive (m : Inner) (ch : ChanId) : Prop := ch_rx_alive (chan_of m ch) = true.

(** A live receiver is held by somebody, and the stream the reader waits for is still in
    the table. *)
Definition Owned (H : Holders) (m : Inner) : Prop :=
  (forall ch, alive m ch -> exists id rest, H id = Some (ch, rest)) /\
  (forall tx buf, mx_reader m = RdSend tx buf -> alive m tx -> exists id, mx_streams m !! id = Some tx).

Definition SideOwned (sd : Side) : Prop := Owned (holder (sd_mux sd) (sd_recvs sd)) (sd_mux sd).

Lemma owned_ext H H' m : (forall id, H' id = H id) -> Owned H m -> Owned H' m.
Proof.
  intros E [H1 H2]. split; [|done]. intros ch (id & rest & Hh)%H1. exists id, rest. by rewrite E.
Qed.

(** Channels only die, their holders stay, and table and reader are left alone. *)
Lemma owned_frame H H' m m' :
  Owned H m -> (forall ch, alive m' ch -> alive m ch) ->
  (forall id ch rest, H id = Some (ch, rest) -> alive m' ch -> exists id' rest', H' id' = Some (ch, rest')) ->
  mx_reader m' = mx_reader m -> mx_streams m' = mx_streams m -> Owned H' m'.
Proof.
  intros [H1 H2] Ha Hh Er Es. split.
  - intros ch Hc. destruct (H1 ch) as (id & rest & Hi); [by apply Ha|]. by eapply Hh.
  - intros tx buf. rewrite Er, Es. intros Hr Hc. by eapply H2, Ha.
Qed.

Lemma owned_new id rest H m srv got rcvd :
  RecvCore H m srv got rcvd -> H id = None -> Owned H m ->
  Owned (hset id (Some (mx_next_chan m, rest)) H) (new_channel id m).2.
Proof.
  intros (C1 & _ & _ & _ & C5) Hno [H1 H2].
  assert (Hold : forall ch, ch <> mx_next_chan m -> alive (new_channel id m).2 ch -> alive m ch).
  { intros ch Hn. unfold alive, chan_of. cbn. by rewrite lookup_insert_ne. }
  split.
  - intros ch Hc. destruct (decide (ch = mx_next_chan m)) as [->|Hn].
    + exists id, rest. apply hset_here.
    + destruct (H1 ch) as (i & r & Hi); [by apply Hold|]. exists i, r.
      rewrite hset_other; [done|congruence].
  - cbn. intros tx buf Hr Hc. specialize (C5 _ _ Hr). apply Hold in Hc; [|lia].
    destruct (H2 _ _ Hr Hc) as [i Hi]. destruct (H1 _ Hc) as (j & r & Hj).
    destruct (C1 _ _ _ Hj) as (_ & _ & Honly & _). exists i. rewrite lookup_insert_ne; [done|].
    intros ->. apply Honly in Hi as ->. congruence.
Qed.

Lemma alive_drop_rx ch c m : alive (drop_rx ch m) c <-> c <> ch /\ alive m c.
Proof.
  unfold alive. destruct (decide (c = ch)) as [->|Hn].
  - rewrite (chan_of_set ch _ m : chan_of (drop_rx ch m) ch = _). naive_solver.
  - rewrite (chan_of_set_ne ch c _ m Hn : chan_of (drop_rx ch m) c = _). naive_solver.
Qed.

Lemma owned_drop_rx ch H H' m :
  Owned H m -> (forall id c rest, c <> ch -> H id = Some (c, rest) -> H' id = Some (c, rest)) ->
  Owned H' (drop_rx ch m).
Proof.
  intros Ho Hh. eapply owned_frame; [exact Ho| | |done|done].
  - by intros c [_ ?]%alive_drop_rx.
  - intros id c rest Hi [Hn _]%alive_drop_rx. exists id, rest. by apply Hh.
Qed.

(** The table loses the entry of a stream whose receiver is gone. *)
Lemma owned_delete id H m srv got rcvd :
  RecvCore H m srv got rcvd -> Owned H m -> H id = None ->
  Owned H (with_streams (delete id (mx_streams m)) m).
Proof.
  intros (C1 & _) [H1 H2] Hno. split; [exact H1|]. cbn. intros tx buf Hr Hc.
  destruct (H2 _ _ Hr Hc) as [i Hi]. destruct (H1 _ Hc) as (j & r & Hj).
  destruct (C1 _ _ _ Hj) as (_ & _ & Honly & _). exists i. rewrite lookup_delete_ne; [done|].
  intros ->. apply Honly in Hi as ->. congruence.
Qed.

(** ** One side *)

(** The application takes a half of a stream nobody else holds, or the mux held for it. *)
Lemma owned_adopt m m' recvs id r :
  Owned (holder m recvs) m ->
  (holder m recvs id = None \/ exists rest, holder m recvs id = Some (rv_data_rx r, rest)) ->
  (forall i, i <> id -> holder m' recvs i = holder m recvs i) ->
  mx_chans m' = mx_chans m -> mx_reader m' = mx_reader m -> mx_streams m' = mx_streams m ->
  Owned (holder m' (<[id := r]> recvs)) m'.
Proof.
  intros Ho Hid Hother Ec Er Es. eapply owned_frame; [exact Ho| | |done|done].
  - intros ch. unfold alive, chan_of. by rewrite Ec.
  - intros i ch rest Hi _. destruct (decide (i = id)) as [->|Hn].
    + exists id, (rv_leftover r). rewrite holder_insert, hset_here.
      destruct Hid as [Hid|[rest' Hid]]; congruence.
    + exists i, rest. rewrite holder_insert, hset_other, Hother by done. done.
Qed.

Lemma owned_minted x y xy yx r (id := mx_next_stream_id (sd_mux x)) :
  LinkInv x y xy yx -> SideOwned x -> rv_data_rx r = mx_next_chan (sd_mux x) ->
  Owned (holder (new_channel id (mint_stream_id (sd_mux x)).2).2 (<[id := r]> (sd_recvs x)))
        (new_channel id (mint_stream_id (sd_mux x)).2).2.
Proof.
  intros (Hx & _) Ho Er. destruct (minted_fresh x Hx) as (Hno & _ & _ & Hna & Hn0).
  fold id in Hno, Hna, Hn0. pose proof Hx as (_ & Hor & Hcore & _).
  eapply owned_ext; [intros i; apply holder_insert|]. rewrite Er.
  eapply (owned_new id (rv_leftover r) (holder (sd_mux x) (sd_recvs x)) (mint_stream_id (sd_mux x)).2).
  - exact Hcore.
  - by eapply holder_none.
  - exact Ho.
Qed.

Lemma owned_same m m' recvs :
  mx_accept m' = mx_accept m -> mx_control_slot m' = mx_control_slot m ->
  mx_chans m' = mx_chans m -> mx_reader m' = mx_reader m -> mx_streams m' = mx_streams m ->
  Owned (holder m recvs) m -> Owned (holder m' recvs) m'.
Proof.
  intros E1 E2 E3 E4 E5 Ho. eapply owned_ext; [by apply holder_keeps|].
  eapply owned_frame; [exact Ho| |naive_solver|done|done].
  intros ch. unfold alive, chan_of. by rewrite E3.
Qed.

Lemma owned_accept x a rest r :
  SideInv x -> SideOwned x -> mx_accept (sd_mux x) = a :: rest -> rv_data_rx r = as_data_rx a ->
  Owned (holder (with_accept rest (sd_mux x)) (<[as_stream_id a := r]> (sd_recvs x)))
        (with_accept rest (sd_mux x)).
Proof.
  intros Hx Ho Ha Er. pose proof Hx as (_ & (_ & _ & _ & H4 & _ & _ & H7) & _).
  rewrite Ha in H4. destruct (H4 a) as (Hs & _); [apply list_elem_of_here|].
  destruct (H7 _ Hs) as [_ Hr]. apply (owned_adopt (sd_mux x)); try done.
  - right. exists (promoted (as_stream_id a) (as_open_payload a)). unfold holder.
    rewrite Hr, Ha, Er. simpl. by rewrite Z.eqb_refl.
  - intros i Hi. unfold holder. rewrite Ha. cbn [mx_accept with_accept].
    rewrite (find_first_cons_ne a rest i) by congruence. done.
Qed.

Lemma owned_control x rx :
  SideInv x -> SideOwned x -> mx_control_slot (sd_mux x) = Some rx ->
  Owned (holder (with_slot None (sd_mux x))
           (<[CONTROL_STREAM_ID := recv_half CONTROL_STREAM_ID rx []]> (sd_recvs x)))
        (with_slot None (sd_mux x)).
Proof.
  intros Hx Ho Hslot. pose proof Hx as (_ & (_ & _ & _ & _ & _ & H6 & H7) & _).
  destruct H6 as [Hs Hn]; [by rewrite Hslot|]. destruct (H7 _ Hs) as [_ Hr].
  apply (owned_adopt (sd_mux x)); try done.
  - right. exists []. unfold holder. rewrite Hr, Hslot.
    destruct (find_first _ _) as [a|] eqn:Ef; [|done].
    apply find_first_Some in Ef as [Hin Hid]. apply Z.eqb_eq in Hid. destruct Hn.
    apply list_elem_of_fmap. by exists a.
  - intros i Hi. unfold holder. cbn. by rewrite (proj2 (Z.eqb_neq _ _) Hi).
Qed.

(** A chunk moves between a channel and its two ends. *)
Lemma owned_set_chan H H' ch c m m' :
  Owned H m -> ch_rx_alive c = ch_rx_alive (chan_of m ch) -> m' = set_chan ch c m ->
  (forall id k rest, H id = Some (k, rest) -> exists rest', H' id = Some (k, rest')) -> Owned H' m'.
Proof.
  intros Ho Ea -> Hh. eapply owned_frame; [exact Ho| | |done|done].
  - intros k. unfold alive. destruct (decide (k = ch)) as [->|Hn].
    + by rewrite chan_of_set, Ea.
    + by rewrite chan_of_set_ne.
  - intros id k rest Hi _. destruct (Hh _ _ _ Hi) as [rest' Hr]. by exists id, rest'.
Qed.

Lemma owned_read sd id n r bs r' m' :
  SideOwned sd -> sd_recvs sd !! id = Some r ->
  poll_read n r (sd_mux sd) = Some (bs, r', m') -> Owned (holder m' (<[id := r']> (sd_recvs sd))) m'.
Proof.
  intros Ho Hr Hp.
  assert (Hh : forall m2, mx_accept m2 = mx_accept (sd_mux sd) -> mx_control_slot m2 = mx_control_slot (sd_mux sd) ->
    rv_data_rx r' = rv_data_rx r ->
    forall i k rest, holder (sd_mux sd) (sd_recvs sd) i = Some (k, rest) ->
    exists rest', holder m2 (<[id := r']> (sd_recvs sd)) i = Some (k, rest')).
  { intros m2 E1 E2 E3 i k rest. rewrite holder_insert. destruct (decide (i = id)) as [->|Hi].
    - rewrite hset_here, (holder_recv _ _ _ _ Hr), E3. intros [= <- <-]. by eexists.
    - rewrite hset_other by done. rewrite (holder_keeps (sd_mux sd) m2) by done. eauto. }
  assert (Hsame : rv_data_rx r' = rv_data_rx r -> Owned (holder (sd_mux sd) (<[id := r']> (sd_recvs sd))) (sd_mux sd)).
  { intros E. eapply owned_frame; [exact Ho|done| |done|done]. intros i k rest Hi _.
    destruct (Hh (sd_mux sd) eq_refl eq_refl E _ _ _ Hi) as [rest' ?]. by exists i, rest'. }
  unfold poll_read in Hp. destruct (rv_leftover r) as [|b lo]; [|injection Hp as <- <- <-; by apply Hsame].
  destruct (rv_eof r); [injection Hp as <- <- <-; by apply Hsame|].
  unfold poll_recv in Hp. destruct (ch_queue _) as [|chunk q].
  - destruct (sender_alive _ _); [done|]. injection Hp as <- <- <-. by apply Hsame.
  - injection Hp as <- <- <-. eapply (owned_set_chan _ _ (rv_data_rx r)); [exact Ho| |reflexivity|by apply Hh].
    done.
Qed.

Lemma owned_drop sd id r :
  SideInv sd -> SideOwned sd -> sd_recvs sd !! id = Some r ->
  Owned (holder (drop_recv r (sd_mux sd)) (partial_alter (fun _ => None) id (sd_recvs sd)))
        (drop_recv r (sd_mux sd)).
Proof.
  intros Hinv Ho Hr. destruct (recvs_in_sends _ _ _ Hinv Hr) as [s Hs].
  pose proof Hinv as (_ & Hor & Hcore & Heof). destruct (Heof _ _ Hr) as [Hid _].
  pose proof (holder_recv (sd_mux sd) _ _ _ Hr) as Hh.
  assert (Hgone : holder (sd_mux sd) (partial_alter (fun _ => None) id (sd_recvs sd)) id = None).
  { unfold holder. rewrite lookup_partial_alter_eq. by eapply not_waiting. }
  assert (Hother : forall i, i <> id -> holder (sd_mux sd) (partial_alter (fun _ => None) id (sd_recvs sd)) i =
                     holder (sd_mux sd) (sd_recvs sd) i).
  { intros i Hi. unfold holder. by rewrite lookup_partial_alter_ne. }
  set (H' := holder (sd_mux sd) (partial_alter (fun _ => None) id (sd_recvs sd))) in *.
  change (holder (drop_recv r (sd_mux sd)) _) with H'. unfold drop_recv. rewrite Hid.
  pose proof Hcore as (C1 & C2 & _).
  eapply (owned_delete id H' (drop_rx (rv_data_rx r) (sd_mux sd))); [| |done].
  - apply core_drop_rx.
    + eapply core_ext; [|by apply (core_forget id)]. intros i. unfold hset. case_decide; [by subst|auto].
    + intros i rest Hi. destruct (decide (i = id)) as [->|Hn]; [congruence|].
      rewrite Hother in Hi by done. apply Hn. by eapply C2.
  - eapply owned_drop_rx; [exact Ho|]. intros i c rest Hc Hi. rewrite Hother; [done|].
    intros ->. rewrite Hh in Hi. congruence.
Qed.

(** What the reader completes at [x] is what [y] sent, so no stream is opened twice. *)
Lemma reader_sees x y xy yx i' m' :
  LinkInv x y xy yx -> reader_step yx (sd_mux x) = Some (i', m') ->
  reader_effect (sd_mux x) (dispatched yx (sd_mux x)) m' /\
  forall id, stage_of (negb (mx_is_server (sd_mux x))) id (sd_rcvd x ++ dispatched yx (sd_mux x)) <> StBad.
Proof.
  intros (Hx & Hy & Hxy & (fl & ms & E & Hm & Hw) & Hsrv) Hs.
  assert (Hok : Forall frame_ok fl).
  { destruct Hy as ((_ & _ & Hf) & _). rewrite E in Hf.
    by apply Forall_app in Hf as [_ [Hf _]%Forall_app]. }
  destruct (reader_wire _ _ _ _ _ _ Hw Hok Hs) as (fl' & -> & Heff & _). split; [done|]. intros id.
  apply (stage_of_prefix _ _ _ (fl' ++ out_frames (mx_out (sd_mux y)))).
  rewrite <-app_assoc. rewrite <-app_assoc in E. rewrite <-E, <-Hsrv. by apply sent_stage.
Qed.

Lemma owned_reader x fs m' :
  SideInv x -> SideOwned x -> reader_effect (sd_mux x) fs m' ->
  (forall id, stage_of (negb (mx_is_server (sd_mux x))) id (sd_rcvd x ++ fs) <> StBad) ->
  Owned (holder m' (sd_recvs x)) m'.
Proof.
  intros Hinv Ho Heff Hst. destruct Heff as [h p Hh Hok Hfin|h Hh|Hh|tx buf Hr Ha|tx buf Hr Ha].
  - destruct (mh_flag h) eqn:Hf.
    + destruct (opened_fresh x h p Hinv Hf (Hst _)) as (_ & Hn0 & _ & Hs & Hna).
      pose proof Hinv as (_ & Hor & Hcore & _). rewrite dispatch_open by done.
      eapply owned_ext; [intros i; by apply (open_holder x h p)|].
      destruct (owned_new (mh_stream_id h) p _ _ _ _ _ Hcore) as [H1 _]; [by eapply holder_none|done|].
      by split.
    + unfold dispatch_frame. rewrite Hf. destruct Ho as [H1 _].
      destruct (mx_streams _ !! _) as [tx|] eqn:Es; (split; [exact H1|]); [|done].
      intros tx' buf [= <- <-] _. by exists (mh_stream_id h).
    + unfold dispatch_frame. rewrite Hf. by split; [apply Ho|].
  - by split; [apply Ho|].
  - by split; [apply Ho|].
  - assert (Hc : Owned (holder (sd_mux x) (sd_recvs x)) (set_chan tx
      {| ch_queue := ch_queue (chan_of (sd_mux x) tx) ++ [buf]; ch_rx_alive := true |} (sd_mux x))).
    { eapply (owned_set_chan _ _ tx); [exact Ho| |reflexivity|eauto]. by rewrite Ha. }
    by split; [apply Hc|].
  - by split; [apply Ho|].
Qed.

Lemma owned_step x y xy yx x' xy' yx' :
  side_step x yx xy x' yx' xy' -> LinkInv x y xy yx -> SideOwned x -> SideOwned x'.
Proof.
  intros Hstep Hinv Ho. pose proof Hinv as (Hx & _).
  assert (Hsends : forall id s, sd_sends x !! id = Some s ->
    send_ok (mx_is_server (sd_mux x)) (mx_writer_alive (sd_mux x)) id s (sd_put x id) (sd_sent x) /\ in_u 32 id).
  { intros id s Hs. destruct Hx as ((H1 & _) & _). by destruct (H1 _ _ Hs). }
  unfold SideOwned in *.
  destruct Hstep as [x i o h m' Hmax E|x i o header h m' Hmax Hl E|x i o header e m' Hmax E|x i o h m' E
    |x i o header h m' E|x i o id s buf res s' m' Hs Hb E|x i o id s res s' m' Hs E|x i o|x i o id n r bs r' m' Hr E
    |x i o id r Hr|x i o fault o' m' E|x i o i' m' E]; cbn [sd_mux sd_recvs adopt on_mux set_send set_recv log_rcvd].
  - unfold open_bi in E. destruct (mx_closed _); [done|].
    destruct (if mx_is_server _ then _ else _) as [rx|] eqn:Esl; injection E as <- <-.
    + apply (owned_control x rx); [done..|]. by destruct (mx_is_server _).
    + by eapply owned_minted.
  - unfold open_data_stream in E. destruct (mx_closed _); [done|].
    cbn [mint_stream_id new_channel] in E. rewrite send_out_spec in E. destruct (mx_writer_alive _); [|done].
    injection E as <- <-. cbn. eapply owned_same; [..|by eapply owned_minted]; done.
  - unfold open_data_stream in E. destruct (mx_closed _); [by injection E as _ <-|].
    cbn [mint_stream_id new_channel] in E. rewrite send_out_spec in E.
    destruct (mx_writer_alive _); [done|]. rewrite app_nil_r, with_out_same in E. injection E as _ <-.
    set (id := mx_next_stream_id (sd_mux x)).
    eapply (owned_drop_rx (mx_next_chan (sd_mux x))).
    + apply (owned_minted _ _ _ _ (recv_half id (mx_next_chan (sd_mux x)) []) Hinv Ho eq_refl).
    + intros i' c rest Hc. rewrite holder_insert. unfold hset. case_decide; [|done].
      intros [= <- <-]. done.
  - unfold accept_bi in E. destruct (mx_accept _) as [|a rest] eqn:Ea; [done|]. injection E as <- <-.
    by apply owned_accept.
  - unfold accept_data_stream in E. destruct (mx_accept _) as [|a rest] eqn:Ea; [done|].
    injection E as _ <- <-. cbn [rv_stream_id recv_half snd].
    set (r := recv_half _ _ _).
    assert (partial_alter (fun _ => Some r) (as_stream_id a) (<[as_stream_id a := r]> (sd_recvs x)) =
            <[as_stream_id a := r]> (sd_recvs x)) as -> by exact (insert_insert_eq (sd_recvs x) (as_stream_id a) r r).
    by apply owned_accept.
  - destruct (Hsends _ _ Hs). eapply poll_write_effect in E as (fs & -> & _); [|done..]. by eapply owned_same.
  - destruct (Hsends _ _ Hs). eapply finish_effect in E as (fs & -> & _); [|done..]. by eapply owned_same.
  - unfold close. destruct (mx_closed _); [done|]. rewrite send_out_spec. by eapply owned_same.
  - by eapply owned_read.
  - by apply owned_drop.
  - unfold writer_step in E. destruct (mx_writer_alive _); [|done]. cbn [negb] in E.
    destruct (mx_out _) as [|[h pl|] out]; [done| |]; [destruct fault as [k|]|];
      injection E as <- <-; by eapply owned_same.
  - destruct (reader_sees _ _ _ _ _ _ Hinv E) as [Heff Hst]. by eapply owned_reader.
Qed.

Lemma owned_new_side srv : SideOwned (side_new srv).
Proof.
  split; [|done]. intros ch Hc. exists CONTROL_STREAM_ID, []. unfold alive, chan_of in Hc. cbn in Hc.
  destruct (decide (ch = 0%nat)) as [->|Hn]; [by destruct srv|].
  rewrite lookup_singleton_ne in Hc by done. done.
Qed.

Lemma reachable_owned d : reachable d -> SideOwned (dx_client d) /\ SideOwned (dx_server d).
Proof.
  intros Hr. cut (DuplexInv d /\ SideOwned (dx_client d) /\ SideOwned (dx_server d)); [by intros [_ ?]|].
  refine (rtc_ind_r (fun d => DuplexInv d /\ SideOwned (dx_client d) /\ SideOwned (dx_server d))
            duplex_new _ _ d Hr).
  - split; [by apply reachable_inv, rtc_refl|]. split; apply owned_new_side.
  - intros d1 d2 H1 Hs (Hi & Hc & Ho). split.
    { apply reachable_inv. by eapply rtc_r. }
    destruct Hs as [c s up down c' up' down' Hs|c s up down s' up' down' Hs]; cbn in *.
    + split; [|done]. by eapply owned_step.
    + split; [done|]. eapply owned_step; [exact Hs|by apply LinkInv_sym|done].
Qed.

(** ** Pumping *)

(** A sending side, the pipe from it and the receiving side. *)
Definition Link : Type := Side * Pipe * Side.

(** Steps that move bytes towards the receiver: a frame is written whole, the reader
    advances, the receiving application takes a stream or reads. *)
Inductive pump : Link -> Link -> Prop :=
| pump_write x p y h pl out p' m' :
    mx_out (sd_mux x) = OutFrame_Frame h pl :: out -> writer_step None p (sd_mux x) = Some (p', m') ->
    pump (x, p, y) (on_mux m' x, p', y)
| pump_reader x p y p' m' :
    reader_step p (sd_mux y) = Some (p', m') ->
    pump (x, p, y) (x, p', log_rcvd (dispatched p (sd_mux y)) (on_mux m' y))
| pump_accept x p y h m' :
    accept_bi (sd_mux y) = Some (h, m') -> pump (x, p, y) (x, p, adopt h (on_mux m' y))
| pump_read x p y id n r bs r' m' :
    sd_recvs y !! id = Some r -> poll_read n r (sd_mux y) = Some (bs, r', m') ->
    pump (x, p, y) (x, p, set_recv id (Some r') bs (on_mux m' y)).

(** Every pump step is a step of one of the two sides. *)
Lemma pump_sides x p y q x' p' y' :
  pump (x, p, y) (x', p', y') ->
  (side_step x q p x' q p' /\ y' = y) \/ (side_step y p q y' p' q /\ x' = x).
Proof.
  inversion 1; subst.
  - left. split; [by eapply step_writer|done].
  - right. split; [by apply step_reader|done].
  - right. split; [by eapply step_accept_bi|done].
  - right. split; [by eapply step_read|done].
Qed.

Definition relink (to_server : bool) (l : Link) (d : Duplex) : Duplex :=
  let '(x, p, y) := l in
  if to_server then {| dx_client := x; dx_server := y; dx_up := p; dx_down := dx_down d |}
  else {| dx_client := y; dx_server := x; dx_up := dx_up d; dx_down := p |}.

Definition link_of (to_server : bool) (d : Duplex) : Link :=
  (sender to_server d, pipe_to to_server d, receiver to_server d).

Lemma pump_steps to_server d l :
  rtc pump (link_of to_server d) l -> rtc duplex_step d (relink to_server l d).
Proof.
  intros Hp. refine (rtc_ind_r (fun l => rtc duplex_step d (relink to_server l d)) _ _ _ l Hp).
  - by destruct to_server, d.
  - intros [[x p] y] [[x' p'] y'] _ Hs IH. eapply rtc_r; [exact IH|].
    destruct (pump_sides _ _ _ (pipe_to (negb to_server) d) _ _ _ Hs) as [[Hx ->]|[Hy ->]];
      destruct to_server; cbn in *; by constructor.
Qed.

Lemma pump_reachable to_server d l :
  reachable d -> rtc pump (link_of to_server d) l -> reachable (relink to_server l d).
Proof. unfold reachable. intros Hd Hp%pump_steps. by etrans. Qed.

(** Pumping writes nothing. *)
Lemma pump_put l l' : rtc pump l l' -> sd_put l'.1.1 = sd_put l.1.1.
Proof.
  intros Hp. refine (rtc_ind_r (fun l' => sd_put l'.1.1 = sd_put l.1.1) _ _ _ l' Hp); [done|].
  intros l1 l2 _ Hs <-. by inversion Hs.
Qed.

(** What the link keeps while it is pumped, with [q] the pipe back. *)
Definition flowing (q : Pipe) (l : Link) : Prop :=
  let '(x, p, y) := l in
  LinkInv x y p q /\ SideOwned y /\ mx_writer_alive (sd_mux x) = true /\
  mx_reader (sd_mux y) <> RdDone /\ mx_control_slot (sd_mux y) = None.

Lemma pump_flowing q x p y x' p' y' :
  flowing q (x, p, y) -> pump (x, p, y) (x', p', y') -> mx_reader (sd_mux y') <> RdDone ->
  flowing q (x', p', y').
Proof.
  intros (Hl & Ho & Ha & _ & Hc) Hp Hd. assert (Hl' : LinkInv x' y' p' q).
  { destruct (pump_sides _ _ _ q _ _ _ Hp) as [[Hx ->]|[Hy ->]]; [by eapply link_step|].
    apply LinkInv_sym. eapply link_step; [exact Hy|by apply LinkInv_sym]. }
  assert (Ho' : SideOwned y').
  { destruct (pump_sides _ _ _ q _ _ _ Hp) as [[_ ->]|[Hy ->]]; [done|].
    eapply owned_step; [exact Hy|by apply LinkInv_sym|done]. }
  split_and!; try done; inversion Hp; subst; cbn; try done.
  - match goal with H : writer_step _ _ _ = _ |- _ => unfold writer_step in H; rewrite Ha in H; cbn in H end.
    case_match; [done|]. by simplify_eq.
  - match goal with H : reader_step _ _ = _ |- _ =>
      destruct (reader_sees _ _ _ _ _ _ (LinkInv_sym _ _ _ _ Hl) H) as [Heff _] end.
    destruct Heff as [h pl| | | |]; try done.
    by destruct (dispatch_keeps h pl (sd_mux y)) as (_ & _ & _ & _ & -> & _).
  - match goal with H : accept_bi _ = _ |- _ => unfold accept_bi in H end. case_match; [done|]. by simplify_eq.
  - match goal with H : poll_read _ _ _ = _ |- _ =>
      eapply poll_read_effect in H as (_ & _ & _ & [->|(? & ? & ->)]) end; try done. apply Hl.
Qed.

(** ** The writer's queue *)

Lemma flush q fs x p y tail :
  flowing q (x, p, y) -> mx_out (sd_mux x) = as_out fs ++ tail ->
  exists x' p', rtc pump (x, p, y) (x', p', y) /\ flowing q (x', p', y) /\
    mx_out (sd_mux x') = tail /\ sd_put x' = sd_put x /\ sd_sends x' = sd_sends x.
Proof.
  revert x p. induction fs as [|[h pl] fs IH]; intros x p Hf E.
  { exists x, p. by split_and!. }
  pose proof Hf as (_ & _ & Ha & Hd & _). cbn in E.
  assert (Hs : pump (x, p, y) (on_mux (with_out (as_out fs ++ tail) (sd_mux x)) x, pipe_push (frame_bytes h pl) p, y)).
  { eapply pump_write; [exact E|]. unfold writer_step. by rewrite Ha, E. }
  edestruct (IH _ _ (pump_flowing _ _ _ _ _ _ _ Hf Hs Hd) eq_refl) as (x' & p' & Hr & Hf' & Ho & Hp & Hn).
  exists x', p'. split_and!; try done. by eapply rtc_l.
Qed.

(** ** The receiving application catches up *)

(** What reading and accepting leave alone. *)
Definition caught_up (y y' : Side) : Prop :=
  mx_reader (sd_mux y') = mx_reader (sd_mux y) /\ sd_rcvd y' = sd_rcvd y /\
  (forall id, is_Some (sd_recvs y !! id) -> is_Some (sd_recvs y' !! id)).

#[global] Instance caught_up_preorder : PreOrder caught_up.
Proof.
  split; [by intros y|]. intros a b c (E1 & E2 & E3) (F1 & F2 & F3).
  split_and!; [congruence|congruence|auto].
Qed.

(** A run of the receiving side that ends in a state with a property. *)
Definition reaches (q : Pipe) (x : Side) (p : Pipe) (y : Side) (P : Side -> Prop) : Prop :=
  exists y', rtc pump (x, p, y) (x, p, y') /\ flowing q (x, p, y') /\ caught_up y y' /\ P y'.

Lemma reaches_now q x p y P : flowing q (x, p, y) -> P y -> reaches q x p y P.
Proof. intros Hf HP. exists y. by split_and!. Qed.

Lemma reaches_step q x p y y1 P :
  flowing q (x, p, y) -> pump (x, p, y) (x, p, y1) -> caught_up y y1 ->
  (flowing q (x, p, y1) -> reaches q x p y1 P) -> reaches q x p y P.
Proof.
  intros Hf Hs Hc Hk. assert (Hf1 : flowing q (x, p, y1)).
  { eapply pump_flowing; [exact Hf|exact Hs|]. destruct Hc as [-> _]. by destruct Hf as (_ & _ & _ & ? & _). }
  destruct (Hk Hf1) as (y' & Hr & Hf' & Hc' & HP). exists y'. split_and!; try done.
  - by eapply rtc_l.
  - by etrans.
Qed.

Lemma reaches_bind q x p y P Q :
  reaches q x p y P -> (forall y', flowing q (x, p, y') -> caught_up y y' -> P y' -> reaches q x p y' Q) ->
  reaches q x p y Q.
Proof.
  intros (y1 & Hr & Hf & Hc & HP) Hk. destruct (Hk _ Hf Hc HP) as (y2 & Hr2 & Hf2 & Hc2 & HQ).
  exists y2. split_and!; try done; by etrans.
Qed.

(** The application takes every stream the peer opened. *)
Lemma accept_all q x p y :
  flowing q (x, p, y) -> reaches q x p y (fun y' => mx_accept (sd_mux y') = []).
Proof.
  remember (mx_accept (sd_mux y)) as l eqn:El. revert y El.
  induction l as [|a l IH]; intros y El Hf; [by apply reaches_now|].
  eapply reaches_step; [done|eapply pump_accept; unfold accept_bi; by rewrite <-El| |].
  - split_and!; try done. cbn. intros id Hid. destruct (decide (id = as_stream_id a)) as [->|Hn].
    + by rewrite lookup_insert_eq.
    + by rewrite lookup_insert_ne.
  - by apply IH.
Qed.

Lemma caught_up_read y id n r bs r' m' :
  SideInv y -> sd_recvs y !! id = Some r -> poll_read n r (sd_mux y) = Some (bs, r', m') ->
  caught_up y (set_recv id (Some r') bs (on_mux m' y)).
Proof.
  intros Hy Hr Hp. destruct (poll_read_effect _ _ _ _ _ _ _ Hy Hr Hp) as (_ & _ & _ & Hm).
  split_and!; [by destruct Hm as [->|(? & ? & ->)]|done|]. cbn. intros i Hi.
  destruct (decide (i = id)) as [->|Hn]; [by rewrite lookup_partial_alter_eq|].
  by rewrite lookup_partial_alter_ne.
Qed.

(** The half is read empty: nothing left over, nothing queued. *)
Definition emptied (id : Z) (ch : ChanId) (y : Side) : Prop :=
  exists r, sd_recvs y !! id = Some r /\ rv_data_rx r = ch /\ rv_eof r = false /\
    rv_leftover r = [] /\ ch_queue (chan_of (sd_mux y) ch) = [].

Lemma empty_recv q x p y id r :
  flowing q (x, p, y) -> sd_recvs y !! id = Some r -> rv_eof r = false ->
  reaches q x p y (emptied id (rv_data_rx r)).
Proof.
  remember (length (rv_leftover r) + length (ch_queue (chan_of (sd_mux y) (rv_data_rx r))))%nat as k eqn:Ek.
  revert y r Ek. induction k as [k IH] using lt_wf_ind. intros y r -> Hf Hr He.
  assert (Hy : SideInv y) by apply Hf.
  destruct (rv_leftover r) as [|b lo] eqn:El.
  - destruct (ch_queue (chan_of (sd_mux y) (rv_data_rx r))) as [|c qu] eqn:Eq.
    { apply reaches_now; [done|]. by exists r. }
    assert (Hp : poll_read (length c) r (sd_mux y) = Some (c, set_leftover [] r,
      set_chan (rv_data_rx r) {| ch_queue := qu; ch_rx_alive := ch_rx_alive (chan_of (sd_mux y) (rv_data_rx r)) |} (sd_mux y))).
    { unfold poll_read, poll_recv. by rewrite El, He, Eq, firstn_all, drop_all. }
    eapply reaches_step; [done|by eapply pump_read|by eapply caught_up_read|]. intros Hf1.
    apply (IH (length qu) ltac:(simpl; lia) _ (set_leftover [] r)); [|exact Hf1| |done]; cbn.
    + by rewrite chan_of_set.
    + by rewrite lookup_partial_alter_eq.
  - assert (Hp : poll_read (length (b :: lo)) r (sd_mux y) = Some (b :: lo, set_leftover [] r, sd_mux y)).
    { unfold poll_read. by rewrite El, firstn_all, drop_all. }
    eapply reaches_step; [done|by eapply pump_read|by eapply caught_up_read|]. intros Hf1.
    apply (IH (length (ch_queue (chan_of (sd_mux y) (rv_data_rx r)))) ltac:(simpl; lia) _ (set_leftover [] r));
      [done|exact Hf1| |done]. cbn. by rewrite lookup_partial_alter_eq.
Qed.

(** ** The reader task *)

(** The reader holds a chunk for a full channel: whoever owns the channel reads it empty. *)
Lemma make_room q x p y tx buf :
  flowing q (x, p, y) -> mx_reader (sd_mux y) = RdSend tx buf ->
  reaches q x p y (fun y' => alive (sd_mux y') tx ->
    (length (ch_queue (chan_of (sd_mux y') tx)) < STREAM_INBOUND_CAPACITY)%nat).
Proof.
  intros Hf Hr. eapply reaches_bind; [by apply accept_all|]. intros y1 Hf1 [Er _] Ha.
  rewrite Hr in Er. pose proof Hf1 as (Hl & [Ho1 Ho2] & _ & _ & Hslot).
  destruct (ch_rx_alive (chan_of (sd_mux y1) tx)) eqn:Eal.
  2:{ apply reaches_now; [done|]. unfold alive. by rewrite Eal. }
  destruct (Ho1 _ Eal) as (id & rest & Hh). unfold holder in Hh. rewrite Ha, Hslot in Hh. cbn in Hh.
  destruct (sd_recvs y1 !! id) as [r|] eqn:Er1; [|by destruct (id =? _)]. injection Hh as <- <-.
  assert (Hy : SideInv y1) by apply Hl. destruct Hy as (_ & _ & (C1 & _) & Heof).
  destruct (C1 _ _ _ (holder_recv (sd_mux y1) _ _ _ Er1)) as (_ & Htab & Honly & _).
  assert (rv_eof r = false) as He.
  { apply not_true_is_false. intros E. destruct (Heof _ _ Er1) as [_ Hfin].
    destruct (Hfin E) as (Hst & _). rewrite decide_True in Htab by done.
    destruct (Ho2 _ _ Er Eal) as [i Hi]. pose proof (Honly _ Hi) as ->. congruence. }
  eapply reaches_bind; [by eapply empty_recv|]. intros y2 Hf2 _ (r2 & _ & _ & _ & _ & Hq).
  apply reaches_now; [done|]. rewrite Hq. unfold STREAM_INBOUND_CAPACITY. simpl. lia.
Qed.

(** The receiving side comes back for the next header; [fs] are the frames it completed. *)
Definition back (fs : list Frame) (y y' : Side) : Prop :=
  mx_reader (sd_mux y') = RdHeader /\ sd_rcvd y' = sd_rcvd y ++ fs /\
  (forall id, is_Some (sd_recvs y !! id) -> is_Some (sd_recvs y' !! id)).

Lemma unblock q x p y tx buf :
  flowing q (x, p, y) -> mx_reader (sd_mux y) = RdSend tx buf ->
  exists y', rtc pump (x, p, y) (x, p, y') /\ flowing q (x, p, y') /\ back [] y y'.
Proof.
  intros Hf Hr. destruct (make_room _ _ _ _ _ _ Hf Hr) as (y1 & Hp & Hf1 & (Er & Ec & Es) & Hroom).
  rewrite Hr in Er.
  assert (exists m', reader_step p (sd_mux y1) = Some (p, m') /\ mx_reader m' = RdHeader) as (m' & Hs & Hm).
  { unfold reader_step. rewrite Er. destruct (ch_rx_alive _) eqn:Ea; cbn [negb]; [|by eexists].
    rewrite bool_decide_eq_true_2 by auto. by eexists. }
  assert (Hd : dispatched p (sd_mux y1) = []) by (unfold dispatched; by rewrite Er).
  eapply (pump_reader x p y1) in Hs. rewrite Hd in Hs. eexists. split_and!.
  - by eapply rtc_r.
  - eapply pump_flowing; [exact Hf1|exact Hs|]. cbn. by rewrite Hm.
  - split_and!; cbn; [done| |done]. by rewrite Ec.
Qed.

(** A frame that has arrived whole is completed: at once, or after its header. *)
Lemma reader_moves p m h pl fs :
  wire (mx_reader m) (pi_bytes p) [] ((h, pl) :: fs) -> frame_ok (h, pl) ->
  (mx_reader m = RdHeader \/ exists h', mx_reader m = RdPayload h') ->
  exists p' m', reader_step p m = Some (p', m') /\
    (dispatched p m = [(h, pl)] /\ m' = dispatch_frame h pl m \/
     dispatched p m = [] /\ mx_reader m = RdHeader /\ m' = with_reader (RdPayload h) m).
Proof.
  intros Hw Hok [Er|[h' Er]]; unfold reader_step, dispatched, pipe_read_exact; rewrite Er in *; cbn [wire] in Hw.
  - rewrite app_nil_r, enc_cons in Hw. cbn [fst snd] in Hw.
    assert (Hlen : length (MuxHeader_to_bytes h) = MUX_HEADER_SIZE) by done.
    rewrite bool_decide_eq_true_2 by (rewrite Hw, length_app, Hlen; lia).
    rewrite Hw, <-Hlen, take_app_length. pose proof Hok as (Hv & _ & Hmax & _).
    replace (MuxHeader_decode _) with (Ok (E := MuxHeaderError) h).
    2:{ symmetry. rewrite <-(app_nil_r (MuxHeader_to_bytes _)). by apply MuxHeader_decode_encode. }
    cbn in Hmax. destruct (mh_flag h) eqn:Ef; cbn [decide].
    + eexists _, _. split; [done|]. by right.
    + replace (_ <? _) with false by (symmetry; apply Z.ltb_ge; auto).
      eexists _, _. split; [done|]. by right.
    + eexists _, _. split; [done|]. left. by rewrite (fin_payload h pl Hok Ef).
  - destruct Hw as (p0 & fs0 & [= <- <- <-] & Hw). rewrite app_nil_r in Hw. cbv zeta.
    rewrite (payload_size h pl Hok), bool_decide_eq_true_2 by (rewrite Hw, length_app; lia).
    rewrite Hw, take_app_length. eexists _, _. split; [done|]. by left.
Qed.

(** The frames in flight, from the logs. *)
Lemma in_flight q x p y fl :
  flowing q (x, p, y) -> sd_sent x = sd_rcvd y ++ fl ++ out_frames (mx_out (sd_mux x)) ->
  wire (mx_reader (sd_mux y)) (pi_bytes p) [] fl /\ Forall frame_ok fl.
Proof.
  intros ((((_ & _ & Hok) & _) & _ & (fl' & ms & E & Hm & Hw) & _) & _ & Ha & _) Es.
  rewrite Es in E. apply app_inv_head, app_inv_tail in E as <-. rewrite (Hm Ha) in Hw.
  split; [done|]. rewrite Es in Hok. by apply Forall_app in Hok as [_ [Hf _]%Forall_app].
Qed.

(** The reader has the frame [(h, pl)] in full: it is logged, and the reader goes on. *)
Definition completes (f : Frame) (y y' : Side) : Prop :=
  (mx_reader (sd_mux y') = RdHeader \/ exists tx, mx_reader (sd_mux y') = RdSend tx f.2) /\
  sd_rcvd y' = sd_rcvd y ++ [f] /\ sd_recvs y' = sd_recvs y.

Lemma dispatch_pump q x p y f p' :
  flowing q (x, p, y) -> frame_ok f -> dispatched p (sd_mux y) = [f] ->
  reader_step p (sd_mux y) = Some (p', dispatch_frame f.1 f.2 (sd_mux y)) ->
  exists y', pump (x, p, y) (x, p', y') /\ flowing q (x, p', y') /\ completes f y y'.
Proof.
  destruct f as [h pl]. intros Hf Hok Hd Hs. apply (pump_reader x) in Hs. rewrite Hd in Hs.
  pose proof (dispatch_reader h pl (sd_mux y) Hok) as Hr. eexists. split_and!; [done| |by split_and!].
  eapply pump_flowing; [exact Hf|exact Hs|]. cbn. by destruct Hr as [->|[tx ->]].
Qed.

Lemma complete_frame q x p y f fs :
  flowing q (x, p, y) -> sd_sent x = sd_rcvd y ++ (f :: fs) ++ out_frames (mx_out (sd_mux x)) ->
  (mx_reader (sd_mux y) = RdHeader \/ exists h, mx_reader (sd_mux y) = RdPayload h) ->
  exists p' y', rtc pump (x, p, y) (x, p', y') /\ flowing q (x, p', y') /\ completes f y y'.
Proof.
  destruct f as [h pl]. intros Hf Hsent Hr. destruct (in_flight _ _ _ _ _ Hf Hsent) as [Hw Hok].
  apply Forall_cons_1 in Hok as [Hok _].
  destruct (reader_moves _ _ _ _ _ Hw Hok Hr) as (p1 & m1 & Hs & [[Hd ->]|(Hd & _ & ->)]).
  { destruct (dispatch_pump _ _ _ _ _ _ Hf Hok Hd Hs) as (y' & Hp & ?). exists p1, y'.
    split; [by apply rtc_once|done]. }
  apply (pump_reader x) in Hs. rewrite Hd in Hs.
  match type of Hs with pump _ (_, _, ?y) => set (y1 := y) in * end.
  assert (Hf1 : flowing q (x, p1, y1)) by (by eapply pump_flowing).
  assert (Hsent1 : sd_sent x = sd_rcvd y1 ++ ((h, pl) :: fs) ++ out_frames (mx_out (sd_mux x))).
  { cbn. by rewrite app_nil_r. }
  destruct (in_flight _ _ _ _ _ Hf1 Hsent1) as [Hw1 _].
  destruct (reader_moves _ _ _ _ _ Hw1 Hok) as (p2 & m2 & Hs2 & Hcase); [by right; eexists|].
  destruct Hcase as [[Hd2 ->]|(_ & ? & _)]; [|done].
  destruct (dispatch_pump _ _ _ _ _ _ Hf1 Hok Hd2 Hs2) as (y' & Hp & Hf' & Hr' & Hc & Hrv).
  exists p2, y'. split_and!; [by eapply rtc_l, rtc_once|done|]. split_and!; try done.
  rewrite Hc. cbn. by rewrite app_nil_r.
Qed.

(** The reader gets rid of the chunk it holds, if it holds one. *)
Lemma settle q x p y :
  flowing q (x, p, y) ->
  exists y', rtc pump (x, p, y) (x, p, y') /\ flowing q (x, p, y') /\ sd_rcvd y' = sd_rcvd y /\
    (forall id, is_Some (sd_recvs y !! id) -> is_Some (sd_recvs y' !! id)) /\
    (mx_reader (sd_mux y') = RdHeader \/ exists h, mx_reader (sd_mux y') = RdPayload h).
Proof.
  intros Hf. destruct (mx_reader (sd_mux y)) as [|h|tx buf|] eqn:Er.
  - exists y. split_and!; auto. apply rtc_refl.
  - exists y. split_and!; eauto. apply rtc_refl.
  - destruct (unblock _ _ _ _ _ _ Hf Er) as (y' & Hp & Hf' & Hr & Hc & Hs). exists y'.
    rewrite app_nil_r in Hc. split_and!; auto.
  - by destruct Hf as (_ & _ & _ & ? & _).
Qed.

(** Whatever is on the wire is completed, frame by frame. *)
Lemma drain q x fl p y :
  flowing q (x, p, y) -> sd_sent x = sd_rcvd y ++ fl ++ out_frames (mx_out (sd_mux x)) ->
  exists p' y', rtc pump (x, p, y) (x, p', y') /\ flowing q (x, p', y') /\ back fl y y'.
Proof.
  revert p y. induction fl as [|f fl IH]; intros p y Hf Hsent;
    destruct (settle _ _ _ _ Hf) as (y1 & Hp1 & Hf1 & Hc1 & Hs1 & Hr1); rewrite <-Hc1 in Hsent.
  - exists p, y1. split_and!; [done..|]. destruct Hr1 as [Hr1|[h Hr1]].
    + split_and!; [done| |done]. by rewrite app_nil_r.
    + destruct (in_flight _ _ _ _ _ Hf1 Hsent) as [Hw _]. rewrite Hr1 in Hw.
      by destruct Hw as (? & ? & ? & _).
  - destruct (complete_frame _ _ _ _ _ _ Hf1 Hsent Hr1) as (p2 & y2 & Hp2 & Hf2 & Hr2 & Hc2 & Hs2).
    destruct (IH p2 y2 Hf2) as (p3 & y3 & Hp3 & Hf3 & Hr3 & Hc3 & Hs3).
    { rewrite Hc2, Hsent, <-!app_assoc. done. }
    exists p3, y3. split_and!; [by do 2 (etrans; [done|])|done|]. split_and!; [done| |].
    + by rewrite Hc3, Hc2, Hc1, <-app_assoc.
    + intros id Hid. apply Hs3. rewrite Hs2. auto.
Qed.

(** ** Delivery *)

(** With the reader back at a header, an emptied half has been given all that arrived. *)
Lemma all_arrived y id ch :
  SideInv y -> mx_reader (sd_mux y) = RdHeader -> emptied id ch y ->
  sd_got y id = payload_of id (sd_rcvd y).
Proof.
  intros (_ & _ & (C1 & _) & _) Hr (r & Hi & <- & _ & Hlo & Hq).
  destruct (C1 _ _ _ (holder_recv _ _ _ _ Hi)) as (Ha & _). rewrite <-Ha, Hlo. unfold content.
  by rewrite Hq, Hr, !app_nil_r.
Qed.

(** Of a finished stream, the next read of an emptied half reports the end. *)
Lemma emptied_eof y id ch :
  SideInv y -> mx_reader (sd_mux y) = RdHeader -> emptied id ch y ->
  stage_of (negb (mx_is_server (sd_mux y))) id (sd_rcvd y) = StFin ->
  exists r, sd_recvs y !! id = Some r /\ poll_read 1 r (sd_mux y) = Some ([], set_eof r, sd_mux y).
Proof.
  intros (_ & _ & (C1 & _) & _) Hr (r & Hi & <- & He & Hlo & Hq) Hst. exists r. split; [done|].
  destruct (C1 _ _ _ (holder_recv _ _ _ _ Hi)) as (_ & Htab & Honly & _).
  rewrite decide_True in Htab by done. unfold poll_read, poll_recv. rewrite Hlo, He, Hq.
  replace (sender_alive _ _) with false; [done|]. symmetry. unfold sender_alive. rewrite Hr, orb_false_r.
  apply bool_decide_eq_false_2. intros (i & c & Hc & ->). pose proof (Honly _ Hc) as ->. congruence.
Qed.

(** The sender's writer runs and nothing is queued behind a close; the receiver's reader
    has not ended, and a client has taken its control stream. *)
Definition healthy (to_server : bool) (d : Duplex) : Prop :=
  let x := sd_mux (sender to_server d) in
  let y := sd_mux (receiver to_server d) in
  mx_writer_alive x = true /\
  (exists fs, mx_out x = as_out fs \/ mx_out x = as_out fs ++ [OutFrame_Close]) /\
  mx_reader y <> RdDone /\ mx_control_slot y = None.

Lemma healthy_flowing to_server d :
  reachable d -> healthy to_server d -> flowing (pipe_to (negb to_server) d) (link_of to_server d).
Proof.
  intros Hd (Ha & _ & Hr & Hc). destruct (reachable_owned d Hd) as [Ho1 Ho2].
  pose proof (reachable_inv d Hd) as Hl. destruct to_server; cbn in *; split_and!; try done.
  by apply LinkInv_sym.
Qed.

(** The queue goes onto the wire and the wire is read up: everything that was handed to
    the writer has been completed. *)
Lemma pumped q x p y fs tail :
  flowing q (x, p, y) -> mx_out (sd_mux x) = as_out fs ++ tail -> out_frames tail = [] ->
  exists x' p' y', rtc pump (x, p, y) (x', p', y') /\ flowing q (x', p', y') /\
    sd_rcvd y' = sd_sent x' /\ mx_reader (sd_mux y') = RdHeader /\
    sd_put x' = sd_put x /\ sd_sends x' = sd_sends x /\
    (forall id, is_Some (sd_recvs y !! id) -> is_Some (sd_recvs y' !! id)).
Proof.
  intros Hf Eo Et. destruct (flush q fs x p y tail Hf Eo) as (x1 & p1 & Hp1 & Hf1 & Eo1 & Ep & Es).
  pose proof Hf1 as ((_ & _ & (fl & ms & E & _ & _) & _) & _).
  destruct (drain q x1 fl p1 y Hf1 E) as (p2 & y2 & Hp2 & Hf2 & Hr & Hc & Hk).
  rewrite Eo1, Et, app_nil_r in E. exists x1, p2, y2. split_and!; try done; [by etrans|]. by rewrite Hc, E.
Qed.

(** Everything the sender handed out has arrived: reading the half delivers it. *)
Lemma delivered q x p y id r s :
  flowing q (x, p, y) -> sd_rcvd y = sd_sent x -> mx_reader (sd_mux y) = RdHeader ->
  sd_recvs y !! id = Some r -> sd_sends x !! id = Some s -> ss_pending_open s = None ->
  exists y' r', rtc pump (x, p, y) (x, p, y') /\ sd_got y' id = sd_put x id /\
    sd_recvs y' !! id = Some r' /\ (ss_finished s = true -> rv_eof r' = true).
Proof.
  intros Hf Ec Er Hr Hs Hp. pose proof Hf as ((Hx & Hy & _ & _ & Hsrv) & _ & Ha & _).
  destruct (sent_put x id Hx) as [_ Hput].
  assert (Hpay : sd_put x id = payload_of id (sd_rcvd y)).
  { rewrite Ec. apply Hput; [done|]. intros s' Hs'. congruence. }
  assert (Hst : ss_finished s = true -> stage_of (negb (mx_is_server (sd_mux y))) id (sd_rcvd y) = StFin).
  { intros Hfin. pose proof Hx as ((H1 & _) & _). destruct (H1 _ _ Hs) as (_ & _ & _ & _ & He & _).
    rewrite Ec, Hsrv, negb_involutive. rewrite (He Ha). unfold expected. by rewrite Hp, Hfin. }
  destruct (rv_eof r) eqn:Ee.
  { exists y, r. pose proof Hy as (_ & _ & _ & Heof). destruct (Heof _ _ Hr) as [_ Hg].
    split_and!; [apply rtc_refl| |done|done]. rewrite Hpay. by apply Hg. }
  destruct (empty_recv _ _ _ _ _ _ Hf Hr Ee) as (y1 & Hp1 & Hf1 & (Er1 & Ec1 & _) & He1).
  pose proof Hf1 as ((_ & Hy1 & _ & _ & Hsrv1) & _). rewrite Er in Er1.
  assert (Hg : sd_got y1 id = sd_put x id) by (rewrite Hpay, <-Ec1; by eapply all_arrived).
  destruct (ss_finished s) eqn:Efin.
  - destruct (emptied_eof y1 id _ Hy1 Er1 He1) as (r1 & Hr1 & Hread).
    { rewrite Ec1. rewrite Hsrv in Hst. rewrite Hsrv1. auto. }
    eexists _, (set_eof r1). split_and!.
    + eapply rtc_r; [exact Hp1|]. by eapply pump_read.
    + cbn. by rewrite add_at_nil.
    + cbn. by rewrite lookup_partial_alter_eq.
    + done.
  - destruct He1 as (r1 & Hr1 & _). by exists y1, r1.
Qed.

Lemma link_delivers q x p y id s fs tail :
  flowing q (x, p, y) -> mx_out (sd_mux x) = as_out fs ++ tail -> out_frames tail = [] ->
  sd_sends x !! id = Some s -> ss_pending_open s = None -> is_Some (sd_recvs y !! id) ->
  exists x' p' y' r, rtc pump (x, p, y) (x', p', y') /\ sd_got y' id = sd_put x id /\
    sd_recvs y' !! id = Some r /\ (ss_finished s = true -> rv_eof r = true).
Proof.
  intros Hf Eo Et Hs Hp Hr.
  destruct (pumped _ _ _ _ _ _ Hf Eo Et) as (x' & p' & y1 & Hp1 & Hf1 & Ec & Er & Ep & Es & Hk).
  destruct (Hk _ Hr) as [r1 Hr1]. rewrite <-Es in Hs.
  destruct (delivered _ _ _ _ _ _ _ Hf1 Ec Er Hr1 Hs Hp) as (y' & r & Hp2 & Hg & Hr' & He).
  exists x', p', y', r. rewrite <-Ep. split_and!; try done. by etrans.
Qed.

Lemma healthy_delivers to_server d id s :
  reachable d -> healthy to_server d -> sd_sends (sender to_server d) !! id = Some s ->
  ss_pending_open s = None -> is_Some (sd_recvs (receiver to_server d) !! id) ->
  exists x' p' y' r, rtc pump (link_of to_server d) (x', p', y') /\
    reachable (relink to_server (x', p', y') d) /\
    sd_got y' id = sd_put (sender to_server d) id /\
    sd_recvs y' !! id = Some r /\ (ss_finished s = true -> rv_eof r = true).
Proof.
  intros Hd Hh Hs Hp Hr. pose proof (healthy_flowing _ _ Hd Hh) as Hf. destruct Hh as (_ & (fs & Eo) & _ & _).
  assert (exists tail, mx_out (sd_mux (sender to_server d)) = as_out fs ++ tail /\ out_frames tail = [])
    as (tail & Eo' & Et).
  { destruct Eo as [Eo|Eo]; [exists []|by eexists]. by rewrite app_nil_r. }
  destruct (link_delivers _ _ _ _ _ _ _ _ Hf Eo' Et Hs Hp Hr) as (x' & p' & y' & r & Hrun & Hg & Hr' & He).
  exists x', p', y', r. split_and!; try done. by apply pump_reachable.
Qed.

(** ** Closing *)

(** Until [close] is called the queue holds frames only. *)
Definition OpenQueue (m : Inner) : Prop := mx_closed m = false -> exists fs, mx_out m = as_out fs.

Lemma open_queue_push m fs : OpenQueue m -> OpenQueue (with_out (mx_out m ++ as_out fs) m).
Proof.
  intros Hq Hc. destruct (Hq Hc) as [gs E]. exists (gs ++ fs). cbn. rewrite E. unfold as_out. by rewrite map_app.
Qed.

Lemma open_queue_same m m' : mx_closed m' = mx_closed m -> mx_out m' = mx_out m -> OpenQueue m -> OpenQueue m'.
Proof. unfold OpenQueue. by intros -> ->. Qed.

Lemma open_queue_step x y xy yx x' xy' yx' :
  side_step x yx xy x' yx' xy' -> LinkInv x y xy yx -> OpenQueue (sd_mux x) -> OpenQueue (sd_mux x').
Proof.
  intros Hstep Hinv Hq. pose proof Hinv as (((Hsends & _) & _) & _).
  destruct Hstep as [x i o h m' Hmax E|x i o header h m' Hmax Hl E|x i o header e m' Hmax E|x i o h m' E
    |x i o header h m' E|x i o id s buf res s' m' Hs Hb E|x i o id s res s' m' Hs E|x i o|x i o id n r bs r' m' Hr E
    |x i o id r Hr|x i o fault o' m' E|x i o i' m' E]; cbn [sd_mux adopt on_mux set_send set_recv log_rcvd].
  - unfold open_bi in E. case_match; [done|]. case_match; injection E as _ <-; by eapply open_queue_same.
  - unfold open_data_stream in E. destruct (mx_closed _); [done|].
    cbn [mint_stream_id new_channel] in E. rewrite send_out_spec in E. destruct (mx_writer_alive _); [|done].
    injection E as _ <-. set (id := mx_next_stream_id (sd_mux x)).
    by eapply open_queue_same; [..|apply (open_queue_push (sd_mux x) [(open_header id, header)])].
  - unfold open_data_stream in E. destruct (mx_closed _); [by injection E as _ <-|].
    cbn [mint_stream_id new_channel] in E. rewrite send_out_spec in E.
    destruct (mx_writer_alive _); [done|]. rewrite app_nil_r, with_out_same in E. injection E as _ <-.
    by eapply open_queue_same.
  - unfold accept_bi in E. case_match; [done|]. injection E as _ <-. done.
  - unfold accept_data_stream in E. case_match; [done|]. injection E as _ _ <-. done.
  - destruct (Hsends _ _ Hs). eapply poll_write_effect in E as (fs & -> & _); [|done..]. by apply open_queue_push.
  - destruct (Hsends _ _ Hs). eapply finish_effect in E as (fs & -> & _); [|done..]. by apply open_queue_push.
  - unfold close. destruct (mx_closed _); [done|]. rewrite send_out_spec. by intros ?.
  - destruct (poll_read_effect _ _ _ _ _ _ _ (proj1 Hinv) Hr E) as (_ & _ & _ & [->|(? & ? & ->)]); done.
  - done.
  - unfold writer_step in E. destruct (mx_writer_alive _); [|done]. cbn [negb] in E.
    destruct (mx_out _) as [|[h pl|] out] eqn:Eo; [done| |]; [destruct fault as [k|]|];
      injection E as <- <-; intros Hc; destruct (Hq Hc) as [[|f fs] Ef]; rewrite Eo in Ef; try done;
      injection Ef as _ ->; by exists fs.
  - destruct (reader_sees _ _ _ _ _ _ Hinv E) as [Heff _].
    destruct Heff as [h p| | | |]; try done. unfold dispatch_frame. destruct (mh_flag h); try done.
    + destruct (_ =? _); done.
    + destruct (_ !! _); done.
Qed.

Lemma reachable_open_queue d to_server : reachable d -> OpenQueue (sd_mux (sender to_server d)).
Proof.
  intros Hr. cut (OpenQueue (sd_mux (dx_client d)) /\ OpenQueue (sd_mux (dx_server d))).
  { intros [??]. by destruct to_server. }
  refine (rtc_ind_r (fun d => OpenQueue (sd_mux (dx_client d)) /\ OpenQueue (sd_mux (dx_server d))) _ _ _ d Hr).
  - split; intros _; by exists [].
  - intros d1 d2 H1 Hs (Hc & Ho). pose proof (reachable_inv _ H1) as Hi.
    destruct Hs as [c s up down c' up' down' Hs|c s up down s' up' down' Hs]; cbn in *.
    + split; [|done]. by eapply open_queue_step.
    + split; [done|]. eapply open_queue_step; [exact Hs|by apply LinkInv_sym|done].
Qed.
