(* ===== verification/MuxSched.v ===== *)
(** * MuxSched: delivery under every schedule

    [MuxLive] finds a run of the tasks that delivers; this file shows that every run does.
    [work] measures what is still under way between a sender and a receiver: each step of the
    writer, the reader or the receiving application that changes anything lowers it, and as
    long as a byte is missing some step can be taken.  So the tasks, in whatever order they
    are scheduled, come to rest, and at rest everything has arrived. *)

From S2P Require Import Prelude Wire Framing TcpMux MuxInv MuxLink MuxLive.

Local Open Scope nat_scope.

(** ** Sums over a table *)

Section MapSum.
Context {K A : Type} `{Countable K} (f : A -> nat).

Definition map_sum (m : gmap K A) : nat := sum_list_with (fun x => f x.2) (map_to_list m).

Lemma map_sum_new k a (m : gmap K A) : m !! k = None -> map_sum (<[k := a]> m) = (f a + map_sum m)%nat.
Proof. intros Hk. unfold map_sum. by rewrite (map_to_list_insert m k a Hk). Qed.

Lemma map_sum_insert k a (m : gmap K A) :
  (map_sum (<[k := a]> m) + from_option f 0 (m !! k) = map_sum m + f a)%nat.
Proof.
  destruct (m !! k) as [b|] eqn:E; cbn; [|rewrite map_sum_new by done; lia].
  assert (Hd : delete k m !! k = None) by apply lookup_delete_eq.
  rewrite <-(insert_delete_id m k b E) at 2. rewrite <-(insert_delete_eq m k a).
  rewrite !map_sum_new by done. lia.
Qed.
End MapSum.

(** ** What is under way *)

Definition chunk_work (b : bytes) : nat := 20 + 2 * length b.
Definition chan_work (c : Chan) : nat := sum_list_with chunk_work (ch_queue c).
Definition recv_work (r : TcpMuxRecvStream) : nat := 2 * length (rv_leftover r) + if rv_eof r then 0 else 1.
Definition accept_work (a : AcceptedStream) : nat := 2 * length (as_open_payload a) + 2.
Definition out_work (f : OutFrame) : nat :=
  match f with OutFrame_Frame h pl => 10 * length (frame_bytes h pl) + 1 | OutFrame_Close => 0 end.
Definition reader_work (rd : ReaderState) : nat :=
  match rd with RdPayload _ => 60 | RdSend _ buf => 30 + 2 * length buf | RdHeader | RdDone => 0 end.

Definition mux_work (m : Inner) : nat :=
  reader_work (mx_reader m) + sum_list_with accept_work (mx_accept m) + map_sum chan_work (mx_chans m).
Definition work (l : Link) : nat :=
  let '(x, p, y) := l in
  sum_list_with out_work (mx_out (sd_mux x)) + 10 * length (pi_bytes p) + mux_work (sd_mux y)
  + map_sum recv_work (sd_recvs y).

(** The link without its history: the two connections, the pipe, the streams held. *)
Definition core (l : Link) : Inner * Pipe * Inner * gmap Z TcpMuxRecvStream :=
  let '(x, p, y) := l in (sd_mux x, p, sd_mux y, sd_recvs y).

(** A step that changes more than the history. *)
Definition progress (l l' : Link) : Prop := pump l l' /\ core l' <> core l.

Lemma work_core l l' : core l = core l' -> work l = work l'.
Proof. destruct l as [[x p] y], l' as [[x' p'] y']. cbn. by intros [= -> -> -> ->]. Qed.

(** ** Each step does some of it *)

Lemma chan_of_work m ch : from_option chan_work 0 (mx_chans m !! ch) = chan_work (chan_of m ch).
Proof. unfold chan_of. by destruct (mx_chans m !! ch). Qed.

Lemma dispatch_work h pl m :
  (mux_work (dispatch_frame h pl m) + reader_work (mx_reader m) <= mux_work m + 30 + 2 * length pl)%nat.
Proof.
  unfold dispatch_frame, mux_work. destruct (mh_flag h).
  - destruct (_ =? _)%Z; cbn; [lia|]. rewrite sum_list_with_app. cbn. unfold accept_work. cbn.
    pose proof (map_sum_insert chan_work (mx_next_chan m) empty_chan (mx_chans m)). cbn in *. lia.
  - destruct (_ !! _); cbn; lia.
  - cbn. lia.
Qed.

Lemma with_reader_work rd m :
  (mux_work (with_reader rd m) + reader_work (mx_reader m) = mux_work m + reader_work rd)%nat.
Proof. unfold mux_work. cbn. lia. Qed.

Lemma reader_exit_work m : (mux_work (reader_exit m) + reader_work (mx_reader m) = mux_work m)%nat.
Proof. unfold mux_work. cbn. lia. Qed.

Lemma push_chunk_work tx buf c m :
  c = chan_of m tx ->
  mux_work (with_chans (<[tx := {| ch_queue := ch_queue c ++ [buf]; ch_rx_alive := true |}]> (mx_chans m))
              (mx_next_chan m) m) = (mux_work m + chunk_work buf)%nat.
Proof.
  intros ->. unfold mux_work. cbn.
  pose proof (map_sum_insert chan_work tx
    {| ch_queue := ch_queue (chan_of m tx) ++ [buf]; ch_rx_alive := true |} (mx_chans m)) as E.
  rewrite chan_of_work in E. unfold chan_work in E at 4. cbn in E. rewrite sum_list_with_app in E. cbn in E.
  fold (chan_work (chan_of m tx)) in E. lia.
Qed.

Lemma reader_step_work p m p' m' :
  pi_ended p = false -> reader_step p m = Some (p', m') ->
  pi_ended p' = false /\ (10 * length (pi_bytes p') + mux_work m' < 10 * length (pi_bytes p) + mux_work m)%nat.
Proof.
  intros Hp. unfold reader_step, pipe_read_exact. rewrite Hp.
  destruct (mx_reader m) as [|h|tx buf|] eqn:Er; [| | |done].
  - case_bool_decide as Hn; [|done]. unfold MUX_HEADER_SIZE in *. intros Hs.
    enough (p' = {| pi_bytes := drop 9 (pi_bytes p); pi_ended := false |} /\ (mux_work m' <= mux_work m + 60)%nat)
      as [-> Hw] by (cbn; rewrite length_drop; split; [done|lia]).
    pose proof (reader_exit_work m) as He. rewrite Er in He.
    destruct (MuxHeader_decode _) as [h|e]; [|injection Hs as <- <-; split; [done|lia]].
    pose proof (with_reader_work (RdPayload h) m) as Hw. pose proof (dispatch_work h [] m) as Hd. rewrite Er in Hw, Hd.
    cbn [reader_work length] in Hw, Hd, He. destruct (mh_flag h); [|destruct (_ <? _)%Z|]; injection Hs as <- <-; (split; [done|lia]).
  - cbv zeta. set (n := match mh_flag h with Open => _ | _ => _ end). case_bool_decide as Hn; [|done].
    intros [= <- <-]. pose proof (dispatch_work h (take n (pi_bytes p)) m) as Hd. rewrite Er in Hd. cbn [reader_work] in Hd.
    rewrite length_take in Hd. cbn [pi_bytes pi_ended]. rewrite length_drop. split; [done|lia].
  - pose proof (with_reader_work RdHeader m) as Hw. rewrite Er in Hw. cbn [reader_work] in Hw.
    destruct (negb _); [intros [= <- <-]; split; [done|lia]|]. case_bool_decide; [|done]. intros [= <- <-].
    split; [done|]. pose proof (push_chunk_work tx buf _ m eq_refl) as E. unfold chunk_work in E.
    match goal with |- context [with_reader RdHeader ?m'] => pose proof (with_reader_work RdHeader m') as Hw' end.
    cbn [mx_reader with_chans] in Hw'. rewrite Er in Hw'. cbn [reader_work] in Hw'. lia.
Qed.

Lemma pop_chunk_work ch chunk rest m m' :
  ch_queue (chan_of m ch) = chunk :: rest ->
  m' = with_chans (<[ch := {| ch_queue := rest; ch_rx_alive := ch_rx_alive (chan_of m ch) |}]> (mx_chans m))
         (mx_next_chan m) m ->
  mux_work m' + chunk_work chunk = mux_work m.
Proof.
  intros Hq ->. unfold mux_work. cbn [mx_reader mx_accept mx_chans with_chans].
  pose proof (map_sum_insert chan_work ch
    {| ch_queue := rest; ch_rx_alive := ch_rx_alive (chan_of m ch) |} (mx_chans m)) as E.
  rewrite chan_of_work in E. replace (chan_work (chan_of m ch)) with (chunk_work chunk + sum_list_with chunk_work rest) in E
    by (unfold chan_work; by rewrite Hq).
  change (chan_work {| ch_queue := rest; ch_rx_alive := _ |}) with (sum_list_with chunk_work rest) in E. lia.
Qed.

(** A read that leaves everything as it was asked for nothing or was at the end. *)
Lemma poll_read_work n r m bs r' m' :
  poll_read n r m = Some (bs, r', m') ->
  mux_work m' + recv_work r' < mux_work m + recv_work r \/ bs = [] /\ r' = r /\ m' = m.
Proof.
  unfold poll_read. destruct (rv_leftover r) as [|b lo] eqn:Elo.
  - destruct (rv_eof r) eqn:Ee; [intros [= <- <- <-]; by right|]. unfold poll_recv.
    destruct (ch_queue (chan_of m (rv_data_rx r))) as [|chunk rest] eqn:Eq.
    + destruct (sender_alive _ _); [done|]. intros [= <- <- <-]. left. unfold recv_work. cbn. rewrite Ee. lia.
    + intros [= <- <- <-]. left. pose proof (pop_chunk_work _ _ _ m _ Eq eq_refl) as E. unfold chunk_work in E.
      unfold recv_work. cbn [set_leftover rv_leftover rv_eof]. rewrite length_drop, Elo, Ee. lia.
  - intros [= <- <- <-]. destruct n as [|n].
    + right. split_and!; [done| |done]. rewrite drop_0, <-Elo. by destruct r.
    + left. unfold recv_work. cbn [set_leftover rv_leftover rv_eof]. rewrite length_drop, Elo. cbn. lia.
Qed.

Lemma recvs_insert id r (m : gmap Z TcpMuxRecvStream) :
  map_sum recv_work (<[id := r]> m) <= map_sum recv_work m + recv_work r.
Proof. pose proof (map_sum_insert recv_work id r m). lia. Qed.

Lemma accept_work_adopt m h m' :
  accept_bi m = Some (h, m') -> mux_work m' + recv_work h.2 < mux_work m.
Proof.
  unfold accept_bi. destruct (mx_accept m) as [|a rest] eqn:Ea; [done|]. intros [= <- <-].
  unfold mux_work, recv_work. cbn. rewrite Ea. cbn. unfold accept_work. case_match; cbn; lia.
Qed.

(** Every step lowers the work, or is a read that changes nothing. *)
Lemma pump_work x p y x' p' y' :
  pi_ended p = false -> pump (x, p, y) (x', p', y') ->
  pi_ended p' = false /\
  (work (x', p', y') < work (x, p, y) \/
   x' = x /\ core (x', p', y') = core (x, p, y) /\ forall id, sd_got y' id = sd_got y id).
Proof.
  intros Hp Hs. inversion Hs as [? ? ? h pl out ? m' Eo E|? ? ? ? m' E|? ? ? h m' E|? ? ? id n r bs r' m' Hr E]; subst.
  - unfold writer_step in E. destruct (negb _); [done|]. rewrite Eo in E. injection E as <- <-. split; [done|].
    left. unfold work. cbn [sd_mux on_mux mx_out with_out pipe_push pi_bytes sd_recvs]. rewrite Eo, length_app.
    cbn [sum_list_with out_work]. lia.
  - destruct (reader_step_work _ _ _ _ Hp E) as [Hp' Hw]. split; [done|]. left.
    unfold work. cbn [sd_mux on_mux sd_recvs log_rcvd]. lia.
  - split; [done|]. left. pose proof (accept_work_adopt _ _ _ E). unfold work. cbn [sd_mux on_mux sd_recvs adopt].
    pose proof (recvs_insert (rv_stream_id h.2) h.2 (sd_recvs y)). lia.
  - split; [done|]. pose proof (map_sum_insert recv_work id r' (sd_recvs y)) as Hi. rewrite Hr in Hi. cbn [from_option] in Hi.
    destruct (poll_read_work _ _ _ _ _ _ E) as [Hw|(-> & -> & ->)].
    + left. unfold work. cbn [sd_mux on_mux sd_recvs set_recv]. unfold insert, map_insert in Hi. lia.
    + right. split; [done|]. cbn. split; [|intros i; apply add_at_nil]. do 2 f_equal. exact (insert_id _ _ _ Hr).
Qed.

(** What a step does depends on the core alone. *)
Lemma pump_alike x p y y1 x' p' y1' :
  sd_mux y1 = sd_mux y -> sd_recvs y1 = sd_recvs y -> pump (x, p, y1) (x', p', y1') ->
  exists y', pump (x, p, y) (x', p', y') /\ core (x', p', y') = core (x', p', y1').
Proof.
  intros Em Er Hs.
  inversion Hs as [? ? ? h pl out ? m' Eo E|? ? ? ? m' E|? ? ? h m' E|? ? ? id n r bs r' m' Hr E]; subst;
    rewrite ?Em, ?Er in *.
  - exists y. split; [by eapply pump_write|]. cbn. by rewrite Em, Er.
  - eexists. split; [by apply pump_reader|]. cbn. by rewrite Er.
  - eexists. split; [by apply pump_accept|]. cbn. by rewrite Er.
  - eexists. split; [by eapply pump_read|]. cbn. by rewrite Er.
Qed.

Lemma progress_work x p y l' : pi_ended p = false -> progress (x, p, y) l' -> work l' < work (x, p, y).
Proof.
  destruct l' as [[x' p'] y']. intros Hp [Hs Hc]. by destruct (pump_work _ _ _ _ _ _ Hp Hs) as [_ [?|(_ & ? & _)]].
Qed.

(** ** A stream that is served *)

(** The stream [id] has been given [put], and has seen its end if the sender finished it. *)
Definition arrived (id : Z) (s : TcpMuxSendStream) (put : bytes) (l : Link) : Prop :=
  sd_got l.2 id = put /\
  exists r, sd_recvs l.2 !! id = Some r /\ (ss_finished s = true -> rv_eof r = true).

(** Along a run that delivers, some step changes something until it has. *)
Lemma arrived_or_progress id s put l lf :
  rtc pump l lf -> pi_ended l.1.2 = false -> arrived id s put lf ->
  arrived id s put l \/ exists l', progress l l'.
Proof.
  intros Hrun. induction Hrun as [l|l l1 lf Hs Hrun IH]; intros Hp Ha; [by left|].
  destruct l as [[x p] y], l1 as [[x1 p1] y1]. cbn in Hp.
  destruct (pump_work _ _ _ _ _ _ Hp Hs) as [Hp1 [Hw|(-> & Hc & Hg)]].
  { right. exists (x1, p1, y1). split; [done|]. intros E%work_core. lia. }
  cbn in Hc. injection Hc as -> Em Er. destruct (IH Hp1 Ha) as [(Hgot & r & Hr & He)|([[x2 p2] y2] & Hs2 & Hc2)].
  - left. split; [cbn in *; by rewrite <-Hg|]. exists r. cbn in *. by rewrite <-Er.
  - right. destruct (pump_alike _ _ _ _ _ _ _ Em Er Hs2) as (y2' & Hs2' & E2). exists (x2, p2, y2').
    split; [done|]. rewrite E2. cbn in *. congruence.
Qed.

(** While the writer lives, its pipe is open. *)
Definition OpenPipe (x : Side) (p : Pipe) : Prop := mx_writer_alive (sd_mux x) = true -> pi_ended p = false.

Lemma reader_step_ended p m p' m' : reader_step p m = Some (p', m') -> pi_ended p' = pi_ended p.
Proof.
  unfold reader_step, pipe_read_exact. intros Hs.
  repeat (case_match; try discriminate); by simplify_eq.
Qed.

Lemma side_pipes x y xy yx x' xy' yx' :
  side_step x yx xy x' yx' xy' -> LinkInv x y xy yx ->
  pi_ended yx' = pi_ended yx /\
  (mx_writer_alive (sd_mux x') = true -> mx_writer_alive (sd_mux x) = true /\ pi_ended xy' = pi_ended xy).
Proof.
  intros Hstep Hinv. pose proof Hinv as (((Hsends & _) & _) & _).
  destruct Hstep as [x i o h m' Hmax E|x i o header h m' Hmax Hl E|x i o header e m' Hmax E|x i o h m' E
    |x i o header h m' E|x i o id s buf res s' m' Hs Hb E|x i o id s res s' m' Hs E|x i o|x i o id n r bs r' m' Hr E
    |x i o id r Hr|x i o fault o' m' E|x i o i' m' E]; cbn [sd_mux adopt on_mux set_send set_recv log_rcvd].
  - split; [done|]. unfold open_bi in E. case_match; [done|]. by case_match; injection E as _ <-.
  - split; [done|]. unfold open_data_stream in E. destruct (mx_closed _); [done|].
    cbn [mint_stream_id new_channel] in E. rewrite send_out_spec in E. destruct (mx_writer_alive _) eqn:Ea; [|done].
    injection E as _ <-. done.
  - split; [done|]. unfold open_data_stream in E. destruct (mx_closed _); [by injection E as _ <-|].
    cbn [mint_stream_id new_channel] in E. rewrite send_out_spec in E.
    destruct (mx_writer_alive _) eqn:Ea; [done|]. rewrite app_nil_r, with_out_same in E. injection E as _ <-. cbn in *. by rewrite Ea.
  - split; [done|]. unfold accept_bi in E. case_match; [done|]. by injection E as _ <-.
  - split; [done|]. unfold accept_data_stream in E. case_match; [done|]. by injection E as _ _ <-.
  - destruct (Hsends _ _ Hs). eapply poll_write_effect in E as (fs & -> & _); done.
  - destruct (Hsends _ _ Hs). eapply finish_effect in E as (fs & -> & _); done.
  - unfold close. destruct (mx_closed _); [done|]. by rewrite send_out_spec.
  - by destruct (poll_read_effect _ _ _ _ _ _ _ (proj1 Hinv) Hr E) as (_ & _ & _ & [->|(? & ? & ->)]).
  - done.
  - split; [done|]. unfold writer_step in E. destruct (mx_writer_alive _) eqn:Ea; [|done]. cbn [negb] in E.
    destruct (mx_out _) as [|[h pl|] out]; [done| |]; [destruct fault as [k|]|]; by injection E as <- <-.
  - split; [by eapply reader_step_ended|]. destruct (reader_sees _ _ _ _ _ _ Hinv E) as [Heff _].
    destruct Heff as [h p| | | |]; try done. by destruct (dispatch_keeps h p (sd_mux x)) as (_ & -> & _).
Qed.

Lemma reachable_open_pipe d to_server : reachable d -> OpenPipe (sender to_server d) (pipe_to to_server d).
Proof.
  intros Hr. cut (OpenPipe (dx_client d) (dx_up d) /\ OpenPipe (dx_server d) (dx_down d)).
  { intros [??]. by destruct to_server. }
  refine (rtc_ind_r (fun d => OpenPipe (dx_client d) (dx_up d) /\ OpenPipe (dx_server d) (dx_down d)) _ _ _ d Hr);
    [done|].
  intros d1 d2 H1 Hs (Hc & Ho). pose proof (reachable_inv _ H1) as Hi. unfold OpenPipe in *.
  destruct Hs as [c s up down c' up' down' Hs|c s up down s' up' down' Hs]; cbn in *.
  - destruct (side_pipes _ _ _ _ _ _ _ Hs Hi) as [Ei Eo]. rewrite Ei. split; [|done].
    intros Ha. destruct (Eo Ha) as [? ->]. auto.
  - destruct (side_pipes _ _ _ _ _ _ _ Hs (LinkInv_sym _ _ _ _ Hi)) as [Ei Eo]. rewrite Ei. split; [done|].
    intros Ha. destruct (Eo Ha) as [? ->]. auto.
Qed.

(** On an open pipe that carries what the writer was given, the reader never gives up. *)
Lemma reader_goes_on q x p y p' m' :
  flowing q (x, p, y) -> pi_ended p = false -> reader_step p (sd_mux y) = Some (p', m') -> mx_reader m' <> RdDone.
Proof.
  intros Hf Hp Hs. pose proof Hf as ((_ & _ & (fl & ms & E & _) & _) & _ & _ & Hd & _).
  destruct (in_flight _ _ _ _ _ Hf E) as [Hw Hok].
  destruct (mx_reader (sd_mux y)) as [|h|tx buf|] eqn:Er; [| | |done].
  3:{ unfold reader_step in Hs. rewrite Er in Hs. repeat (case_match; try discriminate); by simplify_eq. }
  all: destruct fl as [|[h' pl] fl].
  - unfold reader_step, pipe_read_exact in Hs. rewrite Er in Hs. cbn in Hw. rewrite app_nil_r in Hw.
    rewrite Hw, Hp in Hs. done.
  - apply Forall_cons_1 in Hok as [Hok _].
    destruct (reader_moves p (sd_mux y) h' pl fl) as (p1 & m1 & Hs1 & Hm); [by rewrite Er|done|by left|].
    rewrite Hs in Hs1. injection Hs1 as -> ->. destruct Hm as [[_ ->]|(_ & _ & ->)]; [|done].
    by destruct (dispatch_reader h' pl (sd_mux y) Hok) as [->|[tx ->]].
  - by destruct Hw as (? & ? & ? & _).
  - apply Forall_cons_1 in Hok as [Hok _].
    destruct (reader_moves p (sd_mux y) h' pl fl) as (p1 & m1 & Hs1 & Hm); [by rewrite Er|done|by right; eexists|].
    rewrite Hs in Hs1. injection Hs1 as -> ->. destruct Hm as [[_ ->]|(_ & _ & ->)]; [|done].
    by destruct (dispatch_reader h' pl (sd_mux y) Hok) as [->|[tx ->]].
Qed.

(** What a run keeps of a stream it serves. *)
Definition serving (q : Pipe) (id : Z) (s : TcpMuxSendStream) (put : bytes) (l : Link) : Prop :=
  let '(x, p, y) := l in
  flowing q l /\ pi_ended p = false /\
  (exists fs tail, mx_out (sd_mux x) = as_out fs ++ tail /\ out_frames tail = []) /\
  sd_sends x !! id = Some s /\ sd_put x id = put /\ is_Some (sd_recvs y !! id).

Lemma pump_serving q id s put l l' : serving q id s put l -> pump l l' -> serving q id s put l'.
Proof.
  destruct l as [[x p] y], l' as [[x' p'] y']. intros (Hf & Hp & (fs & tail & Eo & Et) & Hs & Hput & Hr) Hstep.
  assert (Hf' : flowing q (x', p', y')).
  { eapply pump_flowing; [exact Hf|exact Hstep|]. pose proof Hf as ((_ & Hy & _) & _ & _ & Hd & _).
    inversion Hstep as [| ? ? ? ? m' E|? ? ? h m' E|? ? ? i n r bs r' m' Hi E]; subst; cbn; [done| | |].
    - by eapply reader_goes_on.
    - unfold accept_bi in E. case_match; [done|]. by injection E as _ <-.
    - by destruct (poll_read_effect _ _ _ _ _ _ _ Hy Hi E) as (_ & _ & _ & [->|(? & ? & ->)]). }
  destruct (pump_work _ _ _ _ _ _ Hp Hstep) as [Hp' _].
  split; [done|]. split; [done|].
  inversion Hstep as [? ? ? h pl out ? m' E E'|? ? ? ? m' E|? ? ? h m' E|? ? ? i n r bs r' m' Hi E]; subst; cbn.
  - unfold writer_step in E'. destruct (negb _); [done|]. rewrite E in E', Eo. injection E' as _ <-.
    destruct fs as [|f fs]; [by destruct tail; [done|]; injection Eo as <- <-|].
    injection Eo as _ ->. split_and!; try done. by exists fs, tail.
  - split_and!; try done. by exists fs, tail.
  - split_and!; [by exists fs, tail|done|done|]. apply lookup_insert_is_Some'. by right.
  - split_and!; [by exists fs, tail|done|done|].
    change (partial_alter (fun _ => Some r') i (sd_recvs y)) with (<[i := r']> (sd_recvs y)).
    apply lookup_insert_is_Some'. by right.
Qed.

Lemma pumps_serving q id s put l l' : rtc pump l l' -> serving q id s put l -> serving q id s put l'.
Proof. induction 1; [done|]. intros Hs. by eapply IHrtc, pump_serving. Qed.

(** At rest, everything has arrived. *)
Lemma serving_rest q id s put l :
  serving q id s put l -> ss_pending_open s = None -> arrived id s put l \/ exists l', progress l l'.
Proof.
  destruct l as [[x p] y]. intros (Hf & Hp & (fs & tail & Eo & Et) & Hs & Hput & Hr) Hpend.
  destruct (link_delivers _ _ _ _ _ _ _ _ Hf Eo Et Hs Hpend Hr) as (x' & p' & y' & r & Hrun & Hg & Hr' & He).
  eapply arrived_or_progress; [exact Hrun|done|]. split; [cbn; congruence|]. by exists r.
Qed.

Lemma progress_bound q id s put n l l' :
  serving q id s put l -> nsteps progress n l l' -> n + work l' <= work l.
Proof.
  intros Hs Hn. induction Hn as [l|n l l1 l' Hp Hn IH]; [lia|].
  pose proof (pump_serving _ _ _ _ _ _ Hs (proj1 Hp)) as H1. specialize (IH H1).
  destruct l as [[x p] y]. destruct Hs as (_ & Hopen & _). pose proof (progress_work _ _ _ _ Hopen Hp). lia.
Qed.

(** C7: However the tasks are scheduled, the multiplexer delivers.  From every reachable
    state in which the sender's writer and the receiver's reader still run, let these two
    tasks and the receiving application take any steps, with no write failing: a run of steps
    that each change something is no longer than [work], and where no such step is left, a
    stream the receiver holds has been given every byte the sender wrote to it, and its end
    if the sender finished it; such a state can be reached.  A reader blocked on the full
    channel of one stream is never the end of it.  The applications write at most
    [MAX_MUX_PAYLOAD] bytes per call. *)
Theorem mux_delivers (d : Duplex) (to_server : bool) (id : Z) (s : TcpMuxSendStream) (Hd : reachable d)
    (Hh : healthy to_server d) (Hs : sd_sends (sender to_server d) !! id = Some s)
    (Hp : ss_pending_open s = None) (Hr : is_Some (sd_recvs (receiver to_server d) !! id)) :
  (forall n l, nsteps progress n (link_of to_server d) l -> n <= work (link_of to_server d)) /\
  (forall l, rtc pump (link_of to_server d) l -> (forall l', ~ progress l l') ->
     arrived id s (sd_put (sender to_server d) id) l) /\
  (exists l, rtc pump (link_of to_server d) l /\ reachable (relink to_server l d) /\
     arrived id s (sd_put (sender to_server d) id) l).
Proof.
  assert (Hserv : serving (pipe_to (negb to_server) d) id s (sd_put (sender to_server d) id) (link_of to_server d)).
  { split; [by apply healthy_flowing|]. pose proof Hh as (Ha & (fs & Eo) & _).
    split; [by apply reachable_open_pipe|]. split_and!; try done. exists fs.
    destruct Eo as [->| ->]; [exists []|by eexists]. by rewrite app_nil_r. }
  split_and!.
  - intros n l Hn. pose proof (progress_bound _ _ _ _ _ _ _ Hserv Hn). lia.
  - intros l Hrun Hrest.
    destruct (serving_rest _ _ _ _ _ (pumps_serving _ _ _ _ _ _ Hrun Hserv) Hp) as [?|[l' Hl]]; [done|].
    by destruct (Hrest l').
  - destruct (healthy_delivers _ _ _ _ Hd Hh Hs Hp Hr) as (x' & p' & y' & r & Hrun & Hd' & Hg & Hr' & He).
    exists (x', p', y'). split_and!; [done..|]. split; [done|]. by exists r.
Qed.

(** ** A run *)

(** The server has accepted the stream; its bytes and its end are still queued. *)
Definition stalled_moves : list (bool * Move) :=
  [(false, MOpenBi); (false, MOpenBi); (false, MWrite 2 (sample_header ++ [65; 66]%Z));
   (false, MFinish 2); (false, MWriter); (true, MReader); (true, MReader); (true, MAcceptBi); (true, MAcceptBi)].
Definition stalled_duplex : Duplex := default duplex_new (duplex_run stalled_moves duplex_new).

Lemma mux_delivers_witness :
  sd_got (receiver true stalled_duplex) 2 = [] /\
  (forall n l, nsteps progress n (link_of true stalled_duplex) l -> n <= 224) /\
  exists l, rtc pump (link_of true stalled_duplex) l /\ reachable (relink true l stalled_duplex) /\
    sd_got l.2 2 = sd_put (sender true stalled_duplex) 2 /\
    exists r, sd_recvs l.2 !! 2%Z = Some r /\ rv_eof r = true.
Proof.
  split; [vm_compute; reflexivity|].
  destruct (mux_delivers stalled_duplex true 2
    {| ss_stream_id := 2; ss_pending_open := None; ss_finished := true |} (run_reachable stalled_moves))
    as (Hn & _ & l & Hl & Hd & Hg & r & Hr & He).
  - split_and!; [vm_compute; reflexivity| |vm_compute; congruence|vm_compute; reflexivity].
    exists [(data_header 2 [65; 66]%Z, [65; 66]%Z); (fin_header 2, [])]. left. vm_compute. reflexivity.
  - vm_compute. reflexivity.
  - reflexivity.
  - vm_compute. by eexists.
  - split; [|exists l; split_and!; [done..|]; exists r; auto].
    intros n l' Hl'. etrans; [exact (Hn n l' Hl')|]. vm_compute. lia.
Defined.
