(* ===== verification/Conn.v ===== *)
(** * Conn: the transport-neutral connection and the byte relay

    [krot-transport/src/conn.rs] and [relay.rs].  [Connection], [SendStream], [RecvStream]
    and [Incoming] are sums over QUIC, whose library [quinn] is the class [Quinn], and the
    multiplexer of [TcpMux]; an operation on a clone acts on the shared connection, so the
    muxes live in a store and a value names its mux.  A future is a function to [option]:
    [None] is pending.

    The file ends with what the composition of framing and multiplexer gives the control
    stream: messages written with [write_frame] on one side are read in order with
    [read_frame] on the other. *)

From S2P Require Import Prelude RustStr Wire Framing TcpMux MuxInv MuxLink MuxLive.

Local Open Scope Z_scope.

(** ** The wrappers *)

(** The operations of the [quinn] crate the wrappers delegate to. *)
Class Quinn := {
  QWorld : Type;
  QConn : Type;
  QSend : Type;
  QRecv : Type;
  QIncoming : Type;
  q_open_bi : QConn -> QWorld -> option (Result (QSend * QRecv) Z * QWorld);
  q_accept_bi : QConn -> QWorld -> option (Result (QSend * QRecv) Z * QWorld);
  q_closed : QConn -> QWorld -> option (Z * QWorld);
  q_close : QConn -> Z -> bytes -> QWorld -> QWorld;
  q_finish : QSend -> QWorld -> Result unit unit * QSend * QWorld;
  q_stopped : QSend -> QWorld -> option (Result (option Z) Z * QWorld);
  q_poll_write : bytes -> QSend -> QWorld -> option (Result nat Z * QSend * QWorld);
  q_poll_flush : QSend -> QWorld -> option (Result unit Z * QSend * QWorld);
  q_poll_shutdown : QSend -> QWorld -> option (Result unit Z * QSend * QWorld);
  q_read_exact : nat -> QRecv -> QWorld -> option (Result bytes Z * QRecv * QWorld);
  q_read : nat -> QRecv -> QWorld -> option (Result (option bytes) Z * QRecv * QWorld);
  q_poll_read : nat -> QRecv -> QWorld -> option (Result bytes Z * QRecv * QWorld);
  q_handshake : QIncoming -> QWorld -> option (Result QConn Z * QWorld);
}.

Section Wrappers.
Context `{Quinn}.

Definition MuxId : Type := nat.

Inductive Connection := Connection_Quic (c : QConn) | Connection_TcpMux (m : MuxId).
Inductive SendStream := SendStream_Quic (s : QSend) | SendStream_TcpMux (m : MuxId) (s : TcpMuxSendStream).
Inductive RecvHalf := RecvStream_Quic (r : QRecv) | RecvStream_TcpMux (m : MuxId) (r : TcpMuxRecvStream).
Inductive Incoming := Incoming_Quic (inc : QIncoming) | Incoming_TcpMux (m : MuxId).
Inductive TransportKind := Quic | TcpFallback.

Record Net := { nt_quic : QWorld; nt_mux : MuxId -> Inner }.

Definition set_quic (q : QWorld) (w : Net) : Net := {| nt_quic := q; nt_mux := nt_mux w |}.
Definition set_mux (i : MuxId) (m : Inner) (w : Net) : Net :=
  {| nt_quic := nt_quic w; nt_mux := fun j => if decide (j = i) then m else nt_mux w j |}.

Definition quic_halves (h : QSend * QRecv) : SendStream * RecvHalf :=
  (SendStream_Quic h.1, RecvStream_Quic h.2).
Definition mux_halves (m : MuxId) (h : Halves) : SendStream * RecvHalf :=
  (SendStream_TcpMux m h.1, RecvStream_TcpMux m h.2).

Definition Connection_open_bi (c : Connection) (w : Net) :
    option (Result (SendStream * RecvHalf) MuxError * Net) :=
  match c with
  | Connection_Quic c =>
    '(r, q) ← q_open_bi c (nt_quic w);
    Some (match r with Ok h => Ok (quic_halves h) | Err e => Err (TE_Connection e) end, set_quic q w)
  | Connection_TcpMux i =>
    let '(r, m) := open_bi (nt_mux w i) in
    Some (match r with Ok h => Ok (mux_halves i h) | Err e => Err e end, set_mux i m w)
  end.

Definition Connection_accept_bi (c : Connection) (w : Net) :
    option (Result (SendStream * RecvHalf) MuxError * Net) :=
  match c with
  | Connection_Quic c =>
    '(r, q) ← q_accept_bi c (nt_quic w);
    Some (match r with Ok h => Ok (quic_halves h) | Err e => Err (TE_Connection e) end, set_quic q w)
  | Connection_TcpMux i =>
    '(h, m) ← accept_bi (nt_mux w i); Some (Ok (mux_halves i h), set_mux i m w)
  end.

(** The application code and the reason have no place on the mux. *)
Definition Connection_close (c : Connection) (code : Z) (reason : bytes) (w : Net) : Net :=
  match c with
  | Connection_Quic c => set_quic (q_close c code reason (nt_quic w)) w
  | Connection_TcpMux i => set_mux i (close (nt_mux w i)) w
  end.

(** A double finish of a QUIC stream is not an error. *)
Definition SendStream_finish (s : SendStream) (w : Net) : Result unit MuxError * SendStream * Net :=
  match s with
  | SendStream_Quic s =>
    let '(_, s, q) := q_finish s (nt_quic w) in (Ok tt, SendStream_Quic s, set_quic q w)
  | SendStream_TcpMux i s =>
    let '(r, s, m) := finish s (nt_mux w i) in (r, SendStream_TcpMux i s, set_mux i m w)
  end.

(** On the mux there is nothing to wait for, and it does not wait. *)
Definition SendStream_stopped (s : SendStream) (w : Net) : option (Result (option Z) MuxError * Net) :=
  match s with
  | SendStream_Quic s =>
    '(r, q) ← q_stopped s (nt_quic w);
    Some (match r with Ok v => Ok v | Err _ => Err TE_UnexpectedEof end, set_quic q w)
  | SendStream_TcpMux _ _ => Some (Ok None, w)
  end.

(** [io::Error]s of the two transports. *)
Inductive IoError := Io_Quic (e : Z) | Io_Mux (e : WriteError).

Definition SendStream_poll_write (buf : bytes) (s : SendStream) (w : Net) :
    option (Result nat IoError * SendStream * Net) :=
  match s with
  | SendStream_Quic s =>
    '(r, s, q) ← q_poll_write buf s (nt_quic w); Some (map_err Io_Quic r, SendStream_Quic s, set_quic q w)
  | SendStream_TcpMux i s =>
    let '(r, s, m) := poll_write buf s (nt_mux w i) in
    Some (map_err Io_Mux r, SendStream_TcpMux i s, set_mux i m w)
  end.

(** Flushing a mux stream is a no-op: the writer task has the bytes already. *)
Definition SendStream_poll_flush (s : SendStream) (w : Net) : option (Result unit IoError * SendStream * Net) :=
  match s with
  | SendStream_Quic s =>
    '(r, s, q) ← q_poll_flush s (nt_quic w); Some (map_err Io_Quic r, SendStream_Quic s, set_quic q w)
  | SendStream_TcpMux i s => Some (Ok tt, SendStream_TcpMux i s, w)
  end.

Definition SendStream_poll_shutdown (s : SendStream) (w : Net) : option (Result unit IoError * SendStream * Net) :=
  match s with
  | SendStream_Quic s =>
    '(r, s, q) ← q_poll_shutdown s (nt_quic w); Some (map_err Io_Quic r, SendStream_Quic s, set_quic q w)
  | SendStream_TcpMux i s =>
    let '(s, m) := poll_shutdown s (nt_mux w i) in Some (Ok tt, SendStream_TcpMux i s, set_mux i m w)
  end.

(** [read_via_poll] on a mux stream never fails. *)
Definition RecvHalf_poll_read (n : nat) (r : RecvHalf) (w : Net) : option (Result bytes IoError * RecvHalf * Net) :=
  match r with
  | RecvStream_Quic r =>
    '(x, r, q) ← q_poll_read n r (nt_quic w); Some (map_err Io_Quic x, RecvStream_Quic r, set_quic q w)
  | RecvStream_TcpMux i r =>
    '(bs, r, m) ← poll_read n r (nt_mux w i); Some (Ok bs, RecvStream_TcpMux i r, set_mux i m w)
  end.

Definition RecvHalf_read_exact (n : nat) (r : RecvHalf) (w : Net) :
    option (Result bytes MuxError * RecvHalf * Net) :=
  match r with
  | RecvStream_Quic r =>
    '(x, r, q) ← q_read_exact n r (nt_quic w); Some (map_err TE_ReadExact x, RecvStream_Quic r, set_quic q w)
  | RecvStream_TcpMux i r =>
    '(x, (r, m)) ← conn_read_exact n (r, nt_mux w i); Some (x, RecvStream_TcpMux i r, set_mux i m w)
  end.

(** No bytes from the mux are taken for the end of the stream. *)
Definition RecvHalf_read (n : nat) (r : RecvHalf) (w : Net) :
    option (Result (option bytes) MuxError * RecvHalf * Net) :=
  match r with
  | RecvStream_Quic r =>
    '(x, r, q) ← q_read n r (nt_quic w); Some (map_err TE_Read x, RecvStream_Quic r, set_quic q w)
  | RecvStream_TcpMux i r =>
    '(bs, r, m) ← poll_read n r (nt_mux w i);
    Some (Ok (match bs with [] => None | _ => Some bs end), RecvStream_TcpMux i r, set_mux i m w)
  end.

Definition Incoming_kind (inc : Incoming) : TransportKind :=
  match inc with Incoming_Quic _ => Quic | Incoming_TcpMux _ => TcpFallback end.

Definition Incoming_accept (inc : Incoming) (w : Net) : option (Result Connection MuxError * Net) :=
  match inc with
  | Incoming_Quic inc =>
    '(r, q) ← q_handshake inc (nt_quic w);
    Some (match r with Ok c => Ok (Connection_Quic c) | Err e => Err (TE_Connection e) end, set_quic q w)
  | Incoming_TcpMux i => Some (Ok (Connection_TcpMux i), w)
  end.

(** [BidiStream]: the two halves as one stream. *)
Record BidiStream := { bd_send : SendStream; bd_recv : RecvHalf }.
Definition BidiStream_new (send : SendStream) (recv : RecvHalf) : BidiStream :=
  {| bd_send := send; bd_recv := recv |}.
Definition BidiStream_poll_read (n : nat) (b : BidiStream) (w : Net) : option (Result bytes IoError * BidiStream * Net) :=
  '(x, r, w) ← RecvHalf_poll_read n (bd_recv b) w; Some (x, BidiStream_new (bd_send b) r, w).
Definition BidiStream_poll_write (buf : bytes) (b : BidiStream) (w : Net) : option (Result nat IoError * BidiStream * Net) :=
  '(x, s, w) ← SendStream_poll_write buf (bd_send b) w; Some (x, BidiStream_new s (bd_recv b), w).
Definition BidiStream_poll_flush (b : BidiStream) (w : Net) : option (Result unit IoError * BidiStream * Net) :=
  '(x, s, w) ← SendStream_poll_flush (bd_send b) w; Some (x, BidiStream_new s (bd_recv b), w).
Definition BidiStream_poll_shutdown (b : BidiStream) (w : Net) : option (Result unit IoError * BidiStream * Net) :=
  '(x, s, w) ← SendStream_poll_shutdown (bd_send b) w; Some (x, BidiStream_new s (bd_recv b), w).

(** ** A last message *)

(** The codes an [io::Error] of kind [WriteZero] or [BrokenPipe] is told by. *)
Definition WRITE_ZERO : Z := 0.
Definition BROKEN_PIPE : Z := 32.

(** [AsyncWriteExt::write_all]; every round but a failing one writes at least one byte. *)
Fixpoint write_all (fuel : nat) (buf : bytes) (s : SendStream) (w : Net) :
    option (Result unit MuxError * SendStream * Net) :=
  match buf with
  | [] => Some (Ok tt, s, w)
  | _ =>
    match fuel with
    | O => None
    | S fuel =>
      '(r, s, w) ← SendStream_poll_write buf s w;
      match r with
      | Err (Io_Quic e) => Some (Err (TE_Io e), s, w)
      | Err (Io_Mux _) => Some (Err (TE_Io BROKEN_PIPE), s, w)
      | Ok O => Some (Err (TE_Io WRITE_ZERO), s, w)
      | Ok n => write_all fuel (drop n buf) s w
      end
    end
  end.

(** [frame::write_frame]: the message is encoded into a fresh buffer and written whole. *)
Definition SendStream_write_frame {T} `{Postcard T Z} (v : T) (s : SendStream) (w : Net) :
    option (Result unit MuxError * SendStream * Net) :=
  match encode_frame v [] with
  | (Err e, _) => Some (Err (TE_Framing e), s, w)
  | (Ok _, buf) => write_all (length buf) buf s w
  end.

(** Message after message, up to the first that fails. *)
Fixpoint write_frames {T} `{Postcard T Z} (vs : list T) (s : SendStream) (w : Net) :
    option (Result unit MuxError * SendStream * Net) :=
  match vs with
  | [] => Some (Ok tt, s, w)
  | v :: vs =>
    '(r, s, w) ← SendStream_write_frame v s w;
    match r with
    | Err e => Some (Err e, s, w)
    | Ok _ => write_frames vs s w
    end
  end.

(** [AuthenticatedSession::shutdown], for any last message: the frame, the end of the
    stream, the wait and the close. *)
Definition session_shutdown {T} `{Postcard T Z} (c : Connection) (v : T) (s : SendStream) (w : Net) :
    option (SendStream * Net) :=
  '(s, w) ← match encode_frame v [] with
            | (Err _, _) => Some (s, w)
            | (Ok _, frame) => '(_, s, w) ← write_all (length frame) frame s w; Some (s, w)
            end;
  let '(_, s, w) := SendStream_finish s w in
  '(_, w) ← SendStream_stopped s w;
  Some (s, Connection_close c 0 (lit "bye") w).
End Wrappers.

(** ** Waiting for the close *)

(** [TcpMuxConn::closed] against whoever closes the connection: the flag is loaded, and
    only then is the wait registered; [notify_waiters] wakes the registered waits and keeps
    nothing for later ones. *)
Inductive Waiter := WtLoad | WtRegister | WtWaiting | WtReturned.
Record ClosedRace := { cr_closed : bool; cr_notified : bool; cr_waiter : Waiter }.

Inductive race_step : ClosedRace -> ClosedRace -> Prop :=
| race_load c n :
    race_step {| cr_closed := c; cr_notified := n; cr_waiter := WtLoad |}
              {| cr_closed := c; cr_notified := n; cr_waiter := if c then WtReturned else WtRegister |}
| race_register c n :
    race_step {| cr_closed := c; cr_notified := n; cr_waiter := WtRegister |}
              {| cr_closed := c; cr_notified := n; cr_waiter := WtWaiting |}
| race_store w :
    race_step {| cr_closed := false; cr_notified := false; cr_waiter := w |}
              {| cr_closed := true; cr_notified := false; cr_waiter := w |}
| race_notify w :
    race_step {| cr_closed := true; cr_notified := false; cr_waiter := w |}
              {| cr_closed := true; cr_notified := true;
                 cr_waiter := match w with WtWaiting => WtReturned | w => w end |}.

Definition race_start : ClosedRace := {| cr_closed := false; cr_notified := false; cr_waiter := WtLoad |}.

(** A close between the load and the registration is missed: the wait of the tunnel's
    accept loop is pending although the connection is closed, and nothing is left to wake it. *)
Lemma closed_missed :
  exists r, rtc race_step race_start r /\ cr_closed r = true /\ cr_waiter r = WtWaiting /\
    forall r', ~ race_step r r'.
Proof.
  exists {| cr_closed := true; cr_notified := true; cr_waiter := WtWaiting |}. split_and!; try done.
  - eapply rtc_l; [apply race_load|]. eapply rtc_l; [apply race_store|].
    eapply rtc_l; [apply race_notify|]. eapply rtc_l; [apply race_register|apply rtc_refl].
  - intros r'. by inversion 1.
Qed.

(** A wait that is registered before the notification is woken by it. *)
Lemma closed_woken r r' :
  cr_waiter r = WtWaiting -> cr_notified r = false -> race_step r r' -> cr_notified r' = true ->
  cr_waiter r' = WtReturned.
Proof. intros Hw Hn Hs. destruct Hs; simpl in *; by simplify_eq. Qed.

(** ** The relay *)

(** One end of a relay: the bytes it will still deliver before its end of file, and the
    bytes written to it. *)
Record End := { en_in : bytes; en_out : bytes }.

Definition feed (bs : bytes) (e : End) : End := {| en_in := en_in e; en_out := en_out e ++ bs |}.
Definition taken (n : nat) (e : End) : End := {| en_in := drop n (en_in e); en_out := en_out e |}.

Inductive SideAB := SideA | SideB.

(** How the race of the two first reads ends: nothing before the deadline, a failed read,
    or [n] bytes from one side.  The read that loses is dropped before it took anything. *)
Inductive First :=
| FirstElapsed
| FirstErr (e : Z)
| FirstRead (side : SideAB) (n : nat).

Definition TIMED_OUT : Z := 110.
Definition PEEK_SIZE : nat := 4096.

Definition Relay : Type := Result (Z * Z) Z * End * End.

Section Relay.
(** [tokio::io::copy_bidirectional], and whether a [write_all] fails (with part written). *)
Context (copy_bidirectional : End -> End -> Relay).

Definition run_bidirectional (a b : End) : Relay := copy_bidirectional a b.

(** [write_all] of the bytes read ahead; it fails with an error after so many bytes. *)
Definition forward (write_fault : option (Z * nat)) (bs : bytes) (e : End) : Result unit Z * End :=
  match bs, write_fault with
  | [], _ => (Ok tt, e)
  | _, None => (Ok tt, feed bs e)
  | _, Some (err, k) => (Err err, feed (take k bs) e)
  end.

Definition run_bidirectional_with_first_byte_deadline (first : First) (write_fault : option (Z * nat))
    (a b : End) : Relay :=
  match first with
  | FirstElapsed => (Err TIMED_OUT, a, b)
  | FirstErr e => (Err e, a, b)
  | FirstRead side n =>
    let '(written, a, b, a_to_b, b_to_a) :=
      match side with
      | SideA => let '(r, b') := forward write_fault (take n (en_in a)) b in (r, taken n a, b', Z.of_nat n, 0)
      | SideB => let '(r, a') := forward write_fault (take n (en_in b)) a in (r, a', taken n b, 0, Z.of_nat n)
      end in
    match written with
    | Err e => (Err e, a, b)
    | Ok _ =>
      let '(r, a, b) := copy_bidirectional a b in
      (match r with
       | Ok (extra_a_to_b, extra_b_to_a) => Ok (wrap 64 (a_to_b + extra_a_to_b), wrap 64 (b_to_a + extra_b_to_a))
       | Err e => Err e
       end, a, b)
    end
  end.

(** What [copy_bidirectional] documents: when it succeeds both directions have been copied
    to their ends and the counts are the bytes copied. *)
Class CopyLaws : Prop := {
  copy_all : forall a b x y a' b', copy_bidirectional a b = (Ok (x, y), a', b') ->
    x = len (en_in a) /\ y = len (en_in b) /\
    a' = {| en_in := []; en_out := en_out a ++ en_in b |} /\
    b' = {| en_in := []; en_out := en_out b ++ en_in a |};
}.
Context `{!CopyLaws}.

(** A read of one side into the peek buffer: some of its bytes, or none. *)
Definition first_ok (first : First) (a b : End) : Prop :=
  match first with
  | FirstRead side n =>
    let e := match side with SideA => a | SideB => b end in
    (n <= PEEK_SIZE)%nat /\ (n <= length (en_in e))%nat
  | _ => True
  end.

Lemma forward_Ok fault bs e u e' : forward fault bs e = (Ok u, e') -> e' = feed bs e.
Proof.
  unfold forward, feed. destruct bs; [intros [= _ <-]; destruct e; by rewrite app_nil_r|].
  destruct fault as [[??]|]; [done|]. by intros [= _ <-].
Qed.

(** The plain relay of what is left, its counts added to those of the bytes read ahead. *)
Lemma copy_rest n l c d x y c' d' :
  copy_bidirectional c d = (Ok (x, y), c', d') ->
  in_u 64 (n + len (en_in c)) -> in_u 64 (l + len (en_in d)) ->
  wrap 64 (n + x) = n + len (en_in c) /\ wrap 64 (l + y) = l + len (en_in d) /\
  c' = {| en_in := []; en_out := en_out c ++ en_in d |} /\
  d' = {| en_in := []; en_out := en_out d ++ en_in c |}.
Proof. intros (-> & -> & -> & ->)%copy_all Hk Hl. unfold wrap. rewrite !Z.mod_small by done. done. Qed.

(** The deadline costs the relay nothing.  Whichever side speaks first and however much
    of it is read ahead, a relay that succeeds has delivered to each side exactly the bytes
    of the other, in order, and counts them as the plain relay does; the deadline can only
    end a relay in which nothing has been taken from or given to either side. *)
Theorem deadline_relay (first : First) (fault : option (Z * nat)) (a b : End) (r : Result (Z * Z) Z) (a' b' : End)
    (Hf : first_ok first a b) (Hla : in_u 64 (len (en_in a))) (Hlb : in_u 64 (len (en_in b)))
    (Hr : run_bidirectional_with_first_byte_deadline first fault a b = (r, a', b')) :
  match r with
  | Ok (x, y) =>
    x = len (en_in a) /\ y = len (en_in b) /\
    a' = {| en_in := []; en_out := en_out a ++ en_in b |} /\
    b' = {| en_in := []; en_out := en_out b ++ en_in a |}
  | Err _ => first = FirstElapsed -> r = Err TIMED_OUT /\ a' = a /\ b' = b
  end.
Proof.
  destruct first as [|e|side n]; simpl in Hr; [by simplify_eq|by simplify_eq|].
  destruct r as [[x y]|e]; [|done]. destruct Hf as [_ Hle].
  assert (Hin : forall l : bytes, (n <= length l)%nat -> Z.of_nat n + len (drop n l) = len l)
    by (intros l Hl; unfold len; rewrite length_drop; lia).
  destruct side; cbn in Hle; specialize (Hin _ Hle).
  - destruct (forward _ _ _) as [[[]|e] b1] eqn:Ef; [|done]. apply forward_Ok in Ef as ->.
    destruct (copy_bidirectional _ _) as [[[[x' y']|e] a1] b1] eqn:Ec; [|done]. injection Hr as <- <- <- <-.
    eapply copy_rest in Ec as (-> & -> & -> & ->); [|cbn; by rewrite ?Hin..]. cbn.
    by rewrite Hin, <-app_assoc, take_drop.
  - destruct (forward _ _ _) as [[[]|e] a1] eqn:Ef; [|done]. apply forward_Ok in Ef as ->.
    destruct (copy_bidirectional _ _) as [[[[x' y']|e] a1] b1] eqn:Ec; [|done]. injection Hr as <- <- <- <-.
    eapply copy_rest in Ec as (-> & -> & -> & ->); [|cbn; by rewrite ?Hin..]. cbn.
    by rewrite Hin, <-app_assoc, take_drop.
Qed.
End Relay.

(** ** Frames over the multiplexer *)

Section Frames.
Context {T : Type} `{PostcardLaws T Z}.

(** The sending side moves. *)
Lemma sender_moves to_server d x p y x' :
  d = relink to_server (x, p, y) d ->
  (forall q, side_step x q p x' q p) ->
  duplex_step d (relink to_server (x', p, y) d).
Proof. intros -> Hs. destruct to_server; cbn; by constructor. Qed.

Lemma relink_relink to_server l l' d : relink to_server l (relink to_server l' d) = relink to_server l d.
Proof. destruct l as [[??]?], l' as [[??]?]. by destruct to_server. Qed.

Lemma relink_self to_server d : d = relink to_server (link_of to_server d) d.
Proof. by destruct to_server, d. Qed.

(** The frame of a message fits one DATA frame, which is queued whole. *)
Lemma write_frame_queued (v : T) n frame s m :
  encode_frame v [] = (Ok n, frame) -> ss_finished s = false -> ss_pending_open s = None ->
  mx_closed m = false -> mx_writer_alive m = true ->
  len frame <= MAX_MUX_PAYLOAD /\
  poll_write frame s m = (Ok (length frame), s, with_out (mx_out m ++ [data_frame (ss_stream_id s) frame]) m).
Proof.
  intros He Hf Hp Hc Ha. destruct (encode_frame_Ok _ _ _ _ He) as (payload & Hpl & Hl).
  destruct (encoded_frame v payload Hpl Hl) as (frame' & Hb & He' & Hlen & Hd).
  rewrite He' in He. injection He as _ <-. split; [unfold MAX_MUX_PAYLOAD, MAX_FRAME_SIZE in *; simpl; lia|].
  simpl. specialize (Hd []). rewrite app_nil_r in Hd.
  destruct (decode_frame_consumes _ _ _ Hb Hd) as ([Hpos _] & _).
  unfold poll_write, write_rest. rewrite Hf, Hc, Hp. simpl. destruct frame' as [|b fr]; [simpl in Hpos; lia|].
  unfold send_out. rewrite Ha. done.
Qed.

Context `{Quinn}.

Lemma write_all_mux frame i s w m' :
  frame <> [] -> poll_write frame s (nt_mux w i) = (Ok (length frame), s, m') ->
  write_all (length frame) frame (SendStream_TcpMux i s) w = Some (Ok tt, SendStream_TcpMux i s, set_mux i m' w).
Proof.
  intros Hne Hw. destruct frame as [|b fr]; [done|]. cbn [write_all length SendStream_poll_write].
  rewrite Hw. cbn -[drop]. rewrite drop_ge by (simpl; lia). by destruct (length fr).
Qed.

(** A sender that can write to its stream [id]: both tasks run, nothing is closed. *)
Definition sending (to_server : bool) (id : Z) (s : TcpMuxSendStream) (d : Duplex) : Prop :=
  reachable d /\ healthy to_server d /\ mx_closed (sd_mux (sender to_server d)) = false /\
  sd_sends (sender to_server d) !! id = Some s /\ ss_pending_open s = None /\ ss_finished s = false.

Lemma sender_relink to_server l d : sender to_server (relink to_server l d) = l.1.1.
Proof. destruct l as [[??]?]. by destruct to_server. Qed.
Lemma receiver_relink to_server l d : receiver to_server (relink to_server l d) = l.2.
Proof. destruct l as [[??]?]. by destruct to_server. Qed.

(** One message: it is queued in one write, and the sender can go on. *)
Lemma send_one (v : T) n frame to_server id s d i w :
  sending to_server id s d -> encode_frame v [] = (Ok n, frame) -> nt_mux w i = sd_mux (sender to_server d) ->
  exists w1 d1, SendStream_write_frame v (SendStream_TcpMux i s) w = Some (Ok tt, SendStream_TcpMux i s, w1) /\
    duplex_step d d1 /\ sending to_server id s d1 /\ nt_mux w1 i = sd_mux (sender to_server d1) /\
    sd_put (sender to_server d1) id = sd_put (sender to_server d) id ++ frame /\
    receiver to_server d1 = receiver to_server d.
Proof.
  intros (Hd & Hh & Hc & Hs & Hp & Hf) He Hw. pose proof Hh as (Ha & _ & Hrd & Hsl).
  set (x := sender to_server d) in *. assert (Hid : ss_stream_id s = id).
  { destruct (reachable_link d to_server Hd) as (((Hsend & _) & _) & _). by destruct (Hsend _ _ Hs) as (_ & ? & _). }
  destruct (write_frame_queued v n frame s (sd_mux x) He Hf Hp Hc Ha) as [Hl Hq].
  set (m1 := with_out _ (sd_mux x)) in Hq. set (x1 := set_send id s frame (on_mux m1 x)).
  set (d1 := relink to_server (x1, pipe_to to_server d, receiver to_server d) d).
  assert (Hstep : duplex_step d d1).
  { apply (sender_moves to_server d x (pipe_to to_server d)); [apply relink_self|]. intros q.
    unfold x1. replace frame with (consumed frame (Ok (length frame))) at 1 by (cbn; apply firstn_all).
    by eapply step_write. }
  assert (Hne : frame <> []).
  { intros ->. unfold poll_write, write_rest in Hq. rewrite Hf, Hc, Hp in Hq. cbn in Hq. injection Hq as E.
    apply (f_equal (length ∘ mx_out)) in E. cbn in E. rewrite length_app in E. simpl in E. lia. }
  exists (set_mux i m1 w), d1. unfold d1. rewrite !sender_relink, receiver_relink. cbn [fst snd].
  split_and!; [|done| | | |done].
  - unfold SendStream_write_frame. rewrite He. apply write_all_mux; [done|]. by rewrite Hw.
  - fold d1. unfold sending, healthy. unfold d1. rewrite sender_relink, receiver_relink. cbn [fst snd]. fold d1.
    split_and!; try done; [by eapply rtc_r| |by cbn; rewrite lookup_insert_eq].
    destruct (reachable_open_queue d to_server Hd Hc) as [fs Eo]. fold x in Eo.
    exists (fs ++ [(data_header id frame, frame)]). left. cbn. rewrite Eo, Hid. unfold as_out. by rewrite map_app.
  - cbn. by rewrite decide_True.
  - cbn. by rewrite add_at_here.
Qed.

Lemma send_all (vs : list T) to_server id s d i w :
  sending to_server id s d -> nt_mux w i = sd_mux (sender to_server d) ->
  Forall (fun v => exists n frame, encode_frame v [] = (Ok n, frame)) vs ->
  exists w1 d1 bs, encode_all vs = Some bs /\
    write_frames vs (SendStream_TcpMux i s) w = Some (Ok tt, SendStream_TcpMux i s, w1) /\
    rtc duplex_step d d1 /\ sending to_server id s d1 /\ nt_mux w1 i = sd_mux (sender to_server d1) /\
    sd_put (sender to_server d1) id = sd_put (sender to_server d) id ++ bs /\
    receiver to_server d1 = receiver to_server d.
Proof.
  intros Hsd Hw Hvs. revert d w Hsd Hw. induction Hvs as [|v vs (n & frame & He) Hvs IH]; intros d w Hsd Hw.
  { exists w, d, []. split_and!; try done. by rewrite app_nil_r. }
  destruct (send_one v n frame _ _ _ _ _ _ Hsd He Hw) as (w1 & d1 & Hf1 & Hst & Hsd1 & Hw1 & Hp1 & Hr1).
  destruct (IH d1 w1 Hsd1 Hw1) as (w2 & d2 & bs & Hb & Hf2 & Hrun & Hsd2 & Hw2 & Hp2 & Hr2).
  exists w2, d2, (frame ++ bs). cbn [encode_all write_frames]. rewrite He, Hb, Hf1. cbn.
  split_and!; try done; [by eapply rtc_l| |congruence]. by rewrite Hp2, Hp1, <-app_assoc.
Qed.

(** C19: Control messages survive the multiplexer.  On a connection whose two tasks run,
    [write_frame] succeeds for each of a run of messages and leaves the mux as the steps of
    the sending side do.  From then on, in every state the two sides can reach without more
    being written to the stream, [read_frame], called again and again on a receive half that
    holds what has been delivered since, returns the leading messages in order, then fails
    where they are cut off, and returns nothing else; once all bytes are delivered it
    returns every message and nothing is left.  The tasks and the reader can bring the
    connection there. *)
Theorem messages_over_mux {R : Type} `{RecvStreamLaws R Z Z} (vs : list T) (d : Duplex) (to_server : bool) (id : Z)
    (s : TcpMuxSendStream) (i : MuxId) (w : Net)
    (Hd : sending to_server id s d) (Hr : is_Some (sd_recvs (receiver to_server d) !! id))
    (Hw : nt_mux w i = sd_mux (sender to_server d))
    (Hvs : Forall (fun v => exists n frame, encode_frame v [] = (Ok n, frame)) vs) :
  exists w1 d1 bs,
    write_frames vs (SendStream_TcpMux i s) w = Some (Ok tt, SendStream_TcpMux i s, w1) /\
    rtc duplex_step d d1 /\ sd_mux (sender to_server d1) = nt_mux w1 i /\
    sd_put (sender to_server d1) id = sd_put (sender to_server d) id ++ bs /\
    (forall d2 (r : R), rtc duplex_step d1 d2 ->
       sd_put (sender to_server d2) id = sd_put (sender to_server d1) id ->
       sd_got (receiver to_server d2) id = sd_put (sender to_server d) id ++ rs_pending r ->
       exists seen more r', vs = seen ++ more /\ reads r seen r' /\
         (more <> [] -> exists e r2, read_frame (T := T) r' = (Err e, r2)) /\
         (sd_got (receiver to_server d2) id = sd_put (sender to_server d2) id -> more = [] /\ rs_pending r' = [])) /\
    exists d2, rtc duplex_step d1 d2 /\ sd_put (sender to_server d2) id = sd_put (sender to_server d1) id /\
      sd_got (receiver to_server d2) id = sd_put (sender to_server d2) id.
Proof.
  destruct (send_all vs to_server id s d i w Hd Hw Hvs) as (w1 & d1 & bs & Hb & Hf & Hrun & Hsd & Hw1 & Hput & Hrc).
  destruct Hsd as (Hd1 & Hh1 & _ & Hs1 & Hp1 & _). exists w1, d1, bs. split_and!; [done..| |].
  - intros d2 r Hrun2 Hsame Hgot.
    pose proof (got_prefix d2 to_server id ltac:(unfold reachable in *; by etrans)) as Hpre.
    rewrite Hgot, Hsame, Hput in Hpre. apply prefix_app_inv in Hpre.
    destruct (reads_prefix vs bs r Hb Hpre) as (seen & more & r' & ? & ? & ? & Hall).
    exists seen, more, r'. split_and!; try done. rewrite Hgot, Hsame, Hput. intros E%app_inv_head. by apply Hall.
  - destruct (healthy_delivers to_server d1 id s) as (x' & p' & y' & r & Hl & Hd' & Hg & _); try done; [by rewrite Hrc|].
    pose proof (pump_put _ _ Hl) as Hpp. cbn [fst link_of] in Hpp.
    exists (relink to_server (x', p', y') d1). rewrite sender_relink, receiver_relink. cbn [fst snd].
    rewrite Hpp. split_and!; try done. by apply pump_steps.
Qed.

(** The sending side after a last message: the frame, its end and the close are queued. *)
Definition said_farewell (id : Z) (frame : bytes) (s : TcpMuxSendStream) (x : Side) : Side :=
  let m1 := with_out (mx_out (sd_mux x) ++ [data_frame id frame]) (sd_mux x) in
  let x1 := set_send id s frame (on_mux m1 x) in
  let s2 := {| ss_stream_id := id; ss_pending_open := None; ss_finished := true |} in
  let x2 := set_send id s2 [] (on_mux (with_out (mx_out m1 ++ [fin_frame id]) m1) x1) in
  on_mux (close (sd_mux x2)) x2.

Lemma farewell_side (v : T) n frame to_server d id s (x := sender to_server d) :
  reachable d -> mx_writer_alive (sd_mux x) = true -> mx_closed (sd_mux x) = false ->
  sd_sends x !! id = Some s -> ss_pending_open s = None -> ss_finished s = false ->
  encode_frame v [] = (Ok n, frame) ->
  rtc duplex_step d (relink to_server (said_farewell id frame s x, pipe_to to_server d, receiver to_server d) d).
Proof.
  intros Hd Ha Hc Hs Hp Hf He. assert (Hid : ss_stream_id s = id).
  { destruct (reachable_link d to_server Hd) as (((Hsend & _) & _) & _). by destruct (Hsend _ _ Hs) as (_ & ? & _). }
  destruct (write_frame_queued v n frame s (sd_mux x) He Hf Hp Hc Ha) as [Hl Hw]. rewrite Hid in Hw.
  set (p := pipe_to to_server d). set (y := receiver to_server d).
  eapply rtc_l; [apply (sender_moves to_server d x p y); [apply relink_self|intros q; by eapply step_write]|].
  eapply rtc_l; [eapply sender_moves; [symmetry; apply relink_relink|]|].
  { intros q. eapply step_finish; [cbn; by rewrite lookup_insert_eq|]. unfold finish, send_out. cbn.
    rewrite Hf, Hp. cbn. by rewrite Ha, Hid. }
  eapply rtc_l; [eapply sender_moves; [symmetry; apply relink_relink|intros q; by apply step_close]|].
  rewrite !relink_relink. unfold said_farewell.
  assert (padding s = []) as -> by (unfold padding; by rewrite Hp).
  cbn [consumed]. rewrite firstn_all. apply rtc_refl.
Qed.

Lemma farewell_healthy frame to_server d id s (x := sender to_server d) :
  reachable d -> healthy to_server d -> mx_closed (sd_mux x) = false ->
  healthy to_server (relink to_server (said_farewell id frame s x, pipe_to to_server d, receiver to_server d) d).
Proof.
  intros Hd (Ha & _ & Hr & Hsl) Hc. destruct (reachable_open_queue d to_server Hd Hc) as [fs Eo].
  fold x in Ha, Eo. unfold healthy.
  assert (Hx : forall l, sender to_server (relink to_server l d) = l.1.1) by (intros [[??]?]; by destruct to_server).
  assert (Hy : forall l, receiver to_server (relink to_server l d) = l.2) by (intros [[??]?]; by destruct to_server).
  rewrite Hx, Hy. cbn [fst snd]. unfold said_farewell, close. cbn. rewrite Hc. unfold send_out. cbn. rewrite Ha.
  split_and!; try done. exists (fs ++ [(data_header id frame, frame); (fin_header id, [])]). right.
  cbn. rewrite Eo. unfold as_out. by rewrite map_app, <-!app_assoc.
Qed.

(** What [session_shutdown] leaves in the mux. *)
Lemma farewell_mux (v : T) n frame id s i w x :
  nt_mux w i = sd_mux x -> ss_stream_id s = id -> encode_frame v [] = (Ok n, frame) ->
  ss_pending_open s = None -> ss_finished s = false -> mx_closed (sd_mux x) = false ->
  mx_writer_alive (sd_mux x) = true ->
  exists s' w', session_shutdown (Connection_TcpMux i) v (SendStream_TcpMux i s) w = Some (s', w') /\
    nt_mux w' i = sd_mux (said_farewell id frame s x) /\ mx_closed (nt_mux w' i) = true.
Proof.
  intros Hw Hid He Hp Hf Hc Ha.
  destruct (write_frame_queued v n frame s (sd_mux x) He Hf Hp Hc Ha) as [_ Hq]. rewrite Hid in Hq.
  assert (Hne : frame <> []).
  { intros ->. unfold poll_write, write_rest in Hq. rewrite Hf, Hc, Hp in Hq. cbn in Hq. injection Hq as E.
    apply (f_equal (length ∘ mx_out)) in E. cbn in E. rewrite length_app in E. simpl in E. lia. }
  unfold session_shutdown. rewrite He. rewrite <-Hw in Hq. rewrite (write_all_mux _ _ _ _ _ Hne Hq). cbn -[close decide].
  rewrite decide_True by done. unfold finish. rewrite Hf, Hp. cbn -[close decide].
  unfold send_out. cbn -[close decide]. rewrite Hw, Ha. cbn -[close decide]. rewrite Hid.
  eexists _, _. split; [done|]. cbn -[close decide]. rewrite !decide_True by done. split; [done|].
  unfold close, send_out. cbn. rewrite Hc. cbn. by rewrite Ha.
Qed.

(** C20: The last message arrives.  On a multiplexed connection that still sends, writing a
    message, finishing the stream and closing the connection right after, without waiting
    for the peer, does not cut the message off: what was written before, the frame of the
    message and the end of the stream can all still reach the peer. *)
Theorem farewell_arrives (v : T) (n : Z) (frame : bytes) (d : Duplex) (to_server : bool) (id : Z)
    (s : TcpMuxSendStream) (i : MuxId) (w : Net) (Hd : reachable d) (Hh : healthy to_server d)
    (Hc : mx_closed (sd_mux (sender to_server d)) = false)
    (Hs : sd_sends (sender to_server d) !! id = Some s)
    (Hp : ss_pending_open s = None) (Hf : ss_finished s = false)
    (Hr : is_Some (sd_recvs (receiver to_server d) !! id))
    (He : encode_frame v [] = (Ok n, frame)) (Hw : nt_mux w i = sd_mux (sender to_server d)) :
  exists s' w' d1, session_shutdown (Connection_TcpMux i) v (SendStream_TcpMux i s) w = Some (s', w') /\
    rtc duplex_step d d1 /\ sd_mux (sender to_server d1) = nt_mux w' i /\ mx_closed (nt_mux w' i) = true /\
    exists x' p' y' r, rtc pump (link_of to_server d1) (x', p', y') /\
      sd_got y' id = sd_put (sender to_server d) id ++ frame /\
      sd_recvs y' !! id = Some r /\ rv_eof r = true.
Proof.
  set (x := sender to_server d) in *. pose proof Hh as (Ha & _). fold x in Ha.
  assert (Hid : ss_stream_id s = id).
  { destruct (reachable_link d to_server Hd) as (((Hsend & _) & _) & _). by destruct (Hsend _ _ Hs) as (_ & ? & _). }
  pose proof (farewell_side v n frame to_server d id s Hd Ha Hc Hs Hp Hf He) as Hrun. fold x in Hrun.
  pose proof (farewell_healthy frame to_server d id s Hd Hh Hc) as Hh1. fold x in Hh1.
  destruct (write_frame_queued v n frame s (sd_mux x) He Hf Hp Hc Ha) as [Hl Hq]. rewrite Hid in Hq.
  set (d1 := relink to_server _ d) in *.
  assert (Hx1 : sender to_server d1 = said_farewell id frame s x) by (unfold d1; by destruct to_server).
  assert (Hy1 : receiver to_server d1 = receiver to_server d) by (unfold d1; by destruct to_server).
  assert (Hd1 : reachable d1) by (unfold reachable in *; by etrans).
  destruct (farewell_mux v n frame id s i w x) as (s' & w' & Hfw & Hm & Hcl); [congruence..|].
  exists s', w', d1. rewrite Hx1. split_and!; try done.
  destruct (healthy_delivers to_server d1 id {| ss_stream_id := id; ss_pending_open := None; ss_finished := true |}
    Hd1 Hh1) as (x' & p' & y' & r & Hrun' & _ & Hg & Hr' & Heof).
  - rewrite Hx1. cbn. by rewrite lookup_insert_eq.
  - done.
  - by rewrite Hy1.
  - exists x', p', y', r. split_and!; try done; [|by apply Heof].
    rewrite Hg, Hx1. cbn. by rewrite add_at_nil, add_at_here.
Qed.
End Frames.

(** ** Witnesses *)

(** [postcard]'s encoding of a [bool]; a QUIC library that only knows one of everything. *)
#[local] Instance postcard_flag : Postcard bool Z := {|
  to_stdvec (b : bool) := Ok (if b then [1] else [0]);
  from_bytes (bs : bytes) := match bs with [0] => Ok false | [1] => Ok true | _ => Err 0 end;
|}.

#[local] Instance postcard_flag_laws : PostcardLaws bool Z.
Proof.
  split.
  - intros [] bs [= <-]; solve_bytes.
  - by intros [] bs [= <-].
Qed.

#[local] Instance quinn_unit : Quinn := {|
  QWorld := unit; QConn := unit; QSend := unit; QRecv := unit; QIncoming := unit;
  q_open_bi _ _ := None; q_accept_bi _ _ := None; q_closed _ _ := None; q_close _ _ _ w := w;
  q_finish s w := (Ok tt, s, w); q_stopped _ _ := None; q_poll_write _ _ _ := None;
  q_poll_flush _ _ := None; q_poll_shutdown _ _ := None; q_read_exact _ _ _ := None;
  q_read _ _ _ := None; q_poll_read _ _ _ := None; q_handshake _ _ := None;
|}.

(** The client has sent two messages on the control stream; one of their four bytes is read. *)
Definition talking_moves : list (bool * Move) :=
  [(false, MOpenBi); (true, MAcceptBi); (false, MWrite 0 [1; 1]); (false, MWrite 0 [1; 0]); (false, MWriter);
   (true, MReader); (true, MReader); (true, MReader); (true, MRead 0 1)].
Definition talking : Duplex := default duplex_new (duplex_run talking_moves duplex_new).
Definition talking_send : TcpMuxSendStream := {| ss_stream_id := 0; ss_pending_open := None; ss_finished := false |}.

Lemma talking_healthy : healthy true talking.
Proof.
  split_and!; [vm_compute; reflexivity| |vm_compute; congruence|vm_compute; reflexivity].
  exists [(data_header 0 [1; 0], [1; 0])]. left. vm_compute. reflexivity.
Qed.

#[local] Instance toy_half : RecvStream bytes Z Z := {|
  read_exact n s := if bool_decide (n <= length s)%nat then (Ok (take n s), drop n s) else (Err TE_UnexpectedEof, s);
  rs_pending s := s;
|}.

#[local] Instance toy_half_laws : RecvStreamLaws bytes Z Z.
Proof.
  split; intros n s Hn; cbn.
  - rewrite bool_decide_eq_true_2 by done. by eexists.
  - rewrite bool_decide_eq_false_2 by (cbn in Hn; lia). by eexists _, _.
Qed.

Definition talking_net : @Net quinn_unit :=
  {| nt_quic := tt; nt_mux := fun _ => sd_mux (sender true talking) |}.

(** Two more messages after the two that are under way: they arrive behind the earlier
    bytes and are read as the two. *)
Lemma messages_over_mux_witness :
  exists w1, write_frames [false; true] (SendStream_TcpMux 0%nat talking_send)
      talking_net =
    Some (Ok tt, SendStream_TcpMux 0%nat talking_send, w1) /\
  exists d2 bs r', rtc duplex_step talking d2 /\
    sd_got (receiver true d2) 0 = [1; 1; 1; 0] ++ bs /\ reads bs [false; true] r' /\ rs_pending r' = [].
Proof.
  destruct (messages_over_mux (R := bytes) [false; true] talking true 0 talking_send 0%nat
              talking_net)
    as (w1 & d1 & bs & Hw & Hd1 & Hm & Hbs & Hreads & d2 & Hd2 & Hput & Hgot).
  - split; [exact (run_reachable talking_moves)|].
    split; [exact talking_healthy|split_and!; vm_compute; reflexivity].
  - vm_compute. by eexists.
  - reflexivity.
  - repeat constructor; by eexists _, _.
  - assert (Hp : sd_put (sender true talking) 0 = [1; 1; 1; 0]) by (vm_compute; reflexivity).
    rewrite Hp in *. assert (Hg : sd_got (receiver true d2) 0 = [1; 1; 1; 0] ++ bs) by congruence.
    destruct (Hreads d2 bs Hd2 Hput Hg) as (seen & more & r' & E & Hr & _ & Hall).
    destruct (Hall Hgot) as [-> Hnil]. rewrite app_nil_r in E. subst seen.
    exists w1. split; [exact Hw|]. exists d2, bs, r'. split_and!; [by etrans|exact Hg|exact Hr|exact Hnil].
Defined.

Lemma farewell_arrives_witness :
  exists s' w' d1, session_shutdown (Connection_TcpMux 0%nat) true (SendStream_TcpMux 0%nat talking_send)
      {| nt_quic := tt; nt_mux := fun _ => sd_mux (sender true talking) |} = Some (s', w') /\
    rtc duplex_step talking d1 /\ sd_mux (sender true d1) = nt_mux w' 0%nat /\ mx_closed (nt_mux w' 0%nat) = true /\
    exists x' p' y' r, rtc pump (link_of true d1) (x', p', y') /\
      sd_got y' 0 = sd_put (sender true talking) 0 ++ [1; 1] /\
      sd_recvs y' !! 0 = Some r /\ rv_eof r = true.
Proof.
  refine (farewell_arrives true 2 [1; 1] talking true 0 talking_send 0%nat
            {| nt_quic := tt; nt_mux := fun _ => sd_mux (sender true talking) |} (run_reachable talking_moves)
            talking_healthy _ _ eq_refl eq_refl _ _ eq_refl).
  - vm_compute. reflexivity.
  - vm_compute. reflexivity.
  - vm_compute. by eexists.
  - vm_compute. reflexivity.
Defined.

(** A relay that copies everything at once. *)
Definition toy_copy (a b : End) : Relay :=
  (Ok (len (en_in a), len (en_in b)), {| en_in := []; en_out := en_out a ++ en_in b |},
   {| en_in := []; en_out := en_out b ++ en_in a |}).

Lemma toy_copy_laws : CopyLaws toy_copy.
Proof. split. intros a b x y a' b' [= <- <- <- <-]. by split_and!. Qed.

Lemma deadline_relay_witness :
  match (Ok (3, 1) : Result (Z * Z) Z) with
  | Ok (x, y) => x = 3 /\ y = 1 /\
      {| en_in := []; en_out := [9] |} = {| en_in := []; en_out := [] ++ [9] |} /\
      {| en_in := []; en_out := [1; 2; 3] |} = {| en_in := []; en_out := [] ++ [1; 2; 3] |}
  | Err _ => FirstRead SideA 2 = FirstElapsed -> False
  end.
Proof.
  exact (deadline_relay toy_copy (H := toy_copy_laws) (FirstRead SideA 2) None
    {| en_in := [1; 2; 3]; en_out := [] |} {| en_in := [9]; en_out := [] |} (Ok (3, 1))
    {| en_in := []; en_out := [9] |} {| en_in := []; en_out := [1; 2; 3] |}
    ltac:(vm_compute; split; lia) ltac:(vm_compute; split; congruence) ltac:(vm_compute; split; congruence)
    ltac:(vm_compute; reflexivity)).
Defined.
