(* ===== verification/Endpoint.v ===== *)
(** * Endpoint: how the two transports are set up

    [krot-transport/src/endpoint.rs] (the QUIC endpoint) and the set-up half of
    [tcp_listener.rs] (the [krot-tcp/1] listener and its client): which protocols each side
    offers, the transport parameters, and every way a set-up or a dial fails.  What
    [quinn], [rustls] and the operating system answer is an input; how [rustls] selects a
    protocol is the class [AlpnSelect]. *)

From S2P Require Import Prelude RustStr Wire Framing TcpMux MuxInv MuxLink MuxLive Conn.

Local Open Scope Z_scope.

(** ** Transport parameters *)

Definition STREAM_RECEIVE_WINDOW : Z := 256 * 1024.
Definition RECEIVE_WINDOW : Z := 4 * 1024 * 1024.
Definition SEND_WINDOW : Z := 4 * 1024 * 1024.
Definition MAX_CONCURRENT_BIDI : Z := 1024.
Definition MAX_CONCURRENT_UNI : Z := 0.

(** The parameters of [quinn::TransportConfig] that are set; durations in nanoseconds, the
    idle timeout in milliseconds. *)
Record TransportConfig := {
  tp_stream_receive_window : Z;
  tp_receive_window : Z;
  tp_send_window : Z;
  tp_max_concurrent_bidi : Z;
  tp_max_concurrent_uni : Z;
  tp_keep_alive_interval : option Z;
  tp_max_idle_timeout : option Z;
}.

(** [IdleTimeout::try_from]: the milliseconds must fit a QUIC variable-length integer. *)
Definition idle_timeout (d : Z) : option Z :=
  let ms := wrap 64 (d / 1000000) in if ms <? 2 ^ 62 then Some ms else None.

(** [apply_common]; [None] is the panic of [expect]. *)
Definition apply_common (cfg : TransportConfig) : option TransportConfig :=
  idle ← idle_timeout MAX_IDLE_TIMEOUT;
  Some {| tp_stream_receive_window := STREAM_RECEIVE_WINDOW; tp_receive_window := RECEIVE_WINDOW;
          tp_send_window := SEND_WINDOW; tp_max_concurrent_bidi := MAX_CONCURRENT_BIDI;
          tp_max_concurrent_uni := MAX_CONCURRENT_UNI; tp_keep_alive_interval := Some KEEP_ALIVE_INTERVAL;
          tp_max_idle_timeout := Some idle |}.

Section Endpoint.
(** [TransportConfig::default()], and what the libraries and the system answer. *)
Context (transport_default : TransportConfig).
Context {Addr : Type}.

Definition server_transport_config : option TransportConfig := apply_common transport_default.
Definition client_transport_config : option TransportConfig := apply_common transport_default.

Record KrotEndpoint := {
  ke_addr : Addr;
  ke_alpn : list bytes;
  ke_transport : TransportConfig;
}.

(** [crypto]: [QuicServerConfig::try_from]; [bind]: opening the UDP socket.  [None] is a
    panic. *)
Definition build_endpoint (transport : option TransportConfig) (alpn : list bytes) (crypto : option Z)
    (bind : Result Addr Z) : option (Result KrotEndpoint MuxError) :=
  match crypto with
  | Some e => Some (Err (TE_QuicCrypto e))
  | None =>
    t ← transport;
    Some (match bind with
          | Err e => Err (TE_Io e)
          | Ok a => Ok {| ke_addr := a; ke_alpn := alpn; ke_transport := t |}
          end)
  end.

Definition server_with_alpn (alpn : list bytes) (crypto : option Z) (bind : Result Addr Z) :
    option (Result KrotEndpoint MuxError) :=
  build_endpoint server_transport_config alpn crypto bind.
Definition server (crypto : option Z) (bind : Result Addr Z) : option (Result KrotEndpoint MuxError) :=
  server_with_alpn SUPPORTED_SERVER_ALPN crypto bind.

(** Over a socket the caller has bound. *)
Definition server_on_socket (crypto : option Z) (adopt : Result Addr Z) : option (Result KrotEndpoint MuxError) :=
  build_endpoint server_transport_config SUPPORTED_SERVER_ALPN crypto adopt.

Definition client_with_alpn (alpn : list bytes) (crypto : option Z) (bind : Result Addr Z) :
    option (Result KrotEndpoint MuxError) :=
  build_endpoint client_transport_config alpn crypto bind.
Definition client (crypto : option Z) (bind : Result Addr Z) : option (Result KrotEndpoint MuxError) :=
  client_with_alpn SUPPORTED_CLIENT_ALPN crypto bind.

Section Connect.
Context `{Quinn}.

(** [accept]: the next attempt, until the endpoint is closed. *)
Definition KrotEndpoint_accept (next : option QIncoming) : option Incoming := Incoming_Quic <$> next.

(** [connect]: starting the attempt can fail at once, and its handshake later. *)
Definition KrotEndpoint_connect (start : option Z) (handshake : Result QConn Z) : Result Connection MuxError :=
  match start with
  | Some e => Err (TE_Connect e)
  | None =>
    match handshake with
    | Err e => Err (TE_Connection e)
    | Ok c => Ok (Connection_Quic c)
    end
  end.

(** ** The fallback *)

(** [TcpFallbackListener::bind]: the protocols its TLS offers. *)
Definition TcpFallbackListener_bind (bind : Result Addr Z) : Result (Addr * list bytes) MuxError :=
  match bind with
  | Err e => Err (TE_Io e)
  | Ok a => Ok (a, [ALPN_TCP])
  end.

(** [connect_tcp_fallback]: the TCP connection, the name, the TLS handshake with the protocol
    it selected; the new client mux is [m]. *)
Definition FALLBACK_OFFER : list bytes := [ALPN_TCP].

Definition connect_tcp_fallback (tcp : option Z) (sni_valid : bool) (tls : Result (option bytes) Z)
    (m : MuxId) (w : Net) : Result Connection MuxError * Net :=
  match tcp with
  | Some e => (Err (TE_Io e), w)
  | None =>
    if negb sni_valid then (Err TE_UnexpectedEof, w)
    else match tls with
    | Err e => (Err (TE_Io e), w)
    | Ok selected =>
      if bool_decide (selected = Some ALPN_TCP)
      then (Ok (Connection_TcpMux m), set_mux m (mux_new false) w)
      else (Err TE_UnexpectedEof, w)
    end
  end.
End Connect.
End Endpoint.
Arguments KrotEndpoint : clear implicits.

(** ** Protocols *)

(** What [rustls] does with the server's list and the client's: its documentation has it
    select the first entry of the server's that the client offers, or fail. *)
Class AlpnSelect := { alpn_select : list bytes -> list bytes -> option bytes }.
Class AlpnSelectLaws `{AlpnSelect} : Prop := {
  alpn_first : forall server client p, alpn_select server client = Some p <->
    exists before after, server = before ++ p :: after /\ p ∈ client /\ Forall (fun q => q ∉ client) before;
}.

Section Protocols.
Context (transport_default : TransportConfig) {Addr : Type} `{AlpnSelectLaws}.

Lemma build_endpoint_Ok alpn crypto (bind : Result Addr Z) e :
  build_endpoint (apply_common transport_default) alpn crypto bind = Some (Ok e) ->
  ke_alpn e = alpn /\ Some (ke_transport e) = apply_common transport_default.
Proof. unfold build_endpoint. destruct crypto, bind; try done. cbn. by intros [= <-]. Qed.

(** Client and server of one build understand each other, on the transport they meet on.
    Whatever the system and the TLS library answer, setting up an endpoint never panics; a
    client and a server endpoint agree on [krot/1], and both are kept alive at least twice
    within the idle timeout; a client on the fallback and the listener agree on
    [krot-tcp/1] and nothing else, so a client that does not offer it is refused. *)
Theorem transports_agree (cs cc : option Z) (bs bc : Result Addr Z) (bl : Result Addr Z) :
  (exists rs rc, server transport_default cs bs = Some rs /\ client transport_default cc bc = Some rc /\
     forall s c, rs = Ok s -> rc = Ok c ->
       alpn_select (ke_alpn s) (ke_alpn c) = Some ALPN /\
       forall e, e = s \/ e = c ->
         exists keep idle, tp_keep_alive_interval (ke_transport e) = Some keep /\
           tp_max_idle_timeout (ke_transport e) = Some idle /\ 2 * keep < idle * 1000000) /\
  forall a offered, TcpFallbackListener_bind bl = Ok (a, offered) ->
    alpn_select offered FALLBACK_OFFER = Some ALPN_TCP /\
    forall client p, alpn_select offered client = Some p -> p = ALPN_TCP /\ ALPN_TCP ∈ client.
Proof.
  split.
  - assert (Hsome : forall alpn crypto (bind : Result Addr Z),
      exists r, build_endpoint (apply_common transport_default) alpn crypto bind = Some r).
    { intros alpn [e|] bind; cbn; by eexists. }
    destruct (Hsome SUPPORTED_SERVER_ALPN cs bs) as [rs Hs], (Hsome SUPPORTED_CLIENT_ALPN cc bc) as [rc Hc].
    exists rs, rc. split; [exact Hs|]. split; [exact Hc|]. intros s c -> ->.
    apply build_endpoint_Ok in Hs as [-> Ts], Hc as [-> Tc]. split.
    + apply alpn_first. exists [], [ALPN_TCP]. split_and!; [done|apply list_elem_of_here|done].
    + intros e He. assert (Some (ke_transport e) = apply_common transport_default) as T by (by destruct He as [-> | ->]).
      cbn in T. injection T as ->. eexists _, _. split_and!; [done|done|]. vm_compute. reflexivity.
  - intros a offered Hb. unfold TcpFallbackListener_bind in Hb. destruct bl; [|done]. injection Hb as _ <-.
    split.
    + apply alpn_first. exists [], []. split_and!; [done|apply list_elem_of_here|done].
    + intros cl p (before & after & E & Hp & _)%alpn_first. destruct before as [|b before]; [|by destruct before].
      injection E as <- _. done.
Qed.

(** A dial that succeeds negotiated [krot-tcp/1], and starts as a fresh client. *)
Lemma fallback_dialled `{Quinn} tcp sni tls m w c w' :
  connect_tcp_fallback tcp sni tls m w = (Ok c, w') ->
  tls = Ok (Some ALPN_TCP) /\ c = Connection_TcpMux m /\ nt_mux w' m = mux_new false.
Proof.
  unfold connect_tcp_fallback. destruct tcp; [done|]. destruct sni; [|done]. destruct tls as [sel|]; [|done].
  cbn [negb]. case_bool_decide as E; [|done]. intros [= <- <-]. subst. split_and!; try done. cbn. by rewrite decide_True.
Qed.
End Protocols.

(** The selection as the documentation has it. *)
#[local] Instance first_common : AlpnSelect := {|
  alpn_select server client := List.find (fun p => bool_decide (p ∈ client)) server
|}.

Lemma first_common_laws : AlpnSelectLaws.
Proof.
  split. intros sv cl p. cbn. induction sv as [|q sv IH]; cbn.
  - split; [done|]. intros (before & after & E & _). by destruct before.
  - case_bool_decide as Hq.
    + split.
      * intros [= ->]. by exists [], sv.
      * intros (before & after & E & Hp & Hb). destruct before as [|b before]; injection E as -> E; [done|].
        apply Forall_cons_1 in Hb as [Hb _]. done.
    + rewrite IH. split.
      * intros (before & after & -> & Hp & Hb). exists (q :: before), after. auto.
      * intros (before & after & E & Hp & Hb). destruct before as [|b before]; injection E as -> E; [done|].
        apply Forall_cons_1 in Hb as [_ Hb]. by exists before, after.
Qed.

Definition nothing_set : TransportConfig :=
  {| tp_stream_receive_window := 1; tp_receive_window := 1; tp_send_window := 1; tp_max_concurrent_bidi := 100;
     tp_max_concurrent_uni := 100; tp_keep_alive_interval := None; tp_max_idle_timeout := Some 30000 |}.

Lemma transports_agree_witness :
  exists s c, server nothing_set None (Ok 4433) = Some (Ok s) /\ client nothing_set None (Ok 50000) = Some (Ok c) /\
    alpn_select (ke_alpn s) (ke_alpn c) = Some ALPN /\
    alpn_select [ALPN_TCP] FALLBACK_OFFER = Some ALPN_TCP.
Proof.
  destruct (@transports_agree nothing_set Z first_common first_common_laws None None (Ok 4433) (Ok 50000) (Ok 443))
    as [(rs & rc & Hs & Hc & Ha) Hf].
  vm_compute in Hs, Hc. injection Hs as <-. injection Hc as <-.
  eexists _, _. split; [vm_compute; reflexivity|]. split; [vm_compute; reflexivity|].
  split; [exact (proj1 (Ha _ _ eq_refl eq_refl))|exact (proj1 (Hf _ _ eq_refl))].
Defined.
